(* ===== verification/_CoqProject ===== *)
-Q . S2P
Prelude.v
Effects.v
Contracts.v
Capability.v
Blueprint.v
Authority.v
AuthorityLaws.v
Model.v
Workspace.v
Persistence.v
Dispatch.v
Managed.v
PeerProtocol.v
Storage.v
ManagedStore.v
PeerStore.v
PeerIntegrity.v
Domains.v
TaskStore.v
Workflow.v
Admission.v
Runtime.v
Commands.v
Scheduling.v
Execution.v
Evolution.v
RuntimeLaws.v
ExecutionLaws.v
SchedulingLaws.v
CommandLaws.v
Samples.v
Concurrency.v
System.v
SystemLaws.v
TaskLaws.v
StorageLaws.v
Transactions.v
PeerState.v
PeerLaws.v
PeerSteps.v
PeerIntake.v
PeerCalls.v
PeerAudit.v
PeerVerify.v
Serving.v
ServingLaws.v
ServingRecovery.v
NativePaths.v
ManagedLaws.v
TaskStoreLaws.v
Reachability.v
ServingSystem.v
StorageSamples.v
PeerSamples.v
ServingSamples.v
