(* ===== verification/Prelude.v ===== *)
(** * A verification of Milkdrift

    Milkdrift runs workflows of tasks on capabilities (models, processes, managed
    services, peers) under explicit authority, and keeps what it did in a local store.
    This library models the parts that decide what may happen and what is remembered,
    as executable functions translated from the Rust sources, and proves what they
    guarantee across failures, interleavings and restarts. Source paths are relative to
    [src/].

    ** The program and its parts

    A workflow is a set of task definitions ([crates/blueprint]) a client edits by
    batches. The runtime ([crates/runtime]) admits the edits, freezes ready tasks
    against resolved capabilities ([crates/capability]) and the grants that authorize
    them ([crates/authority]), enters each frozen start once through the executor host,
    records reports and settles tasks. Model tasks carry provider-neutral requests
    ([crates/model]); outputs are values and artifacts of scoped workspaces
    ([crates/workspace]). Every fact the runtime relies on is a commit through the
    storage port of [crates/persistence], which [adapters/redb-store] implements over an
    embedded transactional database; the same adapter keeps managed installations,
    claims on native directories and the executions an installation serves for clients
    and peers ([crates/peer-protocol]).

    ** Files

    Foundations.
    - [Prelude]: results, checked machine arithmetic, ordered iteration of maps, shared
      lemmas and tactics. [Effects]: the state and error monad of methods on shared
      state, threads of critical sections, partial-correctness triples.

    Portable contracts, one file per crate.
    - [Contracts] ([crates/contracts]): JSON limits, canonical order, bounded text.
    - [Capability], [Blueprint], [Authority], [Model], [Workspace], [Persistence]: the
      crates of those names. [AuthorityLaws] holds the theorems about decisions.
    - [Dispatch] ([crates/runtime/src/executor.rs], [error.rs]): the executor boundary.
    - [Managed] ([crates/capability/src/managed.rs],
      [crates/authority/src/protected_effect.rs], [crates/persistence/src/managed]).
    - [PeerProtocol] ([crates/peer-protocol]): peer documents and sessions.

    The storage adapter ([adapters/redb-store]).
    - [Storage]: tables, transactions, the document envelope, compound keys, the clock
      watermark and count anchors. [ManagedStore] ([src/managed]), [PeerStore] and
      [PeerIntegrity] ([src/peer]), [Domains] ([src/artifact]), [TaskStore]
      ([src/task.rs], [src/task]), [NativePaths] ([src/native_paths.rs]).

    The task runtime ([crates/runtime/src/tasks.rs] and [tasks/]).
    - [Workflow]: the record of a workflow and its pure transitions. [Admission],
      [Commands]: edits and model batches. [Scheduling]: ticks. [Execution]: entry,
      reports, settlement, recovery and cancellation. [Runtime]: the world these run in.
    - [System]: the daemon as a transition system of interleaved calls and restarts.

    Theorems.
    - [Evolution], [RuntimeLaws], [ExecutionLaws], [SchedulingLaws], [CommandLaws],
      [Concurrency], [SystemLaws], [TaskLaws]: the runtime.
    - [StorageLaws], [Transactions], [ManagedLaws], [TaskStoreLaws], [PeerState],
      [PeerLaws], [PeerSteps], [PeerIntake], [PeerCalls], [PeerAudit], [PeerVerify],
      [Reachability]: the storage adapter.
    - [Samples], [StorageSamples], [PeerSamples]: concrete instances of the parameters,
      evaluated scenarios, and the instances that show each hypothesis can hold.

    ** How the code is represented

    [Result] is [result], with [?] as bind; panics of checked arithmetic are errors
    because the sources use checked operations. Unsigned integers are [N] with their
    width written out where they are computed. A [BTreeMap] is a [gmap] iterated in key
    order, a struct a record, an enum an inductive type. A method on shared state is a
    function of the state monad that keeps the state when it fails. A method that
    releases the transition gate between critical sections is a [thread], so that other
    threads' sections run in between. Every call on the database may fail, and a commit
    may take effect and still report a failure.

    Code outside the repository is a parameter given by a class: the JSON reader and
    writer ([Serialize], [Stored], [DomainCodec], [TaskCodec], [PeerCodec] and the like),
    [blake3], the clock, the identity source, the executor host, the authority service
    and the database engine ([Engine]). What theorems rely on is a separate class of laws
    ([StoredLaw], [PeerCodecLaw], [DocumentRoundtrip]): a document read back is the one
    written. Collision freedom of hashes is never assumed. The runtime theorems are
    proved against [WorkflowStoreContract]; [TaskStoreLaws] discharges it for the redb
    adapter.

    ** What the theorems show

    - The running daemon: every stored record is well formed and only evolves, an
      external entry is committed with an allowing decision before the adapter runs and
      is never decided twice, commands replay exactly, settled tasks are final, and there
      is always room for a terminal report. Ticks, recovery and lineage walks are
      bounded and end.
    - Storage: the redb adapter implements the workflow port; over any sequence of calls,
      failed or not, task accounting stays exact, the managed inventory stays one valid
      inventory, claims of native directories stay disjoint, the clock watermark never
      decreases, and stored documents and keys read back exactly.
    - Serving: all tables of the peer store describe one set of executions; an accepted
      request keeps its one execution, an execution is never forgotten, entered at most
      once, and its history only grows; the integrity check accepts what the store keeps.
    - Decisions: authority evaluation allows exactly the authorized requests and always
      decides; revocation reaches pinned bases; requirement matching, task-set
      validation, resolved snapshots, tool histories, scope lineages and budgets mean
      what their callers rely on.
    - Three behaviours that differ from what the code intends are exhibited on concrete
      inputs: [dangling_lineage_blocks], [late_failure_drops_start] and
      [claimed_cancellation_drifts].

    ** Bounds and fuel

    Loops that the sources bound keep their bound: 200 starts per recovery, 4097 tries for
    a free task identity, the page limit of ticks and observation pages. The walk to a
    corrective root runs on the number of tasks, which [lineage_root_ends] shows to be
    enough; the loops of task-set validation run on the size of the set, which
    [validate_task_set_spec] shows to be enough. The runtime's scans of all workflows take
    the pages they may read as a parameter, [page_fuel]: the theorems hold for each value,
    and a scan that would need more pages ends like one whose store stopped answering.

    ** Not modelled

    - The readers and writers serde generates, hashing and the database engine: code
      outside the repository, parameters here.
    - Artifact files of the store and the artifact transfer of serving: they write and
      rename files, and what they promise is a property of the file system.
    - The daemon's command service ([crates/control], [crates/control-protocol]) and its
      client: HTTP routing and wire documents over operations that are modelled.
    - The adapters that run processes, services, secrets, model providers and peer
      transports: operating-system and network input and output.
    - The command line, the daemon's start-up and the web interface: composition and
      user interfaces.
    - Poisoned locks, which only a panic inside the daemon produces. *)
From stdpp Require Export base tactics option list gmap strings sorting numbers pretty.
From Stdlib Require Export Ascii.
From Stdlib Require String.

#[export] Set Warnings "-clear-no-such-hyp".

(** * Results and the error monad

    Rust's [Result<A, E>] with [?] as monadic bind, in stdpp's notation. *)

Inductive result (E A : Type) : Type :=
| Ok (a : A)
| Err (e : E).
Arguments Ok {E A} a.
Arguments Err {E A} e.

#[global] Instance result_eq_dec {E A} `{!EqDecision E, !EqDecision A} : EqDecision (result E A).
Proof. solve_decision. Defined.

#[global] Instance result_ret {E} : MRet (result E) := λ _ a, Ok a.
#[global] Instance result_bind {E} : MBind (result E) := λ _ _ f r,
  match r with Ok a => f a | Err e => Err e end.
#[global] Instance result_fmap {E} : FMap (result E) := λ _ _ f r,
  match r with Ok a => Ok (f a) | Err e => Err e end.

(** [.map_err(f)] *)
Definition map_err {E F A} (f : E → F) (r : result E A) : result F A :=
  match r with Ok a => Ok a | Err e => Err (f e) end.

(** [.ok_or_else(|| e)] *)
Definition ok_or {E A} (o : option A) (e : E) : result E A :=
  match o with Some a => Ok a | None => Err e end.

(** [.ok()] *)
Definition result_ok {E A} (r : result E A) : option A :=
  match r with Ok a => Some a | Err _ => None end.

Definition is_ok {E A} (r : result E A) : bool :=
  match r with Ok _ => true | Err _ => false end.

(** [is_some], [is_none_or] and [is_some_and] on options. *)
Definition is_some {A} (o : option A) : bool := match o with Some _ => true | None => false end.
Definition is_none_or {A} (f : A → bool) (o : option A) : bool :=
  match o with Some a => f a | None => true end.
Definition is_some_and {A} (f : A → bool) (o : option A) : bool :=
  match o with Some a => f a | None => false end.

(** [if c { return Err(e) }] *)
Definition refuse_if {E} (c : bool) (e : E) : result E () := if c then Err e else Ok tt.

(** [for x in xs { f(x)? }] *)
Fixpoint for_each {E A} (f : A → result E ()) (xs : list A) : result E () :=
  match xs with
  | [] => Ok tt
  | x :: xs => f x ;; for_each f xs
  end.

(** [for (i, x) in xs.iter().enumerate() { f(i, x)? }], counting from [i]. *)
Fixpoint for_enumerate {E A} (f : N → A → result E ()) (i : N) (xs : list A) : result E () :=
  match xs with
  | [] => Ok tt
  | x :: xs => f i x ;; for_enumerate f (i + 1)%N xs
  end.

(** [xs.try_fold(acc, f)], also a [for] loop over mutable locals [acc]. *)
Fixpoint try_fold {E A B} (f : B → A → result E B) (acc : B) (xs : list A) : result E B :=
  match xs with
  | [] => Ok acc
  | x :: xs => acc ← f acc x; try_fold f acc xs
  end.

(** [xs.map(f).collect::<Result<Vec<_>, _>>()] *)
Fixpoint try_map {E A B} (f : A → result E B) (xs : list A) : result E (list B) :=
  match xs with
  | [] => Ok []
  | x :: xs => y ← f x; ys ← try_map f xs; Ok (y :: ys)
  end.

Lemma forall_pair {A B} (P : A * B → Prop) : (∀ p, P p) ↔ ∀ a b, P (a, b).
Proof. split; [naive_solver|]. intros H []. apply H. Qed.

Lemma is_some_and_false {A} (f : A → bool) o :
  is_some_and f o = false ↔ ∀ a, o = Some a → f a = false.
Proof. destruct o; cbn; naive_solver. Qed.
Lemma is_none_or_true {A} (f : A → bool) o :
  is_none_or f o = true ↔ ∀ a, o = Some a → f a = true.
Proof. destruct o; cbn; naive_solver. Qed.
Lemma is_some_and_true {A} (f : A → bool) o :
  is_some_and f o = true ↔ ∃ a, o = Some a ∧ f a = true.
Proof. destruct o; cbn; naive_solver. Qed.

Section result_lemmas.
Context {E : Type}.

Lemma bind_Ok {A B} (r : result E A) (f : A → result E B) b :
  (r ≫= f) = Ok b ↔ ∃ a, r = Ok a ∧ f a = Ok b.
Proof. destruct r; cbn; naive_solver. Qed.

Lemma is_ok_true {A} (r : result E A) : is_ok r = true ↔ ∃ a, r = Ok a.
Proof. destruct r; cbn; naive_solver. Qed.

Lemma seq_Ok {B} (r : result E ()) (k : result E B) b :
  (r ;; k) = Ok b ↔ r = Ok tt ∧ k = Ok b.
Proof. destruct r as [[]|]; cbn; naive_solver. Qed.

Lemma bind_Err {A B} (r : result E A) (f : A → result E B) e :
  (r ≫= f) = Err e ↔ r = Err e ∨ ∃ a, r = Ok a ∧ f a = Err e.
Proof. destruct r; cbn; naive_solver. Qed.

Lemma refuse_if_Ok (c : bool) (e : E) u : refuse_if c e = Ok u ↔ c = false.
Proof. destruct c, u; cbn; naive_solver. Qed.

Lemma refuse_if_Err (c : bool) (e e' : E) : refuse_if c e = Err e' ↔ c = true ∧ e = e'.
Proof. destruct c; cbn; naive_solver. Qed.

Lemma ok_or_Ok {A} (o : option A) (e : E) a : ok_or o e = Ok a ↔ o = Some a.
Proof. destruct o; cbn; naive_solver. Qed.

Lemma ok_or_Err {A} (o : option A) (e e' : E) : ok_or o e = Err e' ↔ o = None ∧ e = e'.
Proof. destruct o; cbn; naive_solver. Qed.

Lemma map_err_Ok {A F} (f : E → F) (r : result E A) a : map_err f r = Ok a ↔ r = Ok a.
Proof. destruct r; cbn; naive_solver. Qed.

Lemma fmap_Ok {A B} (f : A → B) (r : result E A) b : f <$> r = Ok b ↔ ∃ a, r = Ok a ∧ b = f a.
Proof. destruct r; cbn; naive_solver. Qed.

Lemma for_each_Ok {A} (f : A → result E ()) xs u :
  for_each f xs = Ok u ↔ ∀ x, x ∈ xs → f x = Ok tt.
Proof.
  destruct u. induction xs as [|x xs IH].
  - split; [intros _ x Hx; by apply elem_of_nil in Hx | done].
  - change (for_each f (x :: xs)) with (f x ;; for_each f xs).
    rewrite bind_Ok. setoid_rewrite elem_of_cons. split.
    + intros ([] & Hx & Hxs) y [->|Hy]; [done|]. by apply IH.
    + intros Hall. exists tt. split; [by apply Hall; left|]. apply IH. naive_solver.
Qed.

Lemma for_each_iff {A} (f : A → result E ()) (P : A → Prop) xs u :
  (∀ x, x ∈ xs → f x = Ok tt ↔ P x) → for_each f xs = Ok u ↔ ∀ x, x ∈ xs → P x.
Proof. intros Hf. rewrite for_each_Ok. naive_solver. Qed.

Lemma for_enumerate_Ok {A} (f : N → A → result E ()) (P : A → Prop) i xs u :
  (∀ i x, x ∈ xs → f i x = Ok tt ↔ P x) →
  for_enumerate f i xs = Ok u ↔ ∀ x, x ∈ xs → P x.
Proof.
  destruct u. revert i. induction xs as [|x xs IH]; intros i Hf.
  - split; [intros _ x Hx; by apply elem_of_nil in Hx | done].
  - change (for_enumerate f i (x :: xs)) with (f i x ;; for_enumerate f (i + 1)%N xs).
    rewrite bind_Ok. setoid_rewrite elem_of_cons. split.
    + intros ([] & Hx & Hxs) y [->|Hy]; [by eapply Hf; [left|]|].
      eapply IH; [intros; apply Hf; by right|done..].
    + intros Hall. exists tt. split; [apply Hf; [left|]; naive_solver|].
      apply IH; [intros; apply Hf; by right|]. naive_solver.
Qed.

(** Invariant reasoning for [try_fold]. *)
Lemma try_fold_ind {A B} (P : B → Prop) (f : B → A → result E B) acc xs b :
  (∀ acc x acc', x ∈ xs → P acc → f acc x = Ok acc' → P acc') →
  P acc → try_fold f acc xs = Ok b → P b.
Proof.
  revert acc. induction xs as [|x xs IH]; intros acc Hf Hacc.
  - by intros [= <-].
  - change (try_fold f acc (x :: xs)) with (acc ← f acc x; try_fold f acc xs).
    rewrite bind_Ok. intros (acc' & Hx & Hxs). eapply IH; [|by eapply Hf; [left|..]|done].
    intros; eapply Hf; eauto. by right.
Qed.

Lemma try_fold_each {A B} (f : B → A → result E B) acc xs b :
  try_fold f acc xs = Ok b → ∀ x, x ∈ xs → ∃ a a', f a x = Ok a'.
Proof.
  revert acc. induction xs as [|x xs IH]; intros acc; [by intros _ ? ?%elem_of_nil|].
  change (try_fold f acc (x :: xs)) with (acc ← f acc x; try_fold f acc xs).
  intros (acc' & Hx & Hxs)%bind_Ok y [->|Hy]%elem_of_cons; [eauto|]. by eapply IH.
Qed.

Lemma try_fold_app {A B} (f : B → A → result E B) acc xs ys :
  try_fold f acc (xs ++ ys) = (acc ← try_fold f acc xs; try_fold f acc ys).
Proof.
  revert acc. induction xs as [|x xs IH]; intros acc; [done|]. cbn.
  destruct (f acc x); cbn; [apply IH|done].
Qed.

Lemma try_map_Ok {A B} (f : A → result E B) xs ys :
  try_map f xs = Ok ys ↔ Forall2 (λ x y, f x = Ok y) xs ys.
Proof.
  revert ys. induction xs as [|x xs IH]; intros ys.
  - split; [intros [= <-]; constructor | by inversion 1].
  - change (try_map f (x :: xs)) with (y ← f x; ys ← try_map f xs; Ok (y :: ys)).
    rewrite bind_Ok. setoid_rewrite bind_Ok. split.
    + intros (y & Hy & ys' & Hys & [= <-]). constructor; [done|by apply IH].
    + inversion 1; subst. eexists; split; [done|]. eexists; split; [by apply IH|done].
Qed.
End result_lemmas.

(** [Vec::dedup]: drops equal neighbours. *)
Fixpoint dedup {A} `{!EqDecision A} (l : list A) : list A :=
  match l with
  | [] => []
  | x :: rest =>
      match rest with
      | y :: _ => if decide (x = y) then dedup rest else x :: dedup rest
      | [] => [x]
      end
  end.

Section dedup.
Context {A : Type} `{!EqDecision A}.

Lemma dedup_cons (x y : A) l :
  dedup (x :: y :: l) = if decide (x = y) then dedup (y :: l) else x :: dedup (y :: l).
Proof. done. Qed.

Lemma elem_of_dedup (x : A) l : x ∈ dedup l ↔ x ∈ l.
Proof.
  induction l as [|a [|b l] IH]; [done..|].
  rewrite dedup_cons. case_decide as Heq; [subst a|]; rewrite ?elem_of_cons, IH; set_solver.
Qed.

Lemma dedup_nil (l : list A) : dedup l = [] ↔ l = [].
Proof.
  split; [|by intros ->]. intros Hd. destruct l as [|x l]; [done|].
  assert (x ∈ dedup (x :: l)) as Hx by (apply elem_of_dedup; left).
  rewrite Hd in Hx. by apply elem_of_nil in Hx.
Qed.

Lemma NoDup_dedup (R : relation A) `{!AntiSymm (=) R} l : StronglySorted R l → NoDup (dedup l).
Proof.
  induction 1 as [|a l Hs IH Ha]; [constructor|].
  destruct l as [|b l]; [apply NoDup_singleton|].
  rewrite dedup_cons. case_decide as Heq; [done|].
  constructor; [|done]. rewrite elem_of_dedup. intros [?|Hin]%elem_of_cons; [done|].
  inversion Hs as [|?? _ Hb]; subst. rewrite Forall_forall in Hb, Ha.
  apply Heq. apply (anti_symm R); [apply Ha; left|by apply Hb].
Qed.
End dedup.

(** * Machine integers

    [u32], [u64] and [usize] (64-bit targets) are [N] values below their
    modulus; [checked_*] return [None] exactly where Rust does, and
    [saturating_sub] is [N]'s truncated subtraction. *)

Definition u32_max : N := 4294967295.
Definition u64_max : N := 18446744073709551615.

Definition checked_add (a b : N) : option N :=
  if (a + b <=? u64_max)%N then Some (a + b)%N else None.
Definition checked_sub (a b : N) : option N :=
  if (b <=? a)%N then Some (a - b)%N else None.
Definition checked_mul (a b : N) : option N :=
  if (a * b <=? u64_max)%N then Some (a * b)%N else None.
Definition checked_add_u32 (a b : N) : option N :=
  if (a + b <=? u32_max)%N then Some (a + b)%N else None.
Definition saturating_add (a b : N) : N := N.min (a + b) u64_max.
Definition saturating_sub (a b : N) : N := (a - b)%N.
(** [u32::try_from(n: usize)] *)
Definition u32_of_usize (n : N) : option N := if (n <=? u32_max)%N then Some n else None.

(** [s.len()] and [v.len()] as machine words. *)
Definition strlen (s : string) : N := N.of_nat (String.length s).
Definition vlen {A} (l : list A) : N := N.of_nat (length l).

Lemma checked_add_Some a b c : checked_add a b = Some c ↔ (c = a + b ∧ a + b ≤ u64_max)%N.
Proof. unfold checked_add. destruct (N.leb_spec (a + b) u64_max); naive_solver lia. Qed.
Lemma checked_add_None a b : checked_add a b = None ↔ (u64_max < a + b)%N.
Proof. unfold checked_add. destruct (N.leb_spec (a + b) u64_max); naive_solver lia. Qed.
Lemma checked_sub_Some a b c : checked_sub a b = Some c ↔ (c = a - b ∧ b ≤ a)%N.
Proof. unfold checked_sub. destruct (N.leb_spec b a); naive_solver lia. Qed.
Lemma checked_mul_Some a b c : checked_mul a b = Some c ↔ (c = a * b ∧ a * b ≤ u64_max)%N.
Proof. unfold checked_mul. destruct (N.leb_spec (a * b) u64_max); naive_solver lia. Qed.
Lemma checked_add_u32_Some a b c :
  checked_add_u32 a b = Some c ↔ (c = a + b ∧ a + b ≤ u32_max)%N.
Proof. unfold checked_add_u32. destruct (N.leb_spec (a + b) u32_max); naive_solver lia. Qed.
Lemma u32_of_usize_Some n m : u32_of_usize n = Some m ↔ (m = n ∧ n ≤ u32_max)%N.
Proof. unfold u32_of_usize. destruct (N.leb_spec n u32_max); naive_solver lia. Qed.

(** * Byte strings

    A Rust [str] is its UTF-8 byte sequence, a [string] of 8-bit [ascii]. *)

Definition byte_of (c : ascii) : N := N_of_ascii c.
Definition bytes (s : string) : list N := byte_of <$> String.list_ascii_of_string s.

Definition in_range (lo hi b : N) : bool := (lo <=? b)%N && (b <=? hi)%N.
Definition is_ascii_digit (b : N) : bool := in_range 48 57 b.
Definition is_ascii_lowercase (b : N) : bool := in_range 97 122 b.
Definition is_ascii_uppercase (b : N) : bool := in_range 65 90 b.
Definition is_ascii_alphabetic (b : N) : bool := is_ascii_lowercase b || is_ascii_uppercase b.
Definition is_ascii_alphanumeric (b : N) : bool := is_ascii_alphabetic b || is_ascii_digit b.
Definition is_ascii (s : string) : bool := forallb (λ b, b <? 128)%N (bytes s).
Definition is_empty (s : string) : bool := (strlen s =? 0)%N.
(** [s.contains([c1, c2, ...])] for ASCII characters. *)
Definition contains_any (cs : list ascii) (s : string) : bool :=
  existsb (λ c, bool_decide (c ∈ cs)) (String.list_ascii_of_string s).

(** Byte [b] is a UTF-8 continuation byte. *)
Definition is_continuation (b : N) : bool := in_range 128 191 b.

(** [s.chars().any(char::is_control)]: U+0000..U+001F, U+007F and U+0080..U+009F. *)
Fixpoint any_control (bs : list N) : bool :=
  match bs with
  | [] => false
  | b :: bs' =>
      (b <? 32)%N || (b =? 127)%N
      || ((b =? 194)%N && match bs' with c :: _ => in_range 128 159 c | [] => false end)
      || any_control bs'
  end.
Definition has_control (s : string) : bool := any_control (bytes s).

(** [s.trim().is_empty()]: every character has the Unicode [White_Space] property. *)
Fixpoint all_whitespace (fuel : nat) (bs : list N) : bool :=
  match fuel with
  | O => true
  | S fuel =>
    match bs with
    | [] => true
    | b :: rest =>
      if in_range 9 13 b || (b =? 32)%N then all_whitespace fuel rest
      else match b, rest with
      | 194%N, c :: rest => ((c =? 133)%N || (c =? 160)%N) && all_whitespace fuel rest
      | 225%N, 154%N :: 128%N :: rest => all_whitespace fuel rest
      | 226%N, 128%N :: c :: rest =>
          (in_range 128 138 c || (c =? 168)%N || (c =? 169)%N || (c =? 175)%N)
          && all_whitespace fuel rest
      | 226%N, 129%N :: 159%N :: rest => all_whitespace fuel rest
      | 227%N, 128%N :: 128%N :: rest => all_whitespace fuel rest
      | _, _ => false
      end
    end
  end.
Definition trim_is_empty (s : string) : bool := all_whitespace (String.length s) (bytes s).

Example trim_blank : trim_is_empty " 	 " = true. Proof. reflexivity. Qed.
Example trim_word : trim_is_empty "  a " = false. Proof. reflexivity. Qed.

(** Decimal rendering of machine integers ([Display]). *)
Definition show_N (n : N) : string := pretty n.

(** Concatenation. *)
Lemma append_assoc s t u : (s +:+ t) +:+ u = s +:+ (t +:+ u).
Proof.
  induction s as [|c s IH]; [done|].
  change (String c ((s +:+ t) +:+ u) = String c (s +:+ (t +:+ u))). by rewrite IH.
Qed.
Lemma append_cancel s t u : s +:+ t = s +:+ u → t = u.
Proof.
  induction s as [|c s IH]; [done|].
  change (String c (s +:+ t) = String c (s +:+ u) → t = u). intros [= Heq]. auto.
Qed.
Lemma append_nil_r s : s +:+ EmptyString = s.
Proof.
  induction s as [|c s IH]; [done|]. change (String c (s +:+ EmptyString) = String c s). by rewrite IH.
Qed.
Lemma length_append a b : String.length (a +:+ b) = String.length a + String.length b.
Proof. induction a as [|c a IH]; [done|]. exact (f_equal S IH). Qed.
Lemma strlen_append a b : strlen (a +:+ b) = (strlen a + strlen b)%N.
Proof. unfold strlen. rewrite length_append. lia. Qed.
Lemma length_bytes s : length (bytes s) = String.length s.
Proof. unfold bytes. rewrite length_fmap. induction s; cbn; [done|]. by f_equal. Qed.
Lemma byte_of_lt c : (byte_of c < 256)%N.
Proof. apply N_ascii_bounded. Qed.

(** * Ordered maps and sets

    [BTreeMap<String, V>] is a [gmap string V]; iteration follows the byte order
    of the keys, as the source's loops do. *)

Definition key_le {V} (a b : string * V) : Prop := String.le a.1 b.1.
#[global] Instance key_le_dec {V} : RelDecision (@key_le V).
Proof. intros a b. unfold key_le. apply _. Defined.
#[global] Instance key_le_total {V} : Total (@key_le V).
Proof. intros a b. apply (total String.le). Qed.
#[global] Instance key_le_trans {V} : Transitive (@key_le V).
Proof. intros a b c. unfold key_le. apply (transitivity (R := String.le)). Qed.

(** [a < b] on [str]: byte order. *)
Definition str_lt (a b : string) : Prop := String.le a b ∧ a ≠ b.
#[global] Instance str_lt_dec : RelDecision str_lt.
Proof. intros a b. unfold str_lt. apply _. Defined.
#[global] Instance str_lt_trans : Transitive str_lt.
Proof.
  intros a b c [Hab Hne] [Hbc Hne']. split; [by trans b|]. intros ->.
  apply Hne. by apply (anti_symm String.le).
Qed.
#[global] Instance str_lt_irrefl : Irreflexive str_lt.
Proof. by intros a []. Qed.

(** [m.iter()], [m.keys()], [m.values()] and [s.iter()]. *)
Definition entries {V} (m : gmap string V) : list (string * V) :=
  merge_sort key_le (map_to_list m).
Definition keys {V} (m : gmap string V) : list string := (entries m).*1.
Definition values {V} (m : gmap string V) : list V := (entries m).*2.
Definition members (s : gset string) : list string := merge_sort String.le (elements s).

(** [m.values().filter(f).count()] *)
Definition count_values {V} (f : V → bool) (m : gmap string V) : N :=
  vlen (List.filter f (values m)).

(** [for v in m.values_mut() { .. }] with mutable locals [s]. *)
Definition values_mut {E S V} (f : S → V → result E (S * V))
    (s : S) (m : gmap string V) : result E (S * gmap string V) :=
  try_fold (λ (acc : S * gmap string V) (kv : string * V),
    sv ← f acc.1 kv.2; Ok (sv.1, <[kv.1 := sv.2]> acc.2)) (s, m) (entries m).

Section ordered_maps.
Context {V : Type}.
Implicit Types m : gmap string V.

Lemma entries_perm m : entries m ≡ₚ map_to_list m.
Proof. apply merge_sort_Permutation. Qed.

Lemma elem_of_entries m k v : (k, v) ∈ entries m ↔ m !! k = Some v.
Proof. by rewrite entries_perm, elem_of_map_to_list. Qed.

Lemma NoDup_keys m : NoDup (keys m).
Proof. unfold keys. rewrite entries_perm. apply NoDup_fst_map_to_list. Qed.

Lemma length_entries m : length (entries m) = size m.
Proof. by rewrite entries_perm, length_map_to_list. Qed.

Lemma entries_sorted m : StronglySorted key_le (entries m).
Proof. apply StronglySorted_merge_sort; apply _. Qed.

Lemma elem_of_keys m k : k ∈ keys m ↔ is_Some (m !! k).
Proof.
  unfold keys. rewrite list_elem_of_fmap. split.
  - intros ([k' v] & -> & H%elem_of_entries). eauto.
  - intros [v H]. exists (k, v). by rewrite elem_of_entries.
Qed.

Lemma elem_of_values m v : v ∈ values m ↔ ∃ k, m !! k = Some v.
Proof.
  unfold values. rewrite list_elem_of_fmap. split.
  - intros ([k v'] & -> & H%elem_of_entries). eauto.
  - intros [k H]. exists (k, v). by rewrite elem_of_entries.
Qed.

Lemma existsb_values (f : V → bool) m :
  existsb f (values m) = true ↔ ∃ k v, m !! k = Some v ∧ f v = true.
Proof.
  rewrite existsb_exists. setoid_rewrite <-list_elem_of_In. setoid_rewrite elem_of_values.
  naive_solver.
Qed.

Lemma existsb_values_false (f : V → bool) m :
  existsb f (values m) = false ↔ ∀ k v, m !! k = Some v → f v = false.
Proof.
  rewrite <-not_true_iff_false, existsb_values. split.
  - intros H k v Hk. destruct (f v) eqn:?; naive_solver.
  - intros H (k & v & Hk & Hv). specialize (H _ _ Hk). congruence.
Qed.

Lemma forallb_values (f : V → bool) m :
  forallb f (values m) = true ↔ ∀ k v, m !! k = Some v → f v = true.
Proof.
  rewrite forallb_forall. setoid_rewrite <-list_elem_of_In. setoid_rewrite elem_of_values.
  naive_solver.
Qed.

Lemma elem_of_members (s : gset string) x : x ∈ members s ↔ x ∈ s.
Proof. unfold members. by rewrite merge_sort_Permutation, elem_of_elements. Qed.
End ordered_maps.

Lemma forallb_members (f : string → bool) (s : gset string) :
  forallb f (members s) = true ↔ ∀ x, x ∈ s → f x = true.
Proof.
  rewrite forallb_forall. setoid_rewrite <-list_elem_of_In. by setoid_rewrite elem_of_members.
Qed.

Lemma existsb_members_false (f : string → bool) (s : gset string) :
  existsb f (members s) = false ↔ ∀ x, x ∈ s → f x = false.
Proof.
  rewrite <-not_true_iff_false, existsb_exists. setoid_rewrite <-list_elem_of_In.
  setoid_rewrite elem_of_members. split.
  - intros Hf x Hx. destruct (f x) eqn:?; naive_solver.
  - intros Hf (x & Hx & Hfx). specialize (Hf x Hx). congruence.
Qed.

(** [values_mut] touches every entry exactly once and no other key. *)
Lemma values_mut_lookup {E S V} (f : S → V → result E (S * V)) s m s' m' :
  values_mut f s m = Ok (s', m') →
  ∀ k, match m !! k with
       | None => m' !! k = None
       | Some v => ∃ s0 s1 v', f s0 v = Ok (s1, v') ∧ m' !! k = Some v'
       end.
Proof.
  unfold values_mut. intros Hf k.
  assert (∀ l acc res,
    NoDup l.*1 →
    try_fold (λ (acc : S * gmap string V) (kv : string * V),
      sv ← f acc.1 kv.2; Ok (sv.1, <[kv.1 := sv.2]> acc.2)) acc l = Ok res →
    match list_find (λ kv, kv.1 = k) l with
    | None => res.2 !! k = acc.2 !! k
    | Some (_, (_, v)) => ∃ s0 s1 v', f s0 v = Ok (s1, v') ∧ res.2 !! k = Some v'
    end) as Hgen.
  { clear Hf. induction l as [|[k1 v1] l IH]; intros acc res Hnd.
    { by intros [= ->]. }
    cbn [fmap list_fmap] in Hnd. apply NoDup_cons in Hnd as [Hk1 Hnd].
    cbn [try_fold]. intros Hb. apply bind_Ok in Hb as (acc' & Hacc & Hres).
    apply bind_Ok in Hacc as ([s1 v'] & Hfv & [= <-]).
    specialize (IH _ _ Hnd Hres). cbn [fst snd] in *.
    cbn [list_find]. case_decide as Hk; cbn in Hk; [subst k1|].
    - destruct (list_find _ l) as [[i [k2 v2]]|] eqn:Hl.
      { exfalso. apply list_find_Some in Hl as (Hi & Hk2 & _). cbn in Hk2. subst k2.
        apply Hk1. apply list_elem_of_fmap. eexists; split; [|by eapply list_elem_of_lookup_2].
        done. }
      cbn. rewrite lookup_insert_eq in IH. eauto.
    - destruct (list_find _ l) as [[i [k2 v2]]|] eqn:Hl; cbn; [done|].
      by rewrite lookup_insert_ne in IH. }
  specialize (Hgen (entries m) (s, m) (s', m') (NoDup_keys m) Hf). cbn [snd] in Hgen.
  destruct (list_find _ _) as [[i [k2 v2]]|] eqn:Hl.
  - apply list_find_Some in Hl as (Hi & Hk2 & _). cbn in Hk2. subst k2.
    apply list_elem_of_lookup_2, elem_of_entries in Hi. by rewrite Hi.
  - destruct (m !! k) as [v|] eqn:Hk; [|congruence].
    apply list_find_None in Hl. rewrite Forall_forall in Hl.
    exfalso. apply (Hl (k, v)); [by apply elem_of_entries|done].
Qed.

(** A loop that checks every entry and builds a map from them. *)
Lemma foldl_insert {V W} (g : V → W) (l : list (string * V)) (acc : gmap string W) :
  NoDup l.*1 →
  foldl (λ m kv, <[kv.1 := g kv.2]> m) acc l = list_to_map (prod_map id g <$> l) ∪ acc.
Proof.
  revert acc. induction l as [|[k v] l IH]; intros acc; cbn [fmap list_fmap foldl].
  - intros _. cbn. by rewrite (left_id_L ∅ (∪)).
  - intros [Hk Hnd]%NoDup_cons. rewrite IH by done. cbn. rewrite <-insert_union_l.
    symmetry. apply insert_union_r. apply not_elem_of_list_to_map.
    intros ([k' w] & Hk' & Hin)%list_elem_of_fmap. apply list_elem_of_fmap in Hin as ([k2 v2] & Heq & Hin).
    cbn in *. simplify_eq. apply Hk. apply list_elem_of_fmap. by exists (k2, v2).
Qed.

Lemma list_to_map_entries {V W} (g : V → W) (m : gmap string V) :
  list_to_map (prod_map id g <$> entries m) = g <$> m.
Proof.
  rewrite list_to_map_fmap. f_equal. rewrite <-(list_to_map_to_list m) at 2.
  apply list_to_map_proper; [apply NoDup_keys|apply entries_perm].
Qed.

Lemma try_fold_entries {E V W} (check : string → V → result E ()) (g : V → W)
    (m : gmap string V) (r : gmap string W) :
  try_fold (λ acc '(k, v), check k v ;; Ok (<[k := g v]> acc)) ∅ (entries m) = Ok r ↔
  (∀ k v, m !! k = Some v → check k v = Ok tt) ∧ r = g <$> m.
Proof.
  assert (∀ l acc,
    try_fold (λ acc '(k, v), check k v ;; Ok (<[k := g v]> acc)) acc l = Ok r ↔
    (∀ k v, (k, v) ∈ l → check k v = Ok tt)
    ∧ r = foldl (λ m kv, <[kv.1 := g kv.2]> m) acc l) as Hgen.
  { induction l as [|[k v] l IH]; intros acc; cbn [try_fold foldl].
    { split; [intros [= ->]|intros [_ ->]]; [|done]. split; [|done]. by intros ?? ?%elem_of_nil. }
    rewrite bind_Ok. setoid_rewrite bind_Ok. setoid_rewrite IH. split.
    - intros (acc' & ([] & Hc & [= <-]) & Hl & ->). split; [|done].
      intros k' v' [[= -> ->]|Hin]%elem_of_cons; auto.
    - intros [Hl ->]. eexists. split; [|split; [|done]].
      + exists tt. split; [apply Hl; left|done].
      + intros k' v' Hin. apply Hl. by right. }
  rewrite Hgen, foldl_insert, list_to_map_entries, (right_id_L ∅ (∪)) by apply NoDup_keys.
  by setoid_rewrite elem_of_entries.
Qed.

(** * Record update

    [r <| f := v |>] replaces field [f]; [r <| f ::= g |>] applies [g] to it. *)

Class Settable (R : Type) := settable_eta : R → R.
Class Setter {R A} (get : R → A) := setter : (A → A) → R → R.
Arguments setter {R A} get {_} f r /.

Ltac solve_setter :=
  match goal with
  | |- @Setter ?R ?A ?get =>
      let inst := constr:(_ : Settable R) in
      let eta := eval hnf in inst in
      let f := fresh "f" in let r := fresh "r" in
      unfold Setter; intros f r;
      let body := eval cbv beta in (eta r) in
      match eval pattern (get r) in body with
      | ?F _ => let res := eval cbv beta in (F (f (get r))) in exact res
      end
  end.
#[global] Hint Extern 1 (Setter _) => solve_setter : typeclass_instances.

Notation "r <| f ::= g |>" := (setter f g r)
  (at level 12, f at level 8, left associativity, format "r  <| f  ::=  g |>").
Notation "r <| f := v |>" := (setter f (λ _, v) r)
  (at level 12, f at level 8, left associativity, format "r  <| f  :=  v |>").

(** * Tactics

    [inv_ok] turns hypotheses saying that a computation returned [Ok] into the
    facts its steps established; [case_bool] splits on a boolean test of the
    goal; [bool_prop] reads boolean tests as propositions. *)

Ltac inv_ok_step :=
  match goal with
  | H : Ok _ = Ok _ |- _ => injection H as H
  | H : Err _ = Ok _ |- _ => discriminate H
  | H : Ok _ = Err _ |- _ => discriminate H
  | H : mbind _ _ = Ok _ |- _ => apply bind_Ok in H; destruct H as (? & ? & H)
  | H : fmap _ _ = Ok _ |- _ => apply fmap_Ok in H; destruct H as (? & H & ?)
  | H : refuse_if _ _ = Ok _ |- _ => apply refuse_if_Ok in H
  | H : ok_or _ _ = Ok _ |- _ => apply ok_or_Ok in H
  | H : map_err _ _ = Ok _ |- _ => apply map_err_Ok in H
  | H : (let '(_, _) := ?p in _) = Ok _ |- _ => destruct p eqn:?
  | H : unit |- _ => destruct H
  end.
Ltac inv_ok := repeat inv_ok_step.

Ltac case_bool :=
  match goal with
  | |- context [if ?b then _ else _] =>
      lazymatch type of b with bool => destruct b eqn:? end
  end.

Ltac bool_prop :=
  repeat match goal with
  | H : _ && _ = true |- _ => apply andb_true_iff in H; destruct H
  | H : _ || _ = false |- _ => apply orb_false_iff in H; destruct H
  | H : negb _ = true |- _ => apply negb_true_iff in H
  | H : negb _ = false |- _ => apply negb_false_iff in H
  | H : bool_decide _ = true |- _ => apply bool_decide_eq_true in H
  | H : bool_decide _ = false |- _ => apply bool_decide_eq_false in H
  | H : (_ <=? _)%N = true |- _ => apply N.leb_le in H
  | H : (_ <=? _)%N = false |- _ => apply N.leb_gt in H
  | H : (_ <? _)%N = true |- _ => apply N.ltb_lt in H
  | H : (_ <? _)%N = false |- _ => apply N.ltb_ge in H
  | H : (_ =? _)%N = true |- _ => apply N.eqb_eq in H
  | H : (_ =? _)%N = false |- _ => apply N.eqb_neq in H
  | H : checked_add _ _ = Some _ |- _ => apply checked_add_Some in H; destruct H
  | H : checked_sub _ _ = Some _ |- _ => apply checked_sub_Some in H; destruct H
  | H : checked_mul _ _ = Some _ |- _ => apply checked_mul_Some in H; destruct H
  | H : checked_add_u32 _ _ = Some _ |- _ => apply checked_add_u32_Some in H; destruct H
  | H : u32_of_usize _ = Some _ |- _ => apply u32_of_usize_Some in H; destruct H
  end.

Create HintDb milkdrift discriminated.
#[export] Hint Rewrite @elem_of_entries @elem_of_values @elem_of_keys @elem_of_members : milkdrift.
#[export] Hint Resolve NoDup_keys : milkdrift.
