(* ===== verification/Effects.v ===== *)
(** * Stateful fallible code

    Methods on [&self] that read and write shared state and return a [Result]: a
    state [W] that is kept when the computation fails, and an error [E]. Loops over
    collections, recovery from an error, and partial-correctness triples. *)
From S2P Require Import Prelude.

Definition st (W E A : Type) : Type := W → W * result E A.

#[global] Instance st_ret {W E} : MRet (st W E) := λ _ a w, (w, Ok a).
#[global] Instance st_bind {W E} : MBind (st W E) := λ _ _ f m w,
  match m w with
  | (w', Ok a) => f a w'
  | (w', Err e) => (w', Err e)
  end.

Definition lift {W E A} (r : result E A) : st W E A := λ w, (w, r).
Definition fail {W E A} (e : E) : st W E A := λ w, (w, Err e).
Definition gets {W E A} (f : W → A) : st W E A := λ w, (w, Ok (f w)).
Definition modify {W E} (f : W → W) : st W E () := λ w, (f w, Ok tt).
(** [match m { Ok(a) => .., Err(e) => .. }] *)
Definition attempt {W E A} (m : st W E A) : st W E (result E A) := λ w,
  let '(w', r) := m w in (w', Ok r).
Definition guard_if {W E} (c : bool) (e : E) : st W E () := lift (refuse_if c e).

(** [for x in xs { .. }] with mutable locals. *)
Fixpoint fold_st {W E A B} (f : B → A → st W E B) (acc : B) (xs : list A) : st W E B :=
  match xs with
  | [] => mret acc
  | x :: xs => acc ← f acc x; fold_st f acc xs
  end.
Definition each_st {W E A} (f : A → st W E ()) (xs : list A) : st W E () :=
  fold_st (λ _ x, f x) tt xs.

(** ** Triples

    From every state satisfying [P], [m] ends in [Q] when it succeeds and in [R]
    when it fails. *)
Section triples.
Context {W E : Type}.

Definition triple {A} (P : W → Prop) (m : st W E A) (Q : A → W → Prop) (R : W → Prop) : Prop :=
  ∀ w, P w → match m w with (w', Ok a) => Q a w' | (w', Err _) => R w' end.

Lemma triple_conseq {A} (P P' : W → Prop) (m : st W E A) (Q Q' : A → W → Prop) (R R' : W → Prop) :
  triple P' m Q' R' → (∀ w, P w → P' w) → (∀ a w, Q' a w → Q a w) → (∀ w, R' w → R w) →
  triple P m Q R.
Proof.
  intros Hm HP HQ HR w Hw. specialize (Hm w (HP w Hw)).
  destruct (m w) as [w' [a|e]]; auto.
Qed.

Lemma triple_ret {A} (a : A) (Q : A → W → Prop) (R : W → Prop) : triple (Q a) (mret a) Q R.
Proof. by intros w. Qed.

Lemma triple_bind {A B} (P : W → Prop) (m : st W E A) (f : A → st W E B) Q' Q R :
  triple P m Q' R → (∀ a, triple (Q' a) (f a) Q R) → triple P (m ≫= f) Q R.
Proof.
  intros Hm Hf w Hw. specialize (Hm w Hw). unfold mbind, st_bind.
  destruct (m w) as [w' [a|e]]; [by apply Hf|done].
Qed.

Lemma triple_lift {A} (r : result E A) (P : W → Prop) (Q : A → W → Prop) (R : W → Prop) :
  (∀ a w, r = Ok a → P w → Q a w) → (∀ w, P w → R w) → triple P (lift r) Q R.
Proof. intros HQ HR w Hw. unfold lift. destruct r; eauto. Qed.

Lemma triple_lift_bind {A B} (r : result E A) (f : A → st W E B) (P : W → Prop) Q (R : W → Prop) :
  (∀ w, P w → R w) → (∀ a, r = Ok a → triple P (f a) Q R) → triple P (lift r ≫= f) Q R.
Proof.
  intros HR Hf w Hw. unfold mbind, st_bind, lift. destruct r as [a|e]; [by apply Hf|auto].
Qed.

(** Binds associate. *)
Lemma st_bind_assoc {A B F} (m : st W E A) (f : A → st W E B) (g : B → st W E F) w :
  ((m ≫= f) ≫= g) w = (m ≫= λ a, f a ≫= g) w.
Proof. unfold mbind, st_bind. by destruct (m w) as [w' [a|e]]. Qed.
Lemma triple_assoc {A B F} (m : st W E A) (f : A → st W E B) (g : B → st W E F) P Q R :
  triple P (m ≫= λ a, f a ≫= g) Q R → triple P ((m ≫= f) ≫= g) Q R.
Proof. intros H w Hw. rewrite st_bind_assoc. by apply H. Qed.

Lemma triple_gets {A} (f : W → A) (P : W → Prop) (Q : A → W → Prop) (R : W → Prop) :
  (∀ w, P w → Q (f w) w) → triple P (gets f) Q R.
Proof. intros HQ w Hw. by apply HQ. Qed.

Lemma triple_modify (f : W → W) (P : W → Prop) (Q : () → W → Prop) (R : W → Prop) :
  (∀ w, P w → Q tt (f w)) → triple P (modify f) Q R.
Proof. intros HQ w Hw. by apply HQ. Qed.

Lemma triple_fail {A} (e : E) (P : W → Prop) (Q : A → W → Prop) (R : W → Prop) :
  (∀ w, P w → R w) → triple P (fail e) Q R.
Proof. intros HR w Hw. by apply HR. Qed.

Lemma triple_attempt {A} (m : st W E A) (P : W → Prop) Q (R : W → Prop) :
  triple P m (λ a, Q (Ok a)) (λ w, ∀ e, Q (Err e) w) → triple P (attempt m) Q R.
Proof.
  intros Hm w Hw. specialize (Hm w Hw). unfold attempt.
  destruct (m w) as [w' [a|e]]; [done|apply Hm].
Qed.

Lemma triple_fold {A B} (f : B → A → st W E B) (I : B → W → Prop) (R : W → Prop) xs acc :
  (∀ acc x, x ∈ xs → triple (I acc) (f acc x) I R) → triple (I acc) (fold_st f acc xs) I R.
Proof.
  revert acc. induction xs as [|x xs IH]; intros acc Hf; cbn [fold_st].
  - apply triple_ret.
  - eapply triple_bind; [apply Hf; left|]. intros acc'. apply IH. intros. apply Hf. by right.
Qed.
End triples.

(** A step that keeps an invariant whether it succeeds or fails. *)
Definition keeps {W E A} (I : W → Prop) (m : st W E A) : Prop := triple I m (λ _, I) I.

Section keeps.
Context {W E : Type} (I : W → Prop).

Lemma keeps_ret {A} (a : A) : keeps (E := E) I (mret a).
Proof. apply (triple_ret a (λ _, I)). Qed.
Lemma keeps_bind {A B} (m : st W E A) (f : A → st W E B) :
  keeps I m → (∀ a, keeps I (f a)) → keeps I (m ≫= f).
Proof. intros Hm Hf. by eapply triple_bind. Qed.
Lemma keeps_lift {A} (r : result E A) : keeps I (lift r).
Proof. by apply triple_lift. Qed.
Lemma keeps_fail {A} (e : E) : keeps I (fail (A := A) e).
Proof. by apply triple_fail. Qed.
Lemma keeps_gets {A} (f : W → A) : keeps (E := E) I (gets f).
Proof. by apply triple_gets. Qed.
Lemma keeps_modify (f : W → W) : (∀ w, I w → I (f w)) → keeps (E := E) I (modify f).
Proof. intros. by apply triple_modify. Qed.
Lemma keeps_guard (c : bool) (e : E) : keeps I (guard_if c e).
Proof. apply keeps_lift. Qed.
Lemma keeps_attempt {A} (m : st W E A) : keeps I m → keeps I (attempt m).
Proof. intros Hm. apply triple_attempt. eapply triple_conseq; [exact Hm|done..|by intros w Hw e]. Qed.
Lemma keeps_fold {A B} (f : B → A → st W E B) xs acc :
  (∀ acc x, x ∈ xs → keeps I (f acc x)) → keeps I (fold_st f acc xs).
Proof. intros Hf. by apply (triple_fold f (λ _, I)). Qed.
Lemma keeps_each {A} (f : A → st W E ()) xs :
  (∀ x, x ∈ xs → keeps I (f x)) → keeps I (each_st f xs).
Proof. intros Hf. apply keeps_fold. auto. Qed.
End keeps.

Create HintDb keeps discriminated.
#[export] Hint Resolve keeps_ret keeps_lift keeps_fail keeps_gets keeps_guard keeps_attempt : keeps.
#[export] Hint Constants Opaque : keeps.

(** A successful bind is two successful runs. *)
Lemma st_bind_Ok {W E A B} (m : st W E A) (f : A → st W E B) w w' b :
  (m ≫= f) w = (w', Ok b) → ∃ w1 a, m w = (w1, Ok a) ∧ f a w1 = (w', Ok b).
Proof. unfold mbind, st_bind. destruct (m w) as [w1 [a|e]]; [eauto|done]. Qed.
Lemma st_bind_cases {W E A B} (m : st W E A) (f : A → st W E B) w w' res :
  (m ≫= f) w = (w', res) →
  (∃ e, m w = (w', Err e) ∧ res = Err e) ∨ ∃ w1 a, m w = (w1, Ok a) ∧ f a w1 = (w', res).
Proof. unfold mbind, st_bind. destruct (m w) as [w1 [a|e]]; [eauto|intros [= <- <-]; eauto]. Qed.
Lemma st_lift_Ok {W E A} (r : result E A) (w w' : W) a : lift r w = (w', Ok a) → w' = w ∧ r = Ok a.
Proof. by intros [= -> ->]. Qed.

(** ** What a successful run returns, in any state *)
Definition returns {W E A} (m : st W E A) (P : A → Prop) : Prop :=
  ∀ w w' a, m w = (w', Ok a) → P a.

Section returns.
Context {W E : Type}.

Lemma returns_conseq {A} (m : st W E A) (P Q : A → Prop) :
  returns m P → (∀ a, P a → Q a) → returns m Q.
Proof. intros Hm HPQ w w' a Ha. by eapply HPQ, Hm. Qed.
Lemma returns_ret {A} (a : A) (P : A → Prop) : P a → returns (W := W) (E := E) (mret a) P.
Proof. by intros ? w w' a' [= _ <-]. Qed.
Lemma returns_bind {A B} (m : st W E A) (f : A → st W E B) P (Q : B → Prop) :
  returns m P → (∀ a, P a → returns (f a) Q) → returns (m ≫= f) Q.
Proof.
  intros Hm Hf w w' b. unfold mbind, st_bind. destruct (m w) as [w1 [a|e]] eqn:E1; [|done].
  apply Hf. by eapply Hm.
Qed.
Lemma returns_lift {A} (r : result E A) (P : A → Prop) :
  (∀ a, r = Ok a → P a) → returns (W := W) (lift r) P.
Proof. intros HP w w' a [= _ ->]. by apply HP. Qed.
Lemma returns_fail {A} (e : E) (P : A → Prop) : returns (W := W) (fail e) P.
Proof. by intros w w' a [=]. Qed.
Lemma returns_guard {A} (c : bool) (e : E) (m : st W E A) P :
  (c = false → returns m P) → returns (guard_if c e ;; m) P.
Proof.
  intros Hm. apply (returns_bind _ _ (λ _, c = false)); [|by intros []].
  apply returns_lift. intros [] H. by destruct c.
Qed.
Lemma returns_any {A} (m : st W E A) : returns m (λ _, True).
Proof. done. Qed.
(** A loop whose invariant speaks of the items already processed. *)
Lemma returns_fold {A B} (f : B → A → st W E B) (I : list A → B → Prop) xs acc :
  I [] acc →
  (∀ before x after acc, xs = before ++ x :: after → I before acc →
    returns (f acc x) (I (before ++ [x]))) →
  returns (fold_st f acc xs) (I xs).
Proof.
  intros H0 Hf. assert (∀ after before acc, xs = before ++ after → I before acc →
    returns (fold_st f acc after) (I xs)) as Hgen; [|by apply (Hgen xs [])].
  induction after as [|x after IH]; intros before acc0 Heq HI; cbn [fold_st].
  - apply returns_ret. rewrite app_nil_r in Heq. by subst.
  - eapply returns_bind; [by eapply Hf|]. intros acc1 H1. apply (IH (before ++ [x])); [|done].
    by rewrite <-app_assoc.
Qed.
End returns.

(** ** Threads

    Code that takes and releases a lock several times: a sequence of critical
    sections, each of which runs on the state it finds. Between two sections other
    threads may change the state. *)
Inductive thread (W E A : Type) : Type :=
| TDone (r : result E A)
| TStep (section : W → W * thread W E A).
Arguments TDone {W E A}. Arguments TStep {W E A}.

(** Induction over what a thread does after each of its sections. *)
Lemma thread_sections {W E A} (P : thread W E A → Prop) :
  (∀ r, P (TDone r)) → (∀ section, (∀ w, P (section w).2) → P (TStep section)) → ∀ t, P t.
Proof.
  intros Hd Hs. fix IH 1. intros [r|section]; [apply Hd|]. apply Hs. intros w.
  destruct (section w) as [w' t']. apply IH.
Qed.

Fixpoint thread_bind {W E F A B} (k : result E A → thread W F B) (t : thread W E A)
    : thread W F B :=
  match t with
  | TDone r => k r
  | TStep section => TStep (λ w, let '(w', t') := section w in (w', thread_bind k t'))
  end.

#[global] Instance thread_ret {W E} : MRet (thread W E) := λ _ a, TDone (Ok a).
#[global] Instance thread_mbind {W E} : MBind (thread W E) := λ _ _ f t,
  thread_bind (λ r, match r with Ok a => f a | Err e => TDone (Err e) end) t.

(** One critical section. *)
Definition atomic {W E A} (m : st W E A) : thread W E A :=
  TStep (λ w, let '(w', r) := m w in (w', TDone r)).
Definition thread_lift {W E A} (r : result E A) : thread W E A := TDone r.
(** Continue with the outcome, whether it succeeded or failed. *)
Definition outcome {W E F A} (t : thread W E A) : thread W F (result E A) :=
  thread_bind (λ r, TDone (Ok r)) t.
(** [.map_err(f)] on what a thread returns. *)
Definition rescue {W E F A} (f : E → F) (t : thread W E A) : thread W F A :=
  thread_bind (λ r, TDone (map_err f r)) t.

Fixpoint fold_thread {W E A B} (f : B → A → thread W E B) (acc : B) (xs : list A)
    : thread W E B :=
  match xs with
  | [] => mret acc
  | x :: xs => acc ← f acc x; fold_thread f acc xs
  end.
Definition each_thread {W E A} (f : A → thread W E ()) (xs : list A) : thread W E () :=
  fold_thread (λ _ x, f x) tt xs.

(** The thread alone, without interference. *)
Fixpoint run {W E A} (t : thread W E A) (w : W) : W * result E A :=
  match t with
  | TDone r => (w, r)
  | TStep section => let '(w', t') := section w in run t' w'
  end.
Lemma run_thread_bind {W E F A B} (t : thread W E A) (k : result E A → thread W F B) w :
  run (thread_bind k t) w = let '(w', r) := run t w in run (k r) w'.
Proof.
  revert w. induction t as [r|section IH] using thread_sections; intros w; cbn; [done|].
  specialize (IH w). destruct (section w) as [w' t']. apply IH.
Qed.
Lemma run_bind {W E A B} (t : thread W E A) (f : A → thread W E B) w :
  run (t ≫= f) w = let '(w', r) := run t w in
    match r with Ok a => run (f a) w' | Err e => (w', Err e) end.
Proof. unfold mbind, thread_mbind. rewrite run_thread_bind. by destruct (run t w) as [w' []]. Qed.
