(* ===== verification/Contracts.v ===== *)
(** * Shared document contracts ([crates/contracts])

    The JSON tree of [serde_json], the structural limits and canonical key order
    of [contracts/src/lib.rs], the byte-bounded text helpers of
    [contracts/src/text.rs], and the identity validators the domain crates build
    on the [validated_string_type!] macro. *)
From S2P Require Import Prelude.

(** ** JSON values

    [serde_json::Value]. An object lists its entries in map order; a float is
    its IEEE-754 bit pattern. *)

Inductive Number :=
| PosInt (n : N)
| NegInt (z : Z)
| Float (bits : N).

Inductive Value :=
| JNull
| JBool (b : bool)
| JNumber (n : Number)
| JString (s : string)
| JArray (vs : list Value)
| JObject (fields : list (string * Value)).

#[global] Instance Number_eq_dec : EqDecision Number.
Proof. solve_decision. Defined.

Section Value_ind.
Variable P : Value → Prop.
Hypothesis HNull : P JNull.
Hypothesis HBool : ∀ b, P (JBool b).
Hypothesis HNumber : ∀ n, P (JNumber n).
Hypothesis HString : ∀ s, P (JString s).
Hypothesis HArray : ∀ vs, Forall P vs → P (JArray vs).
Hypothesis HObject : ∀ fs, Forall (λ kv, P kv.2) fs → P (JObject fs).

Fixpoint Value_ind' (v : Value) : P v :=
  match v with
  | JNull => HNull
  | JBool b => HBool b
  | JNumber n => HNumber n
  | JString s => HString s
  | JArray vs => HArray vs
      ((fix go l : Forall P l := match l with
        | [] => Forall_nil_2 _
        | x :: l => Forall_cons_2 _ _ _ (Value_ind' x) (go l)
        end) vs)
  | JObject fs => HObject fs
      ((fix go l : Forall (λ kv, P kv.2) l := match l with
        | [] => Forall_nil_2 _
        | kv :: l => Forall_cons_2 _ _ _ (Value_ind' kv.2) (go l)
        end) fs)
  end.
End Value_ind.

#[global] Instance Value_eq_dec : EqDecision Value.
Proof.
  refine (fix go (v w : Value) : {v = w} + {v ≠ w} :=
    match v, w with
    | JNull, JNull => left eq_refl
    | JBool b, JBool b' => cast_if (decide (b = b'))
    | JNumber n, JNumber n' => cast_if (decide (n = n'))
    | JString s, JString s' => cast_if (decide (s = s'))
    | JArray vs, JArray ws =>
        let _ : EqDecision Value := go in cast_if (decide (vs = ws))
    | JObject fs, JObject gs =>
        let _ : EqDecision Value := go in cast_if (decide (fs = gs))
    | _, _ => right _
    end); congruence.
Defined.

(** ** Structural limits *)

Record JsonLimits := mkJsonLimits {
  maximum_depth : N;
  maximum_string_bytes : N;
  maximum_key_bytes : N;
  maximum_container_items : N
}.

Inductive JsonBoundKind := BoundDepth | BoundString | BoundKey | BoundArray | BoundObject.

Record JsonBoundViolation := violation {
  violation_path : string;
  violation_kind : JsonBoundKind;
  violation_maximum : N
}.

Fixpoint validate_value (limits : JsonLimits) (value : Value) (path : string) (depth : N)
    : result JsonBoundViolation () :=
  if (maximum_depth limits <? depth)%N then Err (violation path BoundDepth (maximum_depth limits))
  else match value with
  | JString text =>
      refuse_if (maximum_string_bytes limits <? strlen text)%N
        (violation path BoundString (maximum_string_bytes limits))
  | JArray vs =>
      refuse_if (maximum_container_items limits <? vlen vs)%N
        (violation path BoundArray (maximum_container_items limits)) ;;
      for_enumerate (λ index child,
        let child_path := path +:+ "[" +:+ show_N index +:+ "]" in
        child_depth ← ok_or (checked_add depth 1)
          (violation child_path BoundDepth (maximum_depth limits));
        validate_value limits child child_path child_depth) 0 vs
  | JObject fields =>
      refuse_if (maximum_container_items limits <? vlen fields)%N
        (violation path BoundObject (maximum_container_items limits)) ;;
      for_each (λ '(key, child),
        refuse_if (maximum_key_bytes limits <? strlen key)%N
          (violation path BoundKey (maximum_key_bytes limits)) ;;
        let child_path := path +:+ "." +:+ key in
        child_depth ← ok_or (checked_add depth 1)
          (violation child_path BoundDepth (maximum_depth limits));
        validate_value limits child child_path child_depth) fields
  | _ => Ok tt
  end.

Definition validate_json_value (value : Value) (limits : JsonLimits)
    : result JsonBoundViolation () := validate_value limits value "$" 0.

(** Recursive key order of canonical documents. *)
Fixpoint sort_value (value : Value) : Value :=
  match value with
  | JObject map => JObject (merge_sort key_le ((λ kv, (kv.1, sort_value kv.2)) <$> map))
  | JArray values => JArray (sort_value <$> values)
  | v => v
  end.

(** ** Encoding

    Code outside the repository, as class parameters: the derived [Serialize]
    implementations with [serde_json]'s writers, one instance per type, and the
    BLAKE3 hash of the [blake3] crate. Byte vectors are byte strings; an error
    carries [serde_json]'s message. *)

Class Serialize (A : Type) := {
  to_vec : A → result string string;       (** [serde_json::to_vec], [to_string] *)
  to_value : A → result string Value       (** [serde_json::to_value] *)
}.

Class Blake3 := blake3_hex : string → string.   (** [blake3::hash(..).to_hex()] *)

(** The crate's documented digest form: 32 bytes in lowercase hexadecimal. *)
Definition blake3_hex_form `{Blake3} : Prop := ∀ s,
  (strlen (blake3_hex s) =? 64)%N
    && forallb (λ b, is_ascii_digit b || in_range 97 102 b) (bytes (blake3_hex s)) = true.

(** [error.to_string()]: the texts of the error types are generated by [thiserror]
    from their attributes, one instance per error type. [Debug] renderings are the
    derived ones. *)
Class Display (E : Type) := to_text : E → string.
Class Debug (A : Type) := debug_text : A → string.
(** An error kept as its text. *)
#[global] Instance display_text : Display string := λ message, message.

(** Concrete instances at which hypotheses about these parameters are exercised:
    a writer that yields an empty document and a hash of the right form. *)
Definition sample_serialize {A} : Serialize A :=
  {| to_vec _ := Ok "{}"; to_value _ := Ok (JObject []) |}.
Fixpoint repeat_char (n : nat) (c : ascii) : string :=
  match n with O => EmptyString | S n => String c (repeat_char n c) end.
Definition sample_blake3 : Blake3 := λ s,
  repeat_char (64 - String.length s `mod` 64) "0" +:+ repeat_char (String.length s `mod` 64) "f".

Inductive CanonicalJsonError :=
| CanonicalJson (message : string)
| CanonicalBounds (violation : JsonBoundViolation).

Definition canonical_json_bytes {A} `{!Serialize A, !Serialize Value}
    (value : A) (limits : JsonLimits) : result CanonicalJsonError string :=
  value ← map_err CanonicalJson (to_value value);
  map_err CanonicalBounds (validate_json_value value limits) ;;
  map_err CanonicalJson (to_vec (sort_value value)).

(** ** Structural scan before parsing *)

Record Frame := mkFrame { commas : N; has_content : bool }.

Record Scan := mkScan {
  frames : list Frame;        (** innermost open container first *)
  in_string : bool;
  escaped : bool;
  string_bytes : N
}.

Definition is_ascii_whitespace (b : N) : bool :=
  (b =? 32)%N || (b =? 9)%N || (b =? 10)%N || (b =? 12)%N || (b =? 13)%N.

Definition note_content (fs : list Frame) : list Frame :=
  match fs with f :: fs => mkFrame (commas f) true :: fs | [] => [] end.

(** One iteration of the scan loop: [byte] was taken from the input and
    [remaining] is what follows it. *)
Definition preflight_byte (limits : JsonLimits) (s : Scan) (byte : N) (remaining : list N)
    : result JsonBoundViolation Scan :=
  let 'mkScan fs in_str esc sb := s in
  if in_str then
    if esc then Ok (mkScan fs true false (saturating_add sb 1))
    else if (byte =? 92)%N then Ok (mkScan fs true true (saturating_add sb 1))
    else if (byte =? 34)%N then
      let next := List.find (λ b, negb (is_ascii_whitespace b)) remaining in
      let '(kind, maximum) :=
        if bool_decide (next = Some 58%N) then (BoundKey, maximum_key_bytes limits)
        else (BoundString, maximum_string_bytes limits) in
      if (maximum <? sb)%N then Err (violation "$" kind maximum)
      else Ok (mkScan fs false esc sb)
    else Ok (mkScan fs true esc (saturating_add sb 1))
  else if (byte =? 34)%N then Ok (mkScan (note_content fs) true false 0)
  else if (byte =? 123)%N || (byte =? 91)%N then
    let fs := note_content fs in
    if (maximum_depth limits <? vlen fs)%N
    then Err (violation "$" BoundDepth (maximum_depth limits))
    else Ok (mkScan (mkFrame 0 false :: fs) false esc sb)
  else if (byte =? 125)%N || (byte =? 93)%N then
    match fs with
    | [] => Ok s
    | frame :: fs =>
        let items := if has_content frame then saturating_add (commas frame) 1 else 0%N in
        if (maximum_container_items limits <? items)%N
        then Err (violation "$" (if (byte =? 125)%N then BoundObject else BoundArray)
                    (maximum_container_items limits))
        else Ok (mkScan fs false esc sb)
    end
  else if (byte =? 44)%N then
    match fs with
    | [] => Ok s
    | f :: fs => Ok (mkScan (mkFrame (saturating_add (commas f) 1) (has_content f) :: fs) false esc sb)
    end
  else if is_ascii_whitespace byte then Ok s
  else Ok (mkScan (note_content fs) false esc sb).

Fixpoint preflight_scan (limits : JsonLimits) (s : Scan) (input : list N)
    : result JsonBoundViolation Scan :=
  match input with
  | [] => Ok s
  | byte :: remaining =>
      s ← preflight_byte limits s byte remaining;
      preflight_scan limits s remaining
  end.

Definition preflight_json_structure (input : list N) (limits : JsonLimits)
    : result JsonBoundViolation () :=
  preflight_scan limits (mkScan [] false false 0) input ;; Ok tt.

(** ** Byte-bounded text *)

Fixpoint str_take (n : nat) (s : string) : string :=
  match n, s with
  | S n, String c s => String c (str_take n s)
  | _, _ => EmptyString
  end.

(** [s.is_char_boundary(i)] *)
Definition is_char_boundary (s : string) (i : nat) : bool :=
  match i with
  | O => true
  | _ => match bytes s !! i with
         | Some b => negb (is_continuation b)
         | None => bool_decide (i = String.length s)
         end
  end.

(** [s.floor_char_boundary(i)]: the closest boundary at or below [i]. *)
Fixpoint boundary_below (s : string) (i : nat) : nat :=
  if is_char_boundary s i then i else match i with O => O | S i => boundary_below s i end.
Definition floor_char_boundary (s : string) (i : N) : nat :=
  if (strlen s <=? i)%N then String.length s else boundary_below s (N.to_nat i).

Definition truncate_utf8 (value : string) (maximum_bytes : N) : string :=
  str_take (floor_char_boundary value maximum_bytes) value.

Fixpoint strip_prefix (p s : string) : option string :=
  match p, s with
  | EmptyString, s => Some s
  | String a p, String b s => if decide (a = b) then strip_prefix p s else None
  | String _ _, EmptyString => None
  end.
Definition starts_with (p s : string) : bool := bool_decide (is_Some (strip_prefix p s)).

Definition is_canonical_blake3_digest (value : string) : bool :=
  match strip_prefix "b3_" value with
  | Some hex => (strlen hex =? 64)%N
      && forallb (λ b, is_ascii_digit b || in_range 97 102 b) (bytes hex)
  | None => false
  end.

(** ** Identities

    [value.split_once(c)]; identity validators of the domain crates. *)

Fixpoint split_once (c : ascii) (s : string) : option (string * string) :=
  match s with
  | EmptyString => None
  | String a s =>
      if decide (a = c) then Some (EmptyString, s)
      else '(l, r) ← split_once c s; Some (String a l, r)
  end.
Definition ends_with_char (c : ascii) (s : string) : bool :=
  bool_decide (last (String.list_ascii_of_string s) = Some c).
Definition starts_with_char (c : ascii) (s : string) : bool :=
  bool_decide (head (String.list_ascii_of_string s) = Some c).
Definition first_alphanumeric (s : string) : bool :=
  match bytes s with b :: _ => is_ascii_alphanumeric b | [] => false end.

(** [crates/blueprint/src/identity.rs] *)
Definition validate_identity (value : string) (max : N) : bool :=
  negb (is_empty value || (max <? strlen value)%N)
  && negb (negb (is_ascii value) || negb (first_alphanumeric value)
       || negb (forallb (λ b, is_ascii_alphanumeric b
                 || (b =? 45)%N || (b =? 95)%N || (b =? 46)%N || (b =? 58)%N) (bytes value))).

Definition is_hex64 (digest : string) : bool :=
  (strlen digest =? 64)%N && forallb (λ b, is_ascii_digit b || in_range 97 102 b) (bytes digest).
Definition validate_digest_identity (value prefix : string) : bool :=
  match strip_prefix prefix value with Some digest => is_hex64 digest | None => false end.

(** [crates/capability/src/identity.rs] *)
Inductive IdRule := Simple | Namespaced | Extension.
Definition validate_id (value : string) (max : N) (rule : IdRule) : bool :=
  negb (is_empty value || (max <? strlen value)%N)
  && is_ascii value
  && (forallb (λ b, is_ascii_alphanumeric b || (b =? 45)%N || (b =? 95)%N || (b =? 46)%N
                    || (b =? 58)%N || (b =? 47)%N) (bytes value)
      && first_alphanumeric value)
  && match rule with
     | Simple => true
     | Namespaced => match split_once "." value with
         | Some (namespace, name) =>
             negb (is_empty namespace) && negb (is_empty name) && negb (starts_with_char "." name)
         | None => false
         end
     | Extension => match split_once "/" value with
         | Some (namespace, name) =>
             contains_any ["."%char] namespace && negb (starts_with_char "." namespace)
             && negb (ends_with_char "." namespace) && negb (is_empty name)
         | None => false
         end
     end.

(** ** What the checks establish *)

(** [occurs v d w]: [w] is [v] itself or a value nested [d] containers inside it. *)
Inductive occurs : Value → N → Value → Prop :=
| occurs_here v : occurs v 0 v
| occurs_array vs v d w : v ∈ vs → occurs v d w → occurs (JArray vs) (d + 1) w
| occurs_object fs k v d w : (k, v) ∈ fs → occurs v d w → occurs (JObject fs) (d + 1) w.

Definition node_within (limits : JsonLimits) (v : Value) : Prop :=
  match v with
  | JString s => (strlen s ≤ maximum_string_bytes limits)%N
  | JArray vs => (vlen vs ≤ maximum_container_items limits)%N
  | JObject fs => (vlen fs ≤ maximum_container_items limits)%N
      ∧ ∀ k v, (k, v) ∈ fs → (strlen k ≤ maximum_key_bytes limits)%N
  | _ => True
  end.

Definition within_limits (limits : JsonLimits) (v : Value) (depth : N) : Prop :=
  ∀ d w, occurs v d w → (depth + d ≤ maximum_depth limits)%N ∧ node_within limits w.

Lemma within_limits_unfold limits v depth :
  within_limits limits v depth ↔
  (depth ≤ maximum_depth limits)%N ∧ node_within limits v ∧
  match v with
  | JArray vs => ∀ c, c ∈ vs → within_limits limits c (depth + 1)
  | JObject fs => ∀ k c, (k, c) ∈ fs → within_limits limits c (depth + 1)
  | _ => True
  end.
Proof.
  split.
  - intros H. destruct (H 0%N v (occurs_here _)) as [? ?]. split_and!; [lia|done|].
    destruct v; try done.
    + intros c Hc d w Ho. destruct (H (d + 1)%N w); [by econstructor|]. split; [lia|done].
    + intros k c Hc d w Ho. destruct (H (d + 1)%N w); [by econstructor|]. split; [lia|done].
  - intros (Hd & Hn & Hc) d w Ho. inversion Ho; subst.
    + split; [lia|done].
    + destruct (Hc _ H d0 w H0). split; [lia|done].
    + destruct (Hc _ _ H d0 w H0). split; [lia|done].
Qed.

Lemma within_limits_depth limits v depth :
  within_limits limits v depth → (depth ≤ maximum_depth limits)%N.
Proof. intros H%within_limits_unfold. apply H. Qed.

Section validate.
Variable limits : JsonLimits.
Hypothesis depth_word : (maximum_depth limits ≤ u64_max)%N.

Lemma validate_child child path depth (e : JsonBoundViolation) :
  (∀ depth, validate_value limits child path depth = Ok tt ↔ within_limits limits child depth) →
  (child_depth ← ok_or (checked_add depth 1) e;
   validate_value limits child path child_depth) = Ok tt
  ↔ within_limits limits child (depth + 1).
Proof.
  intros Hv. rewrite bind_Ok. split.
  - intros (d & Hd & Hc). apply ok_or_Ok, checked_add_Some in Hd as [-> _]. by apply Hv.
  - intros Hw. exists (depth + 1)%N. split; [|by apply Hv].
    apply ok_or_Ok, checked_add_Some. apply within_limits_depth in Hw. lia.
Qed.

Lemma validate_value_Ok v path depth :
  validate_value limits v path depth = Ok tt ↔ within_limits limits v depth.
Proof.
  revert path depth. induction v as [|b|n|s|vs IH|fs IH] using Value_ind'; intros path depth;
    rewrite within_limits_unfold; cbn [validate_value node_within];
    (destruct (N.ltb_spec (maximum_depth limits) depth); [naive_solver lia|]); try naive_solver.
  - rewrite refuse_if_Ok, N.ltb_ge. naive_solver.
  - rewrite Forall_forall in IH.
    rewrite bind_Ok. setoid_rewrite refuse_if_Ok. setoid_rewrite N.ltb_ge.
    setoid_rewrite (for_enumerate_Ok _ (λ c, within_limits limits c (depth + 1))).
    + naive_solver.
    + intros i c Hc. apply validate_child. intros. by apply IH.
  - rewrite Forall_forall in IH.
    rewrite bind_Ok. setoid_rewrite refuse_if_Ok. setoid_rewrite N.ltb_ge.
    setoid_rewrite (for_each_iff _ (λ kc, (strlen kc.1 ≤ maximum_key_bytes limits)%N
                                   ∧ within_limits limits kc.2 (depth + 1))).
    + setoid_rewrite forall_pair. cbn. naive_solver.
    + intros [k c] Hc. rewrite bind_Ok. setoid_rewrite refuse_if_Ok. setoid_rewrite N.ltb_ge.
      setoid_rewrite (validate_child c); [naive_solver|]. intros. by apply (IH (k, c)).
Qed.
End validate.

(** Values as [serde_json::Map] guarantees them: object keys are distinct. *)
Inductive value_wf : Value → Prop :=
| wf_null : value_wf JNull
| wf_bool b : value_wf (JBool b)
| wf_number n : value_wf (JNumber n)
| wf_string s : value_wf (JString s)
| wf_array vs : Forall value_wf vs → value_wf (JArray vs)
| wf_object fs : NoDup fs.*1 → Forall (λ kv, value_wf kv.2) fs → value_wf (JObject fs).

(** Two trees that differ at most in the order of object entries. *)
Inductive same_json : Value → Value → Prop :=
| same_null : same_json JNull JNull
| same_bool b : same_json (JBool b) (JBool b)
| same_number n : same_json (JNumber n) (JNumber n)
| same_string s : same_json (JString s) (JString s)
| same_array vs ws : Forall2 same_json vs ws → same_json (JArray vs) (JArray ws)
| same_object fs gs gs' :
    Forall2 (λ a b, a.1 = b.1 ∧ same_json a.2 b.2) fs gs' → gs' ≡ₚ gs →
    same_json (JObject fs) (JObject gs).

Lemma merge_sort_keys_unique {V} (fs gs : list (string * V)) :
  NoDup fs.*1 → fs ≡ₚ gs → merge_sort key_le fs = merge_sort key_le gs.
Proof.
  intros Hnd Hperm. apply (StronglySorted_unique_strong key_le).
  - intros [k v] [k' v'] Hx Hy H1 H2.
    rewrite merge_sort_Permutation in Hx, Hy. rewrite <-Hperm in Hy.
    unfold key_le in H1, H2. cbn in H1, H2.
    assert (k = k') as <- by (by apply (anti_symm String.le)).
    apply list_elem_of_lookup in Hx as [i Hi], Hy as [j Hj].
    assert (i = j) as <-; [|congruence].
    eapply NoDup_lookup; [done|rewrite list_lookup_fmap, Hi; done|rewrite list_lookup_fmap, Hj; done].
  - apply StronglySorted_merge_sort; apply _.
  - apply StronglySorted_merge_sort; apply _.
  - by rewrite !merge_sort_Permutation.
Qed.

Lemma sort_fields_keys (fs : list (string * Value)) :
  ((λ kv, (kv.1, sort_value kv.2)) <$> fs).*1 = fs.*1.
Proof. induction fs as [|[k v] fs IH]; [done|]. cbn in *. by f_equal. Qed.

Lemma sort_value_complete v w : value_wf v → value_wf w → same_json v w → sort_value v = sort_value w.
Proof.
  revert w. induction v as [|b|n|s|vs IH|fs IH] using Value_ind';
    intros w Hv Hw Hs; inversion Hs as [| | | |? ws HF|? gs gs' HF HP]; subst; try done;
    inversion Hv as [| | | |? Hvs|? Hnd Hvs]; subst;
    inversion Hw as [| | | |? Hws|? Hnd' Hws]; subst; cbn; f_equal; clear Hs Hv Hw.
  - induction HF; cbn; [done|]. decompose_Forall_hyps. f_equal; eauto.
  - rewrite <-HP in Hws. clear Hnd'.
    assert ((λ kv : string * Value, (kv.1, sort_value kv.2)) <$> fs
            = (λ kv, (kv.1, sort_value kv.2)) <$> gs') as ->.
    { clear Hnd HP. induction HF; cbn; [done|]. decompose_Forall_hyps.
      f_equal; [f_equal|]; naive_solver. }
    apply merge_sort_keys_unique; [|by rewrite HP].
    rewrite sort_fields_keys.
    replace (gs'.*1) with (fs.*1); [done|].
    clear -HF. induction HF as [|?? ?? []]; cbn; congruence.
Qed.

Lemma sort_value_sound v w : sort_value v = sort_value w → same_json v w.
Proof.
  revert w. induction v as [|b|n|s|vs IH|fs IH] using Value_ind';
    intros w Hw; destruct w as [|b'|n'|s'|ws|gs]; try discriminate Hw; cbn in Hw.
  1: constructor.
  1-3: injection Hw as <-; constructor.
  - injection Hw as Hw. constructor. revert ws Hw.
    induction vs as [|v vs IHvs]; intros [|w ws] Hw; try discriminate Hw; [constructor|].
    cbn in Hw. injection Hw as H1 H2. decompose_Forall_hyps. constructor; eauto.
  - injection Hw as Hw. set (F := λ kv : string * Value, (kv.1, sort_value kv.2)) in *.
    assert (F <$> fs ≡ₚ F <$> gs) as Hperm.
    { by rewrite <-(merge_sort_Permutation key_le (F <$> fs)), Hw, merge_sort_Permutation. }
    destruct (Permutation_map_inv _ _ Hperm) as (gs' & Heq & Hp).
    apply (same_object _ _ gs'); [|by symmetry]. clear Hw Hperm Hp. revert gs' Heq.
    induction fs as [|[k v] fs IHfs]; intros [|[k' w] gs'] Heq; try discriminate Heq; [constructor|].
    unfold F in Heq. cbn in Heq. injection Heq as -> H1 H2. decompose_Forall_hyps.
    constructor; eauto.
Qed.

(** The scan never holds more open containers than the depth limit allows, so its
    memory is bounded before anything is decoded. *)
Lemma preflight_byte_frames limits s byte rest s' :
  preflight_byte limits s byte rest = Ok s' →
  (vlen (frames s) ≤ maximum_depth limits + 1)%N → (vlen (frames s') ≤ maximum_depth limits + 1)%N.
Proof.
  destruct s as [fs i e n]. unfold preflight_byte, note_content, vlen.
  repeat case_match; intros [= <-] Hfs; cbn in *; bool_prop; try lia.
Qed.

Lemma preflight_scan_frames limits s input s' :
  preflight_scan limits s input = Ok s' →
  (vlen (frames s) ≤ maximum_depth limits + 1)%N → (vlen (frames s') ≤ maximum_depth limits + 1)%N.
Proof.
  revert s. induction input as [|b input IH]; intros s.
  - by intros [= <-].
  - cbn [preflight_scan]. intros H Hs. inv_ok. eauto using preflight_byte_frames.
Qed.

Lemma length_str_take n s : String.length (str_take n s) = n `min` String.length s.
Proof. revert s. induction n as [|n IH]; intros [|c s]; cbn; auto. Qed.

Lemma boundary_below_le s i : boundary_below s i ≤ i.
Proof. induction i as [|i IH]; cbn [boundary_below]; case_match; lia. Qed.

Lemma boundary_below_boundary s i : is_char_boundary s (boundary_below s i) = true.
Proof. induction i as [|i IH]; cbn [boundary_below]; case_match; done. Qed.

Lemma boundary_below_max s i j : is_char_boundary s j = true → j ≤ i → j ≤ boundary_below s i.
Proof.
  intros Hj. induction i as [|i IH]; cbn [boundary_below]; case_match; try lia.
  intros. destruct (decide (j = S i)) as [->|]; [congruence|]. apply IH. lia.
Qed.

(** Concatenating the kept prefix with a suffix gives the text back. *)
Lemma str_take_prefix n s : ∃ rest, s = str_take n s +:+ rest.
Proof.
  revert s. induction n as [|n IH]; intros s; [by exists s|].
  destruct s as [|c s]; [by exists EmptyString|]. destruct (IH s) as [rest Hr].
  exists rest. change (String c s = String c (str_take n s +:+ rest)). congruence.
Qed.

(** [truncate_utf8] returns a prefix of the text that fits the byte limit and
    ends on a character boundary, and no longer prefix does both. *)
Theorem truncate_utf8_longest value maximum :
  let kept := truncate_utf8 value maximum in
  (∃ rest, value = kept +:+ rest)
  ∧ (strlen kept ≤ maximum)%N
  ∧ is_char_boundary value (String.length kept) = true
  ∧ ∀ n, n ≤ String.length value → is_char_boundary value n = true →
      (N.of_nat n ≤ maximum)%N → n ≤ String.length kept.
Proof.
  cbn. unfold truncate_utf8, strlen. rewrite length_str_take.
  split; [apply str_take_prefix|]. unfold floor_char_boundary, strlen.
  destruct (N.leb_spec (N.of_nat (String.length value)) maximum).
  - split_and!; [lia| |lia]. rewrite Nat.min_id. unfold is_char_boundary, bytes.
    destruct (String.length value) eqn:Hl; [done|]. rewrite lookup_ge_None_2; [by apply bool_decide_eq_true|].
    rewrite length_fmap. rewrite <-Hl. clear. induction value; cbn; lia.
  - pose proof (boundary_below_le value (N.to_nat maximum)).
    rewrite Nat.min_l by lia. split_and!; [lia|apply boundary_below_boundary|].
    intros n _ Hb Hn. apply boundary_below_max; [done|lia].
Qed.

(** C31: Canonical key order identifies exactly the documents that differ in the
    order of object entries: two trees sort to the same tree iff they agree up to
    that order. *)
Theorem sort_value_canonical v w :
  value_wf v → value_wf w → same_json v w ↔ sort_value v = sort_value w.
Proof. split; auto using sort_value_complete, sort_value_sound. Qed.

Definition example_document : Value :=
  JObject [("z", JArray [JNumber (PosInt 2); JNumber (PosInt 1)]); ("a", JString "ok")].
Definition example_document_reordered : Value :=
  JObject [("a", JString "ok"); ("z", JArray [JNumber (PosInt 2); JNumber (PosInt 1)])].

Lemma sort_value_canonical_witness :
  same_json example_document example_document_reordered ↔
  sort_value example_document = sort_value example_document_reordered.
Proof.
  apply (sort_value_canonical example_document example_document_reordered);
    repeat (constructor || set_solver).
Defined.

(** C32: Decoded validation accepts a tree iff every value nested in it respects the
    inclusive depth, string, key and container limits. *)
Theorem validate_json_value_spec limits v :
  (maximum_depth limits ≤ u64_max)%N →
  validate_json_value v limits = Ok tt ↔ within_limits limits v 0.
Proof. intros. by apply validate_value_Ok. Qed.

Lemma validate_json_value_spec_witness :
  within_limits (mkJsonLimits 4 64 32 8) example_document 0.
Proof. apply (validate_json_value_spec (mkJsonLimits 4 64 32 8)); [done|vm_compute; reflexivity]. Defined.

(** The scan before parsing keeps at most [maximum_depth + 1] open containers
    after any prefix of the input it accepts. *)
Theorem preflight_bounded_frames limits prefix s :
  preflight_scan limits (mkScan [] false false 0) prefix = Ok s →
  (vlen (frames s) ≤ maximum_depth limits + 1)%N.
Proof. intros H. eapply preflight_scan_frames; [done|unfold vlen; cbn; lia]. Qed.

Lemma preflight_bounded_frames_witness :
  ∃ s, preflight_scan (mkJsonLimits 1 8 8 8) (mkScan [] false false 0) (bytes "[[") = Ok s
     ∧ (vlen (frames s) ≤ 2)%N.
Proof.
  eexists. split; [vm_compute; reflexivity|].
  apply (preflight_bounded_frames (mkJsonLimits 1 8 8 8) (bytes "[[")). vm_compute. reflexivity.
Defined.
