(* ===== verification/Capability.v ===== *)
(** * Capability contracts ([crates/capability])

    Admission envelopes, descriptors and requirement matching, placement,
    invocation requests, events and terminal reports, and the resolved snapshot
    frozen with each attempt. Every [validate]/[new] of the source is a function
    into [result ContractError]. *)
From S2P Require Import Prelude Contracts.

Abbreviation CapabilityId := string (only parsing).
Abbreviation OperationId := string (only parsing).
Abbreviation FeatureId := string (only parsing).
Abbreviation ProviderProfileRef := string (only parsing).
Abbreviation InvocationId := string (only parsing).
Abbreviation SchemaId := string (only parsing).
Abbreviation TrustZone := string (only parsing).
Abbreviation PeerId := string (only parsing).

(** ** Bounded contract values ([bounded.rs]) *)

Inductive ContractError :=
| InvalidIdentity (type_name reason : string)
| Bounds (location reason : string)
| UnsupportedVersion (document : string) (found supported : N)
| InvalidJson (message : string)
| InvalidContract (reason : string).

#[global] Instance ContractError_eq_dec : EqDecision ContractError.
Proof. solve_decision. Defined.

Definition MAX_DOCUMENT_BYTES : N := 1048576.
Definition MAX_EXTENSION_ENTRIES : N := 64.
Definition MAX_EXTENSION_BYTES : N := 65536.
Definition DOCUMENT_JSON_LIMITS : JsonLimits := mkJsonLimits 48 32768 192 4096.

Definition contract_bound (v : JsonBoundViolation) : ContractError :=
  let m := show_N (violation_maximum v) in
  let reason := match violation_kind v with
    | BoundDepth => "nesting exceeds depth " +:+ m
    | BoundString => "string exceeds " +:+ m +:+ " bytes"
    | BoundKey => "object key exceeds " +:+ m +:+ " bytes"
    | BoundArray => "array exceeds " +:+ m +:+ " items"
    | BoundObject => "object exceeds " +:+ m +:+ " entries"
    end in
  Bounds (violation_path v) reason.

Definition BoundedJson_new `{!Serialize Value} (value : Value) : result ContractError Value :=
  map_err contract_bound (validate_json_value value DOCUMENT_JSON_LIMITS) ;;
  encoded ← map_err InvalidJson (to_vec value);
  refuse_if (MAX_EXTENSION_BYTES <? strlen encoded)%N
    (Bounds "$" "value exceeds 65536 serialized bytes") ;;
  Ok value.

Abbreviation Extensions := (gmap string Value) (only parsing).

Definition validate_extensions `{!Serialize Extensions} (extensions : Extensions)
    : result ContractError () :=
  refuse_if (MAX_EXTENSION_ENTRIES <? N.of_nat (size extensions))%N
    (Bounds "extensions" "at most 64 entries are allowed") ;;
  encoded ← map_err InvalidJson (to_vec extensions);
  refuse_if (MAX_EXTENSION_BYTES <? strlen encoded)%N
    (Bounds "extensions" "extensions exceed 65536 serialized bytes").

Definition document_json_bytes {A} `{!Serialize A, !Serialize Value} (value : A)
    : result ContractError string :=
  encoded ← map_err (λ e, match e with
      | CanonicalJson m => InvalidJson m
      | CanonicalBounds v => contract_bound v
      end) (canonical_json_bytes value DOCUMENT_JSON_LIMITS);
  refuse_if (MAX_DOCUMENT_BYTES <? strlen encoded)%N
    (Bounds "$" "document exceeds 1048576 bytes") ;;
  Ok encoded.

(** ** Admission envelopes ([admission.rs]) *)

Record InvocationCounts := mkInvocationCounts { ic_process : N; ic_model : N }.
Definition InvocationCounts_contains (self requested : InvocationCounts) : bool :=
  (ic_process requested <=? ic_process self)%N && (ic_model requested <=? ic_model self)%N.

Record NestedWorkUsage := mkNestedWorkUsage {
  nw_invocations : InvocationCounts;
  nw_artifact_bytes : N
}.

Inductive AdmissionBound (T : Type) :=
| Bounded (maximum : T)
| NotApplicable
| BoundUnknown.
Arguments Bounded {T} maximum.
Arguments NotApplicable {T}.
Arguments BoundUnknown {T}.

(** [bounded()] *)
Definition bounded {T} (b : AdmissionBound T) : option T :=
  match b with Bounded v => Some v | NotApplicable | BoundUnknown => None end.

Record AdmissionMonetaryBound := mkMonetaryBound {
  maximum_micros : N;
  mb_currency : string
}.

Definition is_currency (c : string) : bool :=
  (strlen c =? 3)%N && forallb is_ascii_uppercase (bytes c).

Definition AdmissionMonetaryBound_new (micros : N) (currency : string)
    : result ContractError AdmissionMonetaryBound :=
  refuse_if (negb (is_currency currency))
    (InvalidContract "admission currency must be a three-letter uppercase code") ;;
  Ok (mkMonetaryBound micros currency).

Inductive AdmissionUnit := UnitUnknown | ModelTokens.

Record InvocationAdmissionEnvelope := mkEnvelope {
  en_nested_invocations : option InvocationCounts;
  en_unit : AdmissionUnit;
  en_input_units : AdmissionBound N;
  en_output_units : AdmissionBound N;
  en_artifact_bytes : AdmissionBound N;
  en_monetary_cost : AdmissionBound AdmissionMonetaryBound;
  en_execution_duration_ms : AdmissionBound N
}.

Definition envelope_not_applicable : InvocationAdmissionEnvelope :=
  mkEnvelope None UnitUnknown NotApplicable NotApplicable NotApplicable NotApplicable NotApplicable.
Definition envelope_unknown : InvocationAdmissionEnvelope :=
  mkEnvelope None UnitUnknown BoundUnknown BoundUnknown BoundUnknown BoundUnknown BoundUnknown.

#[global] Instance InvocationCounts_eq_dec : EqDecision InvocationCounts.
Proof. solve_decision. Defined.
#[global] Instance NestedWorkUsage_eq_dec : EqDecision NestedWorkUsage.
Proof. solve_decision. Defined.
#[global] Instance AdmissionBound_eq_dec {T} `{!EqDecision T} : EqDecision (AdmissionBound T).
Proof. solve_decision. Defined.
#[global] Instance AdmissionMonetaryBound_eq_dec : EqDecision AdmissionMonetaryBound.
Proof. solve_decision. Defined.
#[global] Instance AdmissionUnit_eq_dec : EqDecision AdmissionUnit.
Proof. solve_decision. Defined.
#[global] Instance InvocationAdmissionEnvelope_eq_dec : EqDecision InvocationAdmissionEnvelope.
Proof. solve_decision. Defined.

(** ** Descriptors ([descriptor.rs], [placement.rs]) *)

Inductive CapabilityCategory :=
| CatModel | CatTool | CatProcess | CatHuman | CatPeer | CatCustom (identity : FeatureId).
Inductive StreamingMode := StreamNone | StreamProgress | StreamOutputFragments.
Inductive CancellationBehavior := CancelUnsupported | CancelBestEffort | CancelAcknowledged.
Inductive IdempotencyBehavior := IdemUnsupported | CapabilityScoped | ProviderProfileScoped.
Inductive SideEffectClass :=
| SideNone | SideReadOnly | SideIdempotentWrite | SideNonIdempotentWrite | SideUnknown.
Inductive Locality := LocLocal | LocPeer | LocRemote | LocUnspecified.
Inductive ExecutionTrustClass := TrustUnspecified | TrustedHostProcess | SandboxedProcess.

#[global] Instance CapabilityCategory_eq_dec : EqDecision CapabilityCategory.
Proof. solve_decision. Defined.
#[global] Instance StreamingMode_eq_dec : EqDecision StreamingMode.
Proof. solve_decision. Defined.
#[global] Instance CancellationBehavior_eq_dec : EqDecision CancellationBehavior.
Proof. solve_decision. Defined.
#[global] Instance IdempotencyBehavior_eq_dec : EqDecision IdempotencyBehavior.
Proof. solve_decision. Defined.
#[global] Instance SideEffectClass_eq_dec : EqDecision SideEffectClass.
Proof. solve_decision. Defined.
#[global] Instance Locality_eq_dec : EqDecision Locality.
Proof. solve_decision. Defined.
#[global] Instance ExecutionTrustClass_eq_dec : EqDecision ExecutionTrustClass.
Proof. solve_decision. Defined.

#[global] Instance CapabilityCategory_countable : Countable CapabilityCategory.
Proof.
  refine (inj_countable' (λ c, match c with
      | CatModel => inl 0%N | CatTool => inl 1%N | CatProcess => inl 2%N
      | CatHuman => inl 3%N | CatPeer => inl 4%N | CatCustom f => inr f end)
    (λ c : N + string, match c with
      | inl 0%N => CatModel | inl 1%N => CatTool | inl 2%N => CatProcess
      | inl 3%N => CatHuman | inl _ => CatPeer | inr f => CatCustom f end) _); by intros [].
Defined.
#[global] Instance StreamingMode_countable : Countable StreamingMode.
Proof.
  refine (inj_countable' (λ c, match c with
      | StreamNone => 0%N | StreamProgress => 1%N | StreamOutputFragments => 2%N end)
    (λ c : N, match c with
      | 0%N => StreamNone | 1%N => StreamProgress | _ => StreamOutputFragments end) _); by intros [].
Defined.
#[global] Instance Locality_countable : Countable Locality.
Proof.
  refine (inj_countable' (λ c, match c with
      | LocLocal => 0%N | LocPeer => 1%N | LocRemote => 2%N | LocUnspecified => 3%N end)
    (λ c : N, match c with
      | 0%N => LocLocal | 1%N => LocPeer | 2%N => LocRemote | _ => LocUnspecified end) _); by intros [].
Defined.
#[global] Instance SideEffectClass_countable : Countable SideEffectClass.
Proof.
  refine (inj_countable' (λ c, match c with
      | SideNone => 0%N | SideReadOnly => 1%N | SideIdempotentWrite => 2%N
      | SideNonIdempotentWrite => 3%N | SideUnknown => 4%N end)
    (λ c : N, match c with
      | 0%N => SideNone | 1%N => SideReadOnly | 2%N => SideIdempotentWrite
      | 3%N => SideNonIdempotentWrite | _ => SideUnknown end) _); by intros [].
Defined.
#[global] Instance ExecutionTrustClass_countable : Countable ExecutionTrustClass.
Proof.
  refine (inj_countable' (λ c, match c with
      | TrustUnspecified => 0%N | TrustedHostProcess => 1%N | SandboxedProcess => 2%N end)
    (λ c : N, match c with
      | 0%N => TrustUnspecified | 1%N => TrustedHostProcess | _ => SandboxedProcess end) _); by intros [].
Defined.

(** The derived [Ord] of [SideEffectClass]: declaration order. *)
Definition side_effect_rank (s : SideEffectClass) : N :=
  match s with
  | SideNone => 0 | SideReadOnly => 1 | SideIdempotentWrite => 2
  | SideNonIdempotentWrite => 3 | SideUnknown => 4
  end.

Record SchemaContract := mkSchemaContract {
  sc_id : SchemaId;
  sc_version : N;
  sc_schema : Value
}.
Definition SchemaContract_validate (s : SchemaContract) : result ContractError () :=
  refuse_if (sc_version s =? 0)%N (InvalidContract "schema version must be nonzero").
Definition SchemaContract_new (id : SchemaId) (version : N) (schema : Value)
    : result ContractError SchemaContract :=
  refuse_if (version =? 0)%N (InvalidContract "schema version must be nonzero") ;;
  Ok (mkSchemaContract id version schema).

Record FeatureContract := mkFeatureContract {
  fc_identity : FeatureId;
  fc_settings_schema : option SchemaContract
}.
Definition FeatureContract_validate (f : FeatureContract) : result ContractError () :=
  match fc_settings_schema f with
  | Some schema => SchemaContract_validate schema
  | None => Ok tt
  end.

Record OperationContract := mkOperationContract {
  oc_input : SchemaContract;
  oc_output : SchemaContract;
  oc_streaming : gset StreamingMode;
  oc_cancellation : CancellationBehavior;
  oc_idempotency : IdempotencyBehavior;
  oc_side_effect : SideEffectClass;
  oc_features : gmap FeatureId FeatureContract
}.

Definition MAX_OPERATIONS : N := 256.
Definition MAX_FEATURES : N := 256.
Definition MAX_LABELS : N := 64.

Definition validate_side_effect_idempotency (s : SideEffectClass) (i : IdempotencyBehavior)
    : result ContractError () :=
  refuse_if (bool_decide (s = SideIdempotentWrite) && bool_decide (i = IdemUnsupported))
    (InvalidContract "an idempotent-write operation must advertise an idempotency-key scope").

Definition validate_feature_entry (kv : FeatureId * FeatureContract) : result ContractError () :=
  refuse_if (bool_decide (kv.1 ≠ fc_identity kv.2))
    (InvalidContract "feature map keys must equal feature identities") ;;
  FeatureContract_validate kv.2.

Definition OperationContract_validate (o : OperationContract) : result ContractError () :=
  SchemaContract_validate (oc_input o) ;;
  SchemaContract_validate (oc_output o) ;;
  refuse_if (bool_decide (oc_streaming o = ∅) || (MAX_FEATURES <? N.of_nat (size (oc_features o)))%N)
    (InvalidContract "operation needs a streaming mode and bounded features") ;;
  for_each validate_feature_entry (entries (oc_features o)) ;;
  validate_side_effect_idempotency (oc_side_effect o) (oc_idempotency o).

Definition OperationContract_new (input output : SchemaContract) (streaming : gset StreamingMode)
    (cancellation : CancellationBehavior) (idempotency : IdempotencyBehavior)
    (side_effect : SideEffectClass) (features : gmap FeatureId FeatureContract)
    : result ContractError OperationContract :=
  SchemaContract_validate input ;;
  SchemaContract_validate output ;;
  refuse_if (bool_decide (streaming = ∅))
    (InvalidContract "an operation must advertise at least one streaming mode") ;;
  refuse_if (MAX_FEATURES <? N.of_nat (size features))%N
    (Bounds "operation.features" "at most 256 features are allowed") ;;
  for_each validate_feature_entry (entries features) ;;
  validate_side_effect_idempotency side_effect idempotency ;;
  Ok (mkOperationContract input output streaming cancellation idempotency side_effect features).

Record AdmissionConstraints := mkAdmissionConstraints { max_concurrent : N; max_queued : N }.
Definition AdmissionConstraints_new (concurrent queued : N)
    : result ContractError AdmissionConstraints :=
  refuse_if (concurrent =? 0)%N (InvalidContract "max_concurrent must be nonzero") ;;
  Ok (mkAdmissionConstraints concurrent queued).

Record ResourceObservations := mkResourceObservations {
  estimated_cost_micros : option N;
  estimated_duration_ms : option N;
  ro_currency : option string
}.
Definition ResourceObservations_validate (r : ResourceObservations) : result ContractError () :=
  refuse_if (xorb (is_some (estimated_cost_micros r)) (is_some (ro_currency r)))
    (InvalidContract "estimated cost and currency must be supplied together") ;;
  refuse_if (match ro_currency r with Some c => negb (is_currency c) | None => false end)
    (InvalidContract "currency must be a three-letter uppercase ISO code").

Record PlacementRequirement := mkPlacement {
  pl_localities : option (gset Locality);
  pl_peers : option (gset PeerId)
}.
Definition PlacementRequirement_new (localities : option (gset Locality))
    (peers : option (gset PeerId)) : result ContractError PlacementRequirement :=
  refuse_if (is_some_and (λ p, 128 <? N.of_nat (size p))%N peers)
    (InvalidContract "placement permits at most 128 exact peers") ;;
  refuse_if (is_some_and (λ p, bool_decide (p ≠ ∅)) peers
             && is_some_and (λ l, bool_decide (LocPeer ∉ l)) localities)
    (InvalidContract "required peers contradict the permitted localities") ;;
  Ok (mkPlacement localities peers).
Definition placement_denies_all (p : PlacementRequirement) : bool :=
  is_some_and (λ l, bool_decide (l = ∅)) (pl_localities p)
  || is_some_and (λ l, bool_decide (l = ∅)) (pl_peers p).
Definition placement_matches (p : PlacementRequirement) (locality : Locality)
    (peer : option PeerId) : bool :=
  is_none_or (λ l, bool_decide (locality ∈ l)) (pl_localities p)
  && is_none_or (λ ps, bool_decide (locality = LocPeer)
                       && is_some_and (λ peer, bool_decide (peer ∈ ps)) peer) (pl_peers p).

Record CapabilityDescriptor := mkDescriptor {
  cd_identity : CapabilityId;
  cd_descriptor_revision : N;
  cd_provider_profile : option ProviderProfileRef;
  cd_category : CapabilityCategory;
  cd_operations : gmap OperationId OperationContract;
  cd_admission : AdmissionConstraints;
  cd_locality : Locality;
  cd_peer : option PeerId;
  cd_trust_zones : gset TrustZone;
  cd_execution_trust : ExecutionTrustClass;
  cd_resource_observations : option ResourceObservations;
  cd_labels : gset string;
  cd_extensions : Extensions
}.

Record CapabilityRequirement := mkRequirement {
  cr_exact_capability : option CapabilityId;
  cr_provider_profile : option ProviderProfileRef;
  cr_categories : gset CapabilityCategory;
  cr_operation : OperationId;
  cr_required_features : gset FeatureId;
  cr_streaming : option StreamingMode;
  cr_cancellation_required : bool;
  cr_maximum_side_effect : SideEffectClass;
  cr_trust_zones : gset TrustZone;
  cr_execution_trust : option ExecutionTrustClass;
  cr_placement : option PlacementRequirement
}.

Definition CapabilityRequirement_new (operation : OperationId) : CapabilityRequirement :=
  mkRequirement None None ∅ operation ∅ None false SideUnknown ∅ None None.

Definition CapabilityRequirement_validate (r : CapabilityRequirement) : result ContractError () :=
  refuse_if ((32 <? N.of_nat (size (cr_categories r)))%N
             || (MAX_FEATURES <? N.of_nat (size (cr_required_features r)))%N
             || (MAX_LABELS <? N.of_nat (size (cr_trust_zones r)))%N)
    (Bounds "capability_requirement"
       "requirement category, feature, or trust-zone count exceeded").

(** [if c { reasons.push(r) }] *)
Definition reason_if (c : bool) (r : string) : list string := if c then [r] else [].

(** [CapabilityDescriptor::matches]: the mismatch reasons, in order. *)
Definition matches (self : CapabilityDescriptor) (requirement : CapabilityRequirement)
    : list string :=
  reason_if (is_some_and (λ exact, bool_decide (exact ≠ cd_identity self))
               (cr_exact_capability requirement)) "capability_identity"
  ++ reason_if (is_some_and (λ profile, bool_decide (cd_provider_profile self ≠ Some profile))
               (cr_provider_profile requirement)) "provider_profile"
  ++ reason_if (bool_decide (cr_categories requirement ≠ ∅)
               && bool_decide (cd_category self ∉ cr_categories requirement)) "category"
  ++ match cd_operations self !! cr_operation requirement with
     | None => ["operation"]
     | Some operation =>
         reason_if (negb (forallb (λ f, bool_decide (is_Some (oc_features operation !! f)))
                      (members (cr_required_features requirement)))) "features"
         ++ reason_if (is_some_and (λ s, bool_decide (s ∉ oc_streaming operation))
                      (cr_streaming requirement)) "streaming"
         ++ reason_if (cr_cancellation_required requirement
                      && bool_decide (oc_cancellation operation = CancelUnsupported)) "cancellation"
         ++ reason_if (side_effect_rank (cr_maximum_side_effect requirement)
                      <? side_effect_rank (oc_side_effect operation))%N "side_effect"
     end
  ++ reason_if (negb (forallb (λ z, bool_decide (z ∈ cd_trust_zones self))
               (members (cr_trust_zones requirement)))) "trust_zone"
  ++ reason_if (is_some_and (λ t, bool_decide (t ≠ cd_execution_trust self))
               (cr_execution_trust requirement)) "execution_trust"
  ++ reason_if (is_some_and (λ p, negb (placement_matches p (cd_locality self) (cd_peer self)))
               (cr_placement requirement)) "placement".

(** [RequirementMatch::is_match] *)
Definition is_match (reasons : list string) : bool := bool_decide (reasons = []).

(** [DescriptorBuilder::build] *)
Definition DescriptorBuilder_build `{!Serialize Extensions} (descriptor : CapabilityDescriptor)
    : result ContractError CapabilityDescriptor :=
  refuse_if (cd_descriptor_revision descriptor =? 0)%N
    (InvalidContract "descriptor revision must be nonzero") ;;
  refuse_if (bool_decide (cd_operations descriptor = ∅)
             || (MAX_OPERATIONS <? N.of_nat (size (cd_operations descriptor)))%N)
    (Bounds "descriptor.operations" "operation count must be between 1 and 256") ;;
  for_each OperationContract_validate (values (cd_operations descriptor)) ;;
  refuse_if (max_concurrent (cd_admission descriptor) =? 0)%N
    (InvalidContract "max_concurrent must be nonzero") ;;
  refuse_if (xorb (is_some (cd_peer descriptor)) (bool_decide (cd_locality descriptor = LocPeer)))
    (InvalidContract "peer identity must be present exactly for peer-locality descriptors") ;;
  refuse_if ((MAX_LABELS <? N.of_nat (size (cd_labels descriptor)))%N
             || existsb (λ l, is_empty l || (96 <? strlen l)%N) (members (cd_labels descriptor)))
    (Bounds "descriptor.labels" "at most 64 nonempty labels of 96 bytes are allowed") ;;
  refuse_if (MAX_LABELS <? N.of_nat (size (cd_trust_zones descriptor)))%N
    (Bounds "descriptor.trust_zones" "at most 64 trust zones are allowed") ;;
  match cd_resource_observations descriptor with
  | Some resources => ResourceObservations_validate resources
  | None => Ok tt
  end ;;
  validate_extensions (cd_extensions descriptor) ;;
  Ok descriptor.

#[global] Instance SchemaContract_eq_dec : EqDecision SchemaContract.
Proof. solve_decision. Defined.
#[global] Instance FeatureContract_eq_dec : EqDecision FeatureContract.
Proof. solve_decision. Defined.
#[global] Instance OperationContract_eq_dec : EqDecision OperationContract.
Proof. solve_decision. Defined.
#[global] Instance AdmissionConstraints_eq_dec : EqDecision AdmissionConstraints.
Proof. solve_decision. Defined.
#[global] Instance ResourceObservations_eq_dec : EqDecision ResourceObservations.
Proof. solve_decision. Defined.
#[global] Instance PlacementRequirement_eq_dec : EqDecision PlacementRequirement.
Proof. solve_decision. Defined.
#[global] Instance CapabilityDescriptor_eq_dec : EqDecision CapabilityDescriptor.
Proof. solve_decision. Defined.
#[global] Instance CapabilityRequirement_eq_dec : EqDecision CapabilityRequirement.
Proof. solve_decision. Defined.

(** ** Invocations ([invocation.rs], [invocation/usage.rs]) *)

Definition MAX_INPUT_NAME : N := 128.
Definition MAX_DURABLE_REFERENCE_BYTES : N := 1024.
Definition MAX_ARTIFACT_MEDIA_TYPE_BYTES : N := 255.
Definition MAX_EVENT_TEXT : N := 4096.
Definition MAX_INPUTS : N := 256.

Record ArtifactReference := mkArtifactReference {
  ar_identity : string;
  ar_digest : string;
  ar_media_type : option string;
  ar_size_bytes : option N
}.

Definition ArtifactReference_new (identity digest : string) (media_type : option string)
    (size_bytes : option N) : result ContractError ArtifactReference :=
  refuse_if (is_empty identity || (MAX_DURABLE_REFERENCE_BYTES <? strlen identity)%N)
    (Bounds "artifact.identity" "must contain 1 to 1024 bytes") ;;
  refuse_if (negb (is_hex64 digest))
    (InvalidContract "artifact digest must be 64 lowercase hexadecimal characters") ;;
  refuse_if (is_some_and (λ v, is_empty v || (MAX_ARTIFACT_MEDIA_TYPE_BYTES <? strlen v)%N) media_type)
    (Bounds "artifact.media_type" "must contain 1 to 255 bytes when supplied") ;;
  Ok (mkArtifactReference identity digest media_type size_bytes).
Definition ArtifactReference_validate (r : ArtifactReference) : result ContractError () :=
  ArtifactReference_new (ar_identity r) (ar_digest r) (ar_media_type r) (ar_size_bytes r) ;; Ok tt.

Inductive InvocationValueReference :=
| RefArtifact (reference : ArtifactReference)
| RefWorkspaceValue (identity version : string)
| RefInline (value : Value).

Definition InvocationValueReference_validate (v : InvocationValueReference)
    : result ContractError () :=
  match v with
  | RefArtifact reference => ArtifactReference_validate reference
  | RefWorkspaceValue identity version =>
      refuse_if (is_empty identity || (MAX_DURABLE_REFERENCE_BYTES <? strlen identity)%N
                 || is_empty version || (MAX_DURABLE_REFERENCE_BYTES <? strlen version)%N)
        (Bounds "workspace_value" "identity and version must contain 1 to 1024 bytes")
  | RefInline _ => Ok tt
  end.

Record InputReference := mkInputReference {
  ir_name : string;
  ir_value : InvocationValueReference
}.
Definition InputReference_validate_name (name : string) : result ContractError () :=
  refuse_if (is_empty name || (MAX_INPUT_NAME <? strlen name)%N
             || negb (forallb (λ b, is_ascii_alphanumeric b || (b =? 95)%N || (b =? 45)%N
                                    || (b =? 46)%N || (b =? 58)%N) (bytes name)))
    (Bounds "input.name" "must contain 1 to 128 safe ASCII bytes").
Definition InputReference_validate (i : InputReference) : result ContractError () :=
  InputReference_validate_name (ir_name i) ;;
  InvocationValueReference_validate (ir_value i).
Definition InputReference_new (name : string) (value : InvocationValueReference)
    : result ContractError InputReference :=
  InputReference_validate (mkInputReference name value) ;; Ok (mkInputReference name value).

Definition INVOCATION_REQUEST_SCHEMA_VERSION_V3 : N := 3.
Record InvocationRequest := mkInvocationRequest {
  iv_invocation : InvocationId;
  iv_capability : CapabilityId;
  iv_operation : OperationId;
  iv_provider_profile : option ProviderProfileRef;
  iv_idempotency_key : option string;
  iv_inputs : list InputReference;
  iv_extensions : Extensions
}.

Definition InvocationRequest_new `{!Serialize Extensions} (invocation : InvocationId)
    (capability : CapabilityId) (operation : OperationId)
    (provider_profile : option ProviderProfileRef) (idempotency_key : option string)
    (inputs : list InputReference) (extensions : Extensions)
    : result ContractError InvocationRequest :=
  refuse_if (MAX_INPUTS <? vlen inputs)%N
    (Bounds "invocation.inputs" "at most 256 inputs are allowed") ;;
  try_fold (λ (names : gset string) input,
    InputReference_validate input ;;
    refuse_if (bool_decide (ir_name input ∈ names))
      (InvalidContract ("duplicate input name '" +:+ ir_name input +:+ "'")) ;;
    Ok ({[ir_name input]} ∪ names)) ∅ inputs ;;
  validate_extensions extensions ;;
  Ok (mkInvocationRequest invocation capability operation provider_profile idempotency_key
        inputs extensions).

Inductive ErrorClass :=
| EcAuthentication | EcAuthorization | EcInvalidRequest | EcRateLimit | EcTransport
| EcProvider | EcAdapter | EcUnsupported | EcUnknown.

Record InvocationFailure := mkFailure {
  if_class : ErrorClass;
  if_retryable : bool;
  if_code : string;
  if_message : string;
  if_retry_after_ms : option N
}.
Definition InvocationFailure_validate (f : InvocationFailure) : result ContractError () :=
  refuse_if (is_empty (if_code f) || (128 <? strlen (if_code f))%N
             || (MAX_EVENT_TEXT <? strlen (if_message f))%N)
    (Bounds "invocation.failure" "code must be 1..=128 bytes and message at most 4096").
Definition InvocationFailure_new (class : ErrorClass) (retryable : bool) (code message : string)
    (retry_after_ms : option N) : result ContractError InvocationFailure :=
  let failure := mkFailure class retryable code message retry_after_ms in
  InvocationFailure_validate failure ;; Ok failure.

Inductive TerminalStatus :=
| TsSuccess | TsFailure | TsCancelled | TsRejected | TsUncertain.

Record UsageObservation := mkUsage {
  us_nested_work : option NestedWorkUsage;
  us_input_units : option N;
  us_output_units : option N;
  us_duration_ms : option N;
  us_cost_micros : option N;
  us_currency : option string;
  us_extensions : Extensions
}.
Definition UsageObservation_validate `{!Serialize Extensions} (u : UsageObservation)
    : result ContractError () :=
  refuse_if (xorb (is_some (us_cost_micros u)) (is_some (us_currency u)))
    (InvalidContract "usage cost and currency must be supplied together") ;;
  refuse_if (is_some_and (λ c, negb (is_currency c)) (us_currency u))
    (InvalidContract "usage currency must be a three-letter uppercase ISO code") ;;
  validate_extensions (us_extensions u).

Record InvocationTerminal := mkTerminal {
  it_status : TerminalStatus;
  it_outputs : list ArtifactReference;
  it_failure : option InvocationFailure;
  it_usage : option UsageObservation;
  it_side_effect : SideEffectClass
}.

#[global] Instance ArtifactReference_eq_dec : EqDecision ArtifactReference.
Proof. solve_decision. Defined.
#[global] Instance InvocationValueReference_eq_dec : EqDecision InvocationValueReference.
Proof. solve_decision. Defined.
#[global] Instance InputReference_eq_dec : EqDecision InputReference.
Proof. solve_decision. Defined.
#[global] Instance InvocationRequest_eq_dec : EqDecision InvocationRequest.
Proof. solve_decision. Defined.
#[global] Instance ErrorClass_eq_dec : EqDecision ErrorClass.
Proof. solve_decision. Defined.
#[global] Instance InvocationFailure_eq_dec : EqDecision InvocationFailure.
Proof. solve_decision. Defined.
#[global] Instance TerminalStatus_eq_dec : EqDecision TerminalStatus.
Proof. solve_decision. Defined.
#[global] Instance UsageObservation_eq_dec : EqDecision UsageObservation.
Proof. solve_decision. Defined.
#[global] Instance InvocationTerminal_eq_dec : EqDecision InvocationTerminal.
Proof. solve_decision. Defined.

Definition requires_failure (s : TerminalStatus) : bool :=
  match s with TsFailure | TsRejected | TsUncertain => true | TsSuccess | TsCancelled => false end.
Definition permits_outputs (s : TerminalStatus) : bool :=
  match s with TsSuccess | TsUncertain => true | _ => false end.

Definition InvocationTerminal_validate `{!Serialize Extensions} (t : InvocationTerminal)
    : result ContractError () :=
  refuse_if (MAX_INPUTS <? vlen (it_outputs t))%N
    (Bounds "terminal.outputs" "at most 256 output references are allowed") ;;
  for_each ArtifactReference_validate (it_outputs t) ;;
  refuse_if (xorb (requires_failure (it_status t)) (is_some (it_failure t)))
    (InvalidContract
       "failure details must be present exactly for failure, rejection, or uncertainty") ;;
  refuse_if (negb (permits_outputs (it_status t)) && negb (vlen (it_outputs t) =? 0)%N)
    (InvalidContract
       "outputs are permitted only for success or uncertain terminal outcomes") ;;
  match it_failure t with Some failure => InvocationFailure_validate failure | None => Ok tt end ;;
  match it_usage t with Some usage => UsageObservation_validate usage | None => Ok tt end.

Inductive InvocationEventKind :=
| EvProgress (message : string) (completed_units total_units : option N)
| EvOutput (name : string) (reference : ArtifactReference)
| EvTerminal (terminal : InvocationTerminal).

Definition InvocationEventKind_validate `{!Serialize Extensions} (k : InvocationEventKind)
    : result ContractError () :=
  match k with
  | EvProgress message completed_units total_units =>
      refuse_if (MAX_EVENT_TEXT <? strlen message)%N
        (Bounds "event.progress.message" "must not exceed 4096 bytes") ;;
      refuse_if (match completed_units, total_units with
                 | Some d, Some t => (t <? d)%N | _, _ => false end)
        (InvalidContract "completed progress units cannot exceed total units")
  | EvOutput name reference =>
      refuse_if (is_empty name || (MAX_INPUT_NAME <? strlen name)%N)
        (Bounds "event.output.name" "must contain 1 to 128 bytes") ;;
      ArtifactReference_validate reference
  | EvTerminal terminal => InvocationTerminal_validate terminal
  end.

Record InvocationEvent := mkEvent {
  ev_invocation : InvocationId;
  ev_sequence : N;
  ev_kind : InvocationEventKind
}.
Definition InvocationEvent_new `{!Serialize Extensions} (invocation : InvocationId) (sequence : N)
    (kind : InvocationEventKind) : result ContractError InvocationEvent :=
  refuse_if (sequence =? 0)%N (InvalidContract "event sequence must start at one") ;;
  InvocationEventKind_validate kind ;;
  Ok (mkEvent invocation sequence kind).

(** [.kind().progress()], [.kind().output()] and [.kind().terminal()]. *)
Definition event_progress (e : InvocationEvent) : option string :=
  match ev_kind e with EvProgress message _ _ => Some message | _ => None end.
Definition event_output (e : InvocationEvent) : option (string * ArtifactReference) :=
  match ev_kind e with EvOutput name reference => Some (name, reference) | _ => None end.
Definition event_terminal (e : InvocationEvent) : option InvocationTerminal :=
  match ev_kind e with EvTerminal terminal => Some terminal | _ => None end.

Record CancellationRequest := mkCancellationRequest {
  cq_invocation : InvocationId;
  cq_request_sequence : N;
  cq_reason : string
}.
Definition CancellationRequest_new (invocation : InvocationId) (sequence : N) (reason : string)
    : result ContractError CancellationRequest :=
  refuse_if ((sequence =? 0)%N || is_empty reason || (512 <? strlen reason)%N)
    (InvalidContract
       "cancellation sequence must be nonzero and reason must contain 1..=512 bytes") ;;
  Ok (mkCancellationRequest invocation sequence reason).

Record CancellationAcknowledgement := mkAcknowledgement {
  ca_invocation : InvocationId;
  ca_request_sequence : N;
  ca_accepted : bool;
  ca_terminal_boundary : bool;
  ca_detail : option string
}.
Definition CancellationAcknowledgement_new (invocation : InvocationId) (sequence : N)
    (accepted terminal_boundary : bool) (detail : option string)
    : result ContractError CancellationAcknowledgement :=
  refuse_if ((sequence =? 0)%N || is_some_and (λ d, 512 <? strlen d)%N detail
             || (negb accepted && terminal_boundary))
    (InvalidContract "invalid cancellation acknowledgement semantics") ;;
  Ok (mkAcknowledgement invocation sequence accepted terminal_boundary detail).

#[global] Instance InvocationEventKind_eq_dec : EqDecision InvocationEventKind.
Proof. solve_decision. Defined.
#[global] Instance InvocationEvent_eq_dec : EqDecision InvocationEvent.
Proof. solve_decision. Defined.

(** ** Resolved snapshots ([resolved.rs]) *)

Record SnapshotDigestPayload := mkPayload {
  sp_schema_version : N;
  sp_capability : CapabilityId;
  sp_descriptor_revision : N;
  sp_provider_profile : option ProviderProfileRef;
  sp_category : CapabilityCategory;
  sp_operation : OperationId;
  sp_operation_contract : OperationContract;
  sp_execution_trust : ExecutionTrustClass;
  sp_descriptor_extensions : Extensions;
  sp_locality : Locality;
  sp_peer : option PeerId;
  sp_trust_zones : gset TrustZone
}.

Record ResolvedCapabilitySnapshot := mkSnapshot {
  rs_capability : CapabilityId;
  rs_descriptor_revision : N;
  rs_provider_profile : option ProviderProfileRef;
  rs_category : CapabilityCategory;
  rs_operation : OperationId;
  rs_operation_contract : OperationContract;
  rs_execution_trust : ExecutionTrustClass;
  rs_descriptor_extensions : Extensions;
  rs_locality : Locality;
  rs_peer : option PeerId;
  rs_trust_zones : gset TrustZone;
  rs_digest : string
}.
#[global] Instance ResolvedCapabilitySnapshot_eq_dec : EqDecision ResolvedCapabilitySnapshot.
Proof. solve_decision. Defined.

Section resolved.
Context `{!Blake3, !Serialize SnapshotDigestPayload, !Serialize Value}.

Definition compute_digest (payload : SnapshotDigestPayload) : result ContractError string :=
  canonical_payload ← document_json_bytes payload;
  Ok (blake3_hex ("milkdrift.resolved-capability-snapshot.v3"
        +:+ String (ascii_of_N 0) EmptyString +:+ canonical_payload)).

Definition from_descriptor (descriptor : CapabilityDescriptor) (operation : OperationId)
    : result ContractError ResolvedCapabilitySnapshot :=
  operation_contract ← ok_or (cd_operations descriptor !! operation)
    (InvalidContract ("descriptor '" +:+ cd_identity descriptor
       +:+ "' does not advertise operation '" +:+ operation +:+ "'"));
  digest ← compute_digest (mkPayload 3 (cd_identity descriptor)
    (cd_descriptor_revision descriptor) (cd_provider_profile descriptor)
    (cd_category descriptor) operation operation_contract (cd_execution_trust descriptor)
    (cd_extensions descriptor) (cd_locality descriptor) (cd_peer descriptor)
    (cd_trust_zones descriptor));
  Ok (mkSnapshot (cd_identity descriptor) (cd_descriptor_revision descriptor)
    (cd_provider_profile descriptor) (cd_category descriptor) operation operation_contract
    (cd_execution_trust descriptor) (cd_extensions descriptor) (cd_locality descriptor)
    (cd_peer descriptor) (cd_trust_zones descriptor) digest).

Definition ResolvedCapabilitySnapshot_validate (s : ResolvedCapabilitySnapshot)
    : result ContractError () :=
  refuse_if (rs_descriptor_revision s =? 0)%N
    (InvalidContract "resolved capability snapshot descriptor revision must be nonzero") ;;
  refuse_if ((64 <? N.of_nat (size (rs_trust_zones s)))%N
             || xorb (bool_decide (rs_locality s = LocPeer)) (is_some (rs_peer s)))
    (InvalidContract "snapshot placement facts are incomplete or contradictory") ;;
  expected ← compute_digest (mkPayload 3 (rs_capability s) (rs_descriptor_revision s)
    (rs_provider_profile s) (rs_category s) (rs_operation s) (rs_operation_contract s)
    (rs_execution_trust s) (rs_descriptor_extensions s) (rs_locality s) (rs_peer s)
    (rs_trust_zones s));
  refuse_if (bool_decide (rs_digest s ≠ expected))
    (InvalidContract "resolved capability snapshot digest does not match its exact facts").

Definition validate_against (s : ResolvedCapabilitySnapshot) (descriptor : CapabilityDescriptor)
    : result ContractError () :=
  ResolvedCapabilitySnapshot_validate s ;;
  descriptor_operation ← ok_or (cd_operations descriptor !! rs_operation s)
    (InvalidContract ("descriptor '" +:+ cd_identity descriptor
       +:+ "' does not advertise snapshot operation '" +:+ rs_operation s +:+ "'"));
  refuse_if (bool_decide (rs_capability s ≠ cd_identity descriptor)
      || bool_decide (rs_descriptor_revision s ≠ cd_descriptor_revision descriptor)
      || bool_decide (rs_provider_profile s ≠ cd_provider_profile descriptor)
      || bool_decide (rs_category s ≠ cd_category descriptor)
      || bool_decide (rs_operation_contract s ≠ descriptor_operation)
      || bool_decide (rs_execution_trust s ≠ cd_execution_trust descriptor)
      || bool_decide (rs_descriptor_extensions s ≠ cd_extensions descriptor)
      || bool_decide (rs_locality s ≠ cd_locality descriptor)
      || bool_decide (rs_peer s ≠ cd_peer descriptor)
      || bool_decide (rs_trust_zones s ≠ cd_trust_zones descriptor))
    (InvalidContract
       "resolved capability snapshot does not match the exact descriptor revision").

Definition validate_request (s : ResolvedCapabilitySnapshot) (request : InvocationRequest)
    : result ContractError () :=
  ResolvedCapabilitySnapshot_validate s ;;
  refuse_if (bool_decide (iv_capability request ≠ rs_capability s)
      || bool_decide (iv_operation request ≠ rs_operation s)
      || bool_decide (iv_provider_profile request ≠ rs_provider_profile s))
    (InvalidContract "invocation selection does not equal the resolved capability snapshot") ;;
  refuse_if (bool_decide (oc_idempotency (rs_operation_contract s) = IdemUnsupported)
             && is_some (iv_idempotency_key request))
    (InvalidContract
       "an operation advertising unsupported idempotency cannot receive a key") ;;
  refuse_if (bool_decide (oc_side_effect (rs_operation_contract s) = SideIdempotentWrite)
             && (bool_decide (oc_idempotency (rs_operation_contract s) = IdemUnsupported)
                 || negb (is_some (iv_idempotency_key request))))
    (InvalidContract "an idempotent write requires advertised idempotency and a stable key").
End resolved.

(** ** Matching *)

(** What a requirement asks of a descriptor, as a proposition. *)
Definition operation_satisfies (o : OperationContract) (r : CapabilityRequirement) : Prop :=
  (∀ f, f ∈ cr_required_features r → is_Some (oc_features o !! f))
  ∧ (∀ s, cr_streaming r = Some s → s ∈ oc_streaming o)
  ∧ (cr_cancellation_required r = true → oc_cancellation o ≠ CancelUnsupported)
  ∧ (side_effect_rank (oc_side_effect o) ≤ side_effect_rank (cr_maximum_side_effect r))%N.

Definition satisfies (d : CapabilityDescriptor) (r : CapabilityRequirement) : Prop :=
  (∀ c, cr_exact_capability r = Some c → cd_identity d = c)
  ∧ (∀ p, cr_provider_profile r = Some p → cd_provider_profile d = Some p)
  ∧ (cr_categories r = ∅ ∨ cd_category d ∈ cr_categories r)
  ∧ (∃ o, cd_operations d !! cr_operation r = Some o ∧ operation_satisfies o r)
  ∧ cr_trust_zones r ⊆ cd_trust_zones d
  ∧ (∀ t, cr_execution_trust r = Some t → cd_execution_trust d = t)
  ∧ (∀ p, cr_placement r = Some p →
      (∀ l, pl_localities p = Some l → cd_locality d ∈ l)
      ∧ (∀ ps, pl_peers p = Some ps → cd_locality d = LocPeer ∧ ∃ q, cd_peer d = Some q ∧ q ∈ ps)).

Lemma reason_if_nil c r : reason_if c r = [] ↔ c = false.
Proof. destruct c; naive_solver. Qed.

Lemma placement_matches_true p locality peer :
  placement_matches p locality peer = true ↔
  (∀ l, pl_localities p = Some l → locality ∈ l)
  ∧ (∀ ps, pl_peers p = Some ps → locality = LocPeer ∧ ∃ q, peer = Some q ∧ q ∈ ps).
Proof.
  unfold placement_matches. rewrite andb_true_iff, !is_none_or_true.
  setoid_rewrite andb_true_iff. setoid_rewrite is_some_and_true.
  by repeat setoid_rewrite bool_decide_eq_true.
Qed.

Ltac solve_stable :=
  split; intros H x Hx; specialize (H x Hx); [apply dec_stable in H|]; congruence.

Lemma matches_satisfies d r : is_match (matches d r) = true ↔ satisfies d r.
Proof.
  unfold is_match, matches, satisfies. rewrite bool_decide_eq_true.
  destruct (cd_operations d !! cr_operation r) as [o|].
  - unfold operation_satisfies.
    repeat setoid_rewrite app_nil. repeat setoid_rewrite reason_if_nil.
    setoid_rewrite is_some_and_false. repeat setoid_rewrite andb_false_iff.
    repeat setoid_rewrite negb_false_iff. setoid_rewrite forallb_members.
    setoid_rewrite placement_matches_true. setoid_rewrite N.ltb_ge.
    repeat setoid_rewrite bool_decide_eq_true. repeat setoid_rewrite bool_decide_eq_false.
    repeat apply Morphisms_Prop.and_iff_morphism; [| | | |set_solver| |done].
    1,2,5: solve_stable.
    + destruct (decide (cr_categories r = ∅)), (decide (cd_category d ∈ cr_categories r)); tauto.
    + split.
      * intros (? & Hs & ? & ?). exists o. split_and!; [done|done| | |done]; [|destruct (cr_cancellation_required r); naive_solver].
        intros s Hs'. by apply dec_stable, Hs.
      * intros (? & [= <-] & ? & ? & Hc & ?). split_and!; [done| | |done].
        -- naive_solver.
        -- destruct (cr_cancellation_required r); [right; by apply Hc|by left].
  - repeat setoid_rewrite app_nil. naive_solver.
Qed.

(** C27: A descriptor matches a requirement, with no mismatch reason reported, iff it
    satisfies every clause the requirement states: identity, profile, category,
    operation with its features, streaming, cancellation and side-effect ceiling,
    trust zones, execution trust and placement. *)
Theorem matches_spec d r : is_match (matches d r) = true ↔ satisfies d r.
Proof. apply matches_satisfies. Qed.

(** ** Snapshots agree with the descriptor they were resolved from *)

Section snapshot_laws.
Context `{!Blake3, !Serialize SnapshotDigestPayload, !Serialize Value, !Serialize Extensions}.

Lemma build_facts d d' :
  DescriptorBuilder_build d = Ok d' →
  d' = d ∧ cd_descriptor_revision d ≠ 0%N
  ∧ (N.of_nat (size (cd_trust_zones d)) ≤ 64)%N
  ∧ xorb (is_some (cd_peer d)) (bool_decide (cd_locality d = LocPeer)) = false.
Proof. unfold DescriptorBuilder_build. intros Hb. inv_ok. bool_prop. by split_and!. Qed.

End snapshot_laws.

Definition sample_schema : SchemaContract := mkSchemaContract "schema.text" 1 JNull.
Definition sample_operation : OperationContract :=
  mkOperationContract sample_schema sample_schema {[StreamNone]} CancelBestEffort
    CapabilityScoped SideReadOnly ∅.
Definition sample_descriptor : CapabilityDescriptor :=
  mkDescriptor "process/check" 1 None CatProcess {["process.run" := sample_operation]}
    (mkAdmissionConstraints 4 0) LocLocal None {["local"]} TrustedHostProcess None ∅ ∅.
Definition sample_snapshot : ResolvedCapabilitySnapshot :=
  match @from_descriptor sample_blake3 sample_serialize sample_serialize
          sample_descriptor "process.run" with
  | Ok s => s
  | Err _ => mkSnapshot "" 0 None CatModel "" sample_operation TrustUnspecified ∅ LocLocal None ∅ ""
  end.

