(* ===== verification/Blueprint.v ===== *)
(** * Task definitions ([crates/blueprint/src/task.rs])

    Input values and bindings, task definitions and their bounds, workflow limits,
    edit batches, and the validation of a whole prospective task set. *)
From S2P Require Import Prelude Contracts Capability.
From stdpp Require Import relations fin_sets.

Abbreviation TaskId := string (only parsing).

Definition DEFAULT_WORKFLOW_TASKS : N := 256.
Definition MAX_TASK_BATCH_ACTIONS : N := 32.
Definition MAX_TASK_DEFINITION_BYTES : N := 1048576.
Definition MAX_TASK_TEXT_BYTES : N := 16384.
Definition MAX_TASK_OUTPUT_BYTES : N := 2097152.
Definition MAX_TASK_RENDERED_BYTES : N := 24576.

Inductive TaskDefinitionError := mkTaskDefinitionError (message : string).
#[global] Instance TaskDefinitionError_eq_dec : EqDecision TaskDefinitionError.
Proof. solve_decision. Defined.

Inductive TaskInputValue :=
| Text (text : string)
| TextFile (name text digest : string) (source_artifact : option string)
| Json (value : Value)
| Artifact (reference : ArtifactReference)
| Absent.

Inductive TaskInputBinding :=
| Inline (value : TaskInputValue)
| Supplied (name : string) (optional : bool)
| TaskOutput (task : TaskId) (output : string) (optional : bool)
| SettledOutcome (task : TaskId).

Record TaskPathAccess := mkPathAccess { pa_path : string; pa_write : bool }.

Record TaskOutputDeclaration := mkOutputDeclaration {
  od_required : bool;
  od_media_type : option string;
  od_max_bytes : N
}.

Record TaskBindingRedirect := mkRedirect {
  br_consumer : TaskId;
  br_expected_version : N;
  br_input : string
}.

Inductive TaskTool :=
| ReadFile
| WriteFile
| ProcessTool (capability : CapabilityRequirement).

Record TaskActionPolicy := mkActionPolicy { automatic_repair : bool }.

Record TaskDefinition := mkDefinition {
  td_actions : option TaskActionPolicy;
  td_title : string;
  td_description : string;
  td_instructions : string;
  td_capability : CapabilityRequirement;
  td_inputs : gmap string TaskInputBinding;
  td_outputs : gmap string TaskOutputDeclaration;
  td_dependencies : gset TaskId;
  td_required : bool;
  td_corrective_of : option TaskId;
  td_paths : list TaskPathAccess;
  td_tools : list TaskTool
}.
#[global] Instance eta_TaskDefinition : Settable TaskDefinition := λ d,
  mkDefinition (td_actions d) (td_title d) (td_description d) (td_instructions d)
    (td_capability d) (td_inputs d) (td_outputs d) (td_dependencies d) (td_required d)
    (td_corrective_of d) (td_paths d) (td_tools d).

Record WorkflowLimits := mkLimits {
  wl_tasks : N;
  wl_concurrent_tasks : N;
  wl_model_batches : N;
  wl_rejected_responses : N;
  wl_corrective_failures : N;
  wl_active_execution_ms : N;
  wl_tool_calls_per_task : N
}.

Definition WorkflowLimits_default : WorkflowLimits :=
  mkLimits DEFAULT_WORKFLOW_TASKS 4 32 3 3 3600000 16.

Inductive TaskChange :=
| DismissAdmission (task : TaskId)
| Add (alias : TaskId) (definition : TaskDefinition)
| Revise (task : TaskId) (expected_version : N) (definition : TaskDefinition)
| Remove (task : TaskId) (expected_version : N)
| BindInput (name : string) (value : TaskInputValue)
| Stop (task : TaskId)
| AdoptCorrection (task correction : TaskId) (redirects : list TaskBindingRedirect)
| SetLimits (limits : WorkflowLimits)
| Continue
| Wait (question : string)
| Finish.

Record TaskBatch := mkBatch { tb_expected_generation : N; tb_changes : list TaskChange }.
Record NewTask := mkNewTask { nt_alias : TaskId; nt_definition : TaskDefinition }.
Record WorkflowCreate := mkCreate {
  wc_title : string;
  wc_description : string;
  wc_tasks : list NewTask;
  wc_inputs : gmap string TaskInputValue;
  wc_limits : WorkflowLimits;
  wc_finish_when_settled : bool
}.

#[global] Instance TaskInputValue_eq_dec : EqDecision TaskInputValue.
Proof. solve_decision. Defined.
#[global] Instance TaskInputBinding_eq_dec : EqDecision TaskInputBinding.
Proof. solve_decision. Defined.
#[global] Instance TaskPathAccess_eq_dec : EqDecision TaskPathAccess.
Proof. solve_decision. Defined.
#[global] Instance TaskOutputDeclaration_eq_dec : EqDecision TaskOutputDeclaration.
Proof. solve_decision. Defined.
#[global] Instance TaskBindingRedirect_eq_dec : EqDecision TaskBindingRedirect.
Proof. solve_decision. Defined.
#[global] Instance TaskTool_eq_dec : EqDecision TaskTool.
Proof. solve_decision. Defined.
#[global] Instance TaskActionPolicy_eq_dec : EqDecision TaskActionPolicy.
Proof. solve_decision. Defined.
#[global] Instance TaskDefinition_eq_dec : EqDecision TaskDefinition.
Proof. solve_decision. Defined.
#[global] Instance WorkflowLimits_eq_dec : EqDecision WorkflowLimits.
Proof. solve_decision. Defined.
#[global] Instance TaskChange_eq_dec : EqDecision TaskChange.
Proof. solve_decision. Defined.
#[global] Instance TaskBatch_eq_dec : EqDecision TaskBatch.
Proof. solve_decision. Defined.
#[global] Instance NewTask_eq_dec : EqDecision NewTask.
Proof. solve_decision. Defined.
#[global] Instance WorkflowCreate_eq_dec : EqDecision WorkflowCreate.
Proof. solve_decision. Defined.

(** The encoders and the hash the validators call. *)
Class TaskCodec := {
  codec_text :: Serialize string;
  codec_value :: Serialize Value;
  codec_input :: Serialize TaskInputValue;
  codec_tool :: Serialize TaskTool;
  codec_definition :: Serialize TaskDefinition;
  codec_blake3 :: Blake3
}.
Definition sample_codec : TaskCodec :=
  {| codec_text := sample_serialize; codec_value := sample_serialize;
     codec_input := sample_serialize; codec_tool := sample_serialize;
     codec_definition := sample_serialize; codec_blake3 := sample_blake3 |}.

Definition refused (message : string) : TaskDefinitionError := mkTaskDefinitionError message.

Section validation.
Context `{!TaskCodec}.

(** [serde_json::to_vec(..).map_err(|e| TaskDefinitionError(e.to_string()))] *)
Definition encode {A} `{!Serialize A} (a : A) : result TaskDefinitionError string :=
  map_err refused (to_vec a).

(** [format!("b3_{}", blake3::hash(text.as_bytes()))] *)
Definition text_digest (text : string) : string := "b3_" +:+ blake3_hex text.

Definition NUL : ascii := ascii_of_N 0.
Definition CR : ascii := ascii_of_N 13.
Definition LF : ascii := ascii_of_N 10.

Definition TaskInputValue_validate (self : TaskInputValue) : result TaskDefinitionError () :=
  encoded ← encode self;
  refuse_if (MAX_TASK_DEFINITION_BYTES <? strlen encoded)%N (refused "input exceeds 1 MiB") ;;
  content_bytes ← match self with
    | Text text | TextFile _ text _ _ => Ok (strlen text)
    | Json value => strlen <$> encode value
    | Artifact _ | Absent => Ok 0%N
    end;
  refuse_if (MAX_TASK_TEXT_BYTES <? content_bytes)%N
    (refused "task text or JSON input exceeds 16 KiB; shorten or split the input before submission") ;;
  match self with
  | TextFile name text digest source_artifact =>
      refuse_if (is_empty name || (255 <? strlen name)%N
                 || contains_any ["/"%char; "\"%char; NUL] name)
        (refused "captured file name must be a bounded basename") ;;
      refuse_if (bool_decide (digest ≠ text_digest text))
        (refused "captured text-file digest differs from its bytes") ;;
      refuse_if (is_some_and (λ i, is_empty i || (1024 <? strlen i)%N) source_artifact)
        (refused "captured file source identity is invalid")
  | _ => Ok tt
  end.

Definition text_file (name text : string) : result TaskDefinitionError TaskInputValue :=
  let value := TextFile name text (text_digest text) None in
  TaskInputValue_validate value ;; Ok value.

Definition validate_reference (self : TaskOutputDeclaration) (reference : ArtifactReference)
    : result TaskDefinitionError () :=
  refuse_if (is_none_or (λ b, od_max_bytes self <? b)%N (ar_size_bytes reference))
    (refused "output size is unknown or exceeds its allowance") ;;
  refuse_if (is_some_and (λ expected, bool_decide (ar_media_type reference ≠ Some expected))
               (od_media_type self))
    (refused "output media type differs from its contract").

Definition validate_name (name : string) : result TaskDefinitionError () :=
  refuse_if (is_empty name || (128 <? strlen name)%N
             || negb (forallb (λ b, is_ascii_alphanumeric b || (b =? 95)%N || (b =? 45)%N
                                    || (b =? 46)%N) (bytes name)))
    (refused "input/output name must contain 1..=128 safe ASCII bytes").

Definition validate_tool (self : TaskDefinition) (tool_keys : gset string) (tool : TaskTool)
    : result TaskDefinitionError (gset string) :=
  key ← encode tool;
  refuse_if (bool_decide (key ∈ tool_keys)) (refused "duplicate model tool selection") ;;
  refuse_if (match tool with
             | ReadFile => (vlen (td_paths self) =? 0)%N
             | WriteFile => negb (existsb pa_write (td_paths self))
             | ProcessTool _ => false
             end)
    (refused "file tools require matching task path claims") ;;
  Ok ({[key]} ∪ tool_keys).

Definition validate_output (output_bytes : N) (entry : string * TaskOutputDeclaration)
    : result TaskDefinitionError N :=
  validate_name entry.1 ;;
  refuse_if ((od_max_bytes entry.2 =? 0)%N
             || is_some_and (λ v, is_empty v || (255 <? strlen v)%N || contains_any [CR; LF] v)
                  (od_media_type entry.2))
    (refused "output declaration needs a positive byte bound and valid media type") ;;
  ok_or (checked_add output_bytes (od_max_bytes entry.2)) (refused "output byte bound overflow").

Definition validate_input (self : TaskDefinition) (entry : string * TaskInputBinding)
    : result TaskDefinitionError () :=
  validate_name entry.1 ;;
  refuse_if (bool_decide (entry.1 = "instructions") || bool_decide (entry.1 = "milkdrift.model_task"))
    (refused "task input name is reserved for the execution request") ;;
  match entry.2 with
  | Inline value => TaskInputValue_validate value
  | Supplied name _ => validate_name name
  | TaskOutput task output _ =>
      validate_name output ;;
      refuse_if (bool_decide (task ∉ td_dependencies self))
        (refused ("output binding requires dependency " +:+ task))
  | SettledOutcome task =>
      refuse_if (bool_decide (task ∉ td_dependencies self))
        (refused ("outcome binding requires dependency " +:+ task))
  end.

Definition validate_path (access : TaskPathAccess) : result TaskDefinitionError () :=
  refuse_if (negb (starts_with "/" (pa_path access)) || (4096 <? strlen (pa_path access))%N
             || contains_any [NUL] (pa_path access))
    (refused "native task paths must be bounded absolute paths").

Definition TaskDefinition_validate (self : TaskDefinition) : result TaskDefinitionError () :=
  refuse_if (trim_is_empty (td_title self) || (256 <? strlen (td_title self))%N
             || (4096 <? strlen (td_description self))%N)
    (refused "task title or description is empty or oversized") ;;
  refuse_if (trim_is_empty (td_instructions self)
             || (MAX_TASK_TEXT_BYTES <? strlen (td_instructions self))%N
             || (64 <? N.of_nat (size (td_inputs self)))%N
             || (64 <? N.of_nat (size (td_outputs self)))%N
             || (256 <? N.of_nat (size (td_dependencies self)))%N
             || (32 <? vlen (td_paths self))%N
             || (32 <? vlen (td_tools self))%N)
    (refused "task instructions or collection bounds are invalid") ;;
  try_fold (validate_tool self) ∅ (td_tools self) ;;
  output_bytes ← try_fold validate_output 0%N (entries (td_outputs self));
  refuse_if (MAX_TASK_OUTPUT_BYTES <? output_bytes)%N
    (refused "task declared output allowance exceeds 2 MiB") ;;
  for_each (validate_input self) (entries (td_inputs self)) ;;
  for_each validate_path (td_paths self) ;;
  encoded ← encode self;
  refuse_if (MAX_TASK_DEFINITION_BYTES <? strlen encoded)%N
    (refused "task definition exceeds 1 MiB").

Definition encoded_len (text : string) : result TaskDefinitionError N := strlen <$> encode text.

Definition validate_supplied_inputs (self : TaskDefinition) (supplied : gmap string TaskInputValue)
    : result TaskDefinitionError () :=
  total ← encoded_len (td_instructions self);
  total ← try_fold (λ total '(name, binding),
    heading ← encoded_len (String LF (String LF EmptyString) +:+ "Input " +:+ name +:+ ":"
                           +:+ String LF EmptyString);
    total ← ok_or (checked_add total heading) (refused "task input budget overflow");
    match match binding with
          | Inline value => Some value
          | Supplied name _ => supplied !! name
          | TaskOutput _ _ _ | SettledOutcome _ => None
          end with
    | None => Ok total
    | Some value =>
        TaskInputValue_validate value ;;
        rendered ← match value with
          | Text text | TextFile _ text _ _ => Ok text
          | Json value => encode value
          | Artifact _ => Ok "[immutable named artifact supplied with this request]"
          | Absent => Ok "[explicitly absent optional input]"
          end;
        content ← encoded_len rendered;
        ok_or (checked_add total content) (refused "task input budget overflow")
    end) total (entries (td_inputs self));
  refuse_if (MAX_TASK_RENDERED_BYTES <? total)%N
    (refused "task instructions and supplied inputs exceed the combined 24 KiB escaped-content budget; shorten or split the task").

Definition WorkflowLimits_validate (self : WorkflowLimits) : result TaskDefinitionError () :=
  refuse_if ((wl_tasks self =? 0)%N
      || (4096 <? wl_tasks self)%N
      || (wl_concurrent_tasks self =? 0)%N
      || (wl_tasks self <? wl_concurrent_tasks self)%N
      || (64 <? wl_concurrent_tasks self)%N
      || (wl_model_batches self =? 0)%N
      || (4096 <? wl_model_batches self)%N
      || (wl_rejected_responses self =? 0)%N
      || (wl_corrective_failures self =? 0)%N
      || (wl_active_execution_ms self =? 0)%N
      || (604800000 <? wl_active_execution_ms self)%N
      || (wl_tool_calls_per_task self =? 0)%N
      || (1024 <? wl_tool_calls_per_task self)%N)
    (refused "workflow limits are outside bounded supported values").

(** *** The whole prospective task set *)

(** The walk along correction origins of one task. [None] means the fuel ran out. *)
Fixpoint origin_chain (fuel : nat) (tasks : gmap TaskId TaskDefinition) (seen : gset TaskId)
    (origin : option TaskId) : option (result TaskDefinitionError ()) :=
  match origin with
  | None => Some (Ok tt)
  | Some current =>
      if decide (current ∈ seen)
      then Some (Err (refused "corrective origins contain a cycle"))
      else match fuel with
      | O => None
      | S fuel => origin_chain fuel tasks ({[current]} ∪ seen)
                    (tasks !! current ≫= td_corrective_of)
      end
  end.

(** The topological drain of the wait graph. [None] means the fuel ran out. *)
Fixpoint drain (fuel : nat) (remaining : gmap TaskId (gset TaskId))
    : option (result TaskDefinitionError ()) :=
  if decide (remaining = ∅) then Some (Ok tt) else
  let ready : gset TaskId := dom (filter (λ kv : TaskId * gset TaskId, kv.2 = ∅) remaining) in
  if decide (ready = ∅) then Some (Err (refused "task dependencies contain a cycle")) else
  match fuel with
  | O => None
  | S fuel =>
      drain fuel ((λ dependencies, dependencies ∖ ready)
                    <$> filter (λ kv : TaskId * gset TaskId, kv.1 ∉ ready) remaining)
  end.

(** Loops run with fuel the lemmas below show to be enough. *)
Definition run_loop (o : option (result TaskDefinitionError ())) : result TaskDefinitionError () :=
  match o with Some r => r | None => Err (refused "loop bound") end.

Section task_set.
Variable tasks : gmap TaskId TaskDefinition.
Variable published_output : TaskId → string → option ArtifactReference.

Definition validate_binding_source (id : TaskId) (binding : TaskInputBinding)
    : result TaskDefinitionError () :=
  match binding with
  | TaskOutput producer output _ =>
      let declaration := tasks !! producer ≫= λ task, td_outputs task !! output in
      let retained := published_output producer output in
      refuse_if (negb (is_some declaration) && negb (is_some retained))
        (refused ("task " +:+ id +:+ " references output " +:+ producer +:+ "/" +:+ output
           +:+ " without a declaration or retained publication")) ;;
      match declaration, retained with
      | None, Some reference =>
          refuse_if (negb (is_some (ar_media_type reference)))
            (refused ("task " +:+ id +:+ " references output " +:+ producer +:+ "/" +:+ output
               +:+ " without a retained media type")) ;;
          validate_reference (mkOutputDeclaration true None MAX_TASK_OUTPUT_BYTES) reference
      | _, _ => Ok tt
      end
  | _ => Ok tt
  end.

Definition waits_for (definition : TaskDefinition) : gset TaskId :=
  match td_corrective_of definition with
  | Some corrected => {[corrected]} ∪ td_dependencies definition
  | None => td_dependencies definition
  end.

(** One iteration of the first loop of [validate_task_set]. *)
Definition validate_member (id : TaskId) (definition : TaskDefinition)
    : result TaskDefinitionError () :=
  TaskDefinition_validate definition ;;
  refuse_if (existsb (λ d, bool_decide (d = id) || bool_decide (tasks !! d = None))
               (members (td_dependencies definition)))
    (refused ("task " +:+ id +:+ " has a missing or self dependency")) ;;
  match td_corrective_of definition with
  | Some corrected =>
      refuse_if (bool_decide (corrected = id) || bool_decide (tasks !! corrected = None))
        (refused ("task " +:+ id +:+ " has an invalid correction origin")) ;;
      run_loop (origin_chain (size tasks + 2) tasks {[id]} (Some corrected))
  | None => Ok tt
  end ;;
  for_each (validate_binding_source id) (values (td_inputs definition)).

Definition validate_task_set (limits : WorkflowLimits) : result TaskDefinitionError () :=
  WorkflowLimits_validate limits ;;
  refuse_if (wl_tasks limits <? N.of_nat (size tasks))%N
    (refused "workflow task capacity exhausted") ;;
  remaining ← try_fold (λ (remaining : gmap TaskId (gset TaskId)) '(id, definition),
      validate_member id definition ;;
      Ok (<[id := waits_for definition]> remaining)) ∅ (entries tasks);
  run_loop (drain (size remaining) remaining).

(** The wait graph the drain works on, as a relation on task identities. *)
Definition waits (a b : TaskId) : Prop :=
  ∃ definition, tasks !! a = Some definition ∧ b ∈ waits_for definition.

(** A prospective task set the runtime may admit. *)
Record task_set_valid (limits : WorkflowLimits) : Prop := {
  tsv_limits : WorkflowLimits_validate limits = Ok tt;
  tsv_capacity : (N.of_nat (size tasks) ≤ wl_tasks limits)%N;
  tsv_definitions : ∀ id d, tasks !! id = Some d → TaskDefinition_validate d = Ok tt;
  tsv_closed : ∀ a b, waits a b → is_Some (tasks !! b);
  tsv_sources : ∀ id d name producer output optional,
    tasks !! id = Some d → td_inputs d !! name = Some (TaskOutput producer output optional) →
    (∃ p, tasks !! producer = Some p ∧ is_Some (td_outputs p !! output))
    ∨ (∃ r media bytes, published_output producer output = Some r ∧ ar_media_type r = Some media
         ∧ ar_size_bytes r = Some bytes ∧ (bytes ≤ MAX_TASK_OUTPUT_BYTES)%N);
  tsv_acyclic : ∀ a, ¬ tc waits a a
}.
End task_set.
End validation.

(** ** The drain decides acyclicity *)

Definition edge (r : gmap TaskId (gset TaskId)) (a b : TaskId) : Prop :=
  ∃ s, r !! a = Some s ∧ b ∈ s.
Definition closed (r : gmap TaskId (gset TaskId)) : Prop :=
  ∀ a b, edge r a b → is_Some (r !! b).

Definition ready_of (r : gmap TaskId (gset TaskId)) : gset TaskId :=
  dom (filter (λ kv : TaskId * gset TaskId, kv.2 = ∅) r).
Definition drain_step (r : gmap TaskId (gset TaskId)) : gmap TaskId (gset TaskId) :=
  (λ s, s ∖ ready_of r) <$> filter (λ kv : TaskId * gset TaskId, kv.1 ∉ ready_of r) r.

Lemma elem_of_ready r a : a ∈ ready_of r ↔ r !! a = Some ∅.
Proof.
  unfold ready_of. rewrite elem_of_dom. split.
  - intros [s [Hs Hs']%map_lookup_filter_Some]. cbn in Hs'. by subst.
  - intros Ha. exists ∅. by apply map_lookup_filter_Some.
Qed.

Lemma lookup_drain_step r a s :
  drain_step r !! a = Some s ↔ ∃ s', r !! a = Some s' ∧ s' ≠ ∅ ∧ s = s' ∖ ready_of r.
Proof.
  unfold drain_step. rewrite lookup_fmap, fmap_Some. split.
  - intros (s' & [Ha Hr]%map_lookup_filter_Some & ->). cbn in Hr.
    exists s'. split_and!; [done| |done]. intros ->. by apply Hr, elem_of_ready.
  - intros (s' & Ha & Hne & ->). exists s'. split; [|done]. apply map_lookup_filter_Some.
    split; [done|]. cbn. rewrite elem_of_ready. congruence.
Qed.

Lemma edge_drain_step r a b : edge (drain_step r) a b ↔ edge r a b ∧ b ∉ ready_of r.
Proof.
  unfold edge. setoid_rewrite lookup_drain_step. split.
  - intros (s & (s' & Ha & _ & ->) & Hb). set_solver.
  - intros ((s & Ha & Hb) & Hr). eexists. split; [|apply elem_of_difference; done].
    exists s. set_solver.
Qed.

Lemma closed_drain_step r : closed r → closed (drain_step r).
Proof.
  intros Hc a b [He Hb]%edge_drain_step. destruct (Hc _ _ He) as [s Hs].
  exists (s ∖ ready_of r). apply lookup_drain_step. exists s. split_and!; [done| |done].
  intros ->. by apply Hb, elem_of_ready.
Qed.

Lemma size_drain_step r : ready_of r ≠ ∅ → size (drain_step r) < size r.
Proof.
  intros [a Ha%elem_of_ready]%set_choose_L.
  unfold drain_step. rewrite map_size_fmap. apply map_subset_size. split.
  - apply map_filter_subseteq.
  - intros Hsub. pose proof (lookup_weaken _ _ _ _ Ha Hsub) as Hf.
    apply map_lookup_filter_Some in Hf as [_ Hn]. by apply Hn, elem_of_ready.
Qed.

Lemma drain_unfold fuel r :
  drain fuel r =
    if decide (r = ∅) then Some (Ok tt) else
    if decide (ready_of r = ∅) then Some (Err (refused "task dependencies contain a cycle")) else
    match fuel with O => None | S fuel => drain fuel (drain_step r) end.
Proof. by destruct fuel. Qed.

(** Every iteration removes a ready task, so the initial size is enough fuel. *)
Lemma drain_total fuel r : size r ≤ fuel → ∃ res, drain fuel r = Some res.
Proof.
  revert r. induction fuel as [|fuel IH]; intros r Hr; rewrite drain_unfold; repeat case_decide; eauto.
  - apply Nat.le_0_r, map_size_empty_inv in Hr. done.
  - apply IH. pose proof (size_drain_step r). naive_solver lia.
Qed.

(** A cycle survives each iteration: its tasks all wait for something. *)
Lemma tc_drain_step r a b :
  tc (edge r) a b → (∃ c, edge r b c) → tc (edge (drain_step r)) a b.
Proof.
  assert (∀ x y z, edge r x y → edge r y z → edge (drain_step r) x y) as Hkeep.
  { intros x y z Hxy (s & Hy & Hz). apply edge_drain_step. split; [done|].
    rewrite elem_of_ready, Hy. intros [= ->]. set_solver. }
  induction 1 as [x y Hxy|x y z Hxy Hyz IH]; intros [c Hc]; [by econstructor; eauto|].
  econstructor 2; [|by eauto]. inversion Hyz; eauto.
Qed.

Lemma drain_sound fuel r : drain fuel r = Some (Ok tt) → ∀ a, ¬ tc (edge r) a a.
Proof.
  assert (∀ a, ¬ tc (edge ∅) a a) as Hempty.
  { intros a Ha. inversion Ha as [?? (s & Hs & _)|??? (s & Hs & _)]; by rewrite lookup_empty in Hs. }
  revert r. induction fuel as [|fuel IH]; intros r; rewrite drain_unfold;
    repeat case_decide; subst; try done.
  intros Hd a Ha. apply (IH _ Hd a), tc_drain_step; [done|].
  inversion Ha; eauto.
Qed.

(** In a finite acyclic closed graph some task waits for nothing. *)
Lemma acyclic_ready r :
  closed r → (∀ a, ¬ tc (edge r) a a) → r ≠ ∅ → ready_of r ≠ ∅.
Proof.
  intros Hc Hacyc [a [s Ha]]%map_choose Hr.
  assert (sn (edge r) a) as Hsn.
  { apply tc_finite_sn; [done|]. exists (elements (dom r)). intros x Hx.
    apply elem_of_elements, elem_of_dom. clear -Hc Hx. induction Hx; eauto. }
  revert s Ha. induction Hsn as [a _ IH]. intros s Ha.
  destruct (decide (s = ∅)) as [->|[b Hb]%set_choose_L].
  - apply elem_of_ready in Ha. set_solver.
  - assert (edge r a b) as He by (exists s; auto).
    destruct (Hc _ _ He) as [s' Hs']. by apply (IH b He s').
Qed.

Lemma drain_complete fuel r res :
  closed r → (∀ a, ¬ tc (edge r) a a) → drain fuel r = Some res → res = Ok tt.
Proof.
  revert r. induction fuel as [|fuel IH]; intros r Hc Hacyc; rewrite drain_unfold;
    repeat case_decide; try naive_solver.
  1,2: by destruct (acyclic_ready r).
  apply IH; [by apply closed_drain_step|].
  intros a Ha. apply (Hacyc a). eapply tc_congruence with (f := id), Ha.
  intros ?? [??]%edge_drain_step. done.
Qed.

Lemma drain_spec r :
  closed r → run_loop (drain (size r) r) = Ok tt ↔ ∀ a, ¬ tc (edge r) a a.
Proof.
  intros Hc. destruct (drain_total (size r) r) as [res Hres]; [done|].
  rewrite Hres. cbn. split.
  - intros ->. by eapply drain_sound.
  - intros Hacyc. by eapply drain_complete.
Qed.

(** ** The walk along correction origins *)

Lemma origin_chain_total fuel tasks seen origin :
  size (dom tasks ∖ seen) + 1 < fuel → ∃ res, origin_chain fuel tasks seen origin = Some res.
Proof.
  revert seen origin. induction fuel as [|fuel IH]; intros seen origin Hf; [lia|].
  cbn [origin_chain]. destruct origin as [current|]; [|eauto].
  case_decide as Hs; [eauto|]. destruct (tasks !! current) as [d|] eqn:Hc; cbn.
  - apply IH. assert (dom tasks ∖ ({[current]} ∪ seen) ⊂ dom tasks ∖ seen) as Hlt.
    { apply elem_of_dom_2 in Hc. set_solver. }
    apply subset_size in Hlt. lia.
  - destruct fuel; [lia|]. cbn. eauto.
Qed.

Lemma origin_chain_acyclic fuel tasks seen origin res :
  (∀ a, ¬ tc (waits tasks) a a) →
  (∀ x c, x ∈ seen → origin = Some c → tc (waits tasks) x c) →
  origin_chain fuel tasks seen origin = Some res → res = Ok tt.
Proof.
  intros Hacyc. revert seen origin. induction fuel as [|fuel IH]; intros seen [current|] Hseen;
    cbn [origin_chain]; try case_decide; try (intros; simplify_eq; done).
  1,2: exfalso; by eapply Hacyc, Hseen.
  apply IH. intros x c Hx Hc. apply bind_Some in Hc as (d & Hd & Hc).
  assert (waits tasks current c) as Hw.
  { exists d. split; [done|]. unfold waits_for. rewrite Hc. set_solver. }
  apply elem_of_union in Hx as [->%elem_of_singleton|Hx]; [by apply tc_once|].
  eapply tc_r; [by eapply Hseen|done].
Qed.

Section task_set_spec.
Context `{!TaskCodec}.
Variable tasks : gmap TaskId TaskDefinition.
Variable published_output : TaskId → string → option ArtifactReference.

Lemma edge_waits a b : edge (waits_for <$> tasks) a b ↔ waits tasks a b.
Proof.
  unfold edge, waits. split.
  - intros (s & Ha & Hb). rewrite lookup_fmap in Ha. apply fmap_Some in Ha as (d & Hd & ->). eauto.
  - intros (d & Hd & Hb). exists (waits_for d). by rewrite lookup_fmap, Hd.
Qed.

Lemma tc_edge_waits a b : tc (edge (waits_for <$> tasks)) a b ↔ tc (waits tasks) a b.
Proof.
  split; intros Htc; (eapply tc_congruence with (f := id); [|exact Htc]);
    intros x y; apply edge_waits.
Qed.

Lemma elem_of_waits_for d b :
  b ∈ waits_for d ↔ b ∈ td_dependencies d ∨ td_corrective_of d = Some b.
Proof. unfold waits_for. destruct (td_corrective_of d); set_solver. Qed.

Definition source_ok (b : TaskInputBinding) : Prop :=
  ∀ producer output optional, b = TaskOutput producer output optional →
    (∃ p, tasks !! producer = Some p ∧ is_Some (td_outputs p !! output))
    ∨ (∃ r media bytes, published_output producer output = Some r ∧ ar_media_type r = Some media
         ∧ ar_size_bytes r = Some bytes ∧ (bytes ≤ MAX_TASK_OUTPUT_BYTES)%N).

Lemma validate_binding_source_Ok id b :
  validate_binding_source tasks published_output id b = Ok tt ↔ source_ok b.
Proof.
  destruct b as [| |producer output optional|]; try (split; [by intros _|done]).
  unfold validate_binding_source, source_ok.
  assert ((∃ p, tasks !! producer = Some p ∧ is_Some (td_outputs p !! output)) ↔
    is_Some (tasks !! producer ≫= λ task, td_outputs task !! output)) as Hdecl.
  { destruct (tasks !! producer); cbn; split; [naive_solver|eauto|naive_solver|by intros []]. }
  split.
  - intros Hv ??? [= <- <- <-]. rewrite Hdecl. inv_ok.
    destruct (tasks !! producer ≫= _) as [decl|]; [left; by exists decl|]. right.
    destruct (published_output producer output) as [r|]; [|done]. cbn in *.
    unfold validate_reference in *. inv_ok. cbn in *.
    destruct (ar_media_type r) eqn:?, (ar_size_bytes r) eqn:?; try done. cbn in *. bool_prop. eauto 10.
  - intros Hs. destruct (Hs producer output optional eq_refl) as [[decl ->]%Hdecl|Hr].
    + by destruct (published_output producer output).
    + destruct Hr as (r & media & n & -> & Hm & Hn & Hle).
      destruct (tasks !! producer ≫= _); [done|]. cbn.
      rewrite Hm. cbn. unfold validate_reference. rewrite Hn. cbn.
      destruct (N.ltb_spec MAX_TASK_OUTPUT_BYTES n); [lia|done].
Qed.

Definition member_ok (id : TaskId) (d : TaskDefinition) : Prop :=
  TaskDefinition_validate d = Ok tt
  ∧ (∀ b, b ∈ waits_for d → b ≠ id ∧ is_Some (tasks !! b))
  ∧ (∀ name b, td_inputs d !! name = Some b → source_ok b).

Lemma dependencies_ok id d :
  existsb (λ d, bool_decide (d = id) || bool_decide (tasks !! d = None))
    (members (td_dependencies d)) = false ↔
  ∀ b, b ∈ td_dependencies d → b ≠ id ∧ is_Some (tasks !! b).
Proof.
  rewrite existsb_members_false. setoid_rewrite orb_false_iff.
  setoid_rewrite bool_decide_eq_false. by setoid_rewrite <-not_eq_None_Some.
Qed.

Lemma validate_member_Ok id d :
  (∀ a, ¬ tc (waits tasks) a a) → tasks !! id = Some d →
  validate_member tasks published_output id d = Ok tt ↔ member_ok id d.
Proof.
  intros Hacyc Hid. unfold validate_member, member_ok.
  setoid_rewrite elem_of_waits_for.
  rewrite !seq_Ok, refuse_if_Ok, dependencies_ok.
  rewrite (for_each_iff _ source_ok) by (intros; apply validate_binding_source_Ok).
  setoid_rewrite elem_of_values.
  apply and_iff_compat_l. destruct (td_corrective_of d) as [c|] eqn:Hc; [|naive_solver].
  rewrite seq_Ok, refuse_if_Ok, orb_false_iff, !bool_decide_eq_false, not_eq_None_Some.
  assert (run_loop (origin_chain (size tasks + 2) tasks {[id]} (Some c)) = Ok tt) as Hchain.
  { destruct (origin_chain_total (size tasks + 2) tasks {[id]} (Some c)) as [res Hres].
    { apply elem_of_dom_2 in Hid. pose proof (subset_size (dom tasks ∖ {[id]}) (dom tasks)) as Hle.
      rewrite size_dom in Hle. assert (dom tasks ∖ {[id]} ⊂ dom tasks) by set_solver. naive_solver lia. }
    rewrite Hres. cbn. eapply origin_chain_acyclic; [done| |done].
    intros x ? ->%elem_of_singleton [= <-]. apply tc_once. exists d.
    split; [done|]. apply elem_of_waits_for. auto. }
  split.
  - intros (Hd & ([Hne Hsome] & _) & Hs). split; [|naive_solver].
    intros b [Hb|[= <-]]; auto.
  - intros [Hb Hs]. destruct (Hb c) as [Hne Hsome]; [by right|].
    split_and!; [|done..| |]; [auto|done|naive_solver].
Qed.

Lemma task_set_acyclic limits :
  validate_task_set tasks published_output limits = Ok tt → ∀ a, ¬ tc (waits tasks) a a.
Proof.
  unfold validate_task_set. intros Hv. inv_ok.
  match goal with Hf : try_fold _ _ _ = Ok _ |- _ =>
    apply (try_fold_entries (validate_member tasks published_output) waits_for) in Hf as [Hm ->] end.
  intros a. rewrite <-tc_edge_waits. apply drain_spec; [|done].
  intros x y (d & Hd & Hy)%edge_waits. rewrite lookup_fmap.
  specialize (Hm x d Hd). unfold validate_member in Hm. inv_ok.
  apply elem_of_waits_for in Hy as [Hy|Hy].
  - match goal with He : existsb _ _ = false |- _ =>
      destruct (proj1 (dependencies_ok _ _) He y Hy) as [_ [? ->]] end. eauto.
  - rewrite Hy in *. inv_ok. bool_prop. apply fmap_is_Some. by apply not_eq_None_Some.
Qed.

(** C24: Task-set validation accepts exactly the sets that respect the limits and
    capacity, hold individually valid definitions, reference only their own
    tasks, bind only outputs that are declared or already published with a media
    type and a bounded size, and whose wait graph (dependencies and correction
    origins) has no cycle. Both inner loops terminate within their fuel. *)
Theorem validate_task_set_spec limits :
  validate_task_set tasks published_output limits = Ok tt ↔
  task_set_valid tasks published_output limits.
Proof.
  split.
  - intros Hv. pose proof (task_set_acyclic limits Hv) as Hacyc.
    unfold validate_task_set in Hv. inv_ok.
    match goal with Hf : try_fold _ _ _ = Ok _ |- _ =>
      apply (try_fold_entries (validate_member tasks published_output) waits_for) in Hf as [Hm _] end.
    assert (∀ id d, tasks !! id = Some d → member_ok id d) as Hok.
    { intros id d Hid. by apply validate_member_Ok, Hm. }
    bool_prop. split; auto.
    + intros id d Hid. by apply Hok in Hid as [? _].
    + intros a b (d & Hd & Hb). apply Hok in Hd as (_ & Hw & _). by apply Hw.
    + intros id d name p o opt Hid Hn. apply Hok in Hid as (_ & _ & Hs). by eapply Hs.
  - intros [Hl Hcap Hdef Hclosed Hsrc Hacyc]. unfold validate_task_set.
    rewrite seq_Ok, seq_Ok, refuse_if_Ok, N.ltb_ge, bind_Ok. split_and!; [done|done|].
    exists (waits_for <$> tasks). split.
    + apply (try_fold_entries (validate_member tasks published_output) waits_for).
      split; [|done]. intros id d Hid. apply validate_member_Ok; [done..|]. split_and!.
      * by eapply Hdef.
      * intros b Hb. assert (waits tasks id b) as Hw by (exists d; auto). split; [|eauto].
        intros ->. by eapply Hacyc, tc_once.
      * intros name b Hb p o opt ->. by eapply Hsrc.
    + apply drain_spec; [|intros a; by rewrite tc_edge_waits].
      intros x y Hxy%edge_waits. rewrite lookup_fmap. apply fmap_is_Some. eauto.
Qed.
End task_set_spec.

Section definition_spec.
Context `{!TaskCodec}.

(** Bytes a definition's declared outputs may occupy together. *)
Definition declared_bytes (d : TaskDefinition) : N :=
  foldr N.add 0%N (od_max_bytes <$> values (td_outputs d)).

Lemma outputs_fold acc l total :
  try_fold validate_output acc l = Ok total →
  total = (acc + foldr N.add 0 (od_max_bytes <$> l.*2))%N
  ∧ (∀ kv, kv ∈ l → validate_name kv.1 = Ok tt ∧ (0 < od_max_bytes kv.2)%N).
Proof.
  revert acc. induction l as [|[k v] l IH]; intros acc; cbn [try_fold].
  - intros [= <-]. split; [cbn; lia|]. by intros ? ?%elem_of_nil.
  - intros Hf. inv_ok. apply IH in Hf as [-> Hl].
    unfold validate_output in *. inv_ok. bool_prop. subst. cbn in *. split; [lia|].
    intros kv [->|?]%elem_of_cons; [|by apply Hl]. cbn. split; [done|lia].
Qed.

Lemma tools_fold self acc l r :
  try_fold (validate_tool self) acc l = Ok r →
  (∀ t, t ∈ l → ∃ key, encode t = Ok key ∧ key ∉ acc) ∧ NoDup l.
Proof.
  revert acc. induction l as [|t l IH]; intros acc; cbn [try_fold].
  - intros _. split; [by intros ? ?%elem_of_nil|constructor].
  - intros Hf. inv_ok. apply IH in Hf as [Hl Hnd].
    unfold validate_tool in *. inv_ok. bool_prop. subst. split.
    + intros t' [->|Ht']%elem_of_cons; [eauto|].
      destruct (Hl t' Ht') as (key & ? & [_ ?]%not_elem_of_union). eauto.
    + constructor; [|done]. intros Hin. destruct (Hl _ Hin) as (key & Hk & Hnk).
      apply not_elem_of_union in Hnk as [Hnk _]. apply Hnk, elem_of_singleton. congruence.
Qed.

(** C25: A definition that validates declares at most 2 MiB of outputs in total, each
    with a positive bound, lists every producer its bindings read among its
    dependencies, selects no tool twice, and offers file tools only with path
    claims that back them. *)
Theorem TaskDefinition_validate_bounds d :
  TaskDefinition_validate d = Ok tt →
  (declared_bytes d ≤ MAX_TASK_OUTPUT_BYTES)%N
  ∧ (∀ name o, td_outputs d !! name = Some o → (0 < od_max_bytes o)%N)
  ∧ (∀ name b task, td_inputs d !! name = Some b →
       (∃ output optional, b = TaskOutput task output optional) ∨ b = SettledOutcome task →
       task ∈ td_dependencies d)
  ∧ NoDup (td_tools d)
  ∧ (ReadFile ∈ td_tools d → td_paths d ≠ [])
  ∧ (WriteFile ∈ td_tools d → ∃ p, p ∈ td_paths d ∧ pa_write p = true).
Proof.
  unfold TaskDefinition_validate. intros Hv. inv_ok. bool_prop.
  match goal with Ho : try_fold validate_output _ _ = Ok _ |- _ =>
    apply outputs_fold in Ho as [Hsum Hpos] end.
  match goal with Hi : for_each (validate_input d) _ = Ok _ |- _ =>
    pose proof (proj1 (for_each_Ok _ _ _) Hi) as Hin end.
  match goal with Ht : try_fold (validate_tool d) _ _ = Ok _ |- _ =>
    pose proof (tools_fold _ _ _ _ Ht) as [_ Hnd];
    assert (∀ t, t ∈ td_tools d → ∃ a b, validate_tool d a t = Ok b) as Htool
      by (by apply (try_fold_each _ _ _ _ Ht)) end.
  split_and!; [| | |done| |].
  - unfold declared_bytes, values. lia.
  - intros name o Ho%elem_of_entries. by apply Hpos in Ho as [_ ?].
  - intros name b task Hb%elem_of_entries Hbt. apply Hin in Hb.
    unfold validate_input in Hb. destruct Hbt as [(? & ? & ->)| ->]; cbn [fst snd] in Hb; inv_ok;
      bool_prop; by apply dec_stable.
  - intros (a & b & Hr)%Htool. unfold validate_tool in Hr. inv_ok. by destruct (td_paths d).
  - intros (a & b & Hw)%Htool. unfold validate_tool in Hw. inv_ok. bool_prop.
    match goal with He : existsb _ _ = true |- _ => apply existsb_exists in He as (p & Hp & ?) end.
    exists p. by rewrite list_elem_of_In.
Qed.

End definition_spec.

Definition sample_definition : TaskDefinition :=
  mkDefinition None "check" "" "Run the checks." (CapabilityRequirement_new "process.run")
    {["report" := TaskOutput "t0" "log" false]} {["log" := mkOutputDeclaration true None 4096]}
    {["t0"]} true None [mkPathAccess "/repo" true] [ReadFile].

Lemma TaskDefinition_validate_bounds_witness :
  (declared_bytes sample_definition ≤ MAX_TASK_OUTPUT_BYTES)%N.
Proof.
  apply (@TaskDefinition_validate_bounds sample_codec sample_definition).
  vm_compute. reflexivity.
Defined.
