(* ===== verification/Authority.v ===== *)
(** * Authority ([crates/authority])

    Selectors and resource scopes, immutable grants, evaluation requests and
    decisions, the grant-set evaluator, and the execution basis a run pins. *)
From S2P Require Import Prelude Contracts Capability Blueprint.
From stdpp Require finite.

Abbreviation ActorRef := string (only parsing).
Abbreviation GrantId := string (only parsing).
Abbreviation PolicyId := string (only parsing).
Abbreviation DecisionId := string (only parsing).
Abbreviation SecretRef := string (only parsing).
Abbreviation WorkflowId := string (only parsing).
Abbreviation RunId := string (only parsing).

Inductive AuthorityError :=
| AuthInvalidIdentity (kind reason : string)
| AuthInvalidContract (reason : string)
| AuthBounds (location reason : string)
| AuthJson (message : string)
| AuthUnsupportedVersion (document : string) (found supported : N).

(** [identity.rs], and [safe_reference] of [model/execution.rs], which has the same rule. *)
Definition validate_authority_identity (value : string) : bool :=
  negb (is_empty value || (192 <? strlen value)%N)
  && negb (negb (is_ascii value) || negb (first_alphanumeric value)
       || negb (forallb (λ b, is_ascii_alphanumeric b || (b =? 45)%N || (b =? 95)%N
                 || (b =? 46)%N || (b =? 58)%N || (b =? 47)%N) (bytes value))).

Definition safe_reference (value : string) : bool :=
  negb (is_empty value)
  && (strlen value <=? 192)%N
  && is_ascii value
  && first_alphanumeric value
  && forallb (λ b, is_ascii_alphanumeric b || (b =? 45)%N || (b =? 95)%N
       || (b =? 46)%N || (b =? 58)%N || (b =? 47)%N) (bytes value).

(** ** Canonical documents ([document.rs]) *)

Definition AUTHORITY_LIMITS : JsonLimits := mkJsonLimits 48 8192 256 2048.
Definition MAX_AUTHORITY_DOCUMENT_BYTES : N := 262144.

Definition debug_bound_kind (k : JsonBoundKind) : string :=
  match k with
  | BoundDepth => "Depth" | BoundString => "String" | BoundKey => "Key"
  | BoundArray => "Array" | BoundObject => "Object"
  end.

Definition canonical_json {A} `{!Serialize A, !Serialize Value} (value : A)
    : result AuthorityError string :=
  encoded ← map_err (λ e, match e with
      | CanonicalJson m => AuthJson m
      | CanonicalBounds v => AuthBounds "authority.document"
          (violation_path v +:+ " exceeds " +:+ debug_bound_kind (violation_kind v)
           +:+ " limit " +:+ show_N (violation_maximum v))
      end) (canonical_json_bytes value AUTHORITY_LIMITS);
  refuse_if (MAX_AUTHORITY_DOCUMENT_BYTES <? strlen encoded)%N
    (AuthBounds "authority.document" "canonical JSON exceeds 262144 bytes") ;;
  Ok encoded.

Definition domain_hash `{!Blake3} (domain payload : string) : string :=
  "b3_" +:+ blake3_hex (domain +:+ String NUL EmptyString +:+ payload).

(** ** Selectors ([selection.rs]) *)

Definition MAX_SELECTION_ITEMS : N := 128.

Inductive Selection (T : Type) `{Countable T} :=
| SelAny
| SelOnly (values : gset T).
Arguments SelAny {T _ _}.
Arguments SelOnly {T _ _} values.

Section selection.
Context `{Countable T}.

Definition validate_count (count : N) : result AuthorityError () :=
  if (1 <=? count)%N && (count <=? MAX_SELECTION_ITEMS)%N then Ok tt
  else Err (AuthBounds "authority.selection" "only selector requires 1..=128 unique values").

Definition Selection_only (values : gset T) : result AuthorityError (Selection T) :=
  validate_count (N.of_nat (size values)) ;; Ok (SelOnly values).

Definition Selection_matches (self : Selection T) (value : T) : bool :=
  match self with
  | SelAny => true
  | SelOnly values => bool_decide (value ∈ values)
  end.

Definition Selection_is_subset_of (self other : Selection T) : bool :=
  match self, other with
  | SelAny, SelAny | SelOnly _, SelAny => true
  | SelAny, SelOnly _ => false
  | SelOnly requested, SelOnly allowed => bool_decide (requested ⊆ allowed)
  end.

#[global] Instance Selection_eq_dec : EqDecision (Selection T).
Proof. solve_decision. Defined.
End selection.

(** ** Capability scopes ([model/capability.rs]) *)

Record AllowScope := mkAllowScope {
  as_identities : Selection CapabilityId;
  as_categories : Selection CapabilityCategory;
  as_operations : Selection OperationId;
  as_provider_profiles : Selection ProviderProfileRef;
  as_trust_zones : Selection TrustZone;
  as_execution_trust_classes : Selection ExecutionTrustClass;
  as_localities : Selection Locality;
  as_peers : Selection PeerId;
  as_maximum_side_effect : SideEffectClass
}.
#[global] Instance eta_AllowScope : Settable AllowScope := λ s,
  mkAllowScope (as_identities s) (as_categories s) (as_operations s) (as_provider_profiles s)
    (as_trust_zones s) (as_execution_trust_classes s) (as_localities s) (as_peers s)
    (as_maximum_side_effect s).
#[global] Instance AllowScope_eq_dec : EqDecision AllowScope.
Proof. solve_decision. Defined.

Inductive CapabilityAuthorityScope :=
| CapDenyAll
| CapAllow (scope : AllowScope).
#[global] Instance CapabilityAuthorityScope_eq_dec : EqDecision CapabilityAuthorityScope.
Proof. solve_decision. Defined.

(** [CapabilityAuthorityScopeBuilder::new] *)
Definition allow_any_scope (maximum : SideEffectClass) : AllowScope :=
  mkAllowScope SelAny SelAny SelAny SelAny SelAny SelAny SelAny SelAny maximum.
Definition allow_any (maximum : SideEffectClass) : CapabilityAuthorityScope :=
  CapAllow (allow_any_scope maximum).

(** [if let Some(v) = o { builder = f(builder, v)?; }] *)
Definition narrow {A} (o : option A) (f : AllowScope → A → result AuthorityError AllowScope)
    (b : AllowScope) : result AuthorityError AllowScope :=
  match o with Some v => f b v | None => Ok b end.
(** A set, when it is not empty. *)
Definition nonempty `{Countable T} (s : gset T) : option (gset T) :=
  if decide (s = ∅) then None else Some s.

Definition requirement_envelope (requirement : CapabilityRequirement)
    : result AuthorityError CapabilityAuthorityScope :=
  if is_some_and placement_denies_all (cr_placement requirement) then Ok CapDenyAll else
  operations ← Selection_only {[cr_operation requirement]};
  let b := allow_any_scope (cr_maximum_side_effect requirement) <| as_operations := operations |> in
  b ← narrow (cr_exact_capability requirement) (λ b identity,
        s ← Selection_only {[identity]}; Ok (b <| as_identities := s |>)) b;
  b ← narrow (nonempty (cr_categories requirement)) (λ b categories,
        s ← Selection_only categories; Ok (b <| as_categories := s |>)) b;
  b ← narrow (cr_provider_profile requirement) (λ b profile,
        s ← Selection_only {[profile]}; Ok (b <| as_provider_profiles := s |>)) b;
  b ← narrow (nonempty (cr_trust_zones requirement)) (λ b zones,
        s ← Selection_only zones; Ok (b <| as_trust_zones := s |>)) b;
  b ← narrow (cr_execution_trust requirement) (λ b trust,
        s ← Selection_only {[trust]}; Ok (b <| as_execution_trust_classes := s |>)) b;
  b ← narrow (cr_placement requirement) (λ b placement,
        match pl_peers placement with
        | Some peers =>
            p ← Selection_only peers;
            l ← Selection_only {[LocPeer]};
            Ok (b <| as_peers := p |> <| as_localities := l |>)
        | None =>
            narrow (pl_localities placement) (λ b localities,
              s ← Selection_only localities; Ok (b <| as_localities := s |>)) b
        end) b;
  Ok (CapAllow b).

Definition cap_denies_all (s : CapabilityAuthorityScope) : bool :=
  match s with CapDenyAll => true | CapAllow _ => false end.
(** The [*_selection] accessors: [None] for the deny scope. *)
Definition cap_selection {A} (f : AllowScope → A) (s : CapabilityAuthorityScope) : option A :=
  match s with CapDenyAll => None | CapAllow scope => Some (f scope) end.
Definition cap_maximum_side_effect (s : CapabilityAuthorityScope) : SideEffectClass :=
  match s with CapDenyAll => SideNone | CapAllow scope => as_maximum_side_effect scope end.

Definition scope_is_subset_of (self allowed : CapabilityAuthorityScope) : bool :=
  match self, allowed with
  | CapDenyAll, _ => true
  | _, CapDenyAll => false
  | CapAllow requested, CapAllow allowed =>
      Selection_is_subset_of (as_identities requested) (as_identities allowed)
      && Selection_is_subset_of (as_categories requested) (as_categories allowed)
      && Selection_is_subset_of (as_operations requested) (as_operations allowed)
      && Selection_is_subset_of (as_provider_profiles requested) (as_provider_profiles allowed)
      && Selection_is_subset_of (as_trust_zones requested) (as_trust_zones allowed)
      && Selection_is_subset_of (as_execution_trust_classes requested)
           (as_execution_trust_classes allowed)
      && Selection_is_subset_of (as_localities requested) (as_localities allowed)
      && Selection_is_subset_of (as_peers requested) (as_peers allowed)
      && (side_effect_rank (as_maximum_side_effect requested)
          <=? side_effect_rank (as_maximum_side_effect allowed))%N
  end.

(** ** Resource scopes ([model/resource.rs]) *)

Definition MAX_SCOPE_ITEMS : N := 128.

Inductive AuthorityOperation :=
| OpInspect | OpApply | OpCreateRun | OpStartRun | OpCancel | OpInvokeCapability
| OpCancelCapability | OpInspectRun | OpListCapabilities | OpInspectCapabilityHealth
| OpInspectProviderProfile | OpAdministerCapabilities | OpReadArtifactMetadata
| OpReadArtifactContent | OpReadCapabilityOutput | OpPublishArtifact | OpExportArtifact
| OpDeleteArtifact | OpAdministerArtifactRetention | OpReadWorkspaceValue | OpInspectPeer
| OpNegotiatePeerSession | OpInspectPeerExecution | OpInvokePeerCapability
| OpCancelPeerCapability | OpPeerArtifactUpload | OpPeerArtifactDownload | OpAdministerPeer
| OpNegotiateControlProtocol | OpReadReadiness | OpInspectDaemonHealth | OpInspectOwnAuthority
| OpInspectAudit | OpInspectConfiguration | OpReloadConfiguration | OpRenameDaemon
| OpDrainDaemon | OpShutdownDaemon.

Definition all_operations : list AuthorityOperation :=
  [OpInspect; OpApply; OpCreateRun; OpStartRun; OpCancel; OpInvokeCapability;
   OpCancelCapability; OpInspectRun; OpListCapabilities; OpInspectCapabilityHealth;
   OpInspectProviderProfile; OpAdministerCapabilities; OpReadArtifactMetadata;
   OpReadArtifactContent; OpReadCapabilityOutput; OpPublishArtifact; OpExportArtifact;
   OpDeleteArtifact; OpAdministerArtifactRetention; OpReadWorkspaceValue; OpInspectPeer;
   OpNegotiatePeerSession; OpInspectPeerExecution; OpInvokePeerCapability;
   OpCancelPeerCapability; OpPeerArtifactUpload; OpPeerArtifactDownload; OpAdministerPeer;
   OpNegotiateControlProtocol; OpReadReadiness; OpInspectDaemonHealth; OpInspectOwnAuthority;
   OpInspectAudit; OpInspectConfiguration; OpReloadConfiguration; OpRenameDaemon;
   OpDrainDaemon; OpShutdownDaemon].
#[global] Instance AuthorityOperation_eq_dec : EqDecision AuthorityOperation.
Proof. solve_decision. Defined.
#[global] Instance AuthorityOperation_finite : finite.Finite AuthorityOperation.
Proof.
  refine {| finite.enum := all_operations |}.
  - apply (bool_decide_unpack _). by vm_compute.
  - intros []; apply (bool_decide_unpack _); by vm_compute.
Defined.

Inductive AccessMode := AccRead | AccWrite | AccExecute.
Inductive ArtifactSensitivity := Restricted | Internal | Public.
#[global] Instance AccessMode_eq_dec : EqDecision AccessMode.
Proof. solve_decision. Defined.
#[global] Instance ArtifactSensitivity_eq_dec : EqDecision ArtifactSensitivity.
Proof. solve_decision. Defined.
#[global] Instance AccessMode_countable : Countable AccessMode.
Proof.
  refine (inj_countable' (λ c, match c with AccRead => 0%N | AccWrite => 1%N | AccExecute => 2%N end)
    (λ c : N, match c with 0%N => AccRead | 1%N => AccWrite | _ => AccExecute end) _); by intros [].
Defined.
#[global] Instance ArtifactSensitivity_countable : Countable ArtifactSensitivity.
Proof.
  refine (inj_countable' (λ c, match c with Restricted => 0%N | Internal => 1%N | Public => 2%N end)
    (λ c : N, match c with 0%N => Restricted | 1%N => Internal | _ => Public end) _); by intros [].
Defined.

(** *** Canonical filesystem roots *)

Inductive FilesystemRootFamily := Unix | WindowsDrive (drive : N).
Record CanonicalFilesystemRoot := mkRoot {
  root_text : string;
  root_family : FilesystemRootFamily;
  root_components : list string
}.
Record FilesystemScope := mkFilesystemScope {
  fs_root : CanonicalFilesystemRoot;
  fs_access : gset AccessMode
}.
#[global] Instance FilesystemRootFamily_eq_dec : EqDecision FilesystemRootFamily.
Proof. solve_decision. Defined.
#[global] Instance CanonicalFilesystemRoot_eq_dec : EqDecision CanonicalFilesystemRoot.
Proof. solve_decision. Defined.
#[global] Instance FilesystemScope_eq_dec : EqDecision FilesystemScope.
Proof. solve_decision. Defined.

Definition invalid_filesystem_scope : AuthorityError :=
  AuthInvalidContract
    "filesystem scope requires one canonical Unix or Windows drive-absolute root and a nonempty access set".

(** [s.split(c)] *)
Fixpoint split (c : ascii) (s : string) : list string :=
  match s with
  | EmptyString => [EmptyString]
  | String a s =>
      if decide (a = c) then EmptyString :: split c s
      else match split c s with
           | [] => [String a EmptyString]
           | x :: xs => String a x :: xs
           end
  end.

(** [s.to_ascii_uppercase()] *)
Definition upper_char (c : ascii) : ascii :=
  if is_ascii_lowercase (byte_of c) then ascii_of_N (byte_of c - 32) else c.
Fixpoint to_ascii_uppercase (s : string) : string :=
  match s with
  | EmptyString => EmptyString
  | String c s => String (upper_char c) (to_ascii_uppercase s)
  end.

Definition windows_component_is_canonical (component : string) : bool :=
  if ends_with_char "." component || ends_with_char " " component
     || contains_any ["<"; ">"; ascii_of_N 34; "|"; "?"; "*"; ":"]%char component then false
  else
    let stem := default EmptyString (head (split "." component)) in
    let upper := to_ascii_uppercase stem in
    if bool_decide (upper ∈ ["CON"; "PRN"; "AUX"; "NUL"]) then false
    else if match bytes upper with
            | [67; 79; 77; d]%N | [76; 80; 84; d]%N => in_range 49 57 d
            | _ => false
            end then false
    else negb (existsb (λ reserved, bool_decide (upper = to_ascii_uppercase reserved))
                 ["COM¹"; "COM²"; "COM³"; "LPT¹"; "LPT²"; "LPT³"]).

(** Whether [s] contains two adjacent slashes. *)
Fixpoint has_double_slash (s : string) : bool :=
  match s with
  | String "/" (String "/" _) => true
  | String _ s => has_double_slash s
  | EmptyString => false
  end.

Definition root_prefix (text : string) : option (FilesystemRootFamily * string) :=
  match strip_prefix "/" text with
  | Some remainder => Some (Unix, remainder)
  | None =>
      match text with
      | String drive (String ":" (String "/" remainder)) =>
          if is_ascii_uppercase (byte_of drive)
          then Some (WindowsDrive (byte_of drive), remainder) else None
      | _ => None
      end
  end.

Definition parse_root (text : string) : result AuthorityError CanonicalFilesystemRoot :=
  refuse_if (is_empty text || (4096 <? strlen text)%N || contains_any [NUL] text
             || contains_any ["\"%char] text || has_control text) invalid_filesystem_scope ;;
  '(family, remainder) ← ok_or (root_prefix text) invalid_filesystem_scope;
  refuse_if (ends_with_char "/" remainder || has_double_slash remainder) invalid_filesystem_scope ;;
  components ←
    (if is_empty remainder then Ok []
     else try_map (λ component,
       refuse_if (is_empty component || bool_decide (component = ".")
                  || bool_decide (component = "..")
                  || match family with
                     | WindowsDrive _ => negb (windows_component_is_canonical component)
                     | Unix => false
                     end) invalid_filesystem_scope ;;
       Ok component) (split "/" remainder));
  Ok (mkRoot text family components).

(** [components.starts_with(prefix)] *)
Fixpoint list_starts_with (prefix l : list string) : bool :=
  match prefix, l with
  | [], _ => true
  | x :: prefix, y :: l => bool_decide (x = y) && list_starts_with prefix l
  | _ :: _, [] => false
  end.

Definition root_contains (self requested : CanonicalFilesystemRoot) : bool :=
  bool_decide (root_family self = root_family requested)
  && list_starts_with (root_components self) (root_components requested).

Definition FilesystemScope_new (root : string) (access : gset AccessMode)
    : result AuthorityError FilesystemScope :=
  refuse_if (bool_decide (access = ∅)) invalid_filesystem_scope ;;
  r ← parse_root root;
  Ok (mkFilesystemScope r access).

Definition FilesystemScope_contains (self requested : FilesystemScope) : bool :=
  root_contains (fs_root self) (fs_root requested)
  && bool_decide (fs_access requested ⊆ fs_access self).

(** *** Network, artifact, peer, daemon and workspace scopes *)

Record NetworkScope := mkNetworkScope {
  ns_profiles : gset string;
  ns_destinations : gset string
}.
Definition NetworkScope_new (profiles destinations : gset string)
    : result AuthorityError NetworkScope :=
  refuse_if ((MAX_SCOPE_ITEMS <? N.of_nat (size profiles))%N
             || (MAX_SCOPE_ITEMS <? N.of_nat (size destinations))%N
             || existsb (λ d, is_empty d || (255 <? strlen d)%N || negb (is_ascii d)
                   || contains_any ["/"%char; "@"%char; " "%char; ascii_of_N 9; LF] d)
                  (members destinations))
    (AuthBounds "grant.network"
       "network scope exceeds bounds or contains a credential-like destination") ;;
  Ok (mkNetworkScope profiles destinations).

Record AuthorityBudget := mkBudget {
  ab_cost_minor : option N;
  ab_duration_ms : option N;
  ab_invocations : option N;
  ab_artifact_bytes : option N;
  ab_units : option N;
  ab_concurrency : option N
}.
Definition AuthorityBudget_default : AuthorityBudget := mkBudget None None None None None None.

Definition within (requested ceiling : option N) : bool :=
  match requested, ceiling with
  | Some requested, Some ceiling => (requested <=? ceiling)%N
  | Some _, None => false
  | None, _ => true
  end.
Definition fits_within (self ceiling : AuthorityBudget) : bool :=
  within (ab_cost_minor self) (ab_cost_minor ceiling)
  && within (ab_duration_ms self) (ab_duration_ms ceiling)
  && within (ab_invocations self) (ab_invocations ceiling)
  && within (ab_artifact_bytes self) (ab_artifact_bytes ceiling)
  && within (ab_units self) (ab_units ceiling)
  && within (ab_concurrency self) (ab_concurrency ceiling).

Inductive ArtifactAuthorityScope :=
| ArtDenyAll
| ArtAllow (identities : Selection string) (sensitivities : gset ArtifactSensitivity).
Definition ArtifactAuthorityScope_new (identities : Selection string)
    (sensitivities : gset ArtifactSensitivity) : result AuthorityError ArtifactAuthorityScope :=
  refuse_if (bool_decide (sensitivities = ∅) || (3 <? N.of_nat (size sensitivities))%N)
    (AuthBounds "grant.artifacts" "artifact sensitivity scope requires 1..=3 values") ;;
  Ok (ArtAllow identities sensitivities).
Definition artifacts_match (self : ArtifactAuthorityScope) (artifact : string)
    (sensitivity : ArtifactSensitivity) : bool :=
  match self with
  | ArtDenyAll => false
  | ArtAllow identities sensitivities =>
      bool_decide (sensitivity ∈ sensitivities) && Selection_matches identities artifact
  end.

Record PeerAuthorityScope := mkPeerScope { ps_identities : gset PeerId; ps_allow_any : bool }.
Definition PeerAuthorityScope_new (identities : gset PeerId) (allow_any : bool)
    : result AuthorityError PeerAuthorityScope :=
  refuse_if ((MAX_SCOPE_ITEMS <? N.of_nat (size identities))%N
             || (allow_any && bool_decide (identities ≠ ∅)))
    (AuthInvalidContract "peer scope must be either an allowlist or an explicit wildcard") ;;
  Ok (mkPeerScope identities allow_any).
Definition peers_match (self : PeerAuthorityScope) (peer : PeerId) : bool :=
  ps_allow_any self || bool_decide (peer ∈ ps_identities self).

Record DaemonAuthorityScope := mkDaemonScope {
  ds_readiness : bool;
  ds_detailed_health : bool;
  ds_own_authority : bool;
  ds_configuration : bool;
  ds_audit : bool
}.

Record WorkspaceAuthorityScope := mkWorkspaceScope {
  ws_scopes : gset string;
  ws_allow_any_in_run : bool
}.
Definition WorkspaceAuthorityScope_new (scopes : gset string) (allow_any_in_run : bool)
    : result AuthorityError WorkspaceAuthorityScope :=
  refuse_if ((MAX_SCOPE_ITEMS <? N.of_nat (size scopes))%N
             || (allow_any_in_run && bool_decide (scopes ≠ ∅)))
    (AuthInvalidContract
       "workspace scope must be either an allowlist or an explicit run wildcard") ;;
  Ok (mkWorkspaceScope scopes allow_any_in_run).
Definition workspace_matches (self : WorkspaceAuthorityScope) (scope : string) : bool :=
  ws_allow_any_in_run self || bool_decide (scope ∈ ws_scopes self).

Inductive WorkflowRunScope :=
| ScopeAny
| ScopeWorkflow (workflow : WorkflowId)
| ScopeWorkflows (workflows : gset WorkflowId)
| ScopeRun (run : RunId) (workflow : option WorkflowId).

(** [WorkflowSet::new] *)
Definition WorkflowSet_new (workflows : list WorkflowId) : result AuthorityError (gset WorkflowId) :=
  values ← try_fold (λ (values : gset WorkflowId) workflow,
    validate_count (N.of_nat (size values) + 1) ;;
    refuse_if (bool_decide (workflow ∈ values))
      (AuthInvalidContract "workflow identities must be unique") ;;
    Ok ({[workflow]} ∪ values)) ∅ workflows;
  validate_count (N.of_nat (size values)) ;;
  Ok values.

Record ResourceScope := mkResourceScope {
  rsc_workflow_run : WorkflowRunScope;
  rsc_capability : CapabilityAuthorityScope;
  rsc_filesystem : list FilesystemScope;
  rsc_network : NetworkScope;
  rsc_secrets : gset SecretRef;
  rsc_artifacts : ArtifactAuthorityScope;
  rsc_peers : PeerAuthorityScope;
  rsc_daemon : DaemonAuthorityScope;
  rsc_workspace : WorkspaceAuthorityScope
}.

(** ** Grants ([model/grant.rs]) *)

Record AuthorityGrant := mkGrant {
  ag_schema_version : N;
  ag_identity : GrantId;
  ag_revision : N;
  ag_actor : ActorRef;
  ag_operations : gset AuthorityOperation;
  ag_resources : ResourceScope;
  ag_budget : AuthorityBudget;
  ag_valid_from : N;
  ag_valid_until : N;
  ag_revocation_generation : N;
  ag_extensions : gmap string Value
}.

#[global] Instance NetworkScope_eq_dec : EqDecision NetworkScope.
Proof. solve_decision. Defined.
#[global] Instance AuthorityBudget_eq_dec : EqDecision AuthorityBudget.
Proof. solve_decision. Defined.
#[global] Instance ArtifactAuthorityScope_eq_dec : EqDecision ArtifactAuthorityScope.
Proof. solve_decision. Defined.
#[global] Instance PeerAuthorityScope_eq_dec : EqDecision PeerAuthorityScope.
Proof. solve_decision. Defined.
#[global] Instance DaemonAuthorityScope_eq_dec : EqDecision DaemonAuthorityScope.
Proof. solve_decision. Defined.
#[global] Instance WorkspaceAuthorityScope_eq_dec : EqDecision WorkspaceAuthorityScope.
Proof. solve_decision. Defined.
#[global] Instance WorkflowRunScope_eq_dec : EqDecision WorkflowRunScope.
Proof. solve_decision. Defined.
#[global] Instance ResourceScope_eq_dec : EqDecision ResourceScope.
Proof. solve_decision. Defined.
#[global] Instance AuthorityGrant_eq_dec : EqDecision AuthorityGrant.
Proof. solve_decision. Defined.

(** ** Requests and decisions ([model/decision.rs], [model/execution.rs]) *)

Record RequestedResourceFacts := mkFacts {
  rf_workflow : option WorkflowId;
  rf_run : option RunId;
  rf_capability : option CapabilityId;
  rf_category : option CapabilityCategory;
  rf_capability_operation : option OperationId;
  rf_provider_profile : option ProviderProfileRef;
  rf_trust_zone : option TrustZone;
  rf_trust_zones : gset TrustZone;
  rf_execution_trust_class : option ExecutionTrustClass;
  rf_locality : option Locality;
  rf_peer : option PeerId;
  rf_capability_envelope : option CapabilityAuthorityScope;
  rf_side_effect : SideEffectClass;
  rf_filesystem : list FilesystemScope;
  rf_network_profiles : gset string;
  rf_network_destinations : gset string;
  rf_secrets : gset SecretRef;
  rf_artifact : option string;
  rf_artifact_sensitivity : option ArtifactSensitivity;
  rf_workspace_scope : option string;
  rf_daemon_readiness : bool;
  rf_daemon_detailed_health : bool;
  rf_daemon_own_authority : bool;
  rf_daemon_configuration : bool;
  rf_daemon_audit : bool
}.
#[global] Instance eta_RequestedResourceFacts : Settable RequestedResourceFacts := λ f,
  mkFacts (rf_workflow f) (rf_run f) (rf_capability f) (rf_category f)
    (rf_capability_operation f) (rf_provider_profile f) (rf_trust_zone f) (rf_trust_zones f)
    (rf_execution_trust_class f) (rf_locality f) (rf_peer f) (rf_capability_envelope f)
    (rf_side_effect f) (rf_filesystem f) (rf_network_profiles f) (rf_network_destinations f)
    (rf_secrets f) (rf_artifact f) (rf_artifact_sensitivity f) (rf_workspace_scope f)
    (rf_daemon_readiness f) (rf_daemon_detailed_health f) (rf_daemon_own_authority f)
    (rf_daemon_configuration f) (rf_daemon_audit f).

Definition facts_empty : RequestedResourceFacts :=
  mkFacts None None None None None None None ∅ None None None None SideNone [] ∅ ∅ ∅
    None None None false false false false false.

Definition facts_validate (self : RequestedResourceFacts) : result AuthorityError () :=
  refuse_if ((MAX_SCOPE_ITEMS <? vlen (rf_filesystem self))%N
             || (MAX_SCOPE_ITEMS <? N.of_nat (size (rf_secrets self)))%N)
    (AuthBounds "authority_request.resources" "filesystem or secret request count exceeded") ;;
  for_each (λ scope, FilesystemScope_new (root_text (fs_root scope)) (fs_access scope) ;; Ok tt)
    (rf_filesystem self) ;;
  NetworkScope_new (rf_network_profiles self) (rf_network_destinations self) ;;
  refuse_if (xorb (is_some (rf_artifact self)) (is_some (rf_artifact_sensitivity self)))
    (AuthInvalidContract "artifact identity and sensitivity facts must be complete").

Record AuthorityExecutionProvenance := mkProvenance {
  pv_revision : option string;
  pv_node : option string;
  pv_execution : option string;
  pv_attempt : option string;
  pv_descriptor_revision : option N;
  pv_peer : option PeerId;
  pv_idempotency : option IdempotencyBehavior
}.
Definition provenance_validate (self : AuthorityExecutionProvenance) : result AuthorityError () :=
  refuse_if (bool_decide (pv_descriptor_revision self = Some 0%N)
             || is_some_and (λ v, negb (safe_reference v)) (pv_execution self)
             || is_some_and (λ v, negb (safe_reference v)) (pv_attempt self))
    (AuthInvalidContract
       "authority execution provenance contains an invalid identity or generation").

Record AuthorityRequest := mkRequest {
  rq_decision : DecisionId;
  rq_actor : ActorRef;
  rq_grant : GrantId;
  rq_grant_revision : N;
  rq_grant_digest : string;
  rq_revocation_generation : N;
  rq_operation : AuthorityOperation;
  rq_resources : RequestedResourceFacts;
  rq_budget : AuthorityBudget;
  rq_evaluated_at : N;
  rq_provenance : AuthorityExecutionProvenance
}.
#[global] Instance eta_AuthorityRequest : Settable AuthorityRequest := λ r,
  mkRequest (rq_decision r) (rq_actor r) (rq_grant r) (rq_grant_revision r) (rq_grant_digest r)
    (rq_revocation_generation r) (rq_operation r) (rq_resources r) (rq_budget r)
    (rq_evaluated_at r) (rq_provenance r).
Definition request_validate (self : AuthorityRequest) : result AuthorityError () :=
  refuse_if (rq_grant_revision self =? 0)%N
    (AuthInvalidContract "authority request grant revision must be nonzero") ;;
  provenance_validate (rq_provenance self) ;;
  facts_validate (rq_resources self).

Inductive DecisionOutcome := Allow | Deny.

Inductive DecisionReasonCode :=
| Allowed | GrantNotFound | GrantRevisionMismatch | GrantDigestMismatch | WrongActor | Revoked
| NotYetValid | Expired | OperationMismatch | WorkflowRunMismatch | CapabilityMismatch
| PlacementMismatch | SideEffectExcess | FilesystemMismatch | NetworkMismatch
| SecretScopeMismatch | ArtifactScopeMismatch | PeerScopeMismatch | DaemonScopeMismatch
| WorkspaceScopeMismatch | BudgetExcess.

(** The derived [Ord]: declaration order. *)
Definition reason_rank (c : DecisionReasonCode) : nat :=
  match c with
  | Allowed => 0 | GrantNotFound => 1 | GrantRevisionMismatch => 2 | GrantDigestMismatch => 3
  | WrongActor => 4 | Revoked => 5 | NotYetValid => 6 | Expired => 7 | OperationMismatch => 8
  | WorkflowRunMismatch => 9 | CapabilityMismatch => 10 | PlacementMismatch => 11
  | SideEffectExcess => 12 | FilesystemMismatch => 13 | NetworkMismatch => 14
  | SecretScopeMismatch => 15 | ArtifactScopeMismatch => 16 | PeerScopeMismatch => 17
  | DaemonScopeMismatch => 18 | WorkspaceScopeMismatch => 19 | BudgetExcess => 20
  end.
Definition reason_le (a b : DecisionReasonCode) : Prop := reason_rank a ≤ reason_rank b.

#[global] Instance RequestedResourceFacts_eq_dec : EqDecision RequestedResourceFacts.
Proof. solve_decision. Defined.
#[global] Instance AuthorityExecutionProvenance_eq_dec : EqDecision AuthorityExecutionProvenance.
Proof. solve_decision. Defined.
#[global] Instance AuthorityRequest_eq_dec : EqDecision AuthorityRequest.
Proof. solve_decision. Defined.
#[global] Instance DecisionOutcome_eq_dec : EqDecision DecisionOutcome.
Proof. solve_decision. Defined.
#[global] Instance DecisionReasonCode_eq_dec : EqDecision DecisionReasonCode.
Proof. solve_decision. Defined.
#[global] Instance reason_le_dec : RelDecision reason_le.
Proof. intros a b. unfold reason_le. apply _. Defined.
#[global] Instance reason_le_total : Total reason_le.
Proof. intros a b. unfold reason_le. lia. Qed.
#[global] Instance reason_le_trans : Transitive reason_le.
Proof. intros a b c. unfold reason_le. lia. Qed.

Record AuthorityDecisionSnapshot := mkDecision {
  dn_schema_version : N;
  dn_policy : PolicyId;
  dn_policy_version : N;
  dn_request : AuthorityRequest;
  dn_outcome : DecisionOutcome;
  dn_reason_codes : list DecisionReasonCode;
  dn_evaluated_budget : AuthorityBudget;
  dn_evaluated_side_effect : SideEffectClass;
  dn_digest : string
}.

(** The digest payload: the decision without its digest, under a domain label. *)
Record DecisionDigest := mkDecisionDigest {
  dd_domain : string;
  dd_schema_version : N;
  dd_policy : PolicyId;
  dd_policy_version : N;
  dd_request : AuthorityRequest;
  dd_outcome : DecisionOutcome;
  dd_reason_codes : list DecisionReasonCode;
  dd_evaluated_budget : AuthorityBudget;
  dd_evaluated_side_effect : SideEffectClass
}.

Record ExecutionAuthorityBasis := mkBasis {
  eb_schema_version : N;
  eb_actor : ActorRef;
  eb_grant : GrantId;
  eb_grant_revision : N;
  eb_grant_digest : string;
  eb_policy : PolicyId;
  eb_policy_version : N;
  eb_workflow : WorkflowId;
  eb_root_run : RunId;
  eb_lineage_revision : string;
  eb_accepted_decision : DecisionId;
  eb_accepted_decision_digest : string;
  eb_revocation_generation : N;
  eb_digest : string
}.
#[global] Instance eta_ExecutionAuthorityBasis : Settable ExecutionAuthorityBasis := λ b,
  mkBasis (eb_schema_version b) (eb_actor b) (eb_grant b) (eb_grant_revision b)
    (eb_grant_digest b) (eb_policy b) (eb_policy_version b) (eb_workflow b) (eb_root_run b)
    (eb_lineage_revision b) (eb_accepted_decision b) (eb_accepted_decision_digest b)
    (eb_revocation_generation b) (eb_digest b).
#[global] Instance AuthorityDecisionSnapshot_eq_dec : EqDecision AuthorityDecisionSnapshot.
Proof. solve_decision. Defined.
#[global] Instance ExecutionAuthorityBasis_eq_dec : EqDecision ExecutionAuthorityBasis.
Proof. solve_decision. Defined.

(** [Digest] of [ExecutionAuthorityBasis::compute_digest]: every field but the digest,
    which the payload leaves empty. *)
Inductive BasisDigest := mkBasisDigest (domain : string) (basis : ExecutionAuthorityBasis).

Class AuthorityCodec := {
  acodec_value :: Serialize Value;
  acodec_grant :: Serialize AuthorityGrant;
  acodec_decision :: Serialize DecisionDigest;
  acodec_basis :: Serialize BasisDigest;
  acodec_blake3 :: Blake3
}.
Definition sample_authority_codec : AuthorityCodec :=
  {| acodec_value := sample_serialize; acodec_grant := sample_serialize;
     acodec_decision := sample_serialize; acodec_basis := sample_serialize;
     acodec_blake3 := sample_blake3 |}.

Section evaluation.
Context `{!AuthorityCodec}.

Definition grant_digest (grant : AuthorityGrant) : result AuthorityError string :=
  encoded ← canonical_json grant;
  Ok (domain_hash "milkdrift.authority-grant.v1" encoded).

(** [AuthorityGrantBuilder::build] *)
Definition AuthorityGrantBuilder_build (grant : AuthorityGrant)
    : result AuthorityError AuthorityGrant :=
  refuse_if (negb (ag_schema_version grant =? 5)%N)
    (AuthUnsupportedVersion "authority_grant" (ag_schema_version grant) 5) ;;
  refuse_if ((ag_revision grant =? 0)%N || bool_decide (ag_operations grant = ∅)
             || (MAX_SCOPE_ITEMS <? N.of_nat (size (ag_operations grant)))%N)
    (AuthInvalidContract
       "grant revision must be nonzero and operations must contain 1..=128 entries") ;;
  refuse_if (ag_valid_until grant <? ag_valid_from grant)%N
    (AuthInvalidContract "grant validity interval is inverted") ;;
  let resources := ag_resources grant in
  refuse_if ((MAX_SCOPE_ITEMS <? vlen (rsc_filesystem resources))%N
             || (MAX_SCOPE_ITEMS <? N.of_nat (size (rsc_secrets resources)))%N
             || (64 <? N.of_nat (size (ag_extensions grant)))%N)
    (AuthBounds "grant.resources" "scope or extension count exceeded") ;;
  NetworkScope_new (ns_profiles (rsc_network resources)) (ns_destinations (rsc_network resources)) ;;
  for_each (λ scope, FilesystemScope_new (root_text (fs_root scope)) (fs_access scope) ;; Ok tt)
    (rsc_filesystem resources) ;;
  match rsc_artifacts resources with
  | ArtAllow identities sensitivities =>
      ArtifactAuthorityScope_new identities sensitivities ;; Ok tt
  | ArtDenyAll => Ok tt
  end ;;
  PeerAuthorityScope_new (ps_identities (rsc_peers resources)) (ps_allow_any (rsc_peers resources)) ;;
  WorkspaceAuthorityScope_new (ws_scopes (rsc_workspace resources))
    (ws_allow_any_in_run (rsc_workspace resources)) ;;
  refuse_if (existsb (λ key, (192 <? strlen key)%N
               || match split_once "/" key with
                  | Some (namespace, name) =>
                      negb (contains_any ["."%char] namespace && negb (is_empty name))
                  | None => true
                  end) (keys (ag_extensions grant)))
    (AuthInvalidContract "authority extension keys must be DNS-namespaced") ;;
  canonical_json grant ;;
  Ok grant.

Definition decision_digest (d : AuthorityDecisionSnapshot) : result AuthorityError string :=
  encoded ← canonical_json (mkDecisionDigest "milkdrift.authority-decision.v3"
    (dn_schema_version d) (dn_policy d) (dn_policy_version d) (dn_request d) (dn_outcome d)
    (dn_reason_codes d) (dn_evaluated_budget d) (dn_evaluated_side_effect d));
  Ok (domain_hash "milkdrift.authority-decision.v3" encoded).

Definition MAX_DIAGNOSTIC_CODES : N := 16.

Definition derived_outcome (reasons : list DecisionReasonCode) : DecisionOutcome :=
  if decide (reasons = [Allowed]) then Allow else Deny.

Definition from_evaluation (policy : PolicyId) (policy_version : N) (request : AuthorityRequest)
    (reason_codes : list DecisionReasonCode) (evaluated_budget : AuthorityBudget)
    (evaluated_side_effect : SideEffectClass) : result AuthorityError AuthorityDecisionSnapshot :=
  request_validate request ;;
  refuse_if (policy_version =? 0)%N (AuthInvalidContract "policy version must be nonzero") ;;
  let reason_codes := dedup (merge_sort reason_le reason_codes) in
  refuse_if ((vlen reason_codes =? 0)%N || (MAX_DIAGNOSTIC_CODES <? vlen reason_codes)%N)
    (AuthInvalidContract "decision requires 1..=16 stable reason codes") ;;
  let value := mkDecision 3 policy policy_version request (derived_outcome reason_codes)
    reason_codes evaluated_budget evaluated_side_effect EmptyString in
  digest ← decision_digest value;
  Ok (mkDecision 3 policy policy_version request (derived_outcome reason_codes)
    reason_codes evaluated_budget evaluated_side_effect digest).

(** Whether each code is strictly below its successor. *)
Fixpoint strictly_increasing (l : list DecisionReasonCode) : bool :=
  match l with
  | x :: (y :: _) as rest => (reason_rank x <? reason_rank y)%nat && strictly_increasing rest
  | _ => true
  end.

Definition decision_validate (self : AuthorityDecisionSnapshot) : result AuthorityError () :=
  let invariant := AuthInvalidContract "authorization decision invariant or digest mismatch" in
  request_validate (dn_request self) ;;
  refuse_if (negb (dn_schema_version self =? 3)%N
             || (dn_policy_version self =? 0)%N
             || (vlen (dn_reason_codes self) =? 0)%N
             || (MAX_DIAGNOSTIC_CODES <? vlen (dn_reason_codes self))%N
             || negb (strictly_increasing (dn_reason_codes self))
             || (bool_decide (Allowed ∈ dn_reason_codes self)
                 && negb (vlen (dn_reason_codes self) =? 1)%N)) invariant ;;
  digest ← decision_digest self;
  refuse_if (bool_decide (dn_digest self ≠ digest)) invariant ;;
  refuse_if (bool_decide (dn_outcome self ≠ derived_outcome (dn_reason_codes self)))
    (AuthInvalidContract "decision outcome disagrees with reason codes").

(** ** The grant-set evaluator ([evaluator.rs]) *)

Record GrantSetEvaluator := mkEvaluator {
  ge_policy : PolicyId;
  ge_policy_version : N;
  ge_grants : gmap (GrantId * N) AuthorityGrant;
  ge_revocations : gmap GrantId N
}.

Definition GrantSetEvaluator_new (policy : PolicyId) (policy_version : N)
    (grants : list AuthorityGrant) (revocations : gmap GrantId N)
    : result AuthorityError GrantSetEvaluator :=
  refuse_if (policy_version =? 0)%N (AuthInvalidContract "policy version must be nonzero") ;;
  indexed ← try_fold (λ (indexed : gmap (GrantId * N) AuthorityGrant) grant,
    let key := (ag_identity grant, ag_revision grant) in
    refuse_if (is_some_and (λ existing, bool_decide (existing ≠ grant)) (indexed !! key))
      (AuthInvalidContract "conflicting reuse of one grant identity and revision") ;;
    Ok (<[key := grant]> indexed)) ∅ grants;
  Ok (mkEvaluator policy policy_version indexed revocations).

Definition operation_uses_workflow_scope (operation : AuthorityOperation) : bool :=
  match operation with
  | OpListCapabilities | OpInspectCapabilityHealth | OpInspectProviderProfile
  | OpAdministerCapabilities | OpReadArtifactMetadata | OpReadCapabilityOutput
  | OpReadArtifactContent | OpPublishArtifact | OpExportArtifact | OpDeleteArtifact
  | OpAdministerArtifactRetention | OpInspectPeer | OpNegotiatePeerSession
  | OpInspectPeerExecution | OpInvokePeerCapability | OpCancelPeerCapability
  | OpPeerArtifactUpload | OpPeerArtifactDownload | OpAdministerPeer
  | OpNegotiateControlProtocol | OpReadReadiness | OpInspectDaemonHealth
  | OpInspectOwnAuthority | OpInspectAudit | OpInspectConfiguration | OpReloadConfiguration
  | OpRenameDaemon | OpDrainDaemon | OpShutdownDaemon => false
  | _ => true
  end.

Definition operation_requires_peer (operation : AuthorityOperation) : bool :=
  match operation with
  | OpInspectPeer | OpNegotiatePeerSession | OpInspectPeerExecution | OpInvokePeerCapability
  | OpCancelPeerCapability | OpPeerArtifactUpload | OpPeerArtifactDownload
  | OpAdministerPeer => true
  | _ => false
  end.

Definition workflow_run_matches (self : WorkflowRunScope) (facts : RequestedResourceFacts) : bool :=
  match self with
  | ScopeAny => true
  | ScopeWorkflow workflow => bool_decide (rf_workflow facts = Some workflow)
  | ScopeWorkflows workflows => is_some_and (λ w, bool_decide (w ∈ workflows)) (rf_workflow facts)
  | ScopeRun run workflow =>
      bool_decide (rf_run facts = Some run)
      && is_none_or (λ expected, bool_decide (rf_workflow facts = Some expected)) workflow
  end.

Definition selection_matches `{Countable T} (selection : option (Selection T)) (value : T) : bool :=
  is_some_and (λ s, Selection_matches s value) selection.

Definition capability_facts_are_requested (r : RequestedResourceFacts) : bool :=
  is_some (rf_capability r) || is_some (rf_category r) || is_some (rf_capability_operation r)
  || is_some (rf_provider_profile r) || is_some (rf_trust_zone r)
  || bool_decide (rf_trust_zones r ≠ ∅) || is_some (rf_execution_trust_class r)
  || is_some (rf_locality r) || is_some (rf_peer r) || is_some (rf_capability_envelope r).

(** [if c { reasons.push(code) }] *)
Definition code_if (c : bool) (code : DecisionReasonCode) : list DecisionReasonCode :=
  if c then [code] else [].

(** The checks of [evaluate] against the exact grant, in order, before [Allowed] is
    pushed. [digest] is the configured grant's digest. *)
Definition denial_reasons (revocations : gmap GrantId N) (grant : AuthorityGrant)
    (digest : string) (request : AuthorityRequest) : list DecisionReasonCode :=
  let resources := ag_resources grant in
  let facts := rq_resources request in
  let capability := rsc_capability resources in
  let current_revocation :=
    default (ag_revocation_generation grant) (revocations !! ag_identity grant) in
  code_if (bool_decide (digest ≠ rq_grant_digest request)) GrantDigestMismatch
  ++ code_if (bool_decide (ag_actor grant ≠ rq_actor request)) WrongActor
  ++ code_if (negb (rq_revocation_generation request =? ag_revocation_generation grant)%N
              || negb (current_revocation =? ag_revocation_generation grant)%N) Revoked
  ++ code_if (rq_evaluated_at request <? ag_valid_from grant)%N NotYetValid
  ++ code_if (ag_valid_until grant <? rq_evaluated_at request)%N Expired
  ++ code_if (bool_decide (rq_operation request ∉ ag_operations grant)) OperationMismatch
  ++ code_if (operation_uses_workflow_scope (rq_operation request)
              && negb (workflow_run_matches (rsc_workflow_run resources) facts)) WorkflowRunMismatch
  ++ code_if ((cap_denies_all capability && capability_facts_are_requested facts)
       || is_some_and (λ v, negb (selection_matches (cap_selection as_identities capability) v))
            (rf_capability facts)
       || is_some_and (λ v, negb (selection_matches (cap_selection as_categories capability) v))
            (rf_category facts)
       || is_some_and (λ v, negb (selection_matches (cap_selection as_operations capability) v))
            (rf_capability_operation facts)
       || is_some_and (λ v, negb (selection_matches (cap_selection as_provider_profiles capability) v))
            (rf_provider_profile facts)) CapabilityMismatch
  ++ code_if (is_some_and (λ v, negb (selection_matches (cap_selection as_trust_zones capability) v))
            (rf_trust_zone facts)
       || (bool_decide (rf_trust_zones facts ≠ ∅)
           && negb (forallb (λ z, selection_matches (cap_selection as_trust_zones capability) z)
                      (members (rf_trust_zones facts))))
       || is_some_and (λ v, negb (selection_matches
              (cap_selection as_execution_trust_classes capability) v)) (rf_execution_trust_class facts)
       || is_some_and (λ v, negb (selection_matches (cap_selection as_localities capability) v))
            (rf_locality facts)
       || is_some_and (λ v, negb (selection_matches (cap_selection as_peers capability) v))
            (rf_peer facts)) PlacementMismatch
  ++ code_if (is_some_and (λ requested, negb (scope_is_subset_of requested capability))
       (rf_capability_envelope facts)) CapabilityMismatch
  ++ code_if (side_effect_rank (cap_maximum_side_effect capability)
              <? side_effect_rank (rf_side_effect facts))%N SideEffectExcess
  ++ code_if (negb (forallb (λ requested,
       existsb (λ allowed, FilesystemScope_contains allowed requested) (rsc_filesystem resources))
       (rf_filesystem facts))) FilesystemMismatch
  ++ code_if (negb (bool_decide (rf_network_profiles facts ⊆ ns_profiles (rsc_network resources)))
       || negb (bool_decide (rf_network_destinations facts
                             ⊆ ns_destinations (rsc_network resources)))) NetworkMismatch
  ++ code_if (negb (bool_decide (rf_secrets facts ⊆ rsc_secrets resources))) SecretScopeMismatch
  ++ code_if (match rf_artifact facts, rf_artifact_sensitivity facts with
              | Some artifact, Some sensitivity =>
                  negb (artifacts_match (rsc_artifacts resources) artifact sensitivity)
              | _, _ => false
              end) ArtifactScopeMismatch
  ++ code_if (operation_requires_peer (rq_operation request)
              && is_none_or (λ peer, negb (peers_match (rsc_peers resources) peer)) (rf_peer facts))
       PeerScopeMismatch
  ++ (let daemon := rsc_daemon resources in
      code_if ((rf_daemon_readiness facts && negb (ds_readiness daemon))
               || (rf_daemon_detailed_health facts && negb (ds_detailed_health daemon))
               || (rf_daemon_own_authority facts && negb (ds_own_authority daemon))
               || (rf_daemon_configuration facts && negb (ds_configuration daemon))
               || (rf_daemon_audit facts && negb (ds_audit daemon))) DaemonScopeMismatch)
  ++ code_if (is_some_and (λ scope, negb (workspace_matches (rsc_workspace resources) scope))
       (rf_workspace_scope facts)) WorkspaceScopeMismatch
  ++ code_if (negb (fits_within (rq_budget request) (ag_budget grant))) BudgetExcess.

Definition evaluate (self : GrantSetEvaluator) (request : AuthorityRequest)
    : result AuthorityError AuthorityDecisionSnapshot :=
  request_validate request ;;
  match ge_grants self !! (rq_grant request, rq_grant_revision request) with
  | None =>
      let reasons :=
        if decide (map_Exists (λ k _, k.1 = rq_grant request) (ge_grants self))
        then [GrantRevisionMismatch] else [GrantNotFound] in
      from_evaluation (ge_policy self) (ge_policy_version self) request reasons
        AuthorityBudget_default (rf_side_effect (rq_resources request))
  | Some grant =>
      digest ← grant_digest grant;
      let reasons := denial_reasons (ge_revocations self) grant digest request in
      let reasons := if decide (reasons = []) then [Allowed] else reasons in
      from_evaluation (ge_policy self) (ge_policy_version self) request reasons
        (ag_budget grant) (cap_maximum_side_effect (rsc_capability (ag_resources grant)))
  end.

(** ** The basis pinned by an accepted run ([model/execution.rs]) *)

Definition basis_digest (b : ExecutionAuthorityBasis) : result AuthorityError string :=
  encoded ← canonical_json (mkBasisDigest "milkdrift.execution-authority-basis.v1"
                              (b <| eb_digest := EmptyString |>));
  Ok (domain_hash "milkdrift.execution-authority-basis.v1" encoded).

Definition basis_validate (self : ExecutionAuthorityBasis) : result AuthorityError () :=
  let invariant := AuthInvalidContract "execution authority basis invariant or digest mismatch" in
  refuse_if (negb (eb_schema_version self =? 1)%N || (eb_grant_revision self =? 0)%N
             || (eb_policy_version self =? 0)%N
             || negb (is_canonical_blake3_digest (eb_accepted_decision_digest self))) invariant ;;
  digest ← basis_digest self;
  refuse_if (bool_decide (eb_digest self ≠ digest)) invariant.

Definition from_start_decision (decision : AuthorityDecisionSnapshot) (workflow : WorkflowId)
    (root_run : RunId) (lineage_revision : string)
    : result AuthorityError ExecutionAuthorityBasis :=
  let request := dn_request decision in
  refuse_if (negb (bool_decide (dn_outcome decision = Allow))
             || bool_decide (rq_operation request ≠ OpStartRun))
    (AuthInvalidContract "execution authority requires an allowed start-run decision") ;;
  let value := mkBasis 1 (rq_actor request) (rq_grant request) (rq_grant_revision request)
    (rq_grant_digest request) (dn_policy decision) (dn_policy_version decision) workflow root_run
    lineage_revision (rq_decision request) (dn_digest decision)
    (rq_revocation_generation request) EmptyString in
  digest ← basis_digest value;
  let value := value <| eb_digest := digest |> in
  basis_validate value ;;
  Ok value.

(** [ExecutionAuthorityBasis::request] *)
Definition basis_request (self : ExecutionAuthorityBasis) (decision : DecisionId)
    (operation : AuthorityOperation) (resources : RequestedResourceFacts)
    (budget : AuthorityBudget) (evaluated_at : N) (provenance : AuthorityExecutionProvenance)
    : AuthorityRequest :=
  mkRequest decision (eb_actor self) (eb_grant self) (eb_grant_revision self)
    (eb_grant_digest self) (eb_revocation_generation self) operation
    (resources <| rf_workflow := Some (eb_workflow self) |> <| rf_run := Some (eb_root_run self) |>)
    budget evaluated_at provenance.
End evaluation.
