(* ===== verification/AuthorityLaws.v ===== *)
(** * What authority decisions mean

    The evaluator of [Authority] allows exactly the authorized requests and always
    decides; revocation reaches every pinned basis; requirement envelopes and
    filesystem containment mean what acceptance relies on. *)
From S2P Require Import Prelude Contracts Capability Blueprint Authority.

(** ** Reason codes *)

Lemma elem_of_code_if b c x : x ∈ code_if b c ↔ b = true ∧ x = c.
Proof. destruct b; cbn; [rewrite list_elem_of_singleton|rewrite elem_of_nil]; naive_solver. Qed.
Lemma code_if_nil b c : code_if b c = [] ↔ b = false.
Proof. destruct b; naive_solver. Qed.

#[global] Instance reason_le_antisymm : AntiSymm (=) reason_le.
Proof. intros [] []; unfold reason_le; cbn; try done; lia. Qed.

Lemma dedup_increasing l : StronglySorted reason_le l → strictly_increasing (dedup l) = true ∧ NoDup (dedup l).
Proof.
  induction 1 as [|a l Hs [IH1 IH2] Ha]; [by repeat constructor|].
  destruct l as [|b l]; [split; [done|apply NoDup_singleton]|].
  rewrite dedup_cons. case_decide as Heq; [done|].
  assert (a ∉ b :: l) as Hnot.
  { intros Hin. apply elem_of_cons in Hin as [?|Hin]; [done|].
    inversion Hs as [|?? _ Hb]; subst. rewrite Forall_forall in Hb, Ha.
    apply Heq. apply (anti_symm reason_le); [apply Ha; left|by apply Hb]. }
  split.
  - destruct (dedup (b :: l)) as [|c l'] eqn:Hd; [done|].
    cbn [strictly_increasing]. apply andb_true_iff. split; [|done].
    apply Nat.ltb_lt. assert (c ∈ b :: l) as Hc by (apply elem_of_dedup; rewrite Hd; left).
    rewrite Forall_forall in Ha. specialize (Ha c Hc).
    unfold reason_le in Ha. destruct (decide (reason_rank a = reason_rank c)) as [Hr|]; [|lia].
    exfalso. apply Hnot. replace a with c; [done|].
    apply (anti_symm reason_le); unfold reason_le; lia.
  - constructor; [|done]. by rewrite elem_of_dedup.
Qed.

(** The sorted, deduplicated codes a decision stores. *)
Definition stored (reasons : list DecisionReasonCode) : list DecisionReasonCode :=
  dedup (merge_sort reason_le reasons).

Lemma elem_of_stored x rs : x ∈ stored rs ↔ x ∈ rs.
Proof. unfold stored. by rewrite elem_of_dedup, merge_sort_Permutation. Qed.
Lemma stored_increasing rs : strictly_increasing (stored rs) = true ∧ NoDup (stored rs).
Proof. apply dedup_increasing, StronglySorted_merge_sort; apply _. Qed.
Lemma stored_length rs bound : (∀ c, c ∈ rs → c ∈ bound) → length (stored rs) ≤ length bound.
Proof.
  intros Hb. apply submseteq_length, NoDup_submseteq; [apply stored_increasing|].
  intros x Hx. by apply Hb, elem_of_stored.
Qed.

(** A decision over denial codes is never an allow. *)
Lemma derived_outcome_stored rs :
  Allowed ∉ rs →
  derived_outcome (stored (if decide (rs = []) then [Allowed] else rs)) = Allow ↔ rs = [].
Proof.
  intros Hno. unfold derived_outcome. destruct (decide (rs = [])) as [->|Hr].
  - split; [done|]. intros _. vm_compute. done.
  - split; [|done]. case_decide as Hs; [|done]. intros _. exfalso. apply Hno.
    apply elem_of_stored. rewrite Hs. left.
Qed.

(** ** What an allow decision means *)

(** A requested exact value lies in the grant's selector for that dimension. *)
Definition selected `{Countable T} (f : AllowScope → Selection T)
    (capability : CapabilityAuthorityScope) (v : T) : Prop :=
  ∃ scope, capability = CapAllow scope ∧ Selection_matches (f scope) v = true.

Record authorized (revocations : gmap GrantId N) (g : AuthorityGrant) (digest : string)
    (r : AuthorityRequest) : Prop := {
  au_digest : digest = rq_grant_digest r;
  au_actor : ag_actor g = rq_actor r;
  au_revocation : rq_revocation_generation r = ag_revocation_generation g;
  au_current : default (ag_revocation_generation g) (revocations !! ag_identity g)
               = ag_revocation_generation g;
  au_from : (ag_valid_from g ≤ rq_evaluated_at r)%N;
  au_until : (rq_evaluated_at r ≤ ag_valid_until g)%N;
  au_operation : rq_operation r ∈ ag_operations g;
  au_workflow : operation_uses_workflow_scope (rq_operation r) = true →
    workflow_run_matches (rsc_workflow_run (ag_resources g)) (rq_resources r) = true;
  au_capability : capability_facts_are_requested (rq_resources r) = true →
    rsc_capability (ag_resources g) ≠ CapDenyAll;
  au_identity : ∀ v, rf_capability (rq_resources r) = Some v →
    selected as_identities (rsc_capability (ag_resources g)) v;
  au_category : ∀ v, rf_category (rq_resources r) = Some v →
    selected as_categories (rsc_capability (ag_resources g)) v;
  au_cap_operation : ∀ v, rf_capability_operation (rq_resources r) = Some v →
    selected as_operations (rsc_capability (ag_resources g)) v;
  au_profile : ∀ v, rf_provider_profile (rq_resources r) = Some v →
    selected as_provider_profiles (rsc_capability (ag_resources g)) v;
  au_zone : ∀ v, rf_trust_zone (rq_resources r) = Some v →
    selected as_trust_zones (rsc_capability (ag_resources g)) v;
  au_zones : ∀ v, v ∈ rf_trust_zones (rq_resources r) →
    selected as_trust_zones (rsc_capability (ag_resources g)) v;
  au_trust : ∀ v, rf_execution_trust_class (rq_resources r) = Some v →
    selected as_execution_trust_classes (rsc_capability (ag_resources g)) v;
  au_locality : ∀ v, rf_locality (rq_resources r) = Some v →
    selected as_localities (rsc_capability (ag_resources g)) v;
  au_peer : ∀ v, rf_peer (rq_resources r) = Some v →
    selected as_peers (rsc_capability (ag_resources g)) v;
  au_envelope : ∀ e, rf_capability_envelope (rq_resources r) = Some e →
    scope_is_subset_of e (rsc_capability (ag_resources g)) = true;
  au_side_effect : (side_effect_rank (rf_side_effect (rq_resources r))
    ≤ side_effect_rank (cap_maximum_side_effect (rsc_capability (ag_resources g))))%N;
  au_filesystem : ∀ q, q ∈ rf_filesystem (rq_resources r) →
    ∃ a, a ∈ rsc_filesystem (ag_resources g) ∧ FilesystemScope_contains a q = true;
  au_profiles : rf_network_profiles (rq_resources r) ⊆ ns_profiles (rsc_network (ag_resources g));
  au_destinations :
    rf_network_destinations (rq_resources r) ⊆ ns_destinations (rsc_network (ag_resources g));
  au_secrets : rf_secrets (rq_resources r) ⊆ rsc_secrets (ag_resources g);
  au_artifact : ∀ a s, rf_artifact (rq_resources r) = Some a →
    rf_artifact_sensitivity (rq_resources r) = Some s →
    artifacts_match (rsc_artifacts (ag_resources g)) a s = true;
  au_peer_scope : operation_requires_peer (rq_operation r) = true →
    ∃ p, rf_peer (rq_resources r) = Some p ∧ peers_match (rsc_peers (ag_resources g)) p = true;
  au_readiness : rf_daemon_readiness (rq_resources r) = true →
    ds_readiness (rsc_daemon (ag_resources g)) = true;
  au_health : rf_daemon_detailed_health (rq_resources r) = true →
    ds_detailed_health (rsc_daemon (ag_resources g)) = true;
  au_own : rf_daemon_own_authority (rq_resources r) = true →
    ds_own_authority (rsc_daemon (ag_resources g)) = true;
  au_configuration : rf_daemon_configuration (rq_resources r) = true →
    ds_configuration (rsc_daemon (ag_resources g)) = true;
  au_audit : rf_daemon_audit (rq_resources r) = true →
    ds_audit (rsc_daemon (ag_resources g)) = true;
  au_workspace : ∀ s, rf_workspace_scope (rq_resources r) = Some s →
    workspace_matches (rsc_workspace (ag_resources g)) s = true;
  au_budget : fits_within (rq_budget r) (ag_budget g) = true
}.

Lemma not_selected_false `{Countable T} (f : AllowScope → Selection T) capability v :
  negb (selection_matches (cap_selection f capability) v) = false ↔ selected f capability v.
Proof.
  rewrite negb_false_iff. unfold selection_matches, selected. destruct capability; cbn; naive_solver.
Qed.

Lemma implb_false a b : a && negb b = false ↔ (a = true → b = true).
Proof. destruct a, b; cbn; naive_solver. Qed.

Lemma zones_false (zones : gset TrustZone) capability :
  bool_decide (zones ≠ ∅) && negb (forallb (λ z, selection_matches
      (cap_selection as_trust_zones capability) z) (members zones)) = false ↔
  ∀ v, v ∈ zones → selected as_trust_zones capability v.
Proof.
  rewrite implb_false, forallb_members. setoid_rewrite <-not_selected_false.
  setoid_rewrite negb_false_iff. split.
  - intros Hz v Hv. apply Hz; [|done]. apply bool_decide_eq_true. set_solver.
  - naive_solver.
Qed.

Lemma filesystem_false (requested allowed : list FilesystemScope) :
  negb (forallb (λ q, existsb (λ a, FilesystemScope_contains a q) allowed) requested) = false ↔
  ∀ q, q ∈ requested → ∃ a, a ∈ allowed ∧ FilesystemScope_contains a q = true.
Proof.
  rewrite negb_false_iff, forallb_forall. setoid_rewrite existsb_exists.
  by setoid_rewrite list_elem_of_In.
Qed.

Lemma artifact_false scope (artifact : option string) sensitivity :
  match artifact, sensitivity with
  | Some a, Some s => negb (artifacts_match scope a s)
  | _, _ => false
  end = false ↔
  ∀ a s, artifact = Some a → sensitivity = Some s → artifacts_match scope a s = true.
Proof. destruct artifact, sensitivity; cbn; rewrite ?negb_false_iff; naive_solver. Qed.

Lemma peer_scope_false (requires : bool) scope (peer : option PeerId) :
  requires && is_none_or (λ p, negb (peers_match scope p)) peer = false ↔
  (requires = true → ∃ p, peer = Some p ∧ peers_match scope p = true).
Proof. destruct requires, peer; cbn; rewrite ?negb_false_iff; naive_solver. Qed.

Lemma denies_false capability (requested : bool) :
  cap_denies_all capability && requested = false ↔ (requested = true → capability ≠ CapDenyAll).
Proof. destruct capability, requested; cbn; naive_solver. Qed.

Lemma denial_reasons_nil revocations g digest r :
  denial_reasons revocations g digest r = [] ↔ authorized revocations g digest r.
Proof.
  unfold denial_reasons.
  rewrite !app_nil, !code_if_nil, !orb_false_iff, zones_false, filesystem_false, artifact_false,
    peer_scope_false, denies_false, !implb_false, !is_some_and_false, !negb_false_iff,
    !N.eqb_eq, !N.ltb_ge, !bool_decide_eq_true, !bool_decide_eq_false.
  repeat setoid_rewrite not_selected_false. repeat setoid_rewrite negb_false_iff.
  split.
  - intros Hall. destruct_and! Hall. split; try done; by apply dec_stable.
  - intros []. split_and!; try done; naive_solver.
Qed.

(** The codes [denial_reasons] can report, whichever way the request fails. *)
Lemma denial_codes revocations g digest r c :
  c ∈ denial_reasons revocations g digest r →
  c ≠ Allowed ∧ c ≠ GrantNotFound ∧ c ≠ GrantRevisionMismatch
  ∧ (c = NotYetValid → (rq_evaluated_at r < ag_valid_from g)%N)
  ∧ (c = Expired → (ag_valid_until g < rq_evaluated_at r)%N)
  ∧ (c = WorkflowRunMismatch → operation_uses_workflow_scope (rq_operation r) = true)
  ∧ (c = PeerScopeMismatch → operation_requires_peer (rq_operation r) = true).
Proof.
  unfold denial_reasons. rewrite !elem_of_app, !elem_of_code_if. intros Hc.
  repeat destruct Hc as [Hc|Hc]; destruct Hc as [Hc ->];
    split_and!; try done; intros _; bool_prop; done.
Qed.

Lemma peer_operation_has_no_workflow_scope op :
  operation_requires_peer op = true → operation_uses_workflow_scope op = false.
Proof. by destruct op. Qed.

(** At most sixteen distinct codes apply at once: a boundary cannot both precede and
    follow a grant's validity, and peer operations carry no workflow scope. *)
Lemma denial_reasons_bounded revocations g digest r :
  (ag_valid_from g ≤ ag_valid_until g)%N →
  length (stored (denial_reasons revocations g digest r)) ≤ 16.
Proof.
  intros Hvalid.
  pose (bound := [GrantDigestMismatch; WrongActor; Revoked; OperationMismatch;
    CapabilityMismatch; PlacementMismatch; SideEffectExcess; FilesystemMismatch; NetworkMismatch;
    SecretScopeMismatch; ArtifactScopeMismatch; DaemonScopeMismatch; WorkspaceScopeMismatch;
    BudgetExcess;
    if (rq_evaluated_at r <? ag_valid_from g)%N then NotYetValid else Expired;
    if operation_requires_peer (rq_operation r) then PeerScopeMismatch else WorkflowRunMismatch]).
  apply (stored_length _ bound). intros c Hc.
  apply denial_codes in Hc as (H1 & H2 & H3 & Hn & He & Hw & Hp).
  unfold bound. rewrite !elem_of_cons.
  destruct c; try done; try solve [repeat first [by left|right]]; do 14 right.
  - rewrite (proj2 (N.ltb_lt _ _) (Hn eq_refl)). by left.
  - destruct (N.ltb_spec (rq_evaluated_at r) (ag_valid_from g)) as [Hlt|]; [|by left].
    specialize (He eq_refl). lia.
  - right. destruct (operation_requires_peer (rq_operation r)) eqn:Hop; [|by left].
    apply peer_operation_has_no_workflow_scope in Hop. rewrite Hw in Hop; done.
  - right. rewrite (Hp eq_refl). by left.
Qed.


Section evaluator_laws.
Context `{!AuthorityCodec}.
Implicit Types (e : GrantSetEvaluator) (r : AuthorityRequest) (d : AuthorityDecisionSnapshot).

(** Every constructed decision passes the validation its readers apply. *)
Lemma from_evaluation_valid policy version r rs budget side d :
  from_evaluation policy version r rs budget side = Ok d →
  (Allowed ∈ rs → rs = [Allowed]) →
  decision_validate d = Ok tt ∧ dn_request d = r
  ∧ dn_reason_codes d = stored rs ∧ dn_outcome d = derived_outcome (stored rs).
Proof.
  unfold from_evaluation. fold (stored rs). intros He Hallowed. inv_ok. subst d.
  split; [|done]. unfold decision_validate. cbn [dn_request dn_schema_version dn_policy_version
    dn_reason_codes dn_digest dn_outcome].
  bool_prop. rewrite !seq_Ok, bind_Ok, !refuse_if_Ok. split_and!; [done| |].
  - destruct (stored_increasing rs) as [-> _]. rewrite !orb_false_iff. split_and!; try done.
    + by apply N.eqb_neq.
    + by apply N.eqb_neq.
    + by apply N.ltb_ge.
    + apply implb_false. intros Ha%bool_decide_eq_true. apply elem_of_stored, Hallowed in Ha.
      by subst.
  - eexists. split; [eassumption|]. rewrite seq_Ok, !refuse_if_Ok.
    by rewrite !bool_decide_eq_false; auto.
Qed.

Lemma from_evaluation_Ok policy version r rs budget side :
  request_validate r = Ok tt → version ≠ 0%N → rs ≠ [] → length (stored rs) ≤ 16 →
  (∀ payload : DecisionDigest, is_ok (canonical_json payload) = true) →
  ∃ d, from_evaluation policy version r rs budget side = Ok d.
Proof.
  intros Hr Hv Hne Hlen Henc. unfold from_evaluation. fold (stored rs). rewrite Hr. cbn.
  rewrite (proj2 (N.eqb_neq _ _) Hv). cbn.
  assert ((vlen (stored rs) =? 0)%N = false) as ->.
  { apply N.eqb_neq. unfold vlen. intros H0.
    destruct rs as [|c rs]; [done|]. assert (c ∈ stored (c :: rs)) as Hc by (apply elem_of_stored; left).
    destruct (stored (c :: rs)); [by apply elem_of_nil in Hc|]. cbn in H0. lia. }
  assert ((MAX_DIAGNOSTIC_CODES <? vlen (stored rs))%N = false) as ->.
  { apply N.ltb_ge. unfold vlen, MAX_DIAGNOSTIC_CODES. lia. }
  cbn. unfold decision_digest.
  match goal with |- context [canonical_json ?p] =>
    specialize (Henc p); destruct (canonical_json p); [|done] end. cbn. eauto.
Qed.

Lemma build_grant_facts g g' :
  AuthorityGrantBuilder_build g = Ok g' →
  (ag_valid_from g ≤ ag_valid_until g)%N ∧ ∃ digest, grant_digest g = Ok digest.
Proof.
  unfold AuthorityGrantBuilder_build. intros Hb. inv_ok. bool_prop. split; [done|].
  unfold grant_digest. match goal with H : canonical_json g = Ok _ |- _ => rewrite H end.
  cbn. eauto.
Qed.

Lemma Allowed_not_denied revocations g digest r :
  Allowed ∉ denial_reasons revocations g digest r.
Proof. by intros [? _]%denial_codes. Qed.

Lemma evaluate_allow_char e r d :
  evaluate e r = Ok d →
  dn_outcome d = Allow ↔
  ∃ g digest, ge_grants e !! (rq_grant r, rq_grant_revision r) = Some g
    ∧ grant_digest g = Ok digest ∧ authorized (ge_revocations e) g digest r.
Proof.
  unfold evaluate. intros He. inv_ok.
  destruct (ge_grants e !! (rq_grant r, rq_grant_revision r)) as [g|].
  - apply bind_Ok in He as (digest & Hdigest & He).
    apply from_evaluation_valid in He as (_ & _ & _ & Hout).
    + rewrite Hout, (derived_outcome_stored _ (Allowed_not_denied _ _ _ _)), denial_reasons_nil.
      split; [eauto|]. intros (? & ? & [= <-] & Hd & ?). congruence.
    + case_decide; [done|]. intros Ha. by apply Allowed_not_denied in Ha.
  - apply from_evaluation_valid in He as (_ & _ & _ & Hout).
    + split; [|naive_solver]. rewrite Hout. by case_decide.
    + case_decide; intros Ha; by apply list_elem_of_singleton in Ha.
Qed.

(** C21: An evaluation allows a request iff the exact grant revision it names is
    configured with the digest it carries and that grant authorizes it: actor,
    revocation generation, validity interval, operation, workflow scope,
    every capability selector, side-effect ceiling, filesystem, network, secret,
    artifact, peer, daemon and workspace scopes, and budget. Every other request
    is denied. *)
Theorem evaluate_allow_iff e r d :
  evaluate e r = Ok d →
  dn_outcome d = Allow ↔
  ∃ g digest, ge_grants e !! (rq_grant r, rq_grant_revision r) = Some g
    ∧ grant_digest g = Ok digest ∧ authorized (ge_revocations e) g digest r.
Proof. apply evaluate_allow_char. Qed.

End evaluator_laws.

(** ** Revocation reaches every pinned basis *)

(** The index holds each grant under its own identity and revision. *)
Lemma evaluator_indexed policy version grants revocations e :
  GrantSetEvaluator_new policy version grants revocations = Ok e →
  ∀ k g, ge_grants e !! k = Some g → k = (ag_identity g, ag_revision g).
Proof.
  unfold GrantSetEvaluator_new. intros He. inv_ok. subst e. cbn.
  match goal with H : try_fold _ _ _ = Ok ?m |- _ => revert H end.
  apply (try_fold_ind (λ m : gmap (GrantId * N) AuthorityGrant,
    ∀ k g, m !! k = Some g → k = (ag_identity g, ag_revision g))); [|by intros ??; rewrite lookup_empty].
  intros m g m' _ Hm Hf k g'. inv_ok. subst m'.
  rewrite lookup_insert_Some. intros [[<- <-]|[_ ?]]; [done|by apply Hm].
Qed.

(** C22: Once a grant's current revocation generation differs from the one a run pinned
    at its start, every request derived from that run's basis is denied, whatever
    operation, resources, budget or time it names. *)
Theorem revoked_basis_denied `{!AuthorityCodec} policy version grants revocations e b current
    decision operation facts budget at_ms provenance d :
  GrantSetEvaluator_new policy version grants revocations = Ok e →
  revocations !! eb_grant b = Some current → current ≠ eb_revocation_generation b →
  evaluate e (basis_request b decision operation facts budget at_ms provenance) = Ok d →
  dn_outcome d = Deny.
Proof.
  intros He Hcur Hne Hd. destruct (dn_outcome d) eqn:Hout; [|done]. exfalso.
  apply evaluate_allow_char in Hd. apply Hd in Hout as (g & digest & Hg & _ & Hauth).
  apply (evaluator_indexed _ _ _ _ _ He) in Hg. injection Hg as Hid _. cbn in Hid.
  pose proof (au_current _ _ _ _ Hauth) as Hc. pose proof (au_revocation _ _ _ _ Hauth) as Hr.
  cbn in Hr.
  assert (ge_revocations e = revocations) as Hrev.
  { unfold GrantSetEvaluator_new in He. inv_ok. by subst e. }
  rewrite Hrev, <-Hid, Hcur in Hc. cbn in Hc. congruence.
Qed.

(** ** Requirement envelopes *)

Lemma Selection_only_Ok `{Countable T} (s : gset T) sel : Selection_only s = Ok sel → sel = SelOnly s.
Proof. unfold Selection_only. intros Hs. inv_ok. done. Qed.

Definition optional_selection `{Countable T} (o : option (gset T)) : Selection T :=
  match o with Some s => SelOnly s | None => SelAny end.

(** One narrowing step replaces one selector, or leaves it. *)
Lemma narrow_only `{Countable T} {A} (o : option A) (g : A → gset T)
    (set : AllowScope → Selection T → AllowScope) (get : AllowScope → Selection T) b b' :
  (∀ b, set b (get b) = b) → get b = SelAny →
  narrow o (λ b v, s ← Selection_only (g v); Ok (set b s)) b = Ok b' →
  b' = set b (optional_selection (g <$> o)).
Proof.
  intros Heta Hget. destruct o as [v|]; cbn [narrow fmap option_fmap option_map optional_selection].
  - intros Hn. inv_ok. apply Selection_only_Ok in H0. by subst.
  - intros [= <-]. by rewrite <-Hget, Heta.
Qed.

(** The selector of each dimension, as the requirement determines it. *)
Definition placement_localities (r : CapabilityRequirement) : option (gset Locality) :=
  cr_placement r ≫= λ p,
    match pl_peers p with Some _ => Some {[LocPeer]} | None => pl_localities p end.

Lemma requirement_envelope_shape r env :
  requirement_envelope r = Ok (CapAllow env) →
  is_some_and placement_denies_all (cr_placement r) = false
  ∧ ∃ zones, env = mkAllowScope
      (optional_selection (singleton <$> cr_exact_capability r))
      (optional_selection (nonempty (cr_categories r)))
      (SelOnly {[cr_operation r]})
      (optional_selection (singleton <$> cr_provider_profile r))
      zones
      (optional_selection (singleton <$> cr_execution_trust r))
      (optional_selection (placement_localities r))
      (optional_selection (cr_placement r ≫= pl_peers))
      (cr_maximum_side_effect r).
Proof.
  unfold requirement_envelope. intros He.
  destruct (is_some_and placement_denies_all (cr_placement r)); [done|]. split; [done|].
  inv_ok. apply Selection_only_Ok in H. subst x.
  apply (narrow_only _ _ (λ b s, b <| as_identities := s |>) as_identities) in H0; [|by intros []|done].
  subst x0.
  apply (narrow_only _ id (λ b s, b <| as_categories := s |>) as_categories) in H1; [|by intros []|done].
  subst x1.
  apply (narrow_only _ _ (λ b s, b <| as_provider_profiles := s |>) as_provider_profiles) in H2;
    [|by intros []|done]. subst x2.
  apply (narrow_only _ id (λ b s, b <| as_trust_zones := s |>) as_trust_zones) in H3; [|by intros []|done].
  subst x3.
  apply (narrow_only _ _ (λ b s, b <| as_execution_trust_classes := s |>) as_execution_trust_classes) in H4;
    [|by intros []|done]. subst x4.
  rewrite !option_fmap_id in H5. rename x5 into final.
  eexists. destruct (cr_placement r) as [p|] eqn:Hp; cbn [narrow] in H5.
  - unfold placement_localities. rewrite Hp. cbn [mbind option_bind].
    destruct (pl_peers p) as [peers|].
    + inv_ok. apply Selection_only_Ok in H, H0. subst. by cbn.
    + apply (narrow_only _ id (λ b s, b <| as_localities := s |>) as_localities) in H5;
        [|by intros []|done]. rewrite option_fmap_id in H5. subst. by cbn.
  - unfold placement_localities. rewrite Hp. inv_ok. subst. by cbn.
Qed.

Lemma subset_matches `{Countable T} (s t : Selection T) v :
  Selection_is_subset_of s t = true → Selection_matches s v = true → Selection_matches t v = true.
Proof.
  destruct s, t; cbn; try done. rewrite !bool_decide_eq_true. set_solver.
Qed.

Lemma optional_matches `{Countable T} (o : option (gset T)) v :
  Selection_matches (optional_selection o) v = true ↔ ∀ s, o = Some s → v ∈ s.
Proof. destruct o; cbn; [rewrite bool_decide_eq_true|]; naive_solver. Qed.

(** A scope admits a matching descriptor in every dimension but its trust zones. *)
Definition admits (scope : AllowScope) (d : CapabilityDescriptor) (o : OperationContract)
    (operation : OperationId) : Prop :=
  Selection_matches (as_identities scope) (cd_identity d) = true
  ∧ Selection_matches (as_categories scope) (cd_category d) = true
  ∧ Selection_matches (as_operations scope) operation = true
  ∧ (∀ p, cd_provider_profile d = Some p → Selection_matches (as_provider_profiles scope) p = true)
  ∧ Selection_matches (as_execution_trust_classes scope) (cd_execution_trust d) = true
  ∧ Selection_matches (as_localities scope) (cd_locality d) = true
  ∧ (∀ q, cd_peer d = Some q → Selection_matches (as_peers scope) q = true)
  ∧ (side_effect_rank (oc_side_effect o) ≤ side_effect_rank (as_maximum_side_effect scope))%N.

Lemma admits_mono s t d o operation :
  scope_is_subset_of (CapAllow s) (CapAllow t) = true → admits s d o operation → admits t d o operation.
Proof.
  cbn. intros Hs (?&?&?&Hp&?&?&Hq&?). bool_prop.
  split_and!; try (by eapply subset_matches); [..|lia].
  - intros p Hp'. eapply subset_matches; [|by apply Hp]. done.
  - intros p Hp'. eapply subset_matches; [|by apply Hq]. done.
Qed.

Lemma placement_denies_all_no_match d r p :
  cr_placement r = Some p → placement_denies_all p = true → satisfies d r → False.
Proof.
  intros Hp Hd (_&_&_&_&_&_&Hpl). destruct (Hpl p Hp) as [Hl Hps].
  unfold placement_denies_all in Hd. apply orb_true_iff in Hd as [Hd|Hd];
    apply is_some_and_true in Hd as (s & Hs & Hempty%bool_decide_eq_true); subst s.
  - specialize (Hl _ Hs). set_solver.
  - destruct (Hps _ Hs) as (_ & q & _ & Hq). set_solver.
Qed.

(** C29: If the envelope of a task's requirement lies within a grant's capability scope,
    then every descriptor matching the requirement is admitted by that grant in
    identity, category, operation, provider profile, execution trust, locality, peer
    and side effect: acceptance never promises more than the grant gives. *)
Theorem requirement_envelope_sound r env allowed d o :
  requirement_envelope r = Ok env → scope_is_subset_of env allowed = true →
  is_match (matches d r) = true → cd_operations d !! cr_operation r = Some o →
  ∃ scope, allowed = CapAllow scope ∧ admits scope d o (cr_operation r).
Proof.
  intros Henv Hsub Hm Ho. apply matches_satisfies in Hm.
  destruct env as [|env].
  { exfalso. unfold requirement_envelope in Henv.
    destruct (is_some_and placement_denies_all (cr_placement r)) eqn:Hp.
    - apply is_some_and_true in Hp as (p & Hp & Hd). by eapply placement_denies_all_no_match.
    - inv_ok. done. }
  destruct allowed as [|scope]; [done|]. exists scope. split; [done|].
  eapply admits_mono; [done|].
  apply requirement_envelope_shape in Henv as (_ & zones & ->).
  destruct Hm as (Hid & Hprof & Hcat & (o' & Ho' & _ & _ & _ & Hside) & _ & Htrust & Hpl).
  assert (o' = o) as -> by congruence.
  unfold admits. cbn [as_identities as_categories as_operations as_provider_profiles
    as_execution_trust_classes as_localities as_peers as_maximum_side_effect].
  rewrite !optional_matches. split_and!.
  - intros s (c & Hc & ->)%fmap_Some. apply elem_of_singleton. by apply Hid.
  - unfold nonempty. case_decide; naive_solver.
  - cbn. apply bool_decide_eq_true. set_solver.
  - intros p Hp. apply optional_matches. intros s (q & Hq & ->)%fmap_Some.
    apply Hprof in Hq. apply elem_of_singleton. congruence.
  - intros s (t & Ht & ->)%fmap_Some. apply elem_of_singleton. by apply Htrust.
  - unfold placement_localities. intros s (p & Hp & Hs)%bind_Some.
    destruct (Hpl p Hp) as [Hl Hps]. destruct (pl_peers p) as [ps|] eqn:Hpp; [|by apply Hl].
    simplify_eq. destruct (Hps ps eq_refl) as [-> _]. set_solver.
  - intros q Hq. apply optional_matches. intros s (p & Hp & Hs)%bind_Some.
    destruct (Hpl p Hp) as [_ Hps]. destruct (Hps s Hs) as (_ & q' & ? & ?). congruence.
  - done.
Qed.

(** ** Filesystem containment is the path-prefix order *)

Definition family_prefix (f : FilesystemRootFamily) : string :=
  match f with
  | Unix => "/"
  | WindowsDrive d => String (ascii_of_N d) ":/"
  end.

Lemma root_prefix_text t f rem : root_prefix t = Some (f, rem) → t = family_prefix f +:+ rem.
Proof.
  unfold root_prefix. destruct t as [|c t]; [done|]. cbn.
  case_decide as Hc; [subst c; cbn; intros [= <- <-]; done|].
  destruct t as [|c1 t]; [done|]. destruct t as [|c2 t]; [by repeat case_match|].
  repeat case_match; try done; intros [= <- <-]; simplify_eq; cbn.
  unfold byte_of. by rewrite ascii_N_embedding.
Qed.

Lemma root_prefix_unique t1 f1 rem1 x f2 rem2 :
  root_prefix t1 = Some (f1, rem1) → root_prefix (family_prefix f1 +:+ x) = Some (f2, rem2) →
  f2 = f1 ∧ rem2 = x.
Proof.
  destruct f1 as [|d].
  - intros _. change ("/" +:+ x) with (String "/" x). unfold root_prefix. cbn. by intros [= <- <-].
  - unfold root_prefix at 1. destruct t1 as [|c t1]; [done|]. cbn.
    case_decide as Hc; [by intros|]. intros Ht.
    assert (d = byte_of c ∧ is_ascii_uppercase (byte_of c) = true) as [-> Hup]
      by (repeat case_match; simplify_eq; done).
    unfold byte_of at 1. rewrite ascii_N_embedding.
    change (String c ":/" +:+ x) with (String c (String ":" (String "/" x))).
    unfold root_prefix. cbn.
    rewrite decide_False by done. rewrite Hup. by intros [= <- <-].
Qed.

Lemma list_starts_with_true prefix l :
  list_starts_with prefix l = true ↔ ∃ rest, l = prefix ++ rest.
Proof.
  revert l. induction prefix as [|x prefix IH]; intros l; cbn; [naive_solver|].
  destruct l as [|y l]; [naive_solver|].
  rewrite andb_true_iff, bool_decide_eq_true, IH. naive_solver.
Qed.

Lemma split_not_nil c s : split c s ≠ [].
Proof. destruct s as [|a s]; cbn; [done|]. repeat case_match; done. Qed.

Lemma split_app c s t : split c (s +:+ String c t) = split c s ++ split c t.
Proof.
  induction s as [|a s IH].
  - change (split c (String c t) = [EmptyString] ++ split c t). cbn. by rewrite decide_True.
  - change (split c (String a (s +:+ String c t)) = split c (String a s) ++ split c t).
    cbn. rewrite IH. case_decide; [done|].
    pose proof (split_not_nil c s). by destruct (split c s).
Qed.

Fixpoint join (c : ascii) (l : list string) : string :=
  match l with
  | [] => EmptyString
  | x :: rest => match rest with [] => x | _ => x +:+ String c (join c rest) end
  end.

Lemma join_split c s : join c (split c s) = s.
Proof.
  induction s as [|a s IH]; [done|]. cbn. pose proof (split_not_nil c s) as Hne.
  case_decide as Ha; [subst a|].
  - cbn. destruct (split c s) eqn:Hs; [done|]. by rewrite IH.
  - destruct (split c s) as [|x xs] eqn:Hs; [done|]. cbn in IH |- *.
    destruct xs; rewrite <-IH; done.
Qed.

Lemma join_app c l l' : l ≠ [] → l' ≠ [] → join c (l ++ l') = join c l +:+ String c (join c l').
Proof.
  intros Hl Hl'. induction l as [|x l IH]; [done|].
  destruct l as [|y l].
  - cbn. by destruct l'.
  - change (x +:+ String c (join c ((y :: l) ++ l'))
            = (x +:+ String c (join c (y :: l))) +:+ String c (join c l')).
    rewrite IH by done. by rewrite append_assoc.
Qed.

Definition root_split (rem : string) : list string :=
  if is_empty rem then [] else split "/" rem.

Lemma is_empty_true s : is_empty s = true ↔ s = EmptyString.
Proof. destruct s; cbn; naive_solver. Qed.

Lemma parse_root_facts t r :
  parse_root t = Ok r →
  ∃ rem, root_prefix t = Some (root_family r, rem)
    ∧ root_components r = root_split rem ∧ ends_with_char "/" rem = false.
Proof.
  unfold parse_root. intros Hp. inv_ok. bool_prop. subst r. cbn.
  match goal with H : root_prefix t = Some (_, ?rem) |- _ => exists rem end.
  split_and!; [done| |done]. unfold root_split.
  match goal with H : (if ?b then _ else _) = Ok _ |- _ => destruct b; [by inv_ok|] end.
  match goal with H : try_map _ ?l = Ok ?cs |- _ =>
    apply try_map_Ok in H; revert H; generalize l; revert cs end.
  intros cs l. revert cs. induction l as [|c l IH]; intros cs Hf.
  - by inversion Hf.
  - inversion Hf as [|? y ? l' Hc Hl]; subst. inv_ok. subst y. f_equal. by apply IH.
Qed.

Lemma join_root_split rem : join "/" (root_split rem) = rem.
Proof.
  unfold root_split. destruct (is_empty rem) eqn:He.
  - apply is_empty_true in He. by subst.
  - apply join_split.
Qed.

Lemma root_split_nil rem : root_split rem = [] ↔ rem = EmptyString.
Proof.
  unfold root_split. destruct (is_empty rem) eqn:He; rewrite <-is_empty_true.
  - naive_solver.
  - rewrite He. split; [|done]. intros Hs. by apply split_not_nil in Hs.
Qed.

(** The text below which a root's descendants lie. *)
Definition directory (text : string) : string :=
  if ends_with_char "/" text then text else text +:+ "/".

Lemma ends_with_char_append c s t :
  t ≠ EmptyString → ends_with_char c (s +:+ t) = ends_with_char c t.
Proof.
  intros Ht. unfold ends_with_char. apply bool_decide_ext.
  assert (String.list_ascii_of_string (s +:+ t)
          = String.list_ascii_of_string s ++ String.list_ascii_of_string t) as ->.
  { induction s as [|a s IH]; [done|]. change (a :: String.list_ascii_of_string (s +:+ t)
      = a :: String.list_ascii_of_string s ++ String.list_ascii_of_string t). by rewrite IH. }
  rewrite last_app. destruct t as [|a t]; [done|].
  assert (is_Some (last (String.list_ascii_of_string (String a t)))) as [x ->]; [|done].
  apply last_is_Some. done.
Qed.

Lemma directory_root t f rem :
  root_prefix t = Some (f, rem) → ends_with_char "/" rem = false →
  directory t = family_prefix f +:+ (if is_empty rem then EmptyString else rem +:+ "/").
Proof.
  intros ->%root_prefix_text Hend. unfold directory. destruct (is_empty rem) eqn:He.
  - apply is_empty_true in He. subst rem. rewrite append_nil_r.
    assert (ends_with_char "/" (family_prefix f) = true) as ->; [|done].
    destruct f; [done|]. apply bool_decide_eq_true. done.
  - rewrite ends_with_char_append; [|by intros ->]. rewrite Hend. apply append_assoc.
Qed.

(** C30: Canonical root containment is the path-prefix order on the durable text: a root
    contains another iff they are the same path or the second continues the first
    below a separator, so [/repo] never contains [/repository]. *)
Theorem root_contains_spec t1 t2 r1 r2 :
  parse_root t1 = Ok r1 → parse_root t2 = Ok r2 →
  root_contains r1 r2 = true ↔ t2 = t1 ∨ ∃ rest, t2 = directory t1 +:+ rest.
Proof.
  intros (rem1 & Hp1 & Hc1 & He1)%parse_root_facts (rem2 & Hp2 & Hc2 & He2)%parse_root_facts.
  rewrite (directory_root _ _ _ Hp1 He1). unfold root_contains.
  rewrite andb_true_iff, bool_decide_eq_true, list_starts_with_true, Hc1, Hc2.
  pose proof (root_prefix_text _ _ _ Hp1) as Ht1. pose proof (root_prefix_text _ _ _ Hp2) as Ht2.
  split.
  - intros (Hf & rest & Hrest). rewrite <-Hf in Ht2.
    assert (rem2 = join "/" (root_split rem1 ++ rest)) as Hrem.
    { by rewrite <-Hrest, join_root_split. }
    destruct rest as [|x rest].
    { left. rewrite (right_id_L [] (++)), join_root_split in Hrem. congruence. }
    right. exists (join "/" (x :: rest)). rewrite Ht2, Hrem. destruct (is_empty rem1) eqn:Hem.
    + apply is_empty_true in Hem. subst rem1. by rewrite append_nil_r.
    + rewrite join_app, join_root_split; [|rewrite root_split_nil, <-is_empty_true; congruence|done].
      by rewrite !append_assoc.
  - intros [Heq|[rest Heq]].
    + rewrite Heq, Hp1 in Hp2. injection Hp2 as <- <-. split; [done|]. exists []. by rewrite (right_id_L [] (++)).
    + rewrite Heq, append_assoc in Hp2.
      apply (root_prefix_unique _ _ _ _ _ _ Hp1) in Hp2 as [-> ->]. split; [done|].
      destruct (is_empty rem1) eqn:Hem.
      * apply is_empty_true in Hem. subst rem1. by eexists.
      * rewrite append_assoc. change ("/" +:+ rest) with (String "/" rest).
        unfold root_split at 1. destruct (is_empty (rem1 +:+ String "/" rest)) eqn:Hx.
        { apply is_empty_true in Hx. by destruct rem1. }
        exists (split "/" rest). unfold root_split. by rewrite Hem, split_app.
Qed.

Lemma root_contains_spec_witness :
  ∃ r1 r2, parse_root "/repo" = Ok r1 ∧ parse_root "/repo/src" = Ok r2 ∧ root_contains r1 r2 = true.
Proof.
  do 2 eexists. split_and!; [vm_compute; reflexivity|vm_compute; reflexivity|].
  apply (root_contains_spec "/repo" "/repo/src"); [vm_compute; reflexivity|vm_compute; reflexivity|].
  right. exists "src". vm_compute. reflexivity.
Defined.

(** ** Concrete grants and requests *)

Definition sample_resources : ResourceScope :=
  mkResourceScope ScopeAny (allow_any SideReadOnly) [] (mkNetworkScope ∅ ∅) ∅ ArtDenyAll
    (mkPeerScope ∅ false) (mkDaemonScope false false false false false)
    (mkWorkspaceScope ∅ false).
Definition sample_grant : AuthorityGrant :=
  mkGrant 5 "grant" 1 "alice" {[OpStartRun; OpInvokeCapability]} sample_resources
    AuthorityBudget_default 0 1000 7 ∅.
Definition sample_grant_digest : string :=
  match @grant_digest sample_authority_codec sample_grant with Ok d => d | Err _ => EmptyString end.
Definition sample_provenance : AuthorityExecutionProvenance :=
  mkProvenance None None None None None None None.
Definition sample_request : AuthorityRequest :=
  mkRequest "d1" "alice" "grant" 1 sample_grant_digest 7 OpStartRun facts_empty
    AuthorityBudget_default 10 sample_provenance.
Definition sample_evaluator (revocations : gmap GrantId N) : GrantSetEvaluator :=
  mkEvaluator "policy" 1 {[("grant", 1%N) := sample_grant]} revocations.
Definition sample_basis : ExecutionAuthorityBasis :=
  mkBasis 1 "alice" "grant" 1 sample_grant_digest "policy" 1 "wf" "run" "rev" "d1" "" 7 "".

(** The decision a successful evaluation returned. *)
Definition decided (o : result AuthorityError AuthorityDecisionSnapshot)
    (fallback : AuthorityDecisionSnapshot) : AuthorityDecisionSnapshot :=
  match o with Ok d => d | Err _ => fallback end.
Definition no_decision : AuthorityDecisionSnapshot :=
  mkDecision 3 "" 0 sample_request Deny [] AuthorityBudget_default SideNone "".
Definition sample_decision : AuthorityDecisionSnapshot :=
  decided (@evaluate sample_authority_codec (sample_evaluator ∅) sample_request) no_decision.

Lemma evaluate_allow_iff_witness :
  ∃ g digest, ge_grants (sample_evaluator ∅) !! ("grant", 1%N) = Some g
    ∧ @grant_digest sample_authority_codec g = Ok digest ∧ authorized ∅ g digest sample_request.
Proof.
  apply (@evaluate_allow_iff sample_authority_codec (sample_evaluator ∅) sample_request
           sample_decision); vm_compute; reflexivity.
Defined.

Lemma sample_grant_built :
  is_ok (@AuthorityGrantBuilder_build sample_authority_codec sample_grant) = true.
Proof. vm_compute. reflexivity. Qed.

Lemma sample_grants_built k g :
  ge_grants (sample_evaluator ∅) !! k = Some g →
  ∃ g', @AuthorityGrantBuilder_build sample_authority_codec g = Ok g'.
Proof.
  unfold sample_evaluator. cbn [ge_grants]. intros [_ <-]%lookup_singleton_Some.
  apply is_ok_true, sample_grant_built.
Qed.


Definition sample_revoked : GrantSetEvaluator := sample_evaluator {["grant" := 8%N]}.
Definition sample_derived : AuthorityRequest :=
  basis_request sample_basis "d2" OpInvokeCapability facts_empty AuthorityBudget_default 10
    sample_provenance.

Lemma revoked_basis_denied_witness :
  dn_outcome (decided (@evaluate sample_authority_codec sample_revoked sample_derived) no_decision)
  = Deny.
Proof.
  refine (@revoked_basis_denied sample_authority_codec "policy" 1 [sample_grant] {["grant" := 8%N]}
    sample_revoked sample_basis 8 "d2" OpInvokeCapability facts_empty
    AuthorityBudget_default 10 sample_provenance _ _ _ _ _).
  - reflexivity.
  - vm_compute. reflexivity.
  - vm_compute. discriminate.
  - vm_compute. reflexivity.
Defined.

Lemma requirement_envelope_sound_witness :
  ∃ scope, allow_any SideUnknown = CapAllow scope
    ∧ admits scope sample_descriptor sample_operation "process.run".
Proof.
  apply (requirement_envelope_sound (CapabilityRequirement_new "process.run")
    (CapAllow (allow_any_scope SideUnknown <| as_operations := SelOnly {["process.run"]} |>))
    (allow_any SideUnknown) sample_descriptor sample_operation); vm_compute; reflexivity.
Defined.
