(* ===== verification/Model.v ===== *)
(** * Model requests and responses ([crates/model])

    Messages, tools, sessions and bounds of a provider-neutral model request, the
    continuation history a request may carry, and the tool-exchange discipline over
    a conversation. *)
From S2P Require Import Prelude Contracts Capability.

Definition MAX_MESSAGES : N := 256.
Definition MAX_PARTS : N := 1024.
Definition MAX_TEXT_BYTES : N := 1048576.
Definition MAX_TOOLS : N := 64.
Definition MAX_TOOL_CALLS : N := 128.
Definition MAX_MODEL_OUTPUT_UNITS : N := 4000000.
Definition MAX_MODEL_DOCUMENT_BYTES : N := 2097152.
Definition MODEL_TASK_INPUT_NAME : string := "milkdrift.model_task".
Definition MODEL_LIMITS : JsonLimits := mkJsonLimits 48 1048576 192 4096.

Inductive ModelContractError :=
| McJson (message : string)
| McBounds (location reason : string)
| McUnsupportedVersion (document : string) (found supported : N)
| McInvalid (message : string).

Inductive MessageRole := System | Developer | User | Assistant | ToolResultRole.
Inductive ContentPart :=
| PartText (text : string)
| PartArtifact (reference : ArtifactReference)
| PartImage (reference : ArtifactReference)
| PartFile (reference : ArtifactReference).

Record ToolCall := mkToolCall { tc_id : string; tc_name : string; tc_arguments : Value }.
Record Message := mkMessage {
  ms_role : MessageRole;
  ms_parts : list ContentPart;
  ms_tool_call_id : option string;
  ms_tool_calls : list ToolCall
}.
Record ToolDefinition := mkToolDefinition {
  tdf_name : string; tdf_description : string; tdf_input_schema : Value }.
Record StructuredOutput := mkStructuredOutput {
  so_name : string; so_schema : Value; so_strict : bool }.
Inductive SessionSelection :=
| SessionFresh
| ExplicitContinuation (manifest response : ArtifactReference)
| ProviderManaged (session_id : string).
Inductive ReasoningEffort := EffortLow | EffortMedium | EffortHigh.
Record ReasoningControl := mkReasoning {
  rn_effort : option ReasoningEffort; rn_maximum_units : option N }.

Record ModelTaskRequest := mkModelTaskRequest {
  mt_messages : list Message;
  mt_tools : list ToolDefinition;
  mt_structured_output : option StructuredOutput;
  mt_session : SessionSelection;
  mt_reasoning : option ReasoningControl;
  mt_maximum_output_units : N;
  mt_streaming : bool;
  mt_extensions : Extensions
}.
(** [ModelTaskRequestDocument] *)
Record ModelTaskRequestDocument := mkModelTaskDocument {
  mtd_schema_version : N; mtd_request : ModelTaskRequest }.

Inductive FinishReason :=
| FinishStop | FinishLength | FinishToolCalls | FinishContentFilter | FinishCancelled
| FinishError | FinishUnknown.
Record Usage := mkModelUsage {
  mu_input_units : option N;
  mu_output_units : option N;
  mu_cached_input_units : option N;
  mu_cost_micros : option N;
  mu_currency : option string
}.
Record ModelResponse := mkModelResponse {
  mr_text : string;
  mr_structured : option Value;
  mr_tool_calls : list ToolCall;
  mr_finish_reason : FinishReason;
  mr_usage : Usage;
  mr_provider_metadata : Extensions
}.

#[global] Instance MessageRole_eq_dec : EqDecision MessageRole.
Proof. solve_decision. Defined.
#[global] Instance SessionSelection_eq_dec : EqDecision SessionSelection.
Proof. solve_decision. Defined.

(** ** Validation ([task.rs]) *)

Definition safe_name (value : string) (maximum : N) : bool :=
  negb (is_empty value) && (strlen value <=? maximum)%N && is_ascii value
  && forallb (λ b, is_ascii_alphanumeric b || (b =? 95)%N || (b =? 45)%N || (b =? 46)%N
                   || (b =? 58)%N || (b =? 47)%N) (bytes value).

(** [calls.iter().any(|call| !seen.insert(call.id()))] *)
Fixpoint any_duplicate (seen : gset string) (ids : list string) : bool :=
  match ids with
  | [] => false
  | id :: ids => bool_decide (id ∈ seen) || any_duplicate ({[id]} ∪ seen) ids
  end.

Definition validate_part (part : ContentPart) : result ModelContractError () :=
  match part with
  | PartText text =>
      refuse_if (MAX_TEXT_BYTES <? strlen text)%N
        (McBounds "message.parts.text" "text exceeds 1048576 bytes")
  | _ => Ok tt
  end.

Definition Message_validate (self : Message) : result ModelContractError () :=
  refuse_if ((MAX_TOOL_CALLS <? vlen (ms_tool_calls self))%N
             || (negb (vlen (ms_tool_calls self) =? 0)%N
                 && negb (bool_decide (ms_role self = Assistant)))
             || any_duplicate ∅ (tc_id <$> ms_tool_calls self))
    (McInvalid "invalid assistant tool calls") ;;
  refuse_if ((vlen (ms_parts self) =? 0)%N || (MAX_PARTS <? vlen (ms_parts self))%N)
    (McInvalid "a message must contain 1..=1024 parts") ;;
  refuse_if (xorb (bool_decide (ms_role self = ToolResultRole)) (is_some (ms_tool_call_id self)))
    (McInvalid "tool-result role requires exactly one tool_call_id") ;;
  refuse_if (is_some_and (λ value, negb (safe_name value 128)) (ms_tool_call_id self))
    (McInvalid "tool_call_id is not a bounded safe identity") ;;
  for_each validate_part (ms_parts self).

Definition Message_new (role : MessageRole) (parts : list ContentPart)
    (tool_call_id : option string) : result ModelContractError Message :=
  let message := mkMessage role parts tool_call_id [] in
  Message_validate message ;; Ok message.

Definition with_tool_calls (self : Message) (calls : list ToolCall)
    : result ModelContractError Message :=
  let message := mkMessage (ms_role self) (ms_parts self) (ms_tool_call_id self) calls in
  Message_validate message ;; Ok message.

Definition ToolDefinition_validate (self : ToolDefinition) : result ModelContractError () :=
  refuse_if (negb (safe_name (tdf_name self) 128) || (4096 <? strlen (tdf_description self))%N)
    (McInvalid "tool name or description exceeds its bound").

Definition StructuredOutput_new (name : string) (schema : Value) (strict : bool)
    : result ModelContractError StructuredOutput :=
  refuse_if (negb (safe_name name 128)) (McInvalid "invalid structured-output name") ;;
  Ok (mkStructuredOutput name schema strict).

Definition ToolCall_new (id name : string) (arguments : Value)
    : result ModelContractError ToolCall :=
  refuse_if (negb (safe_name id 128) || negb (safe_name name 128))
    (McInvalid "invalid returned tool call identity") ;;
  Ok (mkToolCall id name arguments).

(** The text bytes of one message added to a running total. *)
Definition add_text (total : N) (message : Message) : result ModelContractError N :=
  Message_validate message ;;
  try_fold (λ total part, match part with
    | PartText text => ok_or (checked_add total (strlen text))
                         (McInvalid "model text accounting overflow")
    | _ => Ok total
    end) total (ms_parts message).

Definition ModelTaskRequest_validate (self : ModelTaskRequest) : result ModelContractError () :=
  refuse_if ((vlen (mt_messages self) =? 0)%N || (MAX_MESSAGES <? vlen (mt_messages self))%N
             || (MAX_TOOLS <? vlen (mt_tools self))%N || (mt_maximum_output_units self =? 0)%N
             || (MAX_MODEL_OUTPUT_UNITS <? mt_maximum_output_units self)%N
             || (64 <? N.of_nat (size (mt_extensions self)))%N)
    (McInvalid "model request exceeds count/unit bounds") ;;
  total_text ← try_fold add_text 0%N (mt_messages self);
  refuse_if (MAX_TEXT_BYTES <? total_text)%N
    (McBounds "request.messages" "aggregate text exceeds 1048576 bytes") ;;
  try_fold (λ (names : gset string) tool,
    ToolDefinition_validate tool ;;
    refuse_if (bool_decide (tdf_name tool ∈ names)) (McInvalid "duplicate tool name") ;;
    Ok ({[tdf_name tool]} ∪ names)) ∅ (mt_tools self) ;;
  refuse_if (match mt_session self with
             | ProviderManaged session_id => negb (safe_name session_id 512) | _ => false end)
    (McInvalid "invalid provider session identity") ;;
  refuse_if (is_some_and (λ control, bool_decide (rn_maximum_units control = Some 0%N))
               (mt_reasoning self))
    (McInvalid "reasoning maximum_units must be nonzero").

Definition ModelTaskRequest_new (messages : list Message) (tools : list ToolDefinition)
    (structured_output : option StructuredOutput) (session : SessionSelection)
    (reasoning : option ReasoningControl) (maximum_output_units : N) (streaming : bool)
    (extensions : Extensions) : result ModelContractError ModelTaskRequest :=
  let value := mkModelTaskRequest messages tools structured_output session reasoning
                 maximum_output_units streaming extensions in
  ModelTaskRequest_validate value ;; Ok value.

Definition ModelResponse_new (text : string) (structured : option Value)
    (tool_calls : list ToolCall) (finish_reason : FinishReason) (usage : Usage)
    (provider_metadata : Extensions) : result ModelContractError ModelResponse :=
  refuse_if ((MAX_TEXT_BYTES <? strlen text)%N || (MAX_TOOL_CALLS <? vlen tool_calls)%N
             || (64 <? N.of_nat (size provider_metadata))%N
             || xorb (is_some (mu_cost_micros usage)) (is_some (mu_currency usage)))
    (McInvalid "model response exceeds bounds or has invalid cost facts") ;;
  refuse_if (is_some_and (λ currency, negb (strlen currency =? 3)%N
               || negb (forallb is_ascii_uppercase (bytes currency))) (mu_currency usage))
    (McInvalid "usage currency must be three uppercase ASCII letters") ;;
  Ok (mkModelResponse text structured tool_calls finish_reason usage provider_metadata).

(** ** Continuations ([continuation.rs]) *)

Definition MAX_CONTINUATION_DEPTH : N := 32.

Record ContinuationTurn := mkTurn {
  tu_manifest : ArtifactReference;
  tu_response : ArtifactReference;
  tu_events : list N;      (** five journal anchors *)
  tu_message_end : N
}.
Record ContinuationHistory := mkHistory {
  ch_turns : list ContinuationTurn;
  ch_messages : list Message;
  ch_authority : string
}.

(** The tool calls still waiting for a result and every call identity used so far. *)
Definition exchange_step (acc : gset string * gset string) (message : Message)
    : result ModelContractError (gset string * gset string) :=
  let '(pending, seen) := acc in
  if bool_decide (ms_role message = ToolResultRole) then
    match ms_tool_call_id message with
    | Some id =>
        if bool_decide (id ∈ pending) then Ok (pending ∖ {[id]}, seen)
        else Err (McInvalid "tool result has no unique preceding call")
    | None => Err (McInvalid "tool result has no unique preceding call")
    end
  else
    refuse_if (negb (bool_decide (pending = ∅))) (McInvalid "tool exchange is incomplete") ;;
    try_fold (λ (acc : gset string * gset string) call,
      refuse_if (bool_decide (tc_id call ∈ acc.2)) (McInvalid "tool call identity is repeated") ;;
      Ok ({[tc_id call]} ∪ acc.1, {[tc_id call]} ∪ acc.2)) (pending, seen) (ms_tool_calls message).

Definition validate_tool_history (messages : list Message) (complete : bool)
    : result ModelContractError () :=
  acc ← try_fold exchange_step (∅, ∅) messages;
  refuse_if (complete && negb (bool_decide (acc.1 = ∅))) (McInvalid "tool exchange is incomplete").

(** Whether some neighbours [x], [y] of a list satisfy [f x y]. *)
Fixpoint any_adjacent {A} (f : A → A → bool) (l : list A) : bool :=
  match l with
  | x :: (y :: _) as rest => f x y || any_adjacent f rest
  | _ => false
  end.

Definition is_instruction (message : Message) : bool :=
  match ms_role message with System | Developer => true | _ => false end.

(** [turns.iter().any(|turn| !seen.insert(..) || ..)] *)
Fixpoint any_bad_turn (seen : gset string) (turns : list ContinuationTurn) : bool :=
  match turns with
  | [] => false
  | turn :: turns =>
      bool_decide (ar_identity (tu_manifest turn) ∈ seen)
      || bool_decide (0%N ∈ tu_events turn)
      || any_adjacent (λ l r, r <=? l)%N (tu_events turn)
      || any_bad_turn ({[ar_identity (tu_manifest turn)]} ∪ seen) turns
  end.

Definition ContinuationHistory_new (turns : list ContinuationTurn) (messages : list Message)
    (authority : string) : result ModelContractError ContinuationHistory :=
  refuse_if ((vlen turns =? 0)%N || (MAX_CONTINUATION_DEPTH <? vlen turns)%N
      || any_bad_turn ∅ turns
      || is_none_or (λ turn, negb (tu_message_end turn =? vlen messages)%N) (last turns)
      || is_none_or (λ turn, tu_message_end turn =? 0)%N (head turns)
      || any_adjacent (λ l r, tu_message_end r <=? tu_message_end l)%N turns
      || is_empty authority || (192 <? strlen authority)%N
      || existsb is_instruction messages)
    (McInvalid "invalid continuation sources or instruction roles") ;;
  ModelTaskRequest_new messages [] None SessionFresh None 1 false ∅ ;;
  validate_tool_history messages false ;;
  Ok (mkHistory turns messages authority).

Definition with_continuation (self : ModelTaskRequest) (history : ContinuationHistory)
    : result ModelContractError ModelTaskRequest :=
  turn ← ok_or (last (ch_turns history)) (McInvalid "missing continuation predecessor");
  refuse_if (bool_decide (mt_session self
               ≠ ExplicitContinuation (tu_manifest turn) (tu_response turn)))
    (McInvalid "continuation does not match the exact request") ;;
  let messages := List.filter is_instruction (mt_messages self) ++ ch_messages history
    ++ List.filter (λ m, negb (is_instruction m)) (mt_messages self) in
  validate_tool_history messages true ;;
  ModelTaskRequest_new messages (mt_tools self) (mt_structured_output self) (mt_session self)
    (mt_reasoning self) (mt_maximum_output_units self) (mt_streaming self) (mt_extensions self).

(** ** Documents ([document.rs]) *)

Definition map_bound (bound : JsonBoundViolation) : ModelContractError :=
  let noun := match violation_kind bound with
    | BoundDepth => "depth" | BoundString => "string bytes" | BoundKey => "key bytes"
    | BoundArray => "array items" | BoundObject => "object entries" end in
  McBounds (violation_path bound) (noun +:+ " exceed " +:+ show_N (violation_maximum bound)).

Definition encode_document {A} `{!Serialize A, !Serialize Value} (value : A)
    : result ModelContractError string :=
  encoded ← map_err (λ e, match e with
      | CanonicalJson message => McJson message | CanonicalBounds bound => map_bound bound end)
    (canonical_json_bytes value MODEL_LIMITS);
  refuse_if (MAX_MODEL_DOCUMENT_BYTES <? strlen encoded)%N
    (McBounds "$" "document exceeds 2097152 bytes") ;;
  Ok encoded.

(** ** The tool-exchange discipline *)

(** [exchange pending seen messages pending']: from the calls [pending] and the used
    identities [seen], the conversation answers calls and opens new ones until
    [pending'] remain. A message other than a result needs every earlier call
    answered, and proposes distinct, never used identities. *)
Inductive exchange : gset string → gset string → list Message → gset string → Prop :=
| exchange_nil pending seen : exchange pending seen [] pending
| exchange_result pending seen m id rest pending' :
    ms_role m = ToolResultRole → ms_tool_call_id m = Some id → id ∈ pending →
    exchange (pending ∖ {[id]}) seen rest pending' →
    exchange pending seen (m :: rest) pending'
| exchange_turn seen m rest pending' :
    ms_role m ≠ ToolResultRole → NoDup (tc_id <$> ms_tool_calls m) →
    (∀ id, id ∈ tc_id <$> ms_tool_calls m → id ∉ seen) →
    exchange (list_to_set (tc_id <$> ms_tool_calls m))
      (list_to_set (tc_id <$> ms_tool_calls m) ∪ seen) rest pending' →
    exchange ∅ seen (m :: rest) pending'.

Lemma open_calls_spec (calls : list ToolCall) pending seen acc :
  try_fold (λ (acc : gset string * gset string) call,
    refuse_if (bool_decide (tc_id call ∈ acc.2)) (McInvalid "tool call identity is repeated") ;;
    Ok ({[tc_id call]} ∪ acc.1, {[tc_id call]} ∪ acc.2)) (pending, seen) calls = Ok acc ↔
  NoDup (tc_id <$> calls) ∧ (∀ id, id ∈ tc_id <$> calls → id ∉ seen)
  ∧ acc = (list_to_set (tc_id <$> calls) ∪ pending, list_to_set (tc_id <$> calls) ∪ seen).
Proof.
  revert pending seen. induction calls as [|call calls IH]; intros pending seen; cbn [try_fold].
  { cbn. rewrite !(left_id_L ∅ (∪)). split; [intros [= <-]|naive_solver].
    split_and!; [constructor| |done]. by intros id ?%elem_of_nil. }
  cbn [fmap list_fmap list_to_set]. rewrite NoDup_cons. setoid_rewrite elem_of_cons. split.
  - intros ([p s] & Hb & Hf)%bind_Ok. apply IH in Hf as (Hnd & Hfresh & ->). inv_ok. bool_prop.
    cbn in *. simplify_eq. split_and!; [|done| |f_equal; set_solver].
    + intros Hin. apply (Hfresh _ Hin). set_solver.
    + intros id [->|Hin]; [done|]. specialize (Hfresh _ Hin). set_solver.
  - intros ([Hnot Hnd] & Hfresh & ->). cbn [fst snd].
    rewrite bool_decide_eq_false_2 by (apply Hfresh; by left). cbn [refuse_if mbind result_bind].
    apply IH. split_and!; [done| |f_equal; set_solver].
    intros id Hin. assert (id ∉ seen) by (apply Hfresh; by right).
    intros [->%elem_of_singleton|?]%elem_of_union; done.
Qed.

Lemma exchange_step_result pending seen m :
  ms_role m = ToolResultRole →
  ∀ acc, exchange_step (pending, seen) m = Ok acc ↔
    ∃ id, ms_tool_call_id m = Some id ∧ id ∈ pending ∧ acc = (pending ∖ {[id]}, seen).
Proof.
  intros Hr acc. unfold exchange_step. rewrite bool_decide_eq_true_2 by done.
  destruct (ms_tool_call_id m) as [id|]; [|naive_solver].
  destruct (decide (id ∈ pending)) as [Hin|Hin].
  - rewrite bool_decide_eq_true_2 by done. naive_solver.
  - rewrite bool_decide_eq_false_2 by done. naive_solver.
Qed.

Lemma exchange_step_turn pending seen m :
  ms_role m ≠ ToolResultRole →
  ∀ acc, exchange_step (pending, seen) m = Ok acc ↔
    pending = ∅ ∧ NoDup (tc_id <$> ms_tool_calls m)
    ∧ (∀ id, id ∈ tc_id <$> ms_tool_calls m → id ∉ seen)
    ∧ acc = (list_to_set (tc_id <$> ms_tool_calls m), list_to_set (tc_id <$> ms_tool_calls m) ∪ seen).
Proof.
  intros Hr acc. unfold exchange_step. rewrite bool_decide_eq_false_2 by done.
  rewrite seq_Ok, refuse_if_Ok, negb_false_iff, bool_decide_eq_true, open_calls_spec.
  split; intros (-> & Hrest); (split; [done|]); by rewrite (right_id_L ∅ (∪)) in *.
Qed.

Lemma exchange_fold messages pending seen pending' :
  (∃ seen', try_fold exchange_step (pending, seen) messages = Ok (pending', seen')) ↔
  exchange pending seen messages pending'.
Proof.
  revert pending seen. induction messages as [|m messages IH]; intros pending seen.
  { split; [intros (? & [= -> ->]); constructor|]. inversion 1; subst. eexists; reflexivity. }
  cbn [try_fold]. setoid_rewrite bind_Ok. split.
  - intros (seen' & acc & Hstep & Hf). destruct (decide (ms_role m = ToolResultRole)) as [Hr|Hr].
    + apply exchange_step_result in Hstep as (id & Hid & Hin & ->); [|done].
      apply (exchange_result _ _ _ id); [done..|]. apply IH. eauto.
    + apply exchange_step_turn in Hstep as (-> & Hnd & Hfresh & ->); [|done].
      apply exchange_turn; [done..|]. apply IH. eauto.
  - inversion 1 as [|????? ? Hr Hid Hin Hrest|??? ? Hr Hnd Hfresh Hrest]; subst;
      destruct (proj2 (IH _ _) Hrest) as [seen' Hs]; exists seen'; eexists; (split; [|exact Hs]).
    + apply exchange_step_result; eauto.
    + by apply exchange_step_turn.
Qed.

