(* ===== verification/Workspace.v ===== *)
(** * Workspaces ([crates/workspace])

    Typed identities, structured scopes and their lineages, immutable value streams,
    content-addressed artifacts with provenance, candidate evaluations, and the
    budgets that bound one durable accounting domain. *)
From S2P Require Import Prelude Contracts Capability Authority.

(** ** Errors ([error.rs]) *)

Inductive WorkspaceError :=
| WsInvalidIdentity (type_name reason : string)
| WsInvalidDigest (reason : string)
| WsInvalidMediaType (reason : string)
| WsInvalidScope (reason : string)
| WsInvalidValue (reason : string)
| WsInvalidArtifact (reason : string)
| WsInvalidBudget (reason : string)
| WsBudgetExceeded (resource : string) (limit attempted : N)
| WsAccountingOverflow (resource : string)
| WsJson (message : string).

(** The [#[error(..)]] texts. *)
#[global] Instance display_workspace : Display WorkspaceError := λ e,
  match e with
  | WsInvalidIdentity type_name reason => "invalid " +:+ type_name +:+ ": " +:+ reason
  | WsInvalidDigest m => "invalid BLAKE3 content digest: " +:+ m
  | WsInvalidMediaType m => "invalid artifact media type: " +:+ m
  | WsInvalidScope m => "invalid workspace scope: " +:+ m
  | WsInvalidValue m => "invalid workspace value: " +:+ m
  | WsInvalidArtifact m => "invalid artifact metadata: " +:+ m
  | WsInvalidBudget m => "invalid workspace budget: " +:+ m
  | WsBudgetExceeded resource limit attempted =>
      "workspace budget exceeded for " +:+ resource +:+ ": limit " +:+ show_N limit
        +:+ ", attempted " +:+ show_N attempted
  | WsAccountingOverflow m => "workspace accounting overflow for " +:+ m
  | WsJson m => "cannot measure bounded workspace value: " +:+ m
  end.

(** ** Identities ([identity.rs]) *)

Definition MAX_STANDARD_ID_BYTES : N := 128.
Definition MAX_EXTENDED_ID_BYTES : N := 192.

Definition validate_workspace_identity (value type_name : string) (maximum_bytes : N)
    : result WorkspaceError () :=
  refuse_if (is_empty value || (maximum_bytes <? strlen value)%N)
    (WsInvalidIdentity type_name
       ("length must be between 1 and " +:+ show_N maximum_bytes +:+ " bytes")) ;;
  refuse_if (negb (is_ascii value))
    (WsInvalidIdentity type_name "must contain ASCII characters only") ;;
  refuse_if (negb (first_alphanumeric value)
             || negb (forallb (λ b, is_ascii_alphanumeric b || (b =? 45)%N || (b =? 95)%N
                                    || (b =? 46)%N || (b =? 58)%N || (b =? 47)%N) (bytes value)))
    (WsInvalidIdentity type_name
       "must start with an alphanumeric character and use only alphanumerics, '-', '_', '.', ':', or '/'").
Definition RunId_new (value : string) : result WorkspaceError RunId :=
  validate_workspace_identity value "RunId" MAX_STANDARD_ID_BYTES ;; Ok value.

Abbreviation ScopeId := string (only parsing).
Abbreviation BranchId := string (only parsing).
Abbreviation IterationId := string (only parsing).
Abbreviation SubworkflowId := string (only parsing).
Abbreviation ValueKey := string (only parsing).
Abbreviation ArtifactId := string (only parsing).
Abbreviation CausalId := string (only parsing).

(** [ValueVersion], a non-zero [u64]. *)
Definition ValueVersion_FIRST : N := 1.
Definition ValueVersion_new (value : N) : result WorkspaceError N :=
  refuse_if (value =? 0)%N (WsInvalidValue "value version must be greater than zero") ;; Ok value.
Definition ValueVersion_next (version : N) : result WorkspaceError N :=
  ok_or (checked_add version 1) (WsAccountingOverflow "value version").

(** ** Scopes ([scope.rs]) *)

Definition MAX_SCOPE_DEPTH : N := 64.
Record ScopeReference := mkScopeReference { sr_run : RunId; sr_scope : ScopeId }.
Inductive ScopeKind :=
| RunRoot
| ScopeBranch (branch : BranchId)
| ScopeIteration (iteration : IterationId)
| ScopeSubworkflow (subworkflow : SubworkflowId).
Definition is_run_root (k : ScopeKind) : bool := match k with RunRoot => true | _ => false end.
Record WorkspaceScope := mkScope {
  ws_reference : ScopeReference;
  ws_kind : ScopeKind;
  ws_parent : option ScopeReference
}.
#[global] Instance ScopeReference_eq_dec : EqDecision ScopeReference.
Proof. solve_decision. Defined.
#[global] Instance ScopeKind_eq_dec : EqDecision ScopeKind.
Proof. solve_decision. Defined.
#[global] Instance WorkspaceScope_eq_dec : EqDecision WorkspaceScope.
Proof. solve_decision. Defined.

Definition WorkspaceScope_new (reference : ScopeReference) (kind : ScopeKind)
    (parent : option ScopeReference) : result WorkspaceError WorkspaceScope :=
  match kind, parent with
  | RunRoot, None => Ok tt
  | RunRoot, Some _ => Err (WsInvalidScope "a run-root scope must not have a parent")
  | _, None =>
      Err (WsInvalidScope "a branch, iteration, or subworkflow scope requires a parent")
  | _, Some parent =>
      refuse_if (bool_decide (sr_run parent ≠ sr_run reference))
        (WsInvalidScope "a child scope and its parent must belong to the same run") ;;
      refuse_if (bool_decide (parent = reference))
        (WsInvalidScope "a scope cannot be its own parent")
  end ;;
  Ok (mkScope reference kind parent).
Definition run_root (run : RunId) (scope : ScopeId) : WorkspaceScope :=
  mkScope (mkScopeReference run scope) RunRoot None.
Definition scope_child (scope : ScopeId) (parent : WorkspaceScope) (kind : ScopeKind)
    : result WorkspaceError WorkspaceScope :=
  WorkspaceScope_new (mkScopeReference (sr_run (ws_reference parent)) scope) kind
    (Some (ws_reference parent)).
Definition scope_branch (scope : ScopeId) (parent : WorkspaceScope) (branch : BranchId)
    : result WorkspaceError WorkspaceScope := scope_child scope parent (ScopeBranch branch).
Definition scope_iteration (scope : ScopeId) (parent : WorkspaceScope) (iteration : IterationId)
    : result WorkspaceError WorkspaceScope := scope_child scope parent (ScopeIteration iteration).
Definition scope_subworkflow (scope : ScopeId) (parent : WorkspaceScope)
    (subworkflow : SubworkflowId) : result WorkspaceError WorkspaceScope :=
  scope_child scope parent (ScopeSubworkflow subworkflow).
Definition is_direct_child_of (self candidate : WorkspaceScope) : bool :=
  bool_decide (ws_parent self = Some (ws_reference candidate)).

(** A lineage lists its scopes from the root to the leaf. *)
Definition lineage_step (acc : N * (list ScopeReference * option ScopeReference))
    (scope : WorkspaceScope)
    : result WorkspaceError (N * (list ScopeReference * option ScopeReference)) :=
  let '(index, (seen, previous)) := acc in
  refuse_if (bool_decide (ws_reference scope ∈ seen))
    (WsInvalidScope "a scope lineage cannot contain duplicate scopes") ;;
  refuse_if (is_some previous && bool_decide (ws_parent scope ≠ previous))
    (WsInvalidScope ("scope at lineage index " +:+ show_N index
       +:+ " does not name the preceding scope as its parent")) ;;
  Ok ((index + 1)%N, (ws_reference scope :: seen, Some (ws_reference scope))).
Definition ScopeLineage_new (scopes : list WorkspaceScope)
    : result WorkspaceError (list WorkspaceScope) :=
  first ← ok_or (head scopes) (WsInvalidScope "a scope lineage must contain a run root");
  refuse_if (MAX_SCOPE_DEPTH <? vlen scopes)%N
    (WsInvalidScope ("a scope lineage may contain at most " +:+ show_N MAX_SCOPE_DEPTH
       +:+ " scopes")) ;;
  refuse_if (negb (is_run_root (ws_kind first)))
    (WsInvalidScope "the first lineage entry must be a run root") ;;
  try_fold lineage_step (0%N, ([], None)) scopes ;;
  Ok scopes.
Definition can_read_from (lineage : list WorkspaceScope) (source : ScopeReference) : bool :=
  existsb (λ scope, bool_decide (ws_reference scope = source)) lineage.

(** ** Artifacts ([artifact.rs]) *)

Inductive ArtifactOwner :=
| OwnerPeerInput (host peer : PeerId)
| OwnerClientInput (host : PeerId) (client : CausalId)
| OwnerWorkflow (run : RunId)
| OwnerHostInvocation (host : PeerId) (invocation : InvocationId)
| OwnerTransfer (source : PeerId) (transfer : CausalId).
Definition owner_run (o : ArtifactOwner) : option RunId :=
  match o with OwnerWorkflow run => Some run | _ => None end.

(** A digest is its 32 bytes. *)
Abbreviation ContentDigest := (list N) (only parsing).
Definition hex_nibble (byte : N) : N :=
  if in_range 48 57 byte then (byte - 48)%N
  else if in_range 97 102 byte then (byte - 97 + 10)%N else 0%N.
Fixpoint chunks2 (bs : list N) : list (N * N) :=
  match bs with high :: low :: bs => (high, low) :: chunks2 bs | _ => [] end.
Definition ContentDigest_from_hex (value : string) : result WorkspaceError ContentDigest :=
  refuse_if (negb (strlen value =? 64)%N)
    (WsInvalidDigest "expected 64 lowercase hexadecimal characters") ;;
  refuse_if (negb (forallb (λ b, is_ascii_digit b || in_range 97 102 b) (bytes value)))
    (WsInvalidDigest "digest must use lowercase hexadecimal characters only") ;;
  Ok ((λ p : N * N, N.lor (N.shiftl (hex_nibble p.1) 4) (hex_nibble p.2)) <$> chunks2 (bytes value)).
(** The lowercase rendering of [blake3::Hash::to_hex]. *)
Definition hex_digit (n : N) : ascii := ascii_of_N (if (n <? 10)%N then 48 + n else 87 + n)%N.
Fixpoint ContentDigest_to_hex (digest : ContentDigest) : string :=
  match digest with
  | [] => EmptyString
  | b :: digest =>
      String (hex_digit (N.shiftr b 4)) (String (hex_digit (N.land b 15)) (ContentDigest_to_hex digest))
  end.

Definition MAX_MEDIA_TYPE_BYTES : N := 255.
Definition is_media_token_byte (b : N) : bool :=
  is_ascii_alphanumeric b
  || existsb (N.eqb b) [33; 35; 36; 37; 38; 39; 42; 43; 45; 46; 94; 95; 96; 124; 126]%N.
Fixpoint to_ascii_lowercase (s : string) : string :=
  match s with
  | EmptyString => EmptyString
  | String c s =>
      String (if is_ascii_uppercase (byte_of c) then ascii_of_N (byte_of c + 32) else c)
        (to_ascii_lowercase s)
  end.
Definition MediaType_new (value : string) : result WorkspaceError string :=
  refuse_if (is_empty value || (MAX_MEDIA_TYPE_BYTES <? strlen value)%N || negb (is_ascii value))
    (WsInvalidMediaType "must contain 1 to 255 ASCII bytes") ;;
  '(top_level, subtype) ← ok_or (split_once "/" value)
    (WsInvalidMediaType "must have the form 'type/subtype'");
  refuse_if (is_empty top_level || is_empty subtype || contains_any ["/"%char] subtype
             || negb (forallb is_media_token_byte (bytes top_level))
             || negb (forallb is_media_token_byte (bytes subtype))
             || contains_any ["*"%char] top_level || contains_any ["*"%char] subtype)
    (WsInvalidMediaType "type and subtype must be non-wildcard RFC token text") ;;
  Ok (to_ascii_lowercase value).

(** The crate's [ArtifactReference], complete with digest and exact size. *)
Record ContentReference := mkContentReference {
  ct_artifact : ArtifactId;
  ct_digest : ContentDigest;
  ct_media_type : string;
  ct_size_bytes : N
}.
Section content.
Context `{!Blake3}.
Definition ContentDigest_for_bytes (content : string) : ContentDigest :=
  (λ p : N * N, N.lor (N.shiftl (hex_nibble p.1) 4) (hex_nibble p.2))
    <$> chunks2 (bytes (blake3_hex content)).
Definition verifies (self : ContentReference) (content : string) : bool :=
  (strlen content =? ct_size_bytes self)%N
  && bool_decide (ContentDigest_for_bytes content = ct_digest self).
End content.

Definition RetentionDeadline_from_unix_millis (value : N) : result WorkspaceError N :=
  refuse_if (value =? 0)%N (WsInvalidArtifact "a retention deadline must be greater than zero") ;;
  Ok value.
Definition permits_unauthorized_export (s : ArtifactSensitivity) : bool :=
  match s with Public => true | _ => false end.
Inductive ArtifactRetention := WhileReferenced | RetainUntil (deadline : N) | Indefinite.

(** ** Values ([value.rs]) *)

Record WorkspaceValueReference := mkValueReference {
  vr_scope : ScopeReference;
  vr_key : ValueKey;
  vr_version : N
}.
Definition can_read (lineage : list WorkspaceScope) (value : WorkspaceValueReference) : bool :=
  can_read_from lineage (vr_scope value).
Definition owns_value_stream (lineage : list WorkspaceScope) (value : WorkspaceValueReference)
    : bool :=
  bool_decide (ws_reference <$> last lineage = Some (vr_scope value)).
Inductive WorkspaceValue := WvJson (value : Value) | WvArtifact (reference : ContentReference).
Definition inline_size_bytes `{!Serialize Value} (v : WorkspaceValue) : result WorkspaceError N :=
  match v with
  | WvJson value => encoded ← map_err WsJson (to_vec value); Ok (strlen encoded)
  | WvArtifact _ => Ok 0%N
  end.
Inductive ValueOrigin :=
| OriginInitial
| OriginSuccessor (previous : WorkspaceValueReference)
| OriginInherited (source : WorkspaceValueReference)
| OriginImported (source : WorkspaceValueReference).
Record WorkspaceValueEntry := mkValueEntry {
  ve_reference : WorkspaceValueReference;
  ve_value : WorkspaceValue;
  ve_origin : ValueOrigin
}.
#[global] Instance WorkspaceValueReference_eq_dec : EqDecision WorkspaceValueReference.
Proof. solve_decision. Defined.

Definition WorkspaceValueEntry_new (reference : WorkspaceValueReference) (value : WorkspaceValue)
    (origin : ValueOrigin) : result WorkspaceError WorkspaceValueEntry :=
  match origin with
  | OriginInitial =>
      refuse_if (negb (vr_version reference =? ValueVersion_FIRST)%N)
        (WsInvalidValue "an initial value must have version one")
  | OriginSuccessor previous =>
      refuse_if (bool_decide (vr_scope previous ≠ vr_scope reference)
                 || bool_decide (vr_key previous ≠ vr_key reference))
        (WsInvalidValue "a successor must keep the previous scope and key") ;;
      next ← ValueVersion_next (vr_version previous);
      refuse_if (negb (next =? vr_version reference)%N)
        (WsInvalidValue "a successor version must be exactly one greater than its predecessor")
  | OriginInherited source =>
      refuse_if (negb (vr_version reference =? ValueVersion_FIRST)%N)
        (WsInvalidValue "an inherited local stream must begin at version one") ;;
      refuse_if (bool_decide (sr_run (vr_scope source) ≠ sr_run (vr_scope reference)))
        (WsInvalidValue "an inherited value must remain within one run") ;;
      refuse_if (bool_decide (vr_scope source = vr_scope reference))
        (WsInvalidValue "same-scope changes must be represented as successors")
  | OriginImported source =>
      refuse_if (negb (vr_version reference =? ValueVersion_FIRST)%N)
        (WsInvalidValue "an imported local stream must begin at version one") ;;
      refuse_if (bool_decide (sr_run (vr_scope source) = sr_run (vr_scope reference)))
        (WsInvalidValue "an imported value source must belong to a different run")
  end ;;
  Ok (mkValueEntry reference value origin).
Definition entry_initial (scope : ScopeReference) (key : ValueKey) (value : WorkspaceValue)
    : WorkspaceValueEntry :=
  mkValueEntry (mkValueReference scope key ValueVersion_FIRST) value OriginInitial.
Definition entry_inherited (scope : ScopeReference) (key : ValueKey)
    (source : WorkspaceValueReference) (value : WorkspaceValue)
    : result WorkspaceError WorkspaceValueEntry :=
  WorkspaceValueEntry_new (mkValueReference scope key ValueVersion_FIRST) value (OriginInherited source).
Definition entry_imported (scope : ScopeReference) (key : ValueKey)
    (source : WorkspaceValueReference) (value : WorkspaceValue)
    : result WorkspaceError WorkspaceValueEntry :=
  WorkspaceValueEntry_new (mkValueReference scope key ValueVersion_FIRST) value (OriginImported source).
Definition entry_successor (previous : WorkspaceValueReference) (value : WorkspaceValue)
    : result WorkspaceError WorkspaceValueEntry :=
  version ← ValueVersion_next (vr_version previous);
  WorkspaceValueEntry_new (mkValueReference (vr_scope previous) (vr_key previous) version) value
    (OriginSuccessor previous).

(** ** Provenance and metadata ([artifact.rs]) *)

Inductive CausalReference :=
| CausePeerClaim (peer : PeerId) (reference : CausalReference)
| CauseClientUpload (host : PeerId) (client upload : CausalId)
| CauseRunInput (run : RunId) (key : ValueKey)
| CauseWorkspaceValue (reference : WorkspaceValueReference)
| CauseArtifact (reference : ContentReference)
| CauseInvocation (invocation : InvocationId)
| CauseHostInvocation (host : PeerId) (invocation : InvocationId)
| CauseExternal (source : CausalId).
#[global] Instance ArtifactOwner_eq_dec : EqDecision ArtifactOwner.
Proof. solve_decision. Defined.
#[global] Instance ContentReference_eq_dec : EqDecision ContentReference.
Proof. solve_decision. Defined.
#[global] Instance ArtifactRetention_eq_dec : EqDecision ArtifactRetention.
Proof. solve_decision. Defined.
#[global] Instance CausalReference_eq_dec : EqDecision CausalReference.
Proof. solve_decision. Defined.

Definition MAX_CAUSAL_REFERENCES : N := 128.
Fixpoint import_depth_from (depth : N) (r : CausalReference) : N :=
  match r with
  | CausePeerClaim _ r =>
      let depth := (depth + 1)%N in if (4 <? depth)%N then depth else import_depth_from depth r
  | _ => depth
  end.
Definition import_depth (r : CausalReference) : N := import_depth_from 0 r.
Definition references_artifact (r : CausalReference) (artifact : ContentReference) : bool :=
  match r with CauseArtifact reference => bool_decide (reference = artifact) | _ => false end.

Record ArtifactProvenance := mkArtifactProvenance {
  ap_producer : CausalReference;
  ap_causes : list CausalReference
}.
Definition ArtifactProvenance_new (producer : CausalReference) (causes : list CausalReference)
    : result WorkspaceError ArtifactProvenance :=
  refuse_if (existsb (λ r, (4 <? import_depth r)%N) (producer :: causes))
    (WsInvalidArtifact "causal import depth exceeds four authenticated boundaries") ;;
  refuse_if (MAX_CAUSAL_REFERENCES <? vlen causes)%N
    (WsInvalidArtifact "provenance may contain at most 128 causal references") ;;
  refuse_if (negb (bool_decide (NoDup causes)))
    (WsInvalidArtifact "provenance cannot contain duplicate causal references") ;;
  Ok (mkArtifactProvenance producer causes).

Record ArtifactMetadata := mkMetadata {
  md_reference : ContentReference;
  md_sensitivity : ArtifactSensitivity;
  md_retention : ArtifactRetention;
  md_provenance : ArtifactProvenance
}.
#[global] Instance ArtifactProvenance_eq_dec : EqDecision ArtifactProvenance.
Proof. solve_decision. Defined.
#[global] Instance ArtifactMetadata_eq_dec : EqDecision ArtifactMetadata.
Proof. solve_decision. Defined.
Definition ArtifactMetadata_new (reference : ContentReference) (sensitivity : ArtifactSensitivity)
    (retention : ArtifactRetention) (provenance : ArtifactProvenance)
    : result WorkspaceError ArtifactMetadata :=
  refuse_if (references_artifact (ap_producer provenance) reference
             || existsb (λ cause, references_artifact cause reference) (ap_causes provenance))
    (WsInvalidArtifact "artifact provenance cannot directly reference the artifact itself") ;;
  Ok (mkMetadata reference sensitivity retention provenance).

(** ** Candidate evaluations ([candidate.rs]) *)

Record CandidateCheck := mkCheck {
  cc_name : string;
  cc_passed : option bool;
  cc_diagnostic : string
}.
Record CandidateSubject := mkSubject {
  cs_artifact : ContentReference;
  cs_target : string;
  cs_generation : N;
  cs_agreement : string;
  cs_configuration : string;
  cs_policy : string;
  cs_verifier : string;
  cs_producer : CausalId
}.
Record CandidateEvaluation := mkEvaluation {
  ce_schema_version : N;
  ce_identity : string;
  ce_subject : CandidateSubject;
  ce_started_at : N;
  ce_expires_at : N;
  ce_complete : bool;
  ce_checks : list CandidateCheck
}.
#[global] Instance CandidateCheck_eq_dec : EqDecision CandidateCheck.
Proof. solve_decision. Defined.
#[global] Instance CandidateSubject_eq_dec : EqDecision CandidateSubject.
Proof. solve_decision. Defined.
#[global] Instance CandidateEvaluation_eq_dec : EqDecision CandidateEvaluation.
Proof. solve_decision. Defined.
Definition CandidateEvaluation_validate (self : CandidateEvaluation) : result WorkspaceError () :=
  let s := ce_subject self in
  refuse_if (negb (ce_schema_version self =? 1)%N
             || (cs_generation s =? 0)%N
             || (ct_size_bytes (cs_artifact s) =? 0)%N
             || (ce_expires_at self <=? ce_started_at self)%N
             || bool_decide (ce_checks self = [])
             || (32 <? vlen (ce_checks self))%N
             || existsb (λ d, negb (is_canonical_blake3_digest d))
                  [ce_identity self; cs_agreement s; cs_configuration s; cs_policy s; cs_verifier s]
             || existsb (λ c, is_empty (cc_name c) || (64 <? strlen (cc_name c))%N
                  || negb (forallb (λ b, is_ascii_lowercase b || is_ascii_digit b || (b =? 45)%N)
                             (bytes (cc_name c)))
                  || (256 <? strlen (cc_diagnostic c))%N
                  || (negb (ce_complete self) && is_some (cc_passed c))) (ce_checks self)
             || negb (bool_decide (NoDup (cc_name <$> ce_checks self))))
    (WsInvalidArtifact "invalid candidate evaluation").

(** ** Budgets ([budget.rs]) *)

Record WorkspaceBudget := mkWorkspaceBudget {
  wb_max_value_versions : N;
  wb_max_inline_bytes_per_value : N;
  wb_max_total_inline_bytes : N;
  wb_max_artifacts : N;
  wb_max_bytes_per_artifact : N;
  wb_max_total_artifact_bytes : N
}.
Record WorkspaceUsage := mkWorkspaceUsage {
  wu_value_versions : N;
  wu_inline_bytes : N;
  wu_artifacts : N;
  wu_artifact_bytes : N
}.
Definition WorkspaceUsage_EMPTY : WorkspaceUsage := mkWorkspaceUsage 0 0 0 0.
#[global] Instance WorkspaceBudget_eq_dec : EqDecision WorkspaceBudget.
Proof. solve_decision. Defined.
#[global] Instance WorkspaceUsage_eq_dec : EqDecision WorkspaceUsage.
Proof. solve_decision. Defined.

Definition WorkspaceBudget_new (versions value_bytes total_inline artifacts artifact_bytes
    total_artifact : N) : result WorkspaceError WorkspaceBudget :=
  refuse_if (total_inline <? value_bytes)%N
    (WsInvalidBudget "per-value inline bytes cannot exceed total inline bytes") ;;
  refuse_if (total_artifact <? artifact_bytes)%N
    (WsInvalidBudget "per-artifact bytes cannot exceed total artifact bytes") ;;
  Ok (mkWorkspaceBudget versions value_bytes total_inline artifacts artifact_bytes total_artifact).
Definition enforce (resource : string) (limit attempted : N) : result WorkspaceError () :=
  refuse_if (limit <? attempted)%N (WsBudgetExceeded resource limit attempted).
Definition account_checked_add (left right : N) (resource : string) : result WorkspaceError N :=
  ok_or (checked_add left right) (WsAccountingOverflow resource).
Definition validate_usage (self : WorkspaceBudget) (usage : WorkspaceUsage)
    : result WorkspaceError () :=
  enforce "value versions" (wb_max_value_versions self) (wu_value_versions usage) ;;
  enforce "total inline bytes" (wb_max_total_inline_bytes self) (wu_inline_bytes usage) ;;
  enforce "artifacts" (wb_max_artifacts self) (wu_artifacts usage) ;;
  enforce "total artifact bytes" (wb_max_total_artifact_bytes self) (wu_artifact_bytes usage).
Definition admit_value `{!Serialize Value} (self : WorkspaceBudget) (usage : WorkspaceUsage)
    (value : WorkspaceValue) : result WorkspaceError WorkspaceUsage :=
  validate_usage self usage ;;
  inline_bytes ← inline_size_bytes value;
  enforce "inline bytes per value" (wb_max_inline_bytes_per_value self) inline_bytes ;;
  value_versions ← account_checked_add (wu_value_versions usage) 1 "value-version count";
  total_inline ← account_checked_add (wu_inline_bytes usage) inline_bytes "inline bytes";
  enforce "value versions" (wb_max_value_versions self) value_versions ;;
  enforce "total inline bytes" (wb_max_total_inline_bytes self) total_inline ;;
  Ok (mkWorkspaceUsage value_versions total_inline (wu_artifacts usage) (wu_artifact_bytes usage)).
Definition admit_artifact_reference (self : WorkspaceBudget) (usage : WorkspaceUsage)
    (artifact : ContentReference) : result WorkspaceError WorkspaceUsage :=
  validate_usage self usage ;;
  let size := ct_size_bytes artifact in
  enforce "bytes per artifact" (wb_max_bytes_per_artifact self) size ;;
  artifacts ← account_checked_add (wu_artifacts usage) 1 "artifact count";
  artifact_bytes ← account_checked_add (wu_artifact_bytes usage) size "artifact bytes";
  enforce "artifacts" (wb_max_artifacts self) artifacts ;;
  enforce "total artifact bytes" (wb_max_total_artifact_bytes self) artifact_bytes ;;
  Ok (mkWorkspaceUsage (wu_value_versions usage) (wu_inline_bytes usage) artifacts artifact_bytes).
Definition admit_artifact (self : WorkspaceBudget) (usage : WorkspaceUsage)
    (artifact : ArtifactMetadata) : result WorkspaceError WorkspaceUsage :=
  admit_artifact_reference self usage (md_reference artifact).

(** ** Digest text *)

Definition hex_ascii (c : ascii) : bool :=
  is_ascii_digit (byte_of c) || in_range 97 102 (byte_of c).
Definition nibbles : list N := N.of_nat <$> seq 0 16.

Lemma elem_of_nibbles n : (n < 16)%N → n ∈ nibbles.
Proof.
  intros Hn. unfold nibbles. apply list_elem_of_fmap. exists (N.to_nat n).
  split; [lia|]. apply elem_of_seq. lia.
Qed.

Lemma hex_char c : hex_ascii c = true →
  (hex_nibble (byte_of c) < 16)%N ∧ hex_digit (hex_nibble (byte_of c)) = c.
Proof.
  destruct c as [[] [] [] [] [] [] [] []]; intros H; vm_compute in H; try discriminate H;
    by vm_compute.
Qed.

Lemma nibble_digit n : (n < 16)%N →
  hex_ascii (hex_digit n) = true ∧ hex_nibble (byte_of (hex_digit n)) = n.
Proof.
  intros Hn%elem_of_nibbles. assert (forallb (λ n, hex_ascii (hex_digit n)
    && (hex_nibble (byte_of (hex_digit n)) =? n)%N) nibbles = true) as H by by vm_compute.
  rewrite forallb_forall in H. specialize (H n (proj1 (list_elem_of_In _ _) Hn)). by bool_prop.
Qed.

Lemma byte_nibbles h l : (h < 16)%N → (l < 16)%N →
  let b := N.lor (N.shiftl h 4) l in (b < 256)%N ∧ N.shiftr b 4 = h ∧ N.land b 15 = l.
Proof.
  intros Hh%elem_of_nibbles Hl%elem_of_nibbles.
  assert (forallb (λ h, forallb (λ l, let b := N.lor (N.shiftl h 4) l in
    (b <? 256)%N && (N.shiftr b 4 =? h)%N && (N.land b 15 =? l)%N) nibbles) nibbles = true) as H
    by by vm_compute.
  rewrite forallb_forall in H. specialize (H h (proj1 (list_elem_of_In _ _) Hh)).
  rewrite forallb_forall in H. specialize (H l (proj1 (list_elem_of_In _ _) Hl)). cbn in *. by bool_prop.
Qed.

Lemma nibbles_byte b : (b < 256)%N →
  (N.shiftr b 4 < 16)%N ∧ (N.land b 15 < 16)%N ∧ N.lor (N.shiftl (N.shiftr b 4) 4) (N.land b 15) = b.
Proof.
  intros Hb. split; [rewrite N.shiftr_div_pow2; apply N.Div0.div_lt_upper_bound; cbn; lia|].
  split; [change 15%N with (N.ones 4); rewrite N.land_ones; by apply N.mod_lt|].
  rewrite N.shiftl_mul_pow2, N.shiftr_div_pow2. change 15%N with (N.ones 4). rewrite N.land_ones.
  apply N.bits_inj. intros i. rewrite N.lor_spec. destruct (N.lt_ge_cases i 4).
  - rewrite N.mul_pow2_bits_low, N.mod_pow2_bits_low by done. done.
  - rewrite N.mul_pow2_bits_high, N.mod_pow2_bits_high, orb_false_r, N.div_pow2_bits by done.
    by rewrite N.sub_add.
Qed.

(** Two hexadecimal characters per byte, both ways. *)
Lemma decoded_pairs n (value : string) :
  String.length value = 2 * n →
  forallb (λ b, is_ascii_digit b || in_range 97 102 b) (bytes value) = true →
  let digest := (λ p : N * N, N.lor (N.shiftl (hex_nibble p.1) 4) (hex_nibble p.2))
    <$> chunks2 (bytes value) in
  length digest = n ∧ Forall (λ b, b < 256)%N digest ∧ ContentDigest_to_hex digest = value.
Proof.
  revert value. induction n as [|n IH]; intros value Hlen Hhex.
  { destruct value; [by split_and!; [|constructor|]|done]. }
  destruct value as [|h [|l value]]; [done|cbn in Hlen; lia|].
  unfold bytes in *. cbn in *. bool_prop.
  destruct (hex_char h) as [Hh Hh']; [done|]. destruct (hex_char l) as [Hl Hl']; [done|].
  destruct (IH value) as (? & ? & Ht); [lia|done|].
  destruct (byte_nibbles _ _ Hh Hl) as (Hb & Hs & Ha). split_and!; [by f_equal|by constructor|].
  by rewrite Hs, Ha, Hh', Hl', Ht.
Qed.

Lemma encoded_pairs (digest : ContentDigest) :
  Forall (λ b, b < 256)%N digest →
  String.length (ContentDigest_to_hex digest) = 2 * length digest
  ∧ forallb (λ b, is_ascii_digit b || in_range 97 102 b) (bytes (ContentDigest_to_hex digest)) = true
  ∧ (λ p : N * N, N.lor (N.shiftl (hex_nibble p.1) 4) (hex_nibble p.2))
      <$> chunks2 (bytes (ContentDigest_to_hex digest)) = digest.
Proof.
  induction 1 as [|b digest Hb _ (IH1 & IH2 & IH3)]; [done|].
  destruct (nibbles_byte _ Hb) as (Hh & Hl & Hj). unfold bytes in *. cbn.
  destruct (nibble_digit _ Hh) as [Hh1 Hh2], (nibble_digit _ Hl) as [Hl1 Hl2].
  unfold hex_ascii in *. rewrite Hh1, Hl1, Hh2, Hl2, Hj, IH1, IH3. cbn. split_and!; [lia|done|done].
Qed.

(** A content digest and its 64-character lowercase text determine each other: the
    parser accepts exactly the texts that some 32 bytes print as, and returns them. *)
Theorem content_digest_roundtrip value digest :
  ContentDigest_from_hex value = Ok digest ↔
  length digest = 32 ∧ Forall (λ b, b < 256)%N digest ∧ ContentDigest_to_hex digest = value.
Proof.
  unfold ContentDigest_from_hex, strlen. split.
  - intros H. inv_ok. bool_prop. subst. apply decoded_pairs; [lia|done].
  - intros (Hl & Hd & <-). destruct (encoded_pairs _ Hd) as (-> & -> & ->). by rewrite Hl.
Qed.

(** ** Lineages *)

(** Every scope but the first names the one before it as its parent. *)
Definition chained (scopes : list WorkspaceScope) : Prop :=
  ∀ i a b, scopes !! i = Some a → scopes !! S i = Some b → ws_parent b = Some (ws_reference a).

Lemma lineage_fold scopes index seen previous acc :
  try_fold lineage_step (index, (seen, previous)) scopes = Ok acc ↔
  acc = ((index + vlen scopes)%N,
         (reverse (ws_reference <$> scopes) ++ seen,
          match last scopes with Some s => Some (ws_reference s) | None => previous end))
  ∧ NoDup (ws_reference <$> scopes) ∧ (∀ s, s ∈ scopes → ws_reference s ∉ seen)
  ∧ (∀ p s, previous = Some p → head scopes = Some s → ws_parent s = Some p)
  ∧ chained scopes.
Proof.
  revert index seen previous. induction scopes as [|s scopes IH]; intros index seen previous; cbn [try_fold].
  { unfold vlen. cbn. rewrite N.add_0_r. split; [intros [= <-]|by intros (-> & _)].
    split_and!; [done|constructor|by intros ? ?%elem_of_nil|done|by intros ???]. }
  unfold lineage_step at 1. setoid_rewrite bind_Ok. setoid_rewrite bind_Ok. setoid_rewrite bind_Ok.
  setoid_rewrite refuse_if_Ok. split.
  - intros (acc' & ([] & Hseen & [] & Hprev & [= <-]) & Hrest). apply IH in Hrest as (-> & Hnd & Hin & Hp & Hc).
    bool_prop. cbn [fmap list_fmap head]. split_and!.
    + rewrite reverse_cons, <-app_assoc. unfold vlen. cbn [length]. f_equal; [lia|]. f_equal.
      by destruct scopes as [|s2 scopes] using rev_ind; [|rewrite last_cons, last_snoc].
    + apply NoDup_cons. split; [|done]. intros (x & Hx & Hin')%list_elem_of_fmap.
      apply (Hin x Hin'). rewrite <-Hx. left.
    + intros x [->|Hx]%elem_of_cons; [done|]. intros Hx'. apply (Hin x Hx). by right.
    + intros p x -> [= <-]. cbn in Hprev. by bool_prop; destruct (decide (ws_parent s = Some p)).
    + intros [|i] a b; cbn.
      * intros [= <-] Hb. eapply Hp; [done|]. by destruct scopes.
      * by apply Hc.
  - cbn [fmap list_fmap head]. intros (-> & [Hni Hnd]%NoDup_cons & Hin & Hp & Hc).
    exists ((index + 1)%N, (ws_reference s :: seen, Some (ws_reference s))). split.
    { exists tt. split; [apply bool_decide_eq_false, Hin; left|]. exists tt. split; [|done].
      destruct previous as [p|]; [|done]. cbn. apply bool_decide_eq_false. intros Hne. by apply Hne, Hp. }
    apply IH. split_and!.
    + rewrite reverse_cons, <-app_assoc. unfold vlen. cbn [length]. f_equal; [lia|]. f_equal.
      by destruct scopes as [|s2 scopes] using rev_ind; [|rewrite last_cons, last_snoc].
    + done.
    + intros x Hx [Heq|Hx']%elem_of_cons; [apply Hni, list_elem_of_fmap; by exists x|].
      eapply Hin; [by right|done].
    + intros p x [= <-] Hx. apply (Hc 0 s x); [done|]. by destruct scopes.
    + intros i a b Ha Hb. by apply (Hc (S i)).
Qed.

(** C39: [ScopeLineage::new] accepts exactly the chains of at most 64 distinct scopes that
    start at a run root and in which every later scope names the one before it as its
    parent. *)
Theorem scope_lineage_spec scopes lineage :
  ScopeLineage_new scopes = Ok lineage ↔
  lineage = scopes ∧ (∃ root, head scopes = Some root ∧ ws_kind root = RunRoot)
  ∧ (vlen scopes ≤ 64)%N ∧ NoDup (ws_reference <$> scopes) ∧ chained scopes.
Proof.
  unfold ScopeLineage_new. split.
  - intros H. inv_ok. bool_prop. subst. rename select (try_fold _ _ _ = _) into Hf.
    apply lineage_fold in Hf as (_ & ? & _ & _ & ?).
    split_and!; [done| |unfold MAX_SCOPE_DEPTH in *; lia|done..].
    eexists. split; [done|]. rename select (is_run_root _ = true) into Hk. by destruct (ws_kind _).
  - intros (-> & (root & Hroot & Hk) & Hlen & Hnd & Hc). rewrite Hroot. cbn.
    rewrite Hk. replace (MAX_SCOPE_DEPTH <? vlen scopes)%N with false
      by (symmetry; apply N.ltb_ge; done). cbn.
    destruct (try_fold lineage_step (0%N, ([], None)) scopes) as [acc|] eqn:E; [done|].
    pose proof (proj2 (lineage_fold scopes 0 [] None _) (conj eq_refl (conj Hnd (conj
      (λ _ _, not_elem_of_nil _) (conj (λ p s (H : None = Some p), ltac:(discriminate H)) Hc))))) as E'.
    by rewrite E in E'.
Qed.

(** ** Accounting *)


(** ** Accounting *)

Lemma enforce_Ok resource limit attempted u :
  enforce resource limit attempted = Ok u ↔ (attempted ≤ limit)%N.
Proof. unfold enforce. by rewrite refuse_if_Ok, N.ltb_ge. Qed.
Lemma account_checked_add_Ok a b resource c :
  account_checked_add a b resource = Ok c ↔ (c = a + b ∧ a + b ≤ u64_max)%N.
Proof. unfold account_checked_add. by rewrite ok_or_Ok, checked_add_Some. Qed.
Lemma validate_usage_Ok budget usage u :
  validate_usage budget usage = Ok u ↔
  (wu_value_versions usage ≤ wb_max_value_versions budget
   ∧ wu_inline_bytes usage ≤ wb_max_total_inline_bytes budget
   ∧ wu_artifacts usage ≤ wb_max_artifacts budget
   ∧ wu_artifact_bytes usage ≤ wb_max_total_artifact_bytes budget)%N.
Proof. unfold validate_usage. destruct u. by rewrite !seq_Ok, !enforce_Ok. Qed.

(** C40: Admission into an accounting domain adds exactly the charge of one artifact, or
    of one value, and succeeds exactly when the usage before and after stay within
    every limit of the budget and the charge within its per-item limit. *)
Theorem admission_exact `{!Serialize Value} budget usage usage' :
  (∀ artifact, admit_artifact_reference budget usage artifact = Ok usage' ↔
     validate_usage budget usage = Ok tt ∧ validate_usage budget usage' = Ok tt
     ∧ (ct_size_bytes artifact ≤ wb_max_bytes_per_artifact budget)%N
     ∧ (wu_artifacts usage' ≤ u64_max)%N ∧ (wu_artifact_bytes usage' ≤ u64_max)%N
     ∧ usage' = mkWorkspaceUsage (wu_value_versions usage) (wu_inline_bytes usage)
         (wu_artifacts usage + 1) (wu_artifact_bytes usage + ct_size_bytes artifact))
  ∧ (∀ value, admit_value budget usage value = Ok usage' ↔
     validate_usage budget usage = Ok tt ∧ validate_usage budget usage' = Ok tt
     ∧ (wu_value_versions usage' ≤ u64_max)%N ∧ (wu_inline_bytes usage' ≤ u64_max)%N
     ∧ ∃ size, inline_size_bytes value = Ok size
         ∧ (size ≤ wb_max_inline_bytes_per_value budget)%N
         ∧ usage' = mkWorkspaceUsage (wu_value_versions usage + 1) (wu_inline_bytes usage + size)
             (wu_artifacts usage) (wu_artifact_bytes usage)).
Proof.
  split.
  - intros artifact. unfold admit_artifact_reference. rewrite seq_Ok, seq_Ok, !validate_usage_Ok, enforce_Ok.
    setoid_rewrite bind_Ok. setoid_rewrite bind_Ok. setoid_rewrite seq_Ok. setoid_rewrite seq_Ok.
    setoid_rewrite account_checked_add_Ok. setoid_rewrite enforce_Ok. split.
    + intros (? & ? & n & [-> ?] & m & [-> ?] & ? & ? & [= <-]). cbn. split_and!; (lia || done).
    + intros ((? & ? & ? & ?) & Hu & ? & Ha & Hb & ->). cbn in *. destruct Hu as (? & ? & ? & ?). eauto 20.
  - intros value. unfold admit_value. rewrite seq_Ok, !validate_usage_Ok. setoid_rewrite bind_Ok. setoid_rewrite seq_Ok.
    setoid_rewrite bind_Ok. setoid_rewrite bind_Ok. setoid_rewrite seq_Ok. setoid_rewrite seq_Ok.
    setoid_rewrite account_checked_add_Ok. setoid_rewrite enforce_Ok. split.
    + intros (? & size & ? & ? & n & [-> ?] & m & [-> ?] & ? & ? & [= <-]). cbn.
      split_and!; try lia. eauto.
    + intros ((? & ? & ? & ?) & Hu & Ha & Hb & size & ? & ? & ->). cbn in *. destruct Hu as (? & ? & ? & ?). eauto 20.
Qed.
