(* ===== verification/Persistence.v ===== *)
(** * Storage contracts ([crates/persistence])

    The portable error of the storage ports, persistence identities, the workflow
    snapshot, receipt and commit types of [task.rs], and the [WorkflowStore] port
    with the promise its clients rely on. *)
From S2P Require Import Prelude Contracts Capability Blueprint Authority.

Abbreviation TimestampMillis := N (only parsing).
Abbreviation AttemptId := string (only parsing).
Abbreviation LeaseId := string (only parsing).
Abbreviation NodeExecutionId := string (only parsing).

(** ** Errors ([error.rs]) *)

Inductive StorageFailureClass :=
| SfCorruption | SfUnavailable | SfOwnerBusy | SfMigration | SfResourceExhausted | SfInternal.

Inductive PersistenceError :=
| PeDaemonGenerationConflict (expected actual : N)
| PeDaemonIdempotencyConflict (actor : ActorRef) (key : string)
| PeWorkflowGenerationConflict (workflow : WorkflowId) (expected actual : option N)
| PeWorkflowIdempotencyConflict (actor key : string)
| PeInvalidIdentity (kind reason : string)
| PeInvalidDigest (message : string)
| PeBounds (location reason : string)
| PeInvalidDocument (message : string)
| PeJson (message : string)
| PeUnsupportedVersion (document : string) (found supported : N)
| PeCorruption (message : string)
| PeImmutableConflict (entity identity : string)
| PeNotFound (entity identity : string)
| PeInvalidCursor (message : string)
| PeArtifactNotCommitted (message : string)
| PeWorkspaceUsageConflict (run : RunId)
| PeArtifactAccessDenied (message : string)
| PeSequenceOverflow
| PeMigrationRequired (found target : N)
| PeStorage (class : StorageFailureClass) (message : string).

#[global] Instance StorageFailureClass_eq_dec : EqDecision StorageFailureClass.
Proof. solve_decision. Defined.
#[global] Instance PersistenceError_eq_dec : EqDecision PersistenceError.
Proof. solve_decision. Defined.

(** ** Identities ([identity.rs]) *)

(** The constructor of every identity type of the crate, named by [kind]. *)
Definition persistence_identity (kind value : string) : result PersistenceError string :=
  refuse_if (is_empty value || (192 <? strlen value)%N)
    (PeInvalidIdentity kind "length must be between 1 and 192 bytes") ;;
  refuse_if (negb (is_ascii value) || negb (first_alphanumeric value)
             || negb (forallb (λ b, is_ascii_alphanumeric b || (b =? 45)%N || (b =? 95)%N
                                    || (b =? 46)%N || (b =? 58)%N || (b =? 47)%N) (bytes value)))
    (PeInvalidIdentity kind "must start with an ASCII alphanumeric and contain only alphanumerics, '-', '_', '.', ':', or '/'") ;;
  Ok value.

(** ** Workflow storage ([task.rs]) *)

Definition MAX_WORKFLOW_DOCUMENT_BYTES : N := 268435456.
Definition MAX_WORKFLOW_REQUEST_BYTES : N := 1048576.

Record WorkflowManagedExecution := mkManagedExecution {
  wme_task : TaskId;
  wme_invocation : InvocationId;
  wme_accepted_generation : N;
  wme_selection : ResolvedCapabilitySnapshot;
  wme_entered : bool;
  wme_settled : bool
}.

(** [D] is the JSON document the runtime owns; storage keeps and measures it and
    never looks inside. *)
Record WorkflowSnapshot (D : Type) := mkWorkflowSnapshot {
  sn_workflow : WorkflowId;
  sn_generation : N;
  sn_title : string;
  sn_description : string;
  sn_owner_actor : string;
  sn_updated_at : TimestampMillis;
  sn_document : D;
  sn_entered_invocations : list InvocationId;
  sn_managed_executions : list WorkflowManagedExecution;
  sn_artifact_capacity : N;
  sn_reserved_bytes : N;
  sn_reserved_receipts : N
}.
Arguments mkWorkflowSnapshot {D}.
Arguments sn_workflow {D}. Arguments sn_generation {D}. Arguments sn_title {D}.
Arguments sn_description {D}. Arguments sn_owner_actor {D}. Arguments sn_updated_at {D}.
Arguments sn_document {D}. Arguments sn_entered_invocations {D}.
Arguments sn_managed_executions {D}. Arguments sn_artifact_capacity {D}.
Arguments sn_reserved_bytes {D}. Arguments sn_reserved_receipts {D}.

Record WorkflowCommandAcceptance := mkAcceptance {
  wca_actor : string;
  wca_key : string;
  wca_reserved_action : option string;
  wca_canonical_request : string;
  wca_result : Value
}.

Record WorkflowCommandReceipt := mkReceipt {
  wcr_workflow : WorkflowId;
  wcr_generation : N;
  wcr_acceptance : WorkflowCommandAcceptance
}.

Record WorkflowCommit (D : Type) := mkCommit {
  cm_expected_generation : option N;
  cm_snapshot : WorkflowSnapshot D;
  cm_command : option WorkflowCommandAcceptance
}.
Arguments mkCommit {D}. Arguments cm_expected_generation {D}.
Arguments cm_snapshot {D}. Arguments cm_command {D}.

Inductive WorkflowCommitOutcome :=
| CommitApplied (receipt : option WorkflowCommandReceipt)
| CommitReplay (receipt : WorkflowCommandReceipt).

Record WorkflowPage (D : Type) := mkPage {
  wp_items : list (WorkflowSnapshot D);
  wp_next : option string
}.
Arguments mkPage {D}. Arguments wp_items {D}. Arguments wp_next {D}.

Record WorkflowStorageLimits := mkStorageLimits {
  wsl_history_bytes : N;
  wsl_receipt_bytes : N;
  wsl_receipt_entries : N
}.
Definition WorkflowStorageLimits_default : WorkflowStorageLimits :=
  mkStorageLimits 1073741824 268435456 100000.

Record WorkflowStorageUsage := mkStorageUsage {
  wsu_history_bytes : N;
  wsu_receipt_bytes : N;
  wsu_receipt_entries : N;
  wsu_reserved_bytes : N;
  wsu_reserved_receipts : N;
  wsu_artifact_reserved_bytes : N;
  wsu_pending_artifact_bytes : N;
  wsu_artifact_content_bytes : N
}.

#[global] Instance WorkflowManagedExecution_eq_dec : EqDecision WorkflowManagedExecution.
Proof. solve_decision. Defined.
#[global] Instance WorkflowCommandAcceptance_eq_dec : EqDecision WorkflowCommandAcceptance.
Proof. solve_decision. Defined.
#[global] Instance WorkflowCommandReceipt_eq_dec : EqDecision WorkflowCommandReceipt.
Proof. solve_decision. Defined.

(** The port. Every call may observe and change the state [S] of the backing
    store, so that a transient failure is a behaviour of the store. *)
Class WorkflowStore (S D : Type) := {
  store_workflow : S → WorkflowId → S * result PersistenceError (option (WorkflowSnapshot D));
  store_workflows : S → option string → N → S * result PersistenceError (WorkflowPage D);
  store_receipt : S → string → string → S * result PersistenceError (option WorkflowCommandReceipt);
  store_commit : S → WorkflowCommit D → S * result PersistenceError WorkflowCommitOutcome
}.

(** ** What the port promises

    The durable facts of a store: one snapshot per workflow and one receipt per
    actor-scoped key. *)
Record Durable (D : Type) := mkDurable {
  du_workflows : gmap WorkflowId (WorkflowSnapshot D);
  du_receipts : gmap (string * string) WorkflowCommandReceipt
}.
Arguments mkDurable {D}. Arguments du_workflows {D}. Arguments du_receipts {D}.

Definition receipt_of {D} (commit : WorkflowCommit D) : option WorkflowCommandReceipt :=
  mkReceipt (sn_workflow (cm_snapshot commit)) (sn_generation (cm_snapshot commit))
    <$> cm_command commit.

(** The durable facts after a commit: the snapshot and the receipt of its command
    replace and extend the old ones together. *)
Definition durable_commit {D} (d : Durable D) (commit : WorkflowCommit D) : Durable D :=
  mkDurable (<[sn_workflow (cm_snapshot commit) := cm_snapshot commit]> (du_workflows d))
    (match receipt_of commit with
     | Some r => <[(wca_actor (wcr_acceptance r), wca_key (wcr_acceptance r)) := r]> (du_receipts d)
     | None => du_receipts d
     end).

(** A commit may take effect only on the exact generation it was planned against,
    as the next generation of the same owner, keeping all entry evidence, and under
    a command key that has no receipt. *)
Record commit_admissible {D} (d : Durable D) (commit : WorkflowCommit D) : Prop := {
  ca_expected : sn_generation <$> du_workflows d !! sn_workflow (cm_snapshot commit)
                = cm_expected_generation commit;
  ca_next : sn_generation (cm_snapshot commit)
            = (default 0 (cm_expected_generation commit) + 1)%N;
  ca_owner : ∀ old, du_workflows d !! sn_workflow (cm_snapshot commit) = Some old →
             sn_owner_actor old = sn_owner_actor (cm_snapshot commit);
  ca_entered : ∀ old i, du_workflows d !! sn_workflow (cm_snapshot commit) = Some old →
             i ∈ sn_entered_invocations old → i ∈ sn_entered_invocations (cm_snapshot commit);
  ca_fresh : ∀ c, cm_command commit = Some c → du_receipts d !! (wca_actor c, wca_key c) = None
}.

(** A page lists, in identity order and after the cursor, snapshots of the store; a
    cursor it hands out is its own last identity, and no cursor means that nothing
    after the requested one is missing. *)
Record page_of {D} (d : Durable D) (after : option string) (page : WorkflowPage D) : Prop := {
  po_items : ∀ x, x ∈ wp_items page → du_workflows d !! sn_workflow x = Some x;
  po_sorted : StronglySorted (λ x y, str_lt (sn_workflow x) (sn_workflow y)) (wp_items page);
  po_after : ∀ x a, x ∈ wp_items page → after = Some a → str_lt a (sn_workflow x);
  po_next : ∀ c, wp_next page = Some c → ∃ x, last (wp_items page) = Some x ∧ sn_workflow x = c;
  po_complete : wp_next page = None → ∀ id x, du_workflows d !! id = Some x →
    (∀ a, after = Some a → str_lt a id) → x ∈ wp_items page
}.

(** On the states the store keeps ([store_ok]), reads never change the durable facts
    and answer with them; a commit applies only when admissible, replays exactly, and
    an error may hide an admissible commit that did take effect, but nothing else. *)
Class WorkflowStoreContract (S D : Type) `{!WorkflowStore S D} := {
  store_ok : S → Prop;
  durable : S → Durable D;
  store_keyed : ∀ s id x, store_ok s → du_workflows (durable s) !! id = Some x →
    sn_workflow x = id;
  store_workflow_law : ∀ s id s' r, store_ok s → store_workflow s id = (s', r) →
    store_ok s' ∧ durable s' = durable s
    ∧ ∀ o, r = Ok o → o = du_workflows (durable s) !! id;
  store_workflows_law : ∀ s after limit s' r, store_ok s → store_workflows s after limit = (s', r) →
    store_ok s' ∧ durable s' = durable s
    ∧ ∀ page, r = Ok page → page_of (durable s) after page;
  store_receipt_law : ∀ s actor key s' r, store_ok s → store_receipt s actor key = (s', r) →
    store_ok s' ∧ durable s' = durable s
    ∧ ∀ o, r = Ok o → o = du_receipts (durable s) !! (actor, key);
  store_commit_law : ∀ s c s' r, store_ok s → store_commit s c = (s', r) →
    store_ok s' ∧
    match r with
    | Ok (CommitApplied receipt) =>
        commit_admissible (durable s) c ∧ durable s' = durable_commit (durable s) c
        ∧ receipt = receipt_of c
    | Ok (CommitReplay receipt) =>
        durable s' = durable s ∧ ∃ command, cm_command c = Some command
        ∧ du_receipts (durable s) !! (wca_actor command, wca_key command) = Some receipt
        ∧ wca_canonical_request (wcr_acceptance receipt) = wca_canonical_request command
    | Err _ =>
        durable s' = durable s
        ∨ commit_admissible (durable s) c ∧ durable s' = durable_commit (durable s) c
    end
}.
