(* ===== verification/Dispatch.v ===== *)
(** * The capability-execution boundary ([crates/runtime/src/executor.rs], [error.rs])

    Resolution of a requirement to an authorized capability generation, the
    immutable dispatch of one attempt, its final entry decision, and the errors of
    the runtime and its executor. *)
From S2P Require Import Prelude Contracts Capability Blueprint Authority Model.
From S2P Require Import Workspace Persistence.

Abbreviation RevisionId := string (only parsing).
Abbreviation NodeId := string (only parsing).

Definition MAX_REPORTS_PER_DISPATCH : N := 1024.

(** ** Errors *)

Inductive ExecutorError :=
| ExInvalidDispatch (message : string)
| ExResolutionMismatch (reasons : list string)
| ExAuthorityDenied (reasons : list DecisionReasonCode) (decision : AuthorityDecisionSnapshot)
| ExUnavailableGeneration (capability : CapabilityId) (descriptor_revision : N)
| ExUnavailable (message : string)
| ExCapacityUnavailable (message : string)
| ExOverloaded (message : string)
| ExAdmissionClosed
| ExBoundaryBeforeEntry (message : string)
| ExBoundaryAfterEntry (message : string)
| ExBoundaryAfterResponse (message : string)
| ExAdapterPanicked (after_entry : bool)
| ExBoundary (message : string)
| ExInvalidReports (message : string)
| ExContract (error : ContractError).

Inductive RuntimeError :=
| RtAuthority (error : AuthorityError)
| RtAuthorizationDenied (decision : string) (reasons : list DecisionReasonCode)
| RtInvalidCommand (message : string)
| RtInvalidHistory (message : string)
| RtInvalidTransition (message : string)
| RtScheduling (message : string)
| RtJson (message : string)
| RtPersistence (error : PersistenceError)
| RtExecutor (error : ExecutorError).

(** [#[error("invalid task definition: {0}")]] *)
#[global] Instance display_task_definition : Display TaskDefinitionError :=
  λ '(mkTaskDefinitionError message), "invalid task definition: " +:+ message.
(** [.map_err(invalid)], where [invalid(e)] wraps [e.to_string()]. *)
Definition or_invalid {E A} `{!Display E} (invalid : string → RuntimeError) (r : result E A)
    : result RuntimeError A := map_err (λ e, invalid (to_text e)) r.

(** ** Dispatches *)

Record ExecutionDispatch := mkDispatch {
  xd_task_inputs : bool;
  xd_task_artifact_budget : option WorkspaceBudget;
  xd_native_path_claims : list TaskPathAccess;
  xd_task_tools : list TaskTool;
  xd_maximum_tool_calls : N;
  xd_run : RunId;
  xd_revision : RevisionId;
  xd_node : NodeId;
  xd_execution : NodeExecutionId;
  xd_attempt : AttemptId;
  xd_lease : LeaseId;
  xd_lease_expires_at : TimestampMillis;
  xd_resolution : ResolvedCapabilitySnapshot;
  xd_execution_authority : ExecutionAuthorityBasis;
  xd_resolution_authorization : AuthorityDecisionSnapshot;
  xd_entry_authorization : AuthorityDecisionSnapshot;
  xd_request : InvocationRequest
}.
#[global] Instance eta_ExecutionDispatch : Settable ExecutionDispatch := λ d,
  mkDispatch (xd_task_inputs d) (xd_task_artifact_budget d) (xd_native_path_claims d)
    (xd_task_tools d) (xd_maximum_tool_calls d) (xd_run d) (xd_revision d) (xd_node d)
    (xd_execution d) (xd_attempt d) (xd_lease d) (xd_lease_expires_at d) (xd_resolution d)
    (xd_execution_authority d) (xd_resolution_authorization d) (xd_entry_authorization d)
    (xd_request d).

#[global] Instance ExecutionDispatch_eq_dec : EqDecision ExecutionDispatch.
Proof. solve_decision. Defined.

Record CancellationDispatch := mkCancellationDispatch {
  cx_run : RunId;
  cx_attempt : AttemptId;
  cx_request : CancellationRequest
}.
Inductive EffectAction :=
| EffectExecute (dispatch : ExecutionDispatch)
| EffectCancel (dispatch : CancellationDispatch).

Inductive ObservationDisposition := ObsApplied | ObsReplayed | ObsLateEvidence.

Record ResolvedCapability := mkResolvedCapability {
  rc_descriptor : CapabilityDescriptor;
  rc_snapshot : ResolvedCapabilitySnapshot;
  rc_authorization : option AuthorityDecisionSnapshot
}.

Record CapabilityResolutionContext := mkResolutionContext {
  crx_basis : ExecutionAuthorityBasis;
  crx_revision : RevisionId;
  crx_node : NodeId;
  crx_execution : NodeExecutionId;
  crx_attempt : AttemptId;
  crx_filesystem : list FilesystemScope
}.

Record CapabilityExecutionRequirements := mkExecutionRequirements {
  er_filesystem : list FilesystemScope;
  er_network_profiles : gset string;
  er_network_destinations : gset string;
  er_secrets : gset SecretRef;
  er_budget : AuthorityBudget
}.
Definition CapabilityExecutionRequirements_default : CapabilityExecutionRequirements :=
  mkExecutionRequirements [] ∅ ∅ ∅ AuthorityBudget_default.

Definition maximum_budget (l r : option N) : option N :=
  match l, r with
  | Some l, Some r => Some (N.max l r)
  | Some value, None | None, Some value => Some value
  | None, None => None
  end.

(** The encoders, the hash, the parser and the renderings the runtime calls; the
    codecs of the crates below it are its fields. *)
Class RuntimeCodec := {
  rcodec_blake3 :: Blake3;
  rcodec_value :: Serialize Value;
  rcodec_text :: Serialize string;
  rcodec_input :: Serialize TaskInputValue;
  rcodec_tool :: Serialize TaskTool;
  rcodec_definition :: Serialize TaskDefinition;
  rcodec_grant :: Serialize AuthorityGrant;
  rcodec_decision :: Serialize DecisionDigest;
  rcodec_basis :: Serialize BasisDigest;
  rcodec_payload :: Serialize SnapshotDigestPayload;
  rcodec_extensions :: Serialize (gmap string Value);
  rcodec_batch :: Serialize TaskBatch;
  rcodec_create :: Serialize WorkflowCreate;
  rcodec_dispatch :: Serialize ExecutionDispatch;
  rcodec_event :: Serialize InvocationEvent;
  rcodec_events :: Serialize (list InvocationEvent);
  rcodec_actor_key :: Serialize (string * string);
  rcodec_limits :: Serialize WorkflowLimits;
  rcodec_outputs :: Serialize (gmap string TaskOutputDeclaration);
  rcodec_terminal :: Serialize InvocationTerminal;
  rcodec_reference :: Serialize ArtifactReference;
  rcodec_model_task :: Serialize ModelTaskRequestDocument;
  from_slice : string → result string Value;    (** [serde_json::from_slice] *)
  display_contract :: Display ContractError;
  display_authority :: Display AuthorityError;
  display_executor :: Display ExecutorError;
  display_runtime :: Display RuntimeError;
  display_persistence :: Display PersistenceError;
  display_model :: Display ModelContractError;
  debug_failure :: Debug InvocationFailure
}.
#[global] Instance runtime_task_codec `{!RuntimeCodec} : TaskCodec :=
  {| codec_text := rcodec_text; codec_value := rcodec_value; codec_input := rcodec_input;
     codec_tool := rcodec_tool; codec_definition := rcodec_definition;
     codec_blake3 := rcodec_blake3 |}.
#[global] Instance runtime_authority_codec `{!RuntimeCodec} : AuthorityCodec :=
  {| acodec_value := rcodec_value; acodec_grant := rcodec_grant;
     acodec_decision := rcodec_decision; acodec_basis := rcodec_basis;
     acodec_blake3 := rcodec_blake3 |}.

(** [AuthorityEvaluator::evaluate] as the runtime sees it. *)
Abbreviation Evaluator :=
  (AuthorityRequest → result AuthorityError AuthorityDecisionSnapshot) (only parsing).

(** [DecisionId::new] *)
Definition DecisionId_new (value : string) : result AuthorityError string :=
  refuse_if (negb (validate_authority_identity value))
    (AuthInvalidIdentity "DecisionId"
       (if is_empty value || (192 <? strlen value)%N
        then "length must be between 1 and 192 bytes"
        else "must start with an ASCII alphanumeric and contain only alphanumerics, '-', '_', '.', ':', or '/'")) ;;
  Ok value.

(** The identity constructors of [crates/capability] with [IdRule::Simple]. *)
Definition capability_identity (kind : string) (max : N) (value : string)
    : result ContractError string :=
  refuse_if (negb (validate_id value max Simple))
    (InvalidIdentity kind
       (if is_empty value || (max <? strlen value)%N
        then "length must be between 1 and " +:+ show_N max +:+ " bytes"
        else if negb (is_ascii value) then "must contain ASCII characters only"
        else "must start with an alphanumeric character and use only alphanumerics, '-', '_', '.', ':', or '/'")) ;;
  Ok value.

Section dispatch.
Context `{!RuntimeCodec}.

Definition ResolvedCapability_new (descriptor : CapabilityDescriptor)
    (snapshot : ResolvedCapabilitySnapshot) : result ExecutorError ResolvedCapability :=
  map_err ExContract (validate_against snapshot descriptor) ;;
  Ok (mkResolvedCapability descriptor snapshot None).

Definition is_allowed (decision : AuthorityDecisionSnapshot) : bool :=
  bool_decide (dn_outcome decision = Allow).

Definition new_authorized (descriptor : CapabilityDescriptor)
    (snapshot : ResolvedCapabilitySnapshot) (authorization : AuthorityDecisionSnapshot)
    : result ExecutorError ResolvedCapability :=
  map_err ExContract (validate_against snapshot descriptor) ;;
  let request := dn_request authorization in
  let resources := rq_resources request in
  refuse_if (negb (is_allowed authorization)
      || bool_decide (rf_capability resources ≠ Some (rs_capability snapshot))
      || bool_decide (rf_capability_operation resources ≠ Some (rs_operation snapshot))
      || bool_decide (rf_provider_profile resources ≠ rs_provider_profile snapshot)
      || bool_decide (pv_descriptor_revision (rq_provenance request)
                      ≠ Some (rs_descriptor_revision snapshot))
      || bool_decide (rf_locality resources ≠ Some (cd_locality descriptor))
      || bool_decide (rf_peer resources ≠ cd_peer descriptor)
      || bool_decide (pv_peer (rq_provenance request) ≠ cd_peer descriptor)
      || bool_decide (rf_trust_zones resources ≠ cd_trust_zones descriptor))
    (ExInvalidDispatch "resolution authorization does not bind the exact snapshot") ;;
  Ok (mkResolvedCapability descriptor snapshot (Some authorization)).

(** [saturating_add(9_999) / 10_000] *)
Definition micros_to_minor (micros : N) : N := (saturating_add micros 9999 / 10000)%N.

Definition candidate_request (self : CapabilityResolutionContext)
    (descriptor : CapabilityDescriptor) (operation : OperationId)
    (requirements : CapabilityExecutionRequirements) (evaluated_at_unix_ms : N)
    (boundary : string) : result ExecutorError AuthorityRequest :=
  contract ← ok_or (cd_operations descriptor !! operation)
    (ExInvalidDispatch "candidate does not advertise the operation");
  let resources := facts_empty
    <| rf_capability := Some (cd_identity descriptor) |>
    <| rf_category := Some (cd_category descriptor) |>
    <| rf_capability_operation := Some operation |>
    <| rf_provider_profile := cd_provider_profile descriptor |>
    <| rf_trust_zones := cd_trust_zones descriptor |>
    <| rf_execution_trust_class := Some (cd_execution_trust descriptor) |>
    <| rf_locality := Some (cd_locality descriptor) |>
    <| rf_peer := cd_peer descriptor |>
    <| rf_side_effect := oc_side_effect contract |>
    <| rf_filesystem := er_filesystem requirements ++ crx_filesystem self |>
    <| rf_network_profiles := er_network_profiles requirements |>
    <| rf_network_destinations := er_network_destinations requirements |>
    <| rf_secrets := er_secrets requirements |> in
  let observations := cd_resource_observations descriptor in
  let required := er_budget requirements in
  let budget := mkBudget
    (maximum_budget (micros_to_minor <$> (observations ≫= estimated_cost_micros))
       (ab_cost_minor required))
    (maximum_budget (observations ≫= estimated_duration_ms) (ab_duration_ms required))
    (maximum_budget (Some 1%N) (ab_invocations required))
    (ab_artifact_bytes required)
    (ab_units required)
    (Some (N.max (default 1%N (ab_concurrency required)) 1)) in
  let identity := eb_digest (crx_basis self) +:+ ":" +:+ crx_revision self +:+ ":" +:+ crx_node self
    +:+ ":" +:+ crx_execution self +:+ ":" +:+ crx_attempt self +:+ ":"
    +:+ cd_identity descriptor +:+ ":" +:+ boundary in
  decision ← map_err (λ e, ExBoundaryBeforeEntry (to_text e))
    (DecisionId_new ("decision:" +:+ blake3_hex identity));
  Ok (basis_request (crx_basis self) decision OpInvokeCapability resources budget
        evaluated_at_unix_ms
        (mkProvenance (Some (crx_revision self)) (Some (crx_node self))
           (Some (crx_execution self)) (Some (crx_attempt self))
           (Some (cd_descriptor_revision descriptor)) (cd_peer descriptor)
           (Some (oc_idempotency contract)))).

(** [TaskExecutor::resolve_authorized], the default of the trait, over the host's
    [resolve]. *)
Definition resolve_authorized
    (resolve : CapabilityRequirement → N → result ExecutorError ResolvedCapability)
    (requirement : CapabilityRequirement) (authority : CapabilityResolutionContext)
    (evaluator : Evaluator) (observed_at_unix_ms : N) : result ExecutorError ResolvedCapability :=
  resolved ← resolve requirement observed_at_unix_ms;
  request ← candidate_request authority (rc_descriptor resolved) (cr_operation requirement)
    CapabilityExecutionRequirements_default observed_at_unix_ms "resolve";
  decision ← map_err (λ e, ExBoundaryBeforeEntry (to_text e)) (evaluator request);
  refuse_if (negb (is_allowed decision))
    (ExAuthorityDenied (dn_reason_codes decision) decision) ;;
  new_authorized (rc_descriptor resolved) (rc_snapshot resolved) decision.

Definition from_snapshot (run : RunId) (revision : RevisionId) (node : NodeId)
    (execution : NodeExecutionId) (attempt : AttemptId) (lease : LeaseId)
    (lease_expires_at : TimestampMillis) (resolution : ResolvedCapabilitySnapshot)
    (execution_authority : ExecutionAuthorityBasis)
    (resolution_authorization entry_authorization : AuthorityDecisionSnapshot)
    (request : InvocationRequest) : result ExecutorError ExecutionDispatch :=
  map_err (λ e, ExInvalidDispatch (to_text e)) (validate_request resolution request) ;;
  Ok (mkDispatch false None [] [] 0 run revision node execution attempt lease lease_expires_at
        resolution execution_authority resolution_authorization entry_authorization request).

Definition with_entry_authorization (self : ExecutionDispatch)
    (entry_authorization : AuthorityDecisionSnapshot) : result ExecutorError ExecutionDispatch :=
  let prior := dn_request (xd_entry_authorization self) in
  let final_request := dn_request entry_authorization in
  refuse_if (negb (is_allowed entry_authorization)
      || bool_decide (rq_actor final_request ≠ rq_actor prior)
      || bool_decide (rq_grant final_request ≠ rq_grant prior)
      || bool_decide (rq_grant_revision final_request ≠ rq_grant_revision prior)
      || bool_decide (rq_grant_digest final_request ≠ rq_grant_digest prior)
      || bool_decide (rq_revocation_generation final_request ≠ rq_revocation_generation prior)
      || bool_decide (rq_operation final_request ≠ rq_operation prior)
      || bool_decide (rq_resources final_request ≠ rq_resources prior)
      || bool_decide (rq_budget final_request ≠ rq_budget prior)
      || bool_decide (rq_provenance final_request ≠ rq_provenance prior)
      || (rq_evaluated_at final_request <? rq_evaluated_at prior)%N)
    (ExInvalidDispatch "adapter-entry authorization does not bind the exact claimed candidate") ;;
  dispatch ← from_snapshot (xd_run self) (xd_revision self) (xd_node self) (xd_execution self)
    (xd_attempt self) (xd_lease self) (xd_lease_expires_at self) (xd_resolution self)
    (xd_execution_authority self) (xd_resolution_authorization self) entry_authorization
    (xd_request self);
  Ok (dispatch <| xd_task_inputs := xd_task_inputs self |>
        <| xd_task_artifact_budget := xd_task_artifact_budget self |>
        <| xd_native_path_claims := xd_native_path_claims self |>
        <| xd_task_tools := xd_task_tools self |>
        <| xd_maximum_tool_calls := xd_maximum_tool_calls self |>).

Definition for_task (self : ExecutionDispatch) (budget : WorkspaceBudget)
    (paths : list TaskPathAccess) : ExecutionDispatch :=
  self <| xd_task_inputs := true |> <| xd_task_artifact_budget := Some budget |>
    <| xd_native_path_claims := paths |>.

Definition with_task_tools (self : ExecutionDispatch) (tools : list TaskTool)
    (maximum_calls : N) : ExecutionDispatch :=
  self <| xd_task_tools := tools |> <| xd_maximum_tool_calls := maximum_calls |>.

Definition task_output_bytes (self : ExecutionDispatch) : option N :=
  if xd_task_inputs self then Some MAX_TASK_OUTPUT_BYTES else None.

(** ** Prepared entries

    [PreparedExecution]: the dispatch it was prepared for, its admission envelope,
    and the adapter code that runs when it is entered. *)

(** What the adapter does with the reporter it is given, until it returns. The
    answers of the reporter are the runtime's. *)
Inductive AdapterRun :=
| AdapterReturn (outcome : result ExecutorError ())
| AdapterReport (report : InvocationEvent)
    (continue : result ExecutorError ObservationDisposition → AdapterRun)
| AdapterHeartbeat (continue : result ExecutorError ObservationDisposition → AdapterRun).

Record PreparedExecution := mkPrepared {
  px_dispatch : ExecutionDispatch;
  px_envelope : InvocationAdmissionEnvelope;
  px_action : ExecutionDispatch → AdapterRun
}.

Definition require_final_dispatch (self : PreparedExecution) (dispatch : ExecutionDispatch)
    : result ExecutorError () :=
  exact ← with_entry_authorization (px_dispatch self) (xd_entry_authorization dispatch);
  refuse_if (bool_decide (dispatch ≠ exact))
    (ExInvalidDispatch "final dispatch differs from the exact prepared entry").

(** [PreparedExecution::enter] *)
Definition prepared_enter (self : PreparedExecution) (dispatch : ExecutionDispatch) : AdapterRun :=
  match require_final_dispatch self dispatch with
  | Ok _ => px_action self dispatch
  | Err e => AdapterReturn (Err e)
  end.
End dispatch.
