(* ===== verification/Managed.v ===== *)
(** * Managed installations

    The portable requests and views of installations whose resources outlive an
    invocation ([crates/capability/src/managed.rs]), the operator policy for
    protected effects ([crates/authority/src/protected_effect.rs]), and the durable
    inventory with its resource uses ([crates/persistence/src/managed]). *)
From S2P Require Import Prelude Contracts Capability Blueprint Authority Model.
From S2P Require Import Workspace Persistence Dispatch.

(** ** Requests ([crates/capability/src/managed.rs]) *)

Definition MANAGED_SCHEMA_VERSION : N := 3.
Definition MAX_MANAGED_RESOURCES : N := 16.
Definition MAX_MANAGED_USES : N := 128.
Definition MANAGED_BINDING_EXTENSION : string := "org.milkdrift/managed-resources".

Abbreviation ManagedName := string (only parsing).
Definition ManagedName_new (value : string) : result ContractError ManagedName :=
  refuse_if (is_empty value || (64 <? strlen value)%N
             || negb match bytes value with b :: _ => is_ascii_lowercase b | [] => false end
             || negb (forallb (λ b, is_ascii_lowercase b || is_ascii_digit b || (b =? 45)%N) (bytes value)))
    (InvalidIdentity "ManagedName"
       "expected 1..=64 lowercase letters, digits or hyphens, starting with a letter") ;;
  Ok value.

Record RecipeReference := mkRecipe { rr_name : ManagedName; rr_digest : string }.
Inductive DataDisposition := DispositionPreserve | DeleteOnRemoval.
Record EditingHandoff := mkHandoff {
  eh_installation : ManagedName;
  eh_generation : N;
  eh_parent : string;
  eh_child : string;
  eh_parent_claim : N;
  eh_child_claim : N;
  eh_association : string
}.
Inductive ManagedAction :=
| MaEvaluate (candidate : ArtifactReference)
| MaPublish (evaluation : string)
| MaEvidence (evaluation : string)
| MaPrepare (recipe : RecipeReference)
| MaApply (recipe : RecipeReference)
| MaInspect
| MaStart
| MaStop
| MaUpdate (recipe : RecipeReference) (allow_interruption : bool)
| MaPreserve (disposition : DataDisposition)
| MaRemove
| MaRecover
| MaHandoff (transfer : EditingHandoff)
| MaReturn (transfer : EditingHandoff) (resume_parent : bool)
| MaResolve (use_id : string) (expected_claim : N).
Record ManagedRequest := mkManagedRequest {
  mq_schema_version : N;
  mq_command : ManagedName;
  mq_installation : ManagedName;
  mq_expected_version : N;
  mq_action : ManagedAction
}.
#[global] Instance RecipeReference_eq_dec : EqDecision RecipeReference.
Proof. solve_decision. Defined.
#[global] Instance DataDisposition_eq_dec : EqDecision DataDisposition.
Proof. solve_decision. Defined.
#[global] Instance EditingHandoff_eq_dec : EqDecision EditingHandoff.
Proof. solve_decision. Defined.
#[global] Instance ManagedAction_eq_dec : EqDecision ManagedAction.
Proof. solve_decision. Defined.
#[global] Instance ManagedRequest_eq_dec : EqDecision ManagedRequest.
Proof. solve_decision. Defined.

Definition managed_contract (message : string) : ContractError :=
  InvalidIdentity "managed resource contract" message.
Definition ManagedRequest_validate (self : ManagedRequest) : result ContractError () :=
  refuse_if (negb (mq_schema_version self =? MANAGED_SCHEMA_VERSION)%N)
    (managed_contract "unsupported managed request version") ;;
  match mq_action self with
  | MaPublish evaluation | MaEvidence evaluation =>
      refuse_if (negb (is_canonical_blake3_digest evaluation))
        (managed_contract "evaluation identity must be a canonical BLAKE3 digest")
  | _ => Ok tt
  end ;;
  match mq_action self with
  | MaEvaluate candidate =>
      refuse_if (is_none_or (λ size, (size =? 0)%N || (16777216 <? size)%N) (ar_size_bytes candidate))
        (managed_contract "candidate needs an exact bounded nonzero byte size")
  | _ => Ok tt
  end ;;
  match mq_action self with
  | MaPrepare recipe | MaApply recipe | MaUpdate recipe _ =>
      refuse_if (negb (is_canonical_blake3_digest (rr_digest recipe)))
        (managed_contract "recipe digest must be a canonical BLAKE3 digest")
  | _ => Ok tt
  end ;;
  match mq_action self with
  | MaResolve use_id expected_claim =>
      refuse_if (negb (strlen use_id =? 64)%N
                 || negb (is_canonical_blake3_digest ("b3_" +:+ use_id))
                 || (expected_claim =? 0)%N)
        (managed_contract "resolution requires an exact use and nonzero claim")
  | _ => Ok tt
  end ;;
  match mq_action self with
  | MaHandoff transfer | MaReturn transfer _ =>
      refuse_if (bool_decide (eh_installation transfer ≠ mq_installation self)
                 || (eh_generation transfer =? 0)%N
                 || (eh_parent_claim transfer =? 0)%N
                 || (eh_child_claim transfer =? 0)%N
                 || bool_decide (eh_parent transfer = eh_child transfer)
                 || negb (is_canonical_blake3_digest ("b3_" +:+ eh_parent transfer))
                 || negb (is_canonical_blake3_digest ("b3_" +:+ eh_child transfer))
                 || is_empty (eh_association transfer)
                 || (256 <? strlen (eh_association transfer))%N)
        (managed_contract "invalid exact editing transfer")
  | _ => Ok tt
  end.
Definition managed_operation (self : ManagedRequest) : string :=
  match mq_action self with
  | MaEvaluate _ => "resource.evaluate"
  | MaPublish _ => "resource.publish"
  | MaEvidence _ => "resource.evidence"
  | MaPrepare _ => "resource.prepare"
  | MaApply _ => "resource.apply"
  | MaInspect => "resource.inspect"
  | MaStart => "resource.start"
  | MaStop => "resource.stop"
  | MaUpdate _ _ => "resource.update"
  | MaPreserve _ => "resource.preserve"
  | MaRemove => "resource.remove"
  | MaRecover => "resource.recover"
  | MaResolve _ _ => "resource.resolve"
  | MaHandoff _ => "resource.handoff"
  | MaReturn _ _ => "resource.return"
  end.

(** ** Bindings and views *)

Inductive ResourceOwnership := Owned | Shared | Attached.
Inductive ManagedResourceKind := KindWorkingArea | KindStaging | KindData | KindService | KindPrerequisite.
Record ResourceRequirement := mkResourceRequirement { rq_resource : ManagedName; rq_mutation : bool }.
Record ManagedBinding := mkBinding {
  bn_installation : ManagedName;
  bn_generation : N;
  bn_recipe_digest : string;
  bn_resources : list ResourceRequirement
}.
Definition ManagedBinding_validate (self : ManagedBinding) : result ContractError () :=
  refuse_if ((bn_generation self =? 0)%N
             || negb (is_canonical_blake3_digest (bn_recipe_digest self))
             || bool_decide (bn_resources self = [])
             || (MAX_MANAGED_RESOURCES <? vlen (bn_resources self))%N
             || negb (bool_decide (NoDup (rq_resource <$> bn_resources self))))
    (managed_contract "invalid managed generation dependencies").
Record ManagedResourceView := mkResourceView {
  rv_name : ManagedName;
  rv_kind : ManagedResourceKind;
  rv_ownership : ResourceOwnership;
  rv_identity : string;
  rv_disposition : DataDisposition
}.
Record ManagedBlocker := mkBlocker {
  bl_use_id : string;
  bl_execution : string;
  bl_generation : N;
  bl_claim : N;
  bl_editing : list ManagedName;
  bl_state : string
}.
Record ManagedResponse := mkManagedResponse {
  mr_accepted_evaluation : option string;
  mr_evaluation : option Value;
  mr_schema_version : N;
  mr_installation : ManagedName;
  mr_version : N;
  mr_generation : N;
  mr_state : string;
  mr_desired_running : option bool;
  mr_observed_running : option bool;
  mr_recipe : option RecipeReference;
  mr_resources : list ManagedResourceView;
  mr_blockers : list ManagedBlocker;
  mr_pending : option string;
  mr_capabilities : list CapabilityId;
  mr_diagnostics : list string
}.
#[global] Instance eta_ManagedResponse : Settable ManagedResponse := λ r,
  mkManagedResponse (mr_accepted_evaluation r) (mr_evaluation r) (mr_schema_version r)
    (mr_installation r) (mr_version r) (mr_generation r) (mr_state r) (mr_desired_running r)
    (mr_observed_running r) (mr_recipe r) (mr_resources r) (mr_blockers r) (mr_pending r)
    (mr_capabilities r) (mr_diagnostics r).
Definition response_states : list string :=
  ["prepared"; "unprepared"; "running"; "stopped"; "pending"; "removed"; "drift"; "evaluating"; "evaluated"].
Definition ManagedResponse_validate_for (self : ManagedResponse) (request : ManagedRequest)
    : result ContractError () :=
  refuse_if (negb (mr_schema_version self =? MANAGED_SCHEMA_VERSION)%N
             || bool_decide (mr_installation self ≠ mq_installation request)
             || is_some_and (λ id, negb (is_canonical_blake3_digest id)) (mr_accepted_evaluation self)
             || negb (bool_decide (mr_state self ∈ response_states))
             || (bool_decide (mr_state self = "unprepared")
                 && negb match mq_action request with MaPrepare _ => true | _ => false end)
             || (MAX_MANAGED_RESOURCES <? vlen (mr_resources self))%N
             || (MAX_MANAGED_USES <? vlen (mr_blockers self))%N
             || (8 <? vlen (mr_capabilities self))%N
             || (32 <? vlen (mr_diagnostics self))%N
             || existsb (λ d, (512 <? strlen d)%N) (mr_diagnostics self)
             || existsb (λ r, is_empty (rv_identity r) || (4096 <? strlen (rv_identity r))%N)
                  (mr_resources self)
             || is_some_and (λ d, negb (is_canonical_blake3_digest d)) (mr_pending self)
             || is_some_and (λ r, negb (is_canonical_blake3_digest (rr_digest r))) (mr_recipe self)
             || existsb (λ b, (bl_claim b =? 0)%N || (bl_generation b =? 0)%N
                  || (512 <? strlen (bl_execution b))%N
                  || negb (is_canonical_blake3_digest ("b3_" +:+ bl_use_id b))
                  || (MAX_MANAGED_RESOURCES <? vlen (bl_editing b))%N
                  || (32 <? strlen (bl_state b))%N) (mr_blockers self))
    (managed_contract "invalid or mismatched managed response").

Record ManagedTarget := mkManagedTarget {
  mt_schema_version : N;
  mt_command : ManagedName;
  mt_installation : ManagedName;
  mt_expected_version : N
}.
Definition ManagedTarget_request (self : ManagedTarget) (action : ManagedAction)
    : result ContractError ManagedRequest :=
  let request := mkManagedRequest (mt_schema_version self) (mt_command self) (mt_installation self)
    (mt_expected_version self) action in
  ManagedRequest_validate request ;; Ok request.

#[global] Instance ResourceOwnership_eq_dec : EqDecision ResourceOwnership.
Proof. solve_decision. Defined.
#[global] Instance ManagedResourceKind_eq_dec : EqDecision ManagedResourceKind.
Proof. solve_decision. Defined.
#[global] Instance ResourceRequirement_eq_dec : EqDecision ResourceRequirement.
Proof. solve_decision. Defined.
#[global] Instance ManagedBinding_eq_dec : EqDecision ManagedBinding.
Proof. solve_decision. Defined.
#[global] Instance ManagedResourceView_eq_dec : EqDecision ManagedResourceView.
Proof. solve_decision. Defined.

(** ** Protected effects ([crates/authority/src/protected_effect.rs]) *)

Record ProtectedEffectPolicy := mkEffectPolicy {
  pp_schema_version : N;
  pp_required_checks : list string;
  pp_verifier : string;
  pp_producer : CausalId;
  pp_maximum_candidate_bytes : N;
  pp_validity_ms : N
}.
#[global] Instance ProtectedEffectPolicy_eq_dec : EqDecision ProtectedEffectPolicy.
Proof. solve_decision. Defined.
Definition policy_contract (reason : string) : AuthorityError := AuthInvalidContract reason.
Definition ProtectedEffectPolicy_validate (self : ProtectedEffectPolicy) : result AuthorityError () :=
  refuse_if (negb (pp_schema_version self =? 1)%N
             || bool_decide (pp_required_checks self = [])
             || (32 <? vlen (pp_required_checks self))%N
             || existsb (λ c, is_empty c || (64 <? strlen c)%N
                  || negb (forallb (λ b, is_ascii_lowercase b || is_ascii_digit b || (b =? 45)%N) (bytes c)))
                  (pp_required_checks self)
             || negb (bool_decide (NoDup (pp_required_checks self)))
             || negb (is_canonical_blake3_digest (pp_verifier self))
             || (pp_maximum_candidate_bytes self =? 0)%N
             || (16777216 <? pp_maximum_candidate_bytes self)%N
             || (pp_validity_ms self =? 0)%N
             || (86400000 <? pp_validity_ms self)%N)
    (policy_contract "invalid protected effect policy").

Section protected.
Context `{!Blake3, !Serialize ProtectedEffectPolicy, !Serialize Value}.
Definition policy_digest (self : ProtectedEffectPolicy) : result AuthorityError string :=
  ProtectedEffectPolicy_validate self ;;
  bytes ← map_err (λ _, policy_contract "invalid canonical effect policy")
    (canonical_json_bytes self (mkJsonLimits 8 1024 128 64));
  Ok ("b3_" +:+ blake3_hex ("milkdrift.protected-effect-policy.v1"
        +:+ String (ascii_of_N 0) EmptyString +:+ bytes)).
Definition require_pass (self : ProtectedEffectPolicy) (evidence : CandidateEvaluation) (now : N)
    : result AuthorityError () :=
  ProtectedEffectPolicy_validate self ;;
  map_err (λ _, policy_contract "invalid candidate evidence") (CandidateEvaluation_validate evidence) ;;
  let refusal := policy_contract
    "verification is failed, unknown, expired or belongs to a different policy" in
  refuse_if (negb (ce_complete evidence)) refusal ;;
  digest ← policy_digest self;
  refuse_if (bool_decide (cs_policy (ce_subject evidence) ≠ digest)
             || bool_decide (cs_verifier (ce_subject evidence) ≠ pp_verifier self)
             || bool_decide (cs_producer (ce_subject evidence) ≠ pp_producer self)
             || (pp_maximum_candidate_bytes self <? ct_size_bytes (cs_artifact (ce_subject evidence)))%N
             || (now <? ce_started_at evidence)%N
             || (ce_expires_at evidence <=? now)%N
             || negb (saturating_sub (ce_expires_at evidence) (ce_started_at evidence) =? pp_validity_ms self)%N
             || bool_decide (cc_name <$> ce_checks evidence ≠ pp_required_checks self)
             || existsb (λ c, bool_decide (cc_passed c ≠ Some true)) (ce_checks evidence))
    refusal.
End protected.

(** ** Resource uses ([crates/persistence/src/managed/uses.rs]) *)

Abbreviation PeerExecutionId := string (only parsing).
Inductive ManagedExecution :=
| ExecutionTask (workflow : WorkflowId) (task : TaskId) (invocation : InvocationId)
    (accepted_generation : N)
| ExecutionServing (execution : PeerExecutionId) (invocation : InvocationId).
Definition execution_invocation (e : ManagedExecution) : InvocationId :=
  match e with ExecutionTask _ _ invocation _ | ExecutionServing _ invocation => invocation end.

Inductive QuiescenceEvidence :=
| PhysicalStop (physical_identity observation_digest : string) (disrupted : bool).
Inductive ManagedUsePhase :=
| Reserved
| Entered (physical_identity : string)
| Fencing (physical_identity : string)
| Quiescent (evidence : QuiescenceEvidence)
| Suspended (child : string) (evidence : QuiescenceEvidence).
Record ManagedUse := mkUse {
  mu_id : string;
  mu_execution : ManagedExecution;
  mu_binding : ManagedBinding;
  mu_claim : N;
  mu_editing : list ManagedName;
  mu_entry_committed : bool;
  mu_execution_terminal : bool;
  mu_phase : ManagedUsePhase;
  mu_parent : option string
}.
#[global] Instance eta_ManagedUse : Settable ManagedUse := λ u,
  mkUse (mu_id u) (mu_execution u) (mu_binding u) (mu_claim u) (mu_editing u)
    (mu_entry_committed u) (mu_execution_terminal u) (mu_phase u) (mu_parent u).
#[global] Instance ManagedExecution_eq_dec : EqDecision ManagedExecution.
Proof. solve_decision. Defined.
#[global] Instance QuiescenceEvidence_eq_dec : EqDecision QuiescenceEvidence.
Proof. solve_decision. Defined.
#[global] Instance ManagedUsePhase_eq_dec : EqDecision ManagedUsePhase.
Proof. solve_decision. Defined.
#[global] Instance ManagedUse_eq_dec : EqDecision ManagedUse.
Proof. solve_decision. Defined.

Definition is_reserved (p : ManagedUsePhase) : bool := match p with Reserved => true | _ => false end.
Definition is_fencing (p : ManagedUsePhase) : bool := match p with Fencing _ => true | _ => false end.
Definition is_quiescent (p : ManagedUsePhase) : bool := match p with Quiescent _ => true | _ => false end.
Definition valid_use_id (value : string) : bool :=
  (strlen value =? 64)%N && is_canonical_blake3_digest ("b3_" +:+ value).

Section uses.
Context `{!Blake3}.
Definition managed_use_id (invocation : InvocationId) : string :=
  blake3_hex ("milkdrift.managed-use.v1:" +:+ invocation).
Definition use_id (e : ManagedExecution) : string := managed_use_id (execution_invocation e).
Definition ManagedUse_validate (self : ManagedUse) : result PersistenceError () :=
  let invalid := PeInvalidDocument "invalid managed use" in
  map_err (λ _, invalid) (ManagedBinding_validate (mu_binding self)) ;;
  refuse_if (bool_decide (mu_id self ≠ use_id (mu_execution self))
             || (mu_claim self =? 0)%N
             || (vlen (bn_resources (mu_binding self)) <? vlen (mu_editing self))%N
             || negb (bool_decide (NoDup (mu_editing self)))
             || existsb (λ name, negb (existsb (λ r, bool_decide (rq_resource r = name) && rq_mutation r)
                                         (bn_resources (mu_binding self)))) (mu_editing self)
             || is_some_and (λ p, bool_decide (p = mu_id self) || negb (valid_use_id p)) (mu_parent self))
    invalid ;;
  evidence ← match mu_phase self with
    | Reserved => Ok None
    | Entered physical_identity | Fencing physical_identity =>
        refuse_if (is_empty physical_identity || (4096 <? strlen physical_identity)%N) invalid ;; Ok None
    | Quiescent evidence => Ok (Some evidence)
    | Suspended child evidence =>
        refuse_if (negb (valid_use_id child) || bool_decide (child = mu_id self)) invalid ;;
        Ok (Some evidence)
    end;
  match evidence with
  | Some (PhysicalStop physical_identity observation_digest _) =>
      refuse_if (is_empty physical_identity || (4096 <? strlen physical_identity)%N
                 || negb (is_canonical_blake3_digest observation_digest)) invalid
  | None => Ok tt
  end.
Definition ManagedUse_view (self : ManagedUse) : ManagedBlocker :=
  mkBlocker (mu_id self)
    match mu_execution self with
    | ExecutionTask workflow task _ _ => "workflow:" +:+ workflow +:+ "/task:" +:+ task
    | ExecutionServing execution _ => "serving:" +:+ execution
    end
    (bn_generation (mu_binding self)) (mu_claim self) (mu_editing self)
    match mu_phase self with
    | Reserved => "reserved"
    | Entered _ => "entered"
    | Fencing _ => "fencing"
    | Quiescent _ => "quiescent"
    | Suspended _ _ => "suspended"
    end.
End uses.

(** ** Inventory ([crates/persistence/src/managed/state.rs]) *)

Record ProtectedDeployment := mkProtected {
  pd_agreement : string;
  pd_policy : ProtectedEffectPolicy;
  pd_evidence : option CandidateEvaluation
}.
Record ApprovedSetup := mkSetup {
  su_protection : option ProtectedDeployment;
  su_recipe : RecipeReference;
  su_mechanism : string;
  su_configuration : Value;
  su_platform_owner : string;
  su_ownership : string;
  su_resources : list ManagedResourceView;
  su_capabilities : list CapabilityDescriptor
}.
Inductive ManagedStep :=
| StepPrerequisites | StepPrepareStorage | StepStopService | StepConfigure | StepStartService
| StepVerify | StepRemoveConfiguration | StepRemoveStorage.
Record ManagedObservation := mkObservation {
  mo_digest : string;
  mo_summary : string;
  mo_running : bool
}.
Record ManagedChange := mkChange {
  mc_entry_authorization : option AuthorityDecisionSnapshot;
  mc_identity : string;
  mc_candidate : ApprovedSetup;
  mc_generation : N;
  mc_steps : list ManagedStep;
  mc_removing : bool;
  mc_running : bool
}.
Inductive ManagedChangePhase := ChangePending | ChangeUncertain (diagnostic : string) | ChangeComplete.
Record ManagedTransition := mkTransition {
  tx_change : ManagedChange;
  tx_next_step : N;
  tx_evidence : list ManagedObservation;
  tx_phase : ManagedChangePhase
}.
#[global] Instance eta_ManagedTransition : Settable ManagedTransition := λ t,
  mkTransition (tx_change t) (tx_next_step t) (tx_evidence t) (tx_phase t).
Record InstallationRecord := mkInstallation {
  in_schema_version : N;
  in_name : ManagedName;
  in_version : N;
  in_generation : N;
  in_current : option ApprovedSetup;
  in_pending : option ManagedTransition;
  in_desired_running : bool;
  in_observation : option ManagedObservation;
  in_admission_open : bool;
  in_removed : bool;
  in_uses : list ManagedUse
}.
#[global] Instance eta_InstallationRecord : Settable InstallationRecord := λ r,
  mkInstallation (in_schema_version r) (in_name r) (in_version r) (in_generation r) (in_current r)
    (in_pending r) (in_desired_running r) (in_observation r) (in_admission_open r) (in_removed r)
    (in_uses r).
Record ResourceReceipt := mkResourceReceipt {
  rt_schema_version : N;
  rt_request : ManagedRequest;
  rt_authorization : AuthorityDecisionSnapshot;
  rt_response : ManagedResponse
}.
#[global] Instance ProtectedDeployment_eq_dec : EqDecision ProtectedDeployment.
Proof. solve_decision. Defined.
#[global] Instance ApprovedSetup_eq_dec : EqDecision ApprovedSetup.
Proof. solve_decision. Defined.
#[global] Instance ManagedStep_eq_dec : EqDecision ManagedStep.
Proof. solve_decision. Defined.
#[global] Instance ManagedObservation_eq_dec : EqDecision ManagedObservation.
Proof. solve_decision. Defined.
#[global] Instance ManagedChange_eq_dec : EqDecision ManagedChange.
Proof. solve_decision. Defined.
#[global] Instance ManagedChangePhase_eq_dec : EqDecision ManagedChangePhase.
Proof. solve_decision. Defined.
#[global] Instance ManagedTransition_eq_dec : EqDecision ManagedTransition.
Proof. solve_decision. Defined.
#[global] Instance InstallationRecord_eq_dec : EqDecision InstallationRecord.
Proof. solve_decision. Defined.
#[global] Instance ManagedBlocker_eq_dec : EqDecision ManagedBlocker.
Proof. solve_decision. Defined.
#[global] Instance ManagedResponse_eq_dec : EqDecision ManagedResponse.
Proof. solve_decision. Defined.
#[global] Instance ResourceReceipt_eq_dec : EqDecision ResourceReceipt.
Proof. solve_decision. Defined.

Section inventory.
Context `{!Blake3, !Serialize ProtectedEffectPolicy, !Serialize Value, !Display AuthorityError}.

Definition ProtectedDeployment_validate (self : ProtectedDeployment) : result PersistenceError () :=
  map_err (λ e, PeInvalidDocument (to_text e)) (ProtectedEffectPolicy_validate (pd_policy self)) ;;
  refuse_if (negb (is_canonical_blake3_digest (pd_agreement self)))
    (PeInvalidDocument "invalid protected agreement") ;;
  match pd_evidence self with
  | Some e =>
      map_err (λ e, PeInvalidDocument (to_text e)) (CandidateEvaluation_validate e) ;;
      let differs := PeInvalidDocument "protected evidence binding differs" in
      refuse_if (bool_decide (cs_agreement (ce_subject e) ≠ pd_agreement self)) differs ;;
      digest ← map_err (λ e, PeInvalidDocument (to_text e)) (policy_digest (pd_policy self));
      refuse_if (bool_decide (cs_policy (ce_subject e) ≠ digest)) differs
  | None => Ok tt
  end.
Definition ApprovedSetup_validate (self : ApprovedSetup) : result PersistenceError () :=
  match su_protection self with Some p => ProtectedDeployment_validate p | None => Ok tt end ;;
  refuse_if (bool_decide (su_resources self = [])
             || (MAX_MANAGED_RESOURCES <? vlen (su_resources self))%N
             || (8 <? vlen (su_capabilities self))%N
             || (64 <? strlen (su_mechanism self))%N
             || is_empty (su_mechanism self)
             || (256 <? strlen (su_platform_owner self))%N
             || is_empty (su_platform_owner self)
             || negb (is_canonical_blake3_digest (su_ownership self))
             || negb (is_canonical_blake3_digest (rr_digest (su_recipe self)))
             || existsb (λ r, is_empty (rv_identity r) || (4096 <? strlen (rv_identity r))%N)
                  (su_resources self)
             || negb (bool_decide (NoDup (rv_name <$> su_resources self))))
    (PeInvalidDocument "invalid approved managed setup").
Definition ManagedObservation_validate (self : ManagedObservation) : result PersistenceError () :=
  refuse_if (negb (is_canonical_blake3_digest (mo_digest self)) || (512 <? strlen (mo_summary self))%N)
    (PeInvalidDocument "invalid managed observation").
Definition InstallationRecord_validate (self : InstallationRecord) : result PersistenceError () :=
  refuse_if (negb (in_schema_version self =? MANAGED_SCHEMA_VERSION)%N
             || (in_version self =? 0)%N
             || (MAX_MANAGED_USES <? vlen (in_uses self))%N
             || (in_admission_open self
                 && (in_removed self || is_some (in_pending self) || negb (is_some (in_current self)))))
    (PeInvalidDocument "invalid managed inventory") ;;
  match in_current self with Some current => ApprovedSetup_validate current | None => Ok tt end ;;
  for_each (λ usage,
    ManagedUse_validate usage ;;
    refuse_if (bool_decide (bn_installation (mu_binding usage) ≠ in_name self)
               || negb (bn_generation (mu_binding usage) =? in_generation self)%N)
      (PeInvalidDocument "use names a different installation generation")) (in_uses self) ;;
  refuse_if (negb (bool_decide (NoDup (mu_id <$> in_uses self))))
    (PeInvalidDocument "duplicated managed use") ;;
  match in_observation self with Some o => ManagedObservation_validate o | None => Ok tt end ;;
  match in_pending self with
  | Some pending =>
      ApprovedSetup_validate (mc_candidate (tx_change pending)) ;;
      for_each ManagedObservation_validate (tx_evidence pending) ;;
      refuse_if (bool_decide (mc_steps (tx_change pending) = [])
                 || negb (is_canonical_blake3_digest (mc_identity (tx_change pending)))
                 || (mc_generation (tx_change pending) =? 0)%N
                 || match tx_phase pending with
                    | ChangeUncertain diagnostic => (512 <? strlen diagnostic)%N
                    | _ => false
                    end
                 || (16 <? vlen (mc_steps (tx_change pending)))%N
                 || negb (tx_next_step pending =? vlen (tx_evidence pending))%N
                 || (vlen (mc_steps (tx_change pending)) <? tx_next_step pending)%N)
        (PeInvalidDocument "invalid managed transition")
  | None => Ok tt
  end.

Definition InstallationRecord_view (self : InstallationRecord) : ManagedResponse :=
  let setup := match in_current self with
    | Some s => Some s
    | None => (λ p, mc_candidate (tx_change p)) <$> in_pending self
    end in
  mkManagedResponse
    (s ← in_current self; p ← su_protection s; e ← pd_evidence p; Some (ce_identity e))
    None MANAGED_SCHEMA_VERSION (in_name self) (in_version self) (in_generation self)
    (if in_removed self then "removed" else if is_some (in_pending self) then "pending"
     else if is_some_and mo_running (in_observation self) then "running" else "stopped")
    (Some (in_desired_running self)) (mo_running <$> in_observation self)
    (su_recipe <$> setup) (default [] (su_resources <$> setup)) (ManagedUse_view <$> in_uses self)
    ((λ p, mc_identity (tx_change p)) <$> in_pending self)
    (if in_admission_open self
     then default [] ((λ s, cd_identity <$> su_capabilities s) <$> in_current self) else [])
    match (p ← in_pending self;
           match tx_phase p with ChangeUncertain diagnostic => Some [diagnostic] | _ => None end) with
    | Some diagnostics => diagnostics
    | None => default [] ((λ o, [mo_summary o]) <$> in_observation self)
    end.
End inventory.
