(* ===== verification/PeerProtocol.v ===== *)
(** * Peer protocol documents ([crates/peer-protocol])

    The identities, session negotiation, catalogs, serving requests, observation
    pages, cancellations and transfer offers two installations exchange, with the
    checks each document passes before it is used. *)
From S2P Require Import Prelude Effects Contracts Capability Blueprint Authority.
From S2P Require Import Workspace Managed.

(** ** Errors ([lib.rs]) *)

Inductive PeerProtocolError :=
| PpInvalidIdentity (kind reason : string)
| PpInvalidContract (message : string)
| PpBounds (location reason : string)
| PpIncompatibleVersion
| PpJson (message : string)
| PpDigestMismatch (document : string).
#[global] Instance PeerProtocolError_eq_dec : EqDecision PeerProtocolError.
Proof. solve_decision. Defined.
#[global] Instance display_peer_protocol : Display PeerProtocolError := λ e,
  match e with
  | PpInvalidIdentity kind reason => "invalid " +:+ kind +:+ ": " +:+ reason
  | PpInvalidContract message => "invalid peer protocol contract: " +:+ message
  | PpBounds location reason => "peer protocol bound exceeded at " +:+ location +:+ ": " +:+ reason
  | PpIncompatibleVersion => "incompatible peer protocol version"
  | PpJson message => "invalid peer protocol JSON: " +:+ message
  | PpDigestMismatch document => "peer protocol digest mismatch for " +:+ document
  end.

(** ** Identities ([identity.rs]) *)

Abbreviation PeerRequestId := string (only parsing).
Abbreviation DelegationRef := string (only parsing).
Abbreviation CatalogDigest := string (only parsing).
Abbreviation SessionId := string (only parsing).
Abbreviation TransferId := string (only parsing).

Definition peer_identity_byte (b : N) : bool :=
  is_ascii_alphanumeric b || (b =? 45)%N || (b =? 95)%N || (b =? 46)%N || (b =? 58)%N || (b =? 47)%N.
Definition validate_peer_identity (value kind : string) (maximum : N)
    : result PeerProtocolError () :=
  refuse_if (is_empty value || (maximum <? strlen value)%N)
    (PpInvalidIdentity kind ("length must be between 1 and " +:+ show_N maximum +:+ " bytes")) ;;
  refuse_if (negb (is_ascii value) || negb (first_alphanumeric value)
             || negb (forallb peer_identity_byte (bytes value)))
    (PpInvalidIdentity kind "must be safe ASCII and start with an alphanumeric character").
Definition PeerExecutionId_new (value : string) : result PeerProtocolError PeerExecutionId :=
  validate_peer_identity value "PeerExecutionId" 192 ;; Ok value.
Definition CatalogDigest_new (value : string) : result PeerProtocolError CatalogDigest :=
  validate_peer_identity value "CatalogDigest" 67 ;; Ok value.

(** ** Callers and origins ([caller.rs]) *)

Record PeerExecutionProvenance := mkPeerProvenance {
  xp_run : string;
  xp_revision : string;
  xp_node : string;
  xp_execution : string;
  xp_attempt : string
}.
Definition PeerExecutionProvenance_validate (self : PeerExecutionProvenance)
    : result PeerProtocolError () :=
  refuse_if (existsb (λ value, negb (safe_reference value))
               [xp_run self; xp_revision self; xp_node self; xp_execution self; xp_attempt self])
    (PpInvalidContract "peer execution provenance contains an invalid identity").

Inductive ServingPrincipal := PrincipalClient (actor : ActorRef) | PrincipalPeer (peer : PeerId).
Record ServingCaller := mkCaller { sc_host : PeerId; sc_principal : ServingPrincipal }.
Definition ServingCaller_peer (host peer : PeerId) : ServingCaller :=
  mkCaller host (PrincipalPeer peer).
Definition storage_key (self : ServingCaller) : string :=
  let '(realm, principal) := match sc_principal self with
    | PrincipalClient actor => ("client", actor)
    | PrincipalPeer peer => ("peer", peer)
    end in
  show_N (strlen (sc_host self)) +:+ ":" +:+ sc_host self +:+ ":" +:+ realm +:+ ":" +:+ principal.
Definition peer_identity (self : ServingCaller) : option PeerId :=
  match sc_principal self with PrincipalPeer peer => Some peer | PrincipalClient _ => None end.

Inductive InvocationOrigin := OriginDirect | OriginWorkflow (provenance : PeerExecutionProvenance).
Definition origin_workflow (self : InvocationOrigin) : option PeerExecutionProvenance :=
  match self with OriginWorkflow provenance => Some provenance | OriginDirect => None end.
#[global] Instance PeerExecutionProvenance_eq_dec : EqDecision PeerExecutionProvenance.
Proof. solve_decision. Defined.
#[global] Instance ServingPrincipal_eq_dec : EqDecision ServingPrincipal.
Proof. solve_decision. Defined.
#[global] Instance ServingCaller_eq_dec : EqDecision ServingCaller.
Proof. solve_decision. Defined.
#[global] Instance InvocationOrigin_eq_dec : EqDecision InvocationOrigin.
Proof. solve_decision. Defined.

(** ** Execution limits ([execution.rs]) *)

Record ExecutionLimits := mkExecutionLimits {
  el_nested_invocations : option InvocationCounts;
  el_artifact_bytes : N;
  el_duration_ms : N;
  el_cost_micros : N;
  el_cost_currency : option string;
  el_input_units : option N;
  el_output_units : option N;
  el_observations : N
}.
#[global] Instance ExecutionLimits_eq_dec : EqDecision ExecutionLimits.
Proof. solve_decision. Defined.
(** [requested.is_none_or(|v| maximum.is_some_and(|m| v <= m))] *)
Definition unit_within (requested maximum : option N) : bool :=
  is_none_or (λ value, is_some_and (λ maximum, value <=? maximum)%N maximum) requested.
Definition counts_within (requested maximum : option InvocationCounts) : bool :=
  is_none_or (λ counts, is_some_and (λ maximum, InvocationCounts_contains maximum counts) maximum) requested.

Definition ExecutionLimits_contains (self requested : ExecutionLimits) : bool :=
  counts_within (el_nested_invocations requested) (el_nested_invocations self)
  && (el_artifact_bytes requested <=? el_artifact_bytes self)%N
  && (el_duration_ms requested <=? el_duration_ms self)%N
  && (el_cost_micros requested <=? el_cost_micros self)%N
  && (negb (is_some (el_cost_currency requested))
      || bool_decide (el_cost_currency requested = el_cost_currency self))
  && unit_within (el_input_units requested) (el_input_units self)
  && unit_within (el_output_units requested) (el_output_units self)
  && (el_observations requested <=? el_observations self)%N.
Definition permits_usage (self : ExecutionLimits) (usage : UsageObservation) : bool :=
  is_none_or (λ value, value <=? el_duration_ms self)%N (us_duration_ms usage)
  && is_none_or (λ value, (value <=? el_cost_micros self)%N
       && bool_decide (us_currency usage = el_cost_currency self)) (us_cost_micros usage)
  && unit_within (us_input_units usage) (el_input_units self)
  && unit_within (us_output_units usage) (el_output_units self)
  && is_none_or (λ nested, counts_within (Some (nw_invocations nested)) (el_nested_invocations self)
       && (nw_artifact_bytes nested <=? el_artifact_bytes self)%N) (us_nested_work usage).
Definition permits_units (prepared : InvocationAdmissionEnvelope) (bound : AdmissionBound N)
    (maximum : option N) : bool :=
  match bound with
  | NotApplicable => true
  | Bounded value =>
      bool_decide (en_unit prepared = ModelTokens) && is_some_and (λ maximum, value <=? maximum)%N maximum
  | BoundUnknown => false
  end.
Definition permits_prepared (self : ExecutionLimits) (prepared : InvocationAdmissionEnvelope)
    (input_artifact_bytes : N) : bool :=
  let output_bytes := match en_artifact_bytes prepared with
    | NotApplicable => Some 0%N
    | Bounded value => Some value
    | BoundUnknown => None
    end in
  counts_within (en_nested_invocations prepared) (el_nested_invocations self)
  && permits_units prepared (en_input_units prepared) (el_input_units self)
  && permits_units prepared (en_output_units prepared) (el_output_units self)
  && match en_execution_duration_ms prepared with
     | NotApplicable => true
     | Bounded value => (0 <? value)%N && (value <=? el_duration_ms self)%N
     | BoundUnknown => false
     end
  && is_some_and (λ value, value <=? el_artifact_bytes self)%N
       (output_bytes ≫= λ value, checked_add value input_artifact_bytes)
  && match en_monetary_cost prepared with
     | NotApplicable => true
     | Bounded value =>
         bool_decide (el_cost_currency self = Some (mb_currency value))
         && (maximum_micros value <=? el_cost_micros self)%N
     | BoundUnknown => false
     end.

Section limits.
Context `{!Display ContractError}.
Definition peer_contract {A} (r : result ContractError A) : result PeerProtocolError A :=
  map_err (λ error, PpInvalidContract (to_text error)) r.
Definition ExecutionLimits_validate (self : ExecutionLimits) : result PeerProtocolError () :=
  refuse_if ((el_duration_ms self =? 0)%N || (el_observations self =? 0)%N
             || (1000000 <? el_observations self)%N)
    (PpInvalidContract "execution duration and observation limits must be bounded and nonzero") ;;
  match el_cost_currency self with
  | Some currency => peer_contract (AdmissionMonetaryBound_new (el_cost_micros self) currency) ;; Ok tt
  | None =>
      refuse_if (negb (el_cost_micros self =? 0)%N)
        (PpInvalidContract "a monetary allowance requires its exact currency")
  end.
Definition admission_envelope (self : ExecutionLimits)
    : result PeerProtocolError InvocationAdmissionEnvelope :=
  ExecutionLimits_validate self ;;
  let units (value : option N) := match value with Some v => Bounded v | None => NotApplicable end in
  cost ← match el_cost_currency self with
    | None => Ok NotApplicable
    | Some currency => Bounded <$> peer_contract (AdmissionMonetaryBound_new (el_cost_micros self) currency)
    end;
  Ok (mkEnvelope (el_nested_invocations self) ModelTokens (units (el_input_units self))
        (units (el_output_units self)) (Bounded (el_artifact_bytes self)) cost
        (Bounded (el_duration_ms self))).
End limits.

(** ** Authorization of a serving request ([caller.rs], [execution.rs]) *)

Record DelegatedAuthorization := mkDelegation {
  da_reference : DelegationRef;
  da_issuer_peer : PeerId;
  da_actor : ActorRef;
  da_target_peer : PeerId;
  da_capability : CapabilityId;
  da_operation : OperationId;
  da_request : PeerRequestId;
  da_limits : ExecutionLimits;
  da_expires_at_unix_ms : N;
  da_nonce : string;
  da_origin : InvocationOrigin
}.
Record ClientInvocationAuthorization := mkClientAuthorization {
  cia_host : PeerId;
  cia_actor : ActorRef;
  cia_grant : GrantId;
  cia_grant_revision : N;
  cia_grant_digest : string;
  cia_revocation_generation : N
}.
Inductive ServingAuthorization :=
| SaClient (client : ClientInvocationAuthorization)
| SaPeer (delegation : DelegatedAuthorization).
#[global] Instance DelegatedAuthorization_eq_dec : EqDecision DelegatedAuthorization.
Proof. solve_decision. Defined.
#[global] Instance ClientInvocationAuthorization_eq_dec : EqDecision ClientInvocationAuthorization.
Proof. solve_decision. Defined.
#[global] Instance ServingAuthorization_eq_dec : EqDecision ServingAuthorization.
Proof. solve_decision. Defined.

Definition sa_caller (self : ServingAuthorization) : ServingCaller :=
  match self with
  | SaClient client => mkCaller (cia_host client) (PrincipalClient (cia_actor client))
  | SaPeer peer => ServingCaller_peer (da_target_peer peer) (da_issuer_peer peer)
  end.
Definition sa_actor (self : ServingAuthorization) : ActorRef :=
  match self with SaClient client => cia_actor client | SaPeer peer => da_actor peer end.
Definition sa_host (self : ServingAuthorization) : PeerId :=
  match self with SaClient client => cia_host client | SaPeer peer => da_target_peer peer end.
Definition sa_origin (self : ServingAuthorization) : InvocationOrigin :=
  match self with SaClient _ => OriginDirect | SaPeer peer => da_origin peer end.
Definition sa_delegation (self : ServingAuthorization) : option DelegatedAuthorization :=
  match self with SaPeer peer => Some peer | SaClient _ => None end.

Section authorization.
Context `{!Display ContractError}.
Definition DelegatedAuthorization_validate (self : DelegatedAuthorization)
    : result PeerProtocolError () :=
  ExecutionLimits_validate (da_limits self) ;;
  match da_origin self with
  | OriginWorkflow provenance => PeerExecutionProvenance_validate provenance
  | OriginDirect => Ok tt
  end ;;
  refuse_if ((da_expires_at_unix_ms self =? 0)%N || is_empty (da_nonce self)
             || (192 <? strlen (da_nonce self))%N || negb (is_ascii (da_nonce self)))
    (PpInvalidContract "delegation expiry or nonce is invalid").
Definition ServingAuthorization_validate (self : ServingAuthorization)
    : result PeerProtocolError () :=
  match self with
  | SaPeer delegation => DelegatedAuthorization_validate delegation
  | SaClient client =>
      if (0 <? cia_grant_revision client)%N then Ok tt
      else Err (PpInvalidContract "client grant revision must be nonzero")
  end.
End authorization.

(** ** Serving requests ([execution.rs]) *)

Definition INVOCATION_DIGEST_DOMAIN : string := "milkdrift.serving.invocation.v2" +:+ String "000" EmptyString.
Definition PEER_JSON_LIMITS : JsonLimits := mkJsonLimits 32 262144 192 512.
(** [InvocationRequestDocument] ([crates/capability/src/document.rs]) *)
Record InvocationRequestDocument := mkRequestDocument {
  rd_schema_version : N;
  rd_request : InvocationRequest
}.
Record ServingInvocationRequest := mkServingRequest {
  sq_request_id : PeerRequestId;
  sq_catalog_generation : N;
  sq_catalog_digest : CatalogDigest;
  sq_selection : ResolvedCapabilitySnapshot;
  sq_request : InvocationRequest;
  sq_limits : ExecutionLimits;
  sq_deadline_unix_ms : N;
  sq_authorization : ServingAuthorization;
  sq_request_digest : string
}.
#[global] Instance ServingInvocationRequest_eq_dec : EqDecision ServingInvocationRequest.
Proof. solve_decision. Defined.
Record InvocationDigestPayload := mkInvocationDigestPayload {
  ip_schema_version : N;
  ip_request_id : PeerRequestId;
  ip_catalog_generation : N;
  ip_catalog_digest : CatalogDigest;
  ip_selection : ResolvedCapabilitySnapshot;
  ip_request : InvocationRequest;
  ip_limits : ExecutionLimits;
  ip_deadline_unix_ms : N;
  ip_authorization : ServingAuthorization
}.
(** [input.value().artifact()] *)
Definition input_artifact (input : InputReference) : option ArtifactReference :=
  match ir_value input with RefArtifact reference => Some reference | _ => None end.
Definition is_workspace_value (input : InputReference) : bool :=
  match ir_value input with RefWorkspaceValue _ _ => true | _ => false end.
Definition input_artifact_bytes (self : ServingInvocationRequest) : result PeerProtocolError N :=
  try_fold (λ total reference,
    size ← ok_or (ar_size_bytes reference)
      (PpInvalidContract "peer input artifact references require exact byte sizes");
    ok_or (checked_add total size)
      (PpBounds "peer_invocation.input_artifact_bytes" "input artifact byte accounting overflowed"))
    0%N (omap input_artifact (iv_inputs (sq_request self))).

Class ServingCodec := {
  scodec_document :: Serialize InvocationRequestDocument;
  scodec_payload :: Serialize InvocationDigestPayload;
  scodec_canonical :: Debug CanonicalJsonError
}.
Section requests.
Context `{!Blake3, !Serialize Value, !Display ContractError, codec : !ServingCodec}.
(** [compute_request_digest] of the fields of the request *)
Definition compute_request_digest (self : ServingInvocationRequest) : result PeerProtocolError string :=
  bytes ← map_err (λ error, PpJson (debug_text error))
    (canonical_json_bytes (mkInvocationDigestPayload 2 (sq_request_id self) (sq_catalog_generation self)
       (sq_catalog_digest self) (sq_selection self) (sq_request self) (sq_limits self)
       (sq_deadline_unix_ms self) (sq_authorization self)) PEER_JSON_LIMITS);
  Ok ("b3_" +:+ blake3_hex (INVOCATION_DIGEST_DOMAIN +:+ bytes)).
Definition ServingInvocationRequest_validate (self : ServingInvocationRequest)
    : result PeerProtocolError () :=
  ExecutionLimits_validate (sq_limits self) ;;
  ServingAuthorization_validate (sq_authorization self) ;;
  refuse_if (bool_decide (sa_origin (sq_authorization self) = OriginDirect)
             && existsb is_workspace_value (iv_inputs (sq_request self)))
    (PpInvalidContract "direct origin cannot carry workflow-selected inputs") ;;
  peer_contract (document_json_bytes
    (mkRequestDocument INVOCATION_REQUEST_SCHEMA_VERSION_V3 (sq_request self))) ;;
  refuse_if ((sq_catalog_generation self =? 0)%N
             || (sq_deadline_unix_ms self =? 0)%N
             || bool_decide (iv_capability (sq_request self) ≠ rs_capability (sq_selection self))
             || bool_decide (iv_operation (sq_request self) ≠ rs_operation (sq_selection self))
             || bool_decide (iv_provider_profile (sq_request self) ≠ rs_provider_profile (sq_selection self))
             || is_some_and (λ delegation,
                  bool_decide (da_request delegation ≠ sq_request_id self)
                  || bool_decide (da_capability delegation ≠ rs_capability (sq_selection self))
                  || bool_decide (da_operation delegation ≠ rs_operation (sq_selection self))
                  || negb (ExecutionLimits_contains (da_limits delegation) (sq_limits self)))
                  (sa_delegation (sq_authorization self))
             || negb (is_canonical_blake3_digest (sq_catalog_digest self)))
    (PpInvalidContract "peer invocation selection, catalog, request, or authorization mismatch") ;;
  expected ← compute_request_digest self;
  refuse_if (bool_decide (sq_request_digest self ≠ expected)) (PpDigestMismatch "invocation") ;;
  input ← input_artifact_bytes self;
  refuse_if (el_artifact_bytes (sq_limits self) <? input)%N
    (PpBounds "peer_invocation.input_artifact_bytes"
       "exact input artifact bytes exceed the accepted total quota").
Definition ServingInvocationRequest_new (request_id : PeerRequestId) (catalog_generation : N)
    (catalog_digest : CatalogDigest) (selection : ResolvedCapabilitySnapshot)
    (request : InvocationRequest) (limits : ExecutionLimits) (deadline_unix_ms : N)
    (authorization : ServingAuthorization) : result PeerProtocolError ServingInvocationRequest :=
  let facts := mkServingRequest request_id catalog_generation catalog_digest selection request limits
    deadline_unix_ms authorization in
  request_digest ← compute_request_digest (facts EmptyString);
  ServingInvocationRequest_validate (facts request_digest) ;;
  Ok (facts request_digest).
End requests.

(** ** Observations ([execution.rs]) *)

Inductive ObservationCategory :=
| CatProgress | CatStream | CatArtifact | CatTerminal | CatUncertainty.
#[global] Instance ObservationCategory_eq_dec : EqDecision ObservationCategory.
Proof. solve_decision. Defined.
Record PeerObservation := mkPeerObservation {
  ob_execution : PeerExecutionId;
  ob_sequence : N;
  ob_category : ObservationCategory;
  ob_event : InvocationEvent;
  ob_observed_at_unix_ms : N
}.
#[global] Instance PeerObservation_eq_dec : EqDecision PeerObservation.
Proof. solve_decision. Defined.
Definition ob_output (self : PeerObservation) : option (string * ArtifactReference) :=
  event_output (ob_event self).
Definition ob_terminal (self : PeerObservation) : option InvocationTerminal :=
  event_terminal (ob_event self).
Definition category_matches (self : PeerObservation) : bool :=
  match ev_kind (ob_event self) with
  | EvProgress _ _ _ =>
      bool_decide (ob_category self = CatProgress) || bool_decide (ob_category self = CatStream)
  | EvOutput _ _ => bool_decide (ob_category self = CatArtifact)
  | EvTerminal terminal =>
      if bool_decide (it_status terminal = TsUncertain) then bool_decide (ob_category self = CatUncertainty)
      else bool_decide (ob_category self = CatTerminal)
  end.
Definition PeerObservation_validate (self : PeerObservation) : result PeerProtocolError () :=
  refuse_if ((ob_sequence self =? 0)%N
             || negb (ev_sequence (ob_event self) =? ob_sequence self)%N
             || (ob_observed_at_unix_ms self =? 0)%N
             || negb (category_matches self))
    (PpInvalidContract "observation sequence or category does not match its event").

Inductive RemoteExecutionStatus := RxAccepted | RxRunning | RxTerminal | RxOutcomeUnknown.
#[global] Instance RemoteExecutionStatus_eq_dec : EqDecision RemoteExecutionStatus.
Proof. solve_decision. Defined.
Record ArchivedExecutionSummary := mkArchivedSummary {
  as_output_observations : list PeerObservation;
  as_status : RemoteExecutionStatus;
  as_last_sequence : N;
  as_observation_digest : string;
  as_archived_at_unix_ms : N;
  as_final_observation : option PeerObservation;
  as_uncertainty_reason : option string
}.
(** The loop over archived outputs: each valid, of this execution, in increasing order up
    to [last] and carrying an output. *)
Definition archived_outputs {E} (validation : PeerProtocolError → E) (mismatch : E)
    (execution : PeerExecutionId) (last : N) (outputs : list PeerObservation) : result E () :=
  try_fold (λ prior output,
    map_err validation (PeerObservation_validate output) ;;
    refuse_if (bool_decide (ob_execution output ≠ execution)
               || (ob_sequence output <=? prior)%N
               || (last <? ob_sequence output)%N
               || negb (is_some (ob_output output))) mismatch ;;
    Ok (ob_sequence output)) 0%N outputs ;; Ok tt.
Definition ArchivedExecutionSummary_validate (self : ArchivedExecutionSummary)
    (execution : PeerExecutionId) : result PeerProtocolError () :=
  refuse_if ((as_archived_at_unix_ms self =? 0)%N
             || negb (is_canonical_blake3_digest (as_observation_digest self))
             || is_some_and (λ reason, is_empty reason || (2048 <? strlen reason)%N)
                  (as_uncertainty_reason self))
    (PpInvalidContract "archived execution summary has invalid bounds or digest") ;;
  refuse_if (256 <? vlen (as_output_observations self))%N
    (PpInvalidContract "archived output count exceeds 256") ;;
  archived_outputs id (PpInvalidContract "archived output identity or order is invalid")
    execution (as_last_sequence self) (as_output_observations self) ;;
  let inconsistent := Err (PpInvalidContract "archived execution disposition is inconsistent") in
  match as_status self, as_final_observation self, as_uncertainty_reason self with
  | RxTerminal, Some observation, None =>
      if bool_decide (ob_execution observation = execution)
         && (ob_sequence observation =? as_last_sequence self)%N
         && is_some (ob_terminal observation)
      then PeerObservation_validate observation else inconsistent
  | RxOutcomeUnknown, None, Some _ => Ok tt
  | _, _, _ => inconsistent
  end.

Inductive ObservationHistory := HistoryHot | HistoryArchived (summary : ArchivedExecutionSummary).
Record ObservationPage := mkObservationPage {
  pg_status : RemoteExecutionStatus;
  pg_execution : PeerExecutionId;
  pg_after_sequence : N;
  pg_observations : list PeerObservation;
  pg_next_sequence : N;
  pg_terminal : bool;
  pg_closed : bool;
  pg_history : ObservationHistory
}.
Definition MAX_OBSERVATIONS_PER_PAGE : N := 256.
Definition ObservationPage_validate (self : ObservationPage) (maximum_items : N)
    : result PeerProtocolError () :=
  refuse_if (N.min maximum_items MAX_OBSERVATIONS_PER_PAGE <? vlen (pg_observations self))%N
    (PpBounds "observations" "observation page exceeds bounds") ;;
  match pg_history self with
  | HistoryHot =>
      refuse_if (pg_closed self && negb (pg_terminal self)
                 && bool_decide (pg_status self ≠ RxOutcomeUnknown))
        (PpInvalidContract
           "hot observation history closes only with terminal evidence or durable uncertainty")
  | HistoryArchived summary =>
      ArchivedExecutionSummary_validate summary (pg_execution self) ;;
      refuse_if (negb (vlen (pg_observations self) =? 0)%N
                 || bool_decide (pg_status self ≠ as_status summary)
                 || negb (pg_closed self)
                 || (as_last_sequence summary <? pg_after_sequence self)%N
                 || negb (Bool.eqb (pg_terminal self) (bool_decide (as_status summary = RxTerminal))))
        (PpInvalidContract "archived observation page does not match its compacted summary")
  end ;;
  refuse_if (pg_terminal self && (negb (pg_closed self) || bool_decide (pg_status self ≠ RxTerminal)))
    (PpInvalidContract "terminal observation page contradicts its durable status") ;;
  try_fold (λ previous observation,
    PeerObservation_validate observation ;;
    refuse_if (bool_decide (ob_execution observation ≠ pg_execution self)
               || bool_decide (checked_add previous 1 ≠ Some (ob_sequence observation)))
      (PpInvalidContract "observation page is not contiguous for one execution") ;;
    Ok (ob_sequence observation)) (pg_after_sequence self) (pg_observations self) ;;
  let expected_next := default (pg_after_sequence self) (ob_sequence <$> last (pg_observations self)) in
  refuse_if (negb (pg_next_sequence self =? expected_next)%N)
    (PpInvalidContract "observation resume cursor does not match page contents").

(** ** Acceptance, lookup and cancellation replies ([execution.rs]) *)

Inductive InvocationAcceptance :=
| AcceptanceAccepted (request_id : PeerRequestId) (execution : PeerExecutionId)
    (request_digest : string) (accepted_at_unix_ms lease_expires_at_unix_ms : N) (replayed : bool)
| AcceptanceArchived (request_id : PeerRequestId) (execution : PeerExecutionId)
    (request_digest : string) (accepted_at_unix_ms : N) (summary : ArchivedExecutionSummary)
| AcceptanceRejected (request_id : PeerRequestId) (code detail : string) (retryable : bool)
    (known_execution : option PeerExecutionId).
Definition InvocationAcceptance_validate_for (self : InvocationAcceptance)
    (request : ServingInvocationRequest) : result PeerProtocolError () :=
  let valid := match self with
    | AcceptanceAccepted request_id _ request_digest accepted_at lease_expires_at _ =>
        bool_decide (request_id = sq_request_id request)
        && bool_decide (request_digest = sq_request_digest request)
        && (0 <? accepted_at)%N && (accepted_at <=? lease_expires_at)%N
    | AcceptanceArchived request_id execution request_digest accepted_at summary =>
        bool_decide (request_id = sq_request_id request)
        && bool_decide (request_digest = sq_request_digest request)
        && (0 <? accepted_at)%N && is_ok (ArchivedExecutionSummary_validate summary execution)
    | AcceptanceRejected request_id code detail _ _ =>
        bool_decide (request_id = sq_request_id request)
        && negb (is_empty code) && (strlen code <=? 192)%N && is_ascii code
        && (strlen detail <=? 2048)%N
    end in
  if valid then Ok tt
  else Err (PpInvalidContract "invocation acceptance is not bound to the submitted request").

Inductive InvocationLookup :=
| LookupNotAccepted (request_id : PeerRequestId)
| LookupKnown (request_id : PeerRequestId) (execution : PeerExecutionId) (request_digest : string)
    (accepted_at_unix_ms : N) (status : RemoteExecutionStatus) (last_sequence : N)
    (history : ObservationHistory)
| LookupUnknown (request_id : PeerRequestId) (reason : string).
Definition InvocationLookup_validate_for (self : InvocationLookup) (request : PeerRequestId)
    : result PeerProtocolError () :=
  let valid := match self with
    | LookupNotAccepted request_id => bool_decide (request_id = request)
    | LookupKnown request_id execution request_digest accepted_at status last_sequence history =>
        bool_decide (request_id = request) && (0 <? accepted_at)%N
        && is_canonical_blake3_digest request_digest
        && match history with
           | HistoryHot => true
           | HistoryArchived summary =>
               is_ok (ArchivedExecutionSummary_validate summary execution)
               && bool_decide (as_status summary = status)
               && (as_last_sequence summary =? last_sequence)%N
           end
    | LookupUnknown request_id reason =>
        bool_decide (request_id = request) && negb (is_empty reason) && (strlen reason <=? 2048)%N
    end in
  if valid then Ok tt
  else Err (PpInvalidContract "invocation lookup is invalid or not bound to the queried request").

Record PeerCancellationRequest := mkPeerCancellation {
  xc_request_id : PeerRequestId;
  xc_execution : PeerExecutionId;
  xc_sequence : N;
  xc_reason : string
}.
Inductive CancellationDisposition := CdAccepted | CdRejected | CdUnsupported | CdTooLate | CdUnknown.
Record PeerCancellationAcknowledgement := mkPeerAcknowledgement {
  xa_request_id : PeerRequestId;
  xa_execution : PeerExecutionId;
  xa_disposition : CancellationDisposition;
  xa_terminal_boundary : bool;
  xa_terminal_evidence : option PeerObservation;
  xa_detail : option string
}.
#[global] Instance PeerCancellationRequest_eq_dec : EqDecision PeerCancellationRequest.
Proof. solve_decision. Defined.
#[global] Instance CancellationDisposition_eq_dec : EqDecision CancellationDisposition.
Proof. solve_decision. Defined.
#[global] Instance PeerCancellationAcknowledgement_eq_dec : EqDecision PeerCancellationAcknowledgement.
Proof. solve_decision. Defined.
Definition PeerCancellationAcknowledgement_validate (self : PeerCancellationAcknowledgement)
    : result PeerProtocolError () :=
  refuse_if (is_some_and (λ value, 512 <? strlen value)%N (xa_detail self)
             || (xa_terminal_boundary self
                 && match xa_disposition self with
                    | CdRejected | CdUnsupported | CdUnknown => true
                    | CdAccepted | CdTooLate => false
                    end)
             || is_some_and (λ item, bool_decide (ob_execution item ≠ xa_execution self)
                  || negb (is_ok (PeerObservation_validate item))) (xa_terminal_evidence self))
    (PpInvalidContract "invalid cancellation acknowledgement semantics").
Definition PeerCancellationAcknowledgement_validate_for (self : PeerCancellationAcknowledgement)
    (request : PeerCancellationRequest) : result PeerProtocolError () :=
  PeerCancellationAcknowledgement_validate self ;;
  refuse_if (bool_decide (xa_request_id self ≠ xc_request_id request)
             || bool_decide (xa_execution self ≠ xc_execution request))
    (PpInvalidContract "cancellation acknowledgement targets a different request or execution").

(** ** Sessions ([session.rs]) *)

Definition PROTOCOL_MAJOR_V1 : N := 1.
Definition PROTOCOL_MINOR_V1 : N := 6.
Record ProtocolVersion := mkVersion { vn_major : N; vn_minor : N }.
#[global] Instance ProtocolVersion_eq_dec : EqDecision ProtocolVersion.
Proof. solve_decision. Defined.
Definition V1_6 : ProtocolVersion := mkVersion PROTOCOL_MAJOR_V1 PROTOCOL_MINOR_V1.
(** The derived order: by major, then by minor. *)
Definition version_leb (a b : ProtocolVersion) : bool :=
  (vn_major a <? vn_major b)%N || ((vn_major a =? vn_major b)%N && (vn_minor a <=? vn_minor b)%N).
Definition version_max (a b : ProtocolVersion) : ProtocolVersion := if version_leb a b then b else a.
Definition version_min (a b : ProtocolVersion) : ProtocolVersion := if version_leb a b then a else b.
Record ProtocolVersionRange := mkVersionRange {
  vg_minimum : ProtocolVersion;
  vg_maximum : ProtocolVersion
}.
Definition ProtocolVersionRange_new (minimum maximum : ProtocolVersion)
    : result PeerProtocolError ProtocolVersionRange :=
  refuse_if ((vn_major minimum =? 0)%N
             || negb (vn_major minimum =? vn_major maximum)%N
             || negb (version_leb minimum maximum))
    (PpInvalidContract "a protocol range must be ordered within one nonzero major version") ;;
  Ok (mkVersionRange minimum maximum).
Definition negotiate (self remote : ProtocolVersionRange) : result PeerProtocolError ProtocolVersion :=
  refuse_if (negb (vn_major (vg_minimum self) =? vn_major (vg_minimum remote))%N
             || negb (vn_major (vg_minimum self) =? PROTOCOL_MAJOR_V1)%N)
    PpIncompatibleVersion ;;
  let minimum := version_max (vg_minimum self) (vg_minimum remote) in
  let maximum := version_min (vg_maximum self) (vg_maximum remote) in
  if version_leb minimum maximum then Ok maximum else Err PpIncompatibleVersion.

Definition MAX_PEER_DOCUMENT_BYTES : N := 1048576.
Definition MAX_CONTAINER_ITEMS : N := 512.
Definition MAX_ARTIFACT_CHUNK_BYTES : N := 1048576.
Record HardLimits := mkHardLimits {
  hl_document_bytes : N;
  hl_observation_items : N;
  hl_artifact_chunk_bytes : N;
  hl_connections : N;
  hl_executions : N
}.
Definition HardLimits_validate (self : HardLimits) : result PeerProtocolError HardLimits :=
  refuse_if ((hl_document_bytes self =? 0)%N
             || (MAX_PEER_DOCUMENT_BYTES <? hl_document_bytes self)%N
             || (hl_observation_items self =? 0)%N
             || (MAX_CONTAINER_ITEMS <? hl_observation_items self)%N
             || (hl_artifact_chunk_bytes self =? 0)%N
             || (MAX_ARTIFACT_CHUNK_BYTES <? hl_artifact_chunk_bytes self)%N
             || (hl_connections self =? 0)%N
             || (hl_executions self =? 0)%N)
    (PpBounds "session.hard_limits" "limits must be nonzero and no larger than protocol ceilings") ;;
  Ok self.
Definition intersect (self remote : HardLimits) : HardLimits :=
  mkHardLimits (N.min (hl_document_bytes self) (hl_document_bytes remote))
    (N.min (hl_observation_items self) (hl_observation_items remote))
    (N.min (hl_artifact_chunk_bytes self) (hl_artifact_chunk_bytes remote))
    (N.min (hl_connections self) (hl_connections remote))
    (N.min (hl_executions self) (hl_executions remote)).
Definition HardLimits_default : HardLimits :=
  mkHardLimits MAX_PEER_DOCUMENT_BYTES 256 MAX_ARTIFACT_CHUNK_BYTES 8 32.
Record HeartbeatLease := mkHeartbeat {
  hb_heartbeat_ms : N;
  hb_idle_timeout_ms : N;
  hb_execution_lease_ms : N
}.
Definition HeartbeatLease_validate (self : HeartbeatLease) : result PeerProtocolError HeartbeatLease :=
  refuse_if ((hb_heartbeat_ms self =? 0)%N
             || (60000 <? hb_heartbeat_ms self)%N
             || (hb_idle_timeout_ms self <? N.min (hb_heartbeat_ms self * 2) u64_max)%N
             || (600000 <? hb_idle_timeout_ms self)%N
             || (hb_execution_lease_ms self =? 0)%N
             || (86400000 <? hb_execution_lease_ms self)%N)
    (PpInvalidContract "invalid heartbeat, idle timeout, or execution lease") ;;
  Ok self.

(** ** Catalogs ([catalog.rs]) *)

Definition MAX_CATALOG_ENTRIES : N := 256.
Definition MAX_CATALOG_UPDATES : N := 256.
Definition CATALOG_DIGEST_DOMAIN : string := "milkdrift.peer.catalog.v1" +:+ String "000" EmptyString.
(** [CapabilityObservation] ([crates/capability/src/descriptor.rs]) *)
Record CapabilityObservation := mkCapabilityObservation {
  cb_capability : CapabilityId;
  cb_observed_at_unix_ms : N;
  cb_available : bool;
  cb_current_load : N;
  cb_health_summary : string
}.
Record CatalogEntry := mkCatalogEntry {
  ke_descriptor : CapabilityDescriptor;
  ke_invocable_operations : gset OperationId;
  ke_observation : CapabilityObservation;
  ke_draining : bool
}.
Definition CatalogEntry_validate (self : CatalogEntry) : result PeerProtocolError () :=
  refuse_if (bool_decide (cb_capability (ke_observation self) ≠ cd_identity (ke_descriptor self))
             || (size (ke_invocable_operations self) =? 0)%nat
             || (256 <? N.of_nat (size (ke_invocable_operations self)))%N
             || negb (forallb (λ operation, is_some (cd_operations (ke_descriptor self) !! operation))
                        (members (ke_invocable_operations self))))
    (PpInvalidContract "catalog entry identity, operation, or observation mismatch").
Record CatalogSnapshot := mkCatalogSnapshot {
  ks_generation : N;
  ks_issued_at_unix_ms : N;
  ks_expires_at_unix_ms : N;
  ks_entries : list CatalogEntry;
  ks_digest : CatalogDigest
}.
Record CatalogDigestPayload := mkCatalogDigestPayload {
  kp_schema_version : N;
  kp_generation : N;
  kp_issued_at_unix_ms : N;
  kp_expires_at_unix_ms : N;
  kp_entries : list CatalogEntry
}.
Record CapabilityDescriptorDocument := mkDescriptorDocument {
  kd_schema_version : N;
  kd_descriptor : CapabilityDescriptor
}.
Definition is_live_at (self : CatalogSnapshot) (observed_at_unix_ms : N) : bool :=
  (observed_at_unix_ms <=? ks_expires_at_unix_ms self)%N.
(** [entries.sort_by(..)], stable: by identity, then by descriptor revision. *)
Definition entry_before (a b : CatalogEntry) : bool :=
  let ia := cd_identity (ke_descriptor a) in let ib := cd_identity (ke_descriptor b) in
  bool_decide (ia ≠ ib ∧ String.le ia ib)
  || bool_decide (ia = ib)
     && (cd_descriptor_revision (ke_descriptor a) <? cd_descriptor_revision (ke_descriptor b))%N.
Fixpoint insert_entry (e : CatalogEntry) (sorted : list CatalogEntry) : list CatalogEntry :=
  match sorted with
  | [] => [e]
  | x :: xs => if entry_before e x then e :: sorted else x :: insert_entry e xs
  end.
Definition sort_entries (entries : list CatalogEntry) : list CatalogEntry :=
  foldl (λ sorted e, insert_entry e sorted) [] entries.

Class CatalogCodec := {
  kcodec_descriptor :: Serialize CapabilityDescriptorDocument;
  kcodec_payload :: Serialize CatalogDigestPayload
}.
Section catalogs.
Context `{!Blake3, !Serialize Value, !Display ContractError, !Debug CanonicalJsonError, !CatalogCodec}.
Definition compute_digest (generation issued_at expires_at : N) (entries : list CatalogEntry)
    : result PeerProtocolError CatalogDigest :=
  for_each (λ entry,
    peer_contract (document_json_bytes (mkDescriptorDocument 1 (ke_descriptor entry))) ;; Ok tt) entries ;;
  bytes ← map_err (λ error, PpJson (debug_text error))
    (canonical_json_bytes (mkCatalogDigestPayload 1 generation issued_at expires_at entries)
       PEER_JSON_LIMITS);
  CatalogDigest_new ("b3_" +:+ blake3_hex (CATALOG_DIGEST_DOMAIN +:+ bytes)).
Definition CatalogSnapshot_validate (self : CatalogSnapshot) : result PeerProtocolError () :=
  refuse_if ((ks_generation self =? 0)%N
             || (ks_expires_at_unix_ms self <=? ks_issued_at_unix_ms self)%N
             || (MAX_CATALOG_ENTRIES <? vlen (ks_entries self))%N)
    (PpBounds "catalog" "generation, expiry, or entry count is invalid") ;;
  try_fold (λ (keys : gset (CapabilityId * N)) entry,
    CatalogEntry_validate entry ;;
    let key := (cd_identity (ke_descriptor entry), cd_descriptor_revision (ke_descriptor entry)) in
    refuse_if (bool_decide (key ∈ keys))
      (PpInvalidContract "catalog contains a duplicate descriptor generation") ;;
    Ok ({[key]} ∪ keys)) ∅ (ks_entries self) ;;
  refuse_if (negb (is_canonical_blake3_digest (ks_digest self))) (PpDigestMismatch "catalog") ;;
  digest ← compute_digest (ks_generation self) (ks_issued_at_unix_ms self) (ks_expires_at_unix_ms self)
    (ks_entries self);
  refuse_if (bool_decide (ks_digest self ≠ digest)) (PpDigestMismatch "catalog").
Definition CatalogSnapshot_new (generation issued_at expires_at : N) (entries : list CatalogEntry)
    : result PeerProtocolError CatalogSnapshot :=
  let entries := sort_entries entries in
  digest ← compute_digest generation issued_at expires_at entries;
  let snapshot := mkCatalogSnapshot generation issued_at expires_at entries digest in
  CatalogSnapshot_validate snapshot ;; Ok snapshot.
End catalogs.

Inductive CatalogUpdateKind :=
| CatalogUpsert (entry : CatalogEntry)
| CatalogDrain (capability : CapabilityId) (descriptor_revision : N)
| CatalogRemove (capability : CapabilityId) (descriptor_revision : N).
Record CatalogUpdate := mkCatalogUpdate {
  ku_prior_generation : N;
  ku_generation : N;
  ku_digest : CatalogDigest;
  ku_expires_at_unix_ms : N;
  ku_updates : list CatalogUpdateKind
}.
Definition CatalogUpdate_validate (self : CatalogUpdate) : result PeerProtocolError () :=
  refuse_if ((ku_prior_generation self =? 0)%N
             || (ku_generation self <=? ku_prior_generation self)%N
             || (vlen (ku_updates self) =? 0)%N
             || (MAX_CATALOG_UPDATES <? vlen (ku_updates self))%N
             || negb (is_canonical_blake3_digest (ku_digest self)))
    (PpInvalidContract "invalid incremental catalog update") ;;
  for_each (λ update, match update with
    | CatalogUpsert entry => CatalogEntry_validate entry
    | CatalogDrain _ _ | CatalogRemove _ _ => Ok tt
    end) (ku_updates self).

(** ** Envelopes ([document.rs]) *)

Definition MAX_EXTENSION_ITEMS : N := 32.
Record DecodeLimits := mkDecodeLimits {
  dl_bytes : N;
  dl_depth : N;
  dl_items : N;
  dl_string_bytes : N;
  dl_key_bytes : N
}.
Definition DecodeLimits_default : DecodeLimits :=
  mkDecodeLimits MAX_PEER_DOCUMENT_BYTES 32 MAX_CONTAINER_ITEMS 262144 192.
Definition json_limits (limits : DecodeLimits) : JsonLimits :=
  mkJsonLimits (N.min (dl_depth limits) 32) (N.min (dl_string_bytes limits) 262144)
    (N.min (dl_key_bytes limits) 192) (N.min (dl_items limits) MAX_CONTAINER_ITEMS).
Record ProtocolEnvelope (T : Type) := mkProtocolEnvelope {
  ev_protocol : ProtocolVersion;
  ev_message : T;
  ev_extensions : gmap string Value
}.
Arguments mkProtocolEnvelope {T}. Arguments ev_protocol {T}. Arguments ev_message {T}.
Arguments ev_extensions {T}.
Definition ProtocolEnvelope_v1 {T} (message : T) : ProtocolEnvelope T := mkProtocolEnvelope V1_6 message ∅.
Definition extension_key (key : string) : bool :=
  (strlen key <=? 192)%N
  && is_some_and (λ p : string * string,
       contains_any ["."%char] p.1 && negb (is_empty p.1) && negb (is_empty p.2)) (split_once "/" key).
Definition validate_envelope (protocol : ProtocolVersion) (extensions : gmap string Value)
    : result PeerProtocolError () :=
  refuse_if (bool_decide (protocol ≠ V1_6)) PpIncompatibleVersion ;;
  refuse_if ((MAX_EXTENSION_ITEMS <? N.of_nat (size extensions))%N
             || existsb (λ key, negb (extension_key key)) (keys extensions))
    (PpBounds "envelope.extensions" "extensions must be bounded and use a DNS-like namespace").
Definition encode_envelope {T} `{!Serialize (ProtocolEnvelope T), !Serialize Value, !Debug CanonicalJsonError}
    (envelope : ProtocolEnvelope T) : result PeerProtocolError string :=
  validate_envelope (ev_protocol envelope) (ev_extensions envelope) ;;
  bytes ← map_err (λ error, PpJson (debug_text error))
    (canonical_json_bytes envelope (json_limits DecodeLimits_default));
  refuse_if (MAX_PEER_DOCUMENT_BYTES <? strlen bytes)%N
    (PpBounds "envelope" ("document exceeds " +:+ show_N MAX_PEER_DOCUMENT_BYTES +:+ " bytes")) ;;
  Ok bytes.

(** ** Artifact transfers ([artifact.rs]) and direct requests ([direct.rs]) *)

Inductive ArtifactTransferBinding :=
| TransferInput (request : ServingInvocationRequest)
| TransferExecution (execution : PeerExecutionId).
Inductive ArtifactTransferDirection := TransferUpload | TransferDownload.
Record ArtifactMetadataOffer := mkMetadataOffer {
  mf_transfer : TransferId;
  mf_direction : ArtifactTransferDirection;
  mf_artifact : ContentReference;
  mf_sensitivity : ArtifactSensitivity;
  mf_retention : ArtifactRetention;
  mf_provenance : ArtifactProvenance;
  mf_source_peer : PeerId;
  mf_binding : ArtifactTransferBinding;
  mf_expires_at_unix_ms : N
}.
Record ArtifactChunk := mkArtifactChunk {
  ch_transfer : TransferId;
  ch_offset : N;
  ch_bytes : string;
  ch_final_chunk : bool
}.
Definition ArtifactChunk_validate (self : ArtifactChunk) (negotiated_maximum : N)
    : result PeerProtocolError () :=
  refuse_if (is_empty (ch_bytes self)
             || (N.min negotiated_maximum MAX_ARTIFACT_CHUNK_BYTES <? strlen (ch_bytes self))%N)
    (PpBounds "artifact.chunk" "chunk is empty or exceeds the negotiated bound").
Record DirectInvocationRequest := mkDirectRequest {
  dq_host : PeerId;
  dq_request_id : PeerRequestId;
  dq_catalog_generation : N;
  dq_catalog_digest : CatalogDigest;
  dq_selection : ResolvedCapabilitySnapshot;
  dq_request : InvocationRequest;
  dq_limits : ExecutionLimits;
  dq_deadline_unix_ms : N
}.
Section transfers.
Context `{!Blake3, !Serialize Value, !Display ContractError, codec : !ServingCodec}.
Definition offers_input (self : ArtifactMetadataOffer) (reference : ArtifactReference) : bool :=
  bool_decide (ar_identity reference = ct_artifact (mf_artifact self))
  && bool_decide (ar_digest reference = ContentDigest_to_hex (ct_digest (mf_artifact self)))
  && bool_decide (ar_size_bytes reference = Some (ct_size_bytes (mf_artifact self)))
  && bool_decide (ar_media_type reference = Some (ct_media_type (mf_artifact self))).
Definition ArtifactMetadataOffer_validate (self : ArtifactMetadataOffer)
    : result PeerProtocolError () :=
  match mf_binding self with
  | TransferInput request =>
      ServingInvocationRequest_validate request ;;
      refuse_if ((sq_deadline_unix_ms request <? mf_expires_at_unix_ms self)%N
                 || negb (existsb (offers_input self)
                            (omap input_artifact (iv_inputs (sq_request request)))))
        (PpInvalidContract "input transfer is outside its exact consuming request")
  | TransferExecution _ => Ok tt
  end ;;
  refuse_if (mf_expires_at_unix_ms self =? 0)%N
    (PpInvalidContract "artifact transfer requires exact size, content type, and expiry").
Definition DirectInvocationRequest_bind (self : DirectInvocationRequest)
    (authority : ClientInvocationAuthorization) : result PeerProtocolError ServingInvocationRequest :=
  refuse_if (bool_decide (dq_host self ≠ cia_host authority))
    (PpInvalidContract "direct request targets another host") ;;
  ServingInvocationRequest_new (dq_request_id self) (dq_catalog_generation self) (dq_catalog_digest self)
    (dq_selection self) (dq_request self) (dq_limits self) (dq_deadline_unix_ms self) (SaClient authority).
End transfers.
