(* ===== verification/Storage.v ===== *)
(** * The storage engine ([adapters/redb-store])

    Typed tables and transactions of the [redb] database as the adapter uses them,
    the checked JSON envelope of every stored document ([json.rs]), the compound
    binary keys ([codec.rs]), the error classification ([error.rs]), the durable
    clock watermark ([clock.rs]) and the count anchors of active indexes
    ([store/capacity.rs]). *)
From S2P Require Import Prelude Effects Contracts Capability Blueprint Authority.
From S2P Require Import Workspace Persistence.

(** ** Errors ([error.rs]) *)

Definition MAX_STORAGE_MESSAGE_BYTES : N := 4096.
Definition storage_error (class : StorageFailureClass) (message : string) : PersistenceError :=
  PeStorage class (truncate_utf8 message MAX_STORAGE_MESSAGE_BYTES).
Definition corruption (message : string) : PersistenceError := storage_error SfCorruption message.

(** The variants of [redb::Error] the adapter distinguishes. *)
Inductive RedbErrorKind :=
| RbDatabaseAlreadyOpen
| RbCorrupted | RbTableTypeMismatch | RbTableIsMultimap | RbTableIsNotMultimap
| RbTypeDefinitionChanged | RbTableDoesNotExist | RbTableExists
| RbUpgradeRequired
| RbValueTooLarge
| RbIo | RbPreviousIo
| RbOther.
(** An engine failure and its text. *)
Record RedbError := mkRedbError { rb_kind : RedbErrorKind; rb_text : string }.
Definition redb (error : RedbError) : PersistenceError :=
  let class := match rb_kind error with
    | RbDatabaseAlreadyOpen => SfOwnerBusy
    | RbCorrupted | RbTableTypeMismatch | RbTableIsMultimap | RbTableIsNotMultimap
    | RbTypeDefinitionChanged | RbTableDoesNotExist | RbTableExists => SfCorruption
    | RbUpgradeRequired => SfMigration
    | RbValueTooLarge => SfResourceExhausted
    | RbIo | RbPreviousIo => SfUnavailable
    | RbOther => SfInternal
    end in
  storage_error class (rb_text error).

(** ** Tables ([schema.rs])

    Every table is an ordered map from byte strings; [str], [u64] and [u8] values are
    kept as such, documents as their bytes. *)

Abbreviation Bytes := string (only parsing).
(** The tables of the serving peer. *)
Record PeerTables := mkPeerTables {
  t_serving_host_identity : gmap string string;
  t_peer_relationships : gmap string Bytes;
  t_peer_catalogs : gmap string Bytes;
  t_peer_executions : gmap string Bytes;
  t_peer_execution_tombstones : gmap string Bytes;
  t_peer_execution_locations : gmap string N;
  t_peer_executions_by_request : gmap string string;
  t_peer_observations : gmap string Bytes;
  t_peer_observation_artifacts : gmap string Bytes;
  t_peer_dispatch_available : gmap string string;
  t_peer_active_claims : gmap string string;
  t_peer_terminal_index : gmap string string;
  t_peer_execution_accounting : gmap string Bytes
}.
#[global] Instance eta_PeerTables : Settable PeerTables := λ t,
  mkPeerTables
    (t_serving_host_identity t) (t_peer_relationships t) (t_peer_catalogs t) (t_peer_executions
    t) (t_peer_execution_tombstones t) (t_peer_execution_locations t)
    (t_peer_executions_by_request t) (t_peer_observations t) (t_peer_observation_artifacts t)
    (t_peer_dispatch_available t) (t_peer_active_claims t) (t_peer_terminal_index t)
    (t_peer_execution_accounting t).
Record Tables := mkTables {
  t_task_workflows : gmap string Bytes;
  t_task_receipts : gmap string Bytes;
  t_task_accounting : gmap string Bytes;
  t_task_action_owners : gmap string string;
  t_task_output_usage : gmap string Bytes;
  t_native_path_claims : gmap string Bytes;
  t_managed_installations : gmap string Bytes;
  t_managed_active_installations : gmap string N;
  t_managed_receipts : gmap string Bytes;
  t_managed_evaluations : gmap string Bytes;
  t_managed_pending_evaluations : gmap string N;
  t_managed_transitions : gmap string Bytes;
  t_managed_uses : gmap string string;
  t_metadata : gmap string N;
  t_artifact_publications : gmap string Bytes;
  t_artifact_reservations : gmap string string;
  t_artifact_accounting : gmap string Bytes;
  t_workspace_usage : gmap string Bytes;
  t_workspace_budgets : gmap string Bytes;
  t_peers : PeerTables
}.
#[global] Instance eta_Tables : Settable Tables := λ t,
  mkTables (t_task_workflows t) (t_task_receipts t) (t_task_accounting t) (t_task_action_owners t)
    (t_task_output_usage t) (t_native_path_claims t) (t_managed_installations t)
    (t_managed_active_installations t) (t_managed_receipts t) (t_managed_evaluations t)
    (t_managed_pending_evaluations t) (t_managed_transitions t) (t_managed_uses t) (t_metadata t)
    (t_artifact_publications t) (t_artifact_reservations t) (t_artifact_accounting t)
    (t_workspace_usage t) (t_workspace_budgets t) (t_peers t).
Definition empty_tables : Tables := mkTables ∅ ∅ ∅ ∅ ∅ ∅ ∅ ∅ ∅ ∅ ∅ ∅ ∅ ∅ ∅ ∅ ∅ ∅ ∅
  (mkPeerTables ∅ ∅ ∅ ∅ ∅ ∅ ∅ ∅ ∅ ∅ ∅ ∅ ∅).

(** A table definition: where its rows are. *)
Record Table (V : Type) := mkTable {
  tb_rows : Tables → gmap string V;
  tb_put : gmap string V → Tables → Tables
}.
Arguments mkTable {V}. Arguments tb_rows {V}. Arguments tb_put {V}.
Definition TASK_WORKFLOWS : Table Bytes := mkTable t_task_workflows (λ m t, t <| t_task_workflows := m |>).
Definition TASK_RECEIPTS : Table Bytes := mkTable t_task_receipts (λ m t, t <| t_task_receipts := m |>).
Definition TASK_ACCOUNTING : Table Bytes := mkTable t_task_accounting (λ m t, t <| t_task_accounting := m |>).
Definition TASK_ACTION_OWNERS : Table string :=
  mkTable t_task_action_owners (λ m t, t <| t_task_action_owners := m |>).
Definition TASK_OUTPUT_USAGE : Table Bytes :=
  mkTable t_task_output_usage (λ m t, t <| t_task_output_usage := m |>).
Definition NATIVE_PATH_CLAIMS : Table Bytes :=
  mkTable t_native_path_claims (λ m t, t <| t_native_path_claims := m |>).
Definition MANAGED_INSTALLATIONS : Table Bytes :=
  mkTable t_managed_installations (λ m t, t <| t_managed_installations := m |>).
Definition MANAGED_ACTIVE_INSTALLATIONS : Table N :=
  mkTable t_managed_active_installations (λ m t, t <| t_managed_active_installations := m |>).
Definition MANAGED_RECEIPTS : Table Bytes := mkTable t_managed_receipts (λ m t, t <| t_managed_receipts := m |>).
Definition MANAGED_EVALUATIONS : Table Bytes :=
  mkTable t_managed_evaluations (λ m t, t <| t_managed_evaluations := m |>).
Definition MANAGED_PENDING_EVALUATIONS : Table N :=
  mkTable t_managed_pending_evaluations (λ m t, t <| t_managed_pending_evaluations := m |>).
Definition MANAGED_TRANSITIONS : Table Bytes :=
  mkTable t_managed_transitions (λ m t, t <| t_managed_transitions := m |>).
Definition MANAGED_USES : Table string := mkTable t_managed_uses (λ m t, t <| t_managed_uses := m |>).
Definition METADATA : Table N := mkTable t_metadata (λ m t, t <| t_metadata := m |>).
Definition ARTIFACT_PUBLICATIONS : Table Bytes :=
  mkTable t_artifact_publications (λ m t, t <| t_artifact_publications := m |>).
Definition ARTIFACT_RESERVATIONS : Table string :=
  mkTable t_artifact_reservations (λ m t, t <| t_artifact_reservations := m |>).
Definition ARTIFACT_ACCOUNTING : Table Bytes :=
  mkTable t_artifact_accounting (λ m t, t <| t_artifact_accounting := m |>).
Definition WORKSPACE_USAGE : Table Bytes := mkTable t_workspace_usage (λ m t, t <| t_workspace_usage := m |>).
Definition WORKSPACE_BUDGETS : Table Bytes :=
  mkTable t_workspace_budgets (λ m t, t <| t_workspace_budgets := m |>).
(** A table of the serving peer. *)
Definition peer_table {V} (rows : PeerTables → gmap string V)
    (put : gmap string V → PeerTables → PeerTables) : Table V :=
  mkTable (λ t, rows (t_peers t)) (λ m t, t <| t_peers ::= put m |>).
Definition SERVING_HOST_IDENTITY : Table string :=
  peer_table t_serving_host_identity (λ m t, t <| t_serving_host_identity := m |>).
Definition PEER_RELATIONSHIPS : Table Bytes :=
  peer_table t_peer_relationships (λ m t, t <| t_peer_relationships := m |>).
Definition PEER_CATALOGS : Table Bytes :=
  peer_table t_peer_catalogs (λ m t, t <| t_peer_catalogs := m |>).
Definition PEER_EXECUTIONS : Table Bytes :=
  peer_table t_peer_executions (λ m t, t <| t_peer_executions := m |>).
Definition PEER_EXECUTION_TOMBSTONES : Table Bytes :=
  peer_table t_peer_execution_tombstones (λ m t, t <| t_peer_execution_tombstones := m |>).
Definition PEER_EXECUTION_LOCATIONS : Table N :=
  peer_table t_peer_execution_locations (λ m t, t <| t_peer_execution_locations := m |>).
Definition PEER_EXECUTIONS_BY_REQUEST : Table string :=
  peer_table t_peer_executions_by_request (λ m t, t <| t_peer_executions_by_request := m |>).
Definition PEER_OBSERVATIONS : Table Bytes :=
  peer_table t_peer_observations (λ m t, t <| t_peer_observations := m |>).
Definition PEER_OBSERVATION_ARTIFACTS : Table Bytes :=
  peer_table t_peer_observation_artifacts (λ m t, t <| t_peer_observation_artifacts := m |>).
Definition PEER_DISPATCH_AVAILABLE : Table string :=
  peer_table t_peer_dispatch_available (λ m t, t <| t_peer_dispatch_available := m |>).
Definition PEER_ACTIVE_CLAIMS : Table string :=
  peer_table t_peer_active_claims (λ m t, t <| t_peer_active_claims := m |>).
Definition PEER_TERMINAL_INDEX : Table string :=
  peer_table t_peer_terminal_index (λ m t, t <| t_peer_terminal_index := m |>).
Definition PEER_EXECUTION_ACCOUNTING : Table Bytes :=
  peer_table t_peer_execution_accounting (λ m t, t <| t_peer_execution_accounting := m |>).

Definition CLOCK_WATERMARK_UNIX_MS_KEY : string := "boundary_clock_high_water_unix_ms".
Definition MANAGED_ACTIVE_COUNT_KEY : string := "managed_active_count".
Definition EVALUATION_PENDING_COUNT_KEY : string := "evaluation_pending_count".
Definition PEER_EXECUTION_GLOBAL_ACCOUNTING_KEY : string := "global".

(** ** Transactions

    The engine is a parameter: any of its calls may fail, and a commit that fails may
    or may not have become durable. Its successful calls behave as documented: a
    transaction sees the durable tables as they were when it began and its own
    writes, writers run one at a time, and a successful commit makes the writes
    durable together. The injected clock and fault hook live in the same state. *)

Inductive FaultPoint :=
| BeforeManagedCommit | AfterManagedCommit | BeforeSchemaCommit | AfterSchemaCommit
| BeforeDaemonSchemaAdoptionCommit | AfterDaemonSchemaAdoptionCommit | BeforeDaemonMetadataCommit
| AfterDaemonMetadataCommit | BeforeCommandCommit | AfterCommandCommit | BeforePeerAdmissionCommit
| AfterPeerAdmissionCommit | BeforePeerClaimCommit | AfterPeerClaimCommit | BeforePeerEntryCommit
| AfterPeerEntryCommit | BeforePeerUncertainCommit | AfterPeerUncertainCommit
| BeforePeerObservationCommit | AfterPeerObservationCommit | AfterPeerTombstoneInsert
| AfterPeerObservationCleanup | AfterPeerHotRemove | AfterPeerArchiveAccounting
| BeforePeerArchiveCommit | AfterPeerArchiveCommit | BeforeArtifactBeginCommit
| AfterArtifactBeginCommit | BeforeArtifactTempCreate | AfterArtifactTempCreate
| BeforeArtifactTempReadyCommit | AfterArtifactTempReadyCommit | BeforeArtifactChunkWrite
| AfterArtifactChunkSync | BeforeArtifactRename | AfterArtifactRename
| BeforeArtifactContentIntentCommit | AfterArtifactContentIntentCommit
| BeforeArtifactMetadataCommit | AfterArtifactMetadataCommit | BeforeArtifactAbortCommit
| AfterArtifactAbortCommit | BeforeArtifactAbortDelete | AfterArtifactAbortDelete
| BeforeArtifactCleanupCommit | AfterArtifactCleanupCommit | BeforeArtifactCleanupDelete
| AfterArtifactCleanupDelete | BeforeArtifactPathFinalizeCommit | AfterArtifactPathFinalizeCommit
| BeforeArtifactPathDeleteIntentCommit | AfterArtifactPathDeleteIntentCommit.
Inductive CommitResult := Committed | CommitFailed (applied : bool) (error : RedbError).

Class Engine (O : Type) := {
  engine_call : O → O * option RedbError;
  engine_commit : O → O * CommitResult;
  store_now : O → O * result PersistenceError TimestampMillis;
  fault_check : FaultPoint → O → O * result PersistenceError ()
}.

(** The numeric limits of the store's configuration ([store/config.rs]). *)
Record RedbStoreConfig := mkStoreConfig {
  cf_workflow_limits : WorkflowStorageLimits;
  cf_max_artifact_bytes : N;
  cf_max_total_artifact_bytes : N;
  cf_max_read_bytes : N;
  cf_max_security_audit_records : N;
  cf_max_active_installations : N;
  cf_max_pending_evaluations : N
}.
Definition RedbStoreConfig_new : RedbStoreConfig :=
  mkStoreConfig WorkflowStorageLimits_default 1073741824 10737418240 1073741824 100000 1024 4096.

(** [rd_view] is what the open transaction reads and writes. *)
Record Redb (O : Type) := mkRedb { rd_durable : Tables; rd_view : Tables; rd_engine : O }.
Arguments mkRedb {O}. Arguments rd_durable {O}. Arguments rd_view {O}. Arguments rd_engine {O}.
#[global] Instance eta_Redb {O} : Settable (Redb O) := λ s,
  mkRedb (rd_durable s) (rd_view s) (rd_engine s).

Section transactions.
Context {O : Type} `{!Engine O}.
Abbreviation txn := (st (Redb O) PersistenceError).

Definition call : txn () := λ s,
  let '(o, failure) := engine_call (rd_engine s) in
  (s <| rd_engine := o |>, match failure with None => Ok tt | Some error => Err (redb error) end).
Definition begin_read : txn () := call ;; modify (λ s, s <| rd_view := rd_durable s |>).
Definition begin_write : txn () := call ;; modify (λ s, s <| rd_view := rd_durable s |>).
Definition commit : txn () := λ s,
  let '(o, r) := engine_commit (rd_engine s) in
  let s := s <| rd_engine := o |> in
  match r with
  | Committed => (s <| rd_durable := rd_view s |>, Ok tt)
  | CommitFailed applied error =>
      (if applied then s <| rd_durable := rd_view s |> else s, Err (redb error))
  end.
Definition clock_now : txn TimestampMillis := λ s,
  let '(o, r) := store_now (rd_engine s) in (s <| rd_engine := o |>, r).
Definition check_fault (point : FaultPoint) : txn () := λ s,
  let '(o, r) := fault_check point (rd_engine s) in (s <| rd_engine := o |>, r).

Definition open_table {V} (table : Table V) : txn () := call.
Definition rows {V} (table : Table V) (s : Redb O) : gmap string V := tb_rows table (rd_view s).
Definition get {V} (table : Table V) (key : string) : txn (option V) :=
  call ;; gets (λ s, rows table s !! key).
(** [insert] and [remove] return the previous value. *)
Definition insert_row {V} (table : Table V) (key : string) (value : V) : txn (option V) :=
  call ;; previous ← gets (λ s, rows table s !! key);
  modify (λ s, s <| rd_view := tb_put table (<[key := value]> (rows table s)) (rd_view s) |>) ;;
  mret previous.
Definition remove_row {V} (table : Table V) (key : string) : txn (option V) :=
  call ;; previous ← gets (λ s, rows table s !! key);
  modify (λ s, s <| rd_view := tb_put table (delete key (rows table s)) (rd_view s) |>) ;;
  mret previous.
Definition table_len {V} (table : Table V) : txn N :=
  call ;; gets (λ s, N.of_nat (size (rows table s))).
(** [table.iter()] and [table.range(start..)]: the rows in key order. *)
Definition row_list {V} (table : Table V) : txn (list (string * V)) :=
  call ;; gets (λ s, entries (rows table s)).
Definition row_range {V} (table : Table V) (start : string) : txn (list (string * V)) :=
  call ;; gets (λ s, List.filter (λ kv, bool_decide (String.le start kv.1)) (entries (rows table s))).
End transactions.

(** ** Stored documents ([json.rs]) *)

Definition MAX_INTERNAL_DOCUMENT_BYTES : N := 8388608.
Definition INTERNAL_DOCUMENT_SCHEMA_VERSION : N := 1.
Definition INTERNAL_DOCUMENT_DIGEST_DOMAIN : string :=
  "milkdrift.redb.internal-document.v1" +:+ String (ascii_of_N 0) EmptyString.
Definition document_limit (family : string) : N :=
  if bool_decide (family = "task workflow")
  then saturating_add MAX_WORKFLOW_DOCUMENT_BYTES (2 * 1024 * 1024)
  else MAX_INTERNAL_DOCUMENT_BYTES.

Record InternalDocumentEnvelope (T : Type) := mkDocEnvelope {
  doc_schema_version : N;
  doc_family : string;
  doc_checksum : string;
  doc_payload : T
}.
Arguments mkDocEnvelope {T}. Arguments doc_schema_version {T}. Arguments doc_family {T}.
Arguments doc_checksum {T}. Arguments doc_payload {T}.

(** The derived serializers of a stored type and of its envelope, and the derived
    reader of the envelope: code of [serde], as parameters. *)
Class Stored (T : Type) := {
  stored_payload :: Serialize T;
  stored_envelope :: Serialize (InternalDocumentEnvelope T);
  stored_read : string → result string (InternalDocumentEnvelope T)
}.
(** A derived reader reads back what the derived writer wrote. *)
Class StoredLaw (T : Type) `{!Stored T} :=
  stored_read_back : ∀ (e : InternalDocumentEnvelope T) b, to_vec e = Ok b → stored_read b = Ok e.

(** [n.to_be_bytes()] of a [width]-byte integer. *)
Fixpoint be_bytes (width : nat) (n : N) : string :=
  match width with
  | O => EmptyString
  | S width => String (ascii_of_N (N.shiftr n (8 * N.of_nat width) mod 256)) (be_bytes width n)
  end.

Section documents.
Context `{!Blake3}.

Definition checksum (family payload : string) : string :=
  blake3_hex (INTERNAL_DOCUMENT_DIGEST_DOMAIN +:+ be_bytes 8 (strlen family) +:+ family
                +:+ be_bytes 8 (strlen payload) +:+ payload).
Definition canonical_payload {T} `{!Stored T} (value : T) (family : string) (stored : bool)
    : result PersistenceError string :=
  map_err (λ cause,
    if stored then PeCorruption ("stored " +:+ family
      +:+ " payload could not be canonically re-encoded: " +:+ cause)
    else PeInvalidDocument (family +:+ ": " +:+ cause)) (to_vec value).
Definition encode {T} `{!Stored T} (value : T) (family : string) : result PersistenceError Bytes :=
  payload ← canonical_payload value family false;
  let envelope := mkDocEnvelope INTERNAL_DOCUMENT_SCHEMA_VERSION family (checksum family payload) value in
  bytes ← map_err (λ cause, PeInvalidDocument (family +:+ ": " +:+ cause)) (to_vec envelope);
  let maximum := document_limit family in
  refuse_if (maximum <? strlen bytes)%N
    (PeBounds "storage_document"
       (family +:+ " envelope exceeds " +:+ show_N maximum +:+ " bytes")) ;;
  Ok bytes.
Definition decode {T} `{!Stored T} (bytes : Bytes) (family : string) : result PersistenceError T :=
  let maximum := document_limit family in
  refuse_if (maximum <? strlen bytes)%N
    (PeCorruption ("stored " +:+ family +:+ " exceeds " +:+ show_N maximum +:+ " bytes")) ;;
  decoded ← map_err (λ cause, PeCorruption ("stored " +:+ family
    +:+ " envelope failed decoding: " +:+ cause)) (stored_read bytes);
  canonical ← map_err (λ cause, PeCorruption ("stored " +:+ family
    +:+ " envelope could not be canonically re-encoded: " +:+ cause)) (to_vec decoded);
  refuse_if (bool_decide (canonical ≠ bytes))
    (PeCorruption ("stored " +:+ family +:+ " is not the exact canonical internal envelope")) ;;
  refuse_if (negb (doc_schema_version decoded =? INTERNAL_DOCUMENT_SCHEMA_VERSION)%N)
    (PeUnsupportedVersion family (doc_schema_version decoded) INTERNAL_DOCUMENT_SCHEMA_VERSION) ;;
  refuse_if (bool_decide (doc_family decoded ≠ family))
    (PeCorruption ("stored " +:+ family +:+ " envelope names family " +:+ doc_family decoded)) ;;
  payload ← canonical_payload (doc_payload decoded) family true;
  refuse_if (bool_decide (doc_checksum decoded ≠ checksum family payload))
    (PeCorruption ("stored " +:+ family +:+ " checksum does not match its canonical payload")) ;;
  Ok (doc_payload decoded).

(** [row.map(|value| json::decode(..)).transpose()?] *)
Definition decode_row {T} `{!Stored T} (row : option Bytes) (family : string)
    : result PersistenceError (option T) :=
  match row with None => Ok None | Some bytes => Some <$> decode bytes family end.
End documents.

(** ** Compound keys ([codec.rs]) *)

Definition key_bounds (reason : string) : PersistenceError := PeBounds "storage_key" reason.
Definition push_component (encoded component : string) : result PersistenceError string :=
  length ← ok_or (u32_of_usize (strlen component)) (key_bounds "key component exceeds u32");
  Ok (encoded +:+ be_bytes 4 length +:+ component).
Definition components (values : list string) : result PersistenceError string :=
  try_fold push_component EmptyString values.
(** Capacity hints cannot overflow for strings that fit in memory. *)
Definition pair (first second : string) : result PersistenceError string :=
  encoded ← push_component EmptyString first; push_component encoded second.

(** [prefix_end]: the next key of the same length, from the last byte. *)
Fixpoint prefix_end_bytes (rev_prefix : list ascii) : option (list ascii) :=
  match rev_prefix with
  | [] => None
  | c :: rest =>
      if (byte_of c =? 255)%N then (λ r, ascii_of_N 0 :: r) <$> prefix_end_bytes rest
      else Some (ascii_of_N (byte_of c + 1) :: rest)
  end.
Definition prefix_end (prefix : string) : option string :=
  (λ r, String.string_of_list_ascii (reverse r))
    <$> prefix_end_bytes (reverse (String.list_ascii_of_string prefix)).

(** [std::str::from_utf8] accepts the well-formed byte sequences of Unicode. *)
Fixpoint is_utf8_from (fuel : nat) (bs : list N) : bool :=
  match fuel with
  | O => match bs with [] => true | _ => false end
  | S fuel =>
    match bs with
    | [] => true
    | a :: rest =>
      if (a <? 128)%N then is_utf8_from fuel rest
      else match rest with
      | b :: rest1 =>
        if in_range 194 223 a && is_continuation b then is_utf8_from fuel rest1
        else match rest1 with
        | c :: rest2 =>
          let three := match a with
            | 224%N => in_range 160 191 b
            | 237%N => in_range 128 159 b
            | _ => in_range 225 239 a && is_continuation b
            end in
          if three && is_continuation c then is_utf8_from fuel rest2
          else match rest2 with
          | d :: rest3 =>
            let four := match a with
              | 240%N => in_range 144 191 b
              | 244%N => in_range 128 143 b
              | _ => in_range 241 243 a && is_continuation b
              end in
            four && is_continuation c && is_continuation d && is_utf8_from fuel rest3
          | [] => false
          end
        | [] => false
        end
      | [] => false
      end
    end
  end.
Definition is_utf8 (s : string) : bool := is_utf8_from (String.length s) (bytes s).

Definition be_value (s : string) : N := foldl (λ n b, 256 * n + b)%N 0%N (bytes s).
Fixpoint str_drop (n : nat) (s : string) : string :=
  match n, s with S n, String _ s => str_drop n s | O, s => s | _, EmptyString => EmptyString end.
(** One component from the front: its text and the bytes after it. *)
Definition take_component (encoded : string) : result PersistenceError (string * string) :=
  refuse_if (strlen encoded <? 4)%N
    (key_bounds "compound key has a truncated component length") ;;
  let length := be_value (str_take 4 encoded) in
  let rest := str_drop 4 encoded in
  refuse_if (strlen rest <? length)%N (key_bounds "compound key has a truncated component") ;;
  let value := str_take (N.to_nat length) rest in
  refuse_if (negb (is_utf8 value)) (PeCorruption "compound key component is not valid UTF-8") ;;
  Ok (value, str_drop (N.to_nat length) rest).
Fixpoint decode_components_from (count : nat) (encoded : string)
    : result PersistenceError (list string) :=
  match count with
  | O => refuse_if (negb (is_empty encoded)) (key_bounds "compound key contains trailing bytes") ;; Ok []
  | S count =>
      '(value, rest) ← take_component encoded;
      values ← decode_components_from count rest;
      Ok (value :: values)
  end.
Definition decode_components (count : nat) (encoded : string)
    : result PersistenceError (list string) := decode_components_from count encoded.

(** ** Clock watermark ([clock.rs]) *)

Inductive ClockWatermarkObservation :=
| ClockAdvanced
| ClockUnchanged
| ClockRejectedRollback (watermark : TimestampMillis).
#[global] Instance ClockWatermarkObservation_eq_dec : EqDecision ClockWatermarkObservation.
Proof. solve_decision. Defined.

Section engine.
Context {O : Type} `{!Engine O}.
Abbreviation txn := (st (Redb O) PersistenceError).

Definition observe_clock_in_transaction (observed : TimestampMillis)
    : txn ClockWatermarkObservation :=
  open_table METADATA ;;
  stored ← get METADATA CLOCK_WATERMARK_UNIX_MS_KEY;
  match stored with
  | Some watermark =>
      if (observed <? watermark)%N then mret (ClockRejectedRollback watermark)
      else if (observed =? watermark)%N then mret ClockUnchanged
      else insert_row METADATA CLOCK_WATERMARK_UNIX_MS_KEY observed ;; mret ClockAdvanced
  | None => insert_row METADATA CLOCK_WATERMARK_UNIX_MS_KEY observed ;; mret ClockAdvanced
  end.
Definition require_accepted_clock (observation : ClockWatermarkObservation)
    : result PersistenceError () :=
  match observation with
  | ClockAdvanced | ClockUnchanged => Ok tt
  | ClockRejectedRollback _ =>
      Err (PeStorage SfUnavailable "boundary clock moved behind durable high-water evidence")
  end.
Definition require_clock_in_transaction (observed : TimestampMillis) : txn () :=
  observation ← observe_clock_in_transaction observed; lift (require_accepted_clock observation).
Definition observe_clock_with (sample : txn TimestampMillis)
    : txn (TimestampMillis * ClockWatermarkObservation) :=
  begin_write ;;
  observed ← sample;
  outcome ← observe_clock_in_transaction observed;
  (if bool_decide (outcome = ClockAdvanced) then commit else mret tt) ;;
  mret (observed, outcome).
Definition sample_clock : txn (TimestampMillis * ClockWatermarkObservation) :=
  observe_clock_with clock_now.
Definition observe_clock (observed : TimestampMillis) : txn ClockWatermarkObservation :=
  r ← observe_clock_with (mret observed); mret r.2.
Definition clock_watermark : txn (option TimestampMillis) :=
  begin_read ;; open_table METADATA ;;
  stored ← get METADATA CLOCK_WATERMARK_UNIX_MS_KEY;
  lift (Some <$> ok_or stored (corruption "boundary-clock high-water evidence is missing")).

(** ** Count anchors ([store/capacity.rs]) *)

Definition capacity_count (index : Table N) (count_key : string) : txn N :=
  open_table METADATA ;;
  stored ← get METADATA count_key;
  count ← lift (ok_or stored (corruption "active capacity count is missing"));
  open_table index ;;
  actual ← table_len index;
  guard_if (negb (actual =? count)%N) (corruption "active capacity count differs from its index") ;;
  mret count.
Definition verify_read_count (index : Table N) (count_key : string) : txn () :=
  capacity_count index count_key ;; mret tt.
Definition set_membership (index : Table N) (count_key identity : string) (active : bool) : txn () :=
  capacity_count index count_key ;;
  open_table index ;;
  (if active then insert_row index identity 1%N else remove_row index identity) ;;
  open_table METADATA ;;
  count ← table_len index;
  insert_row METADATA count_key count ;;
  mret tt.
End engine.
