(* ===== verification/ManagedStore.v ===== *)
(** * Managed resources in the store ([adapters/redb-store/src/managed])

    The installation inventory and its transitions, the lifetime holds that accepted
    executions acquire on installed resources, and candidate evaluations: each
    operation in one transaction. *)
From S2P Require Import Prelude Effects Contracts Capability Blueprint Authority.
From S2P Require Import Model Workspace Persistence Dispatch Managed Storage.

(** The encoders and readers of the stored documents, the reader of the binding
    extension, and the texts of the errors the store wraps. *)
Class ManagedCodec := {
  mcodec_blake3 :: Blake3;
  mcodec_value :: Serialize Value;
  mcodec_policy :: Serialize ProtectedEffectPolicy;
  mcodec_payload :: Serialize SnapshotDigestPayload;
  mcodec_installation :: Stored InstallationRecord;
  mcodec_transition :: Stored ManagedTransition;
  mcodec_receipt :: Stored ResourceReceipt;
  mcodec_evaluation :: Stored CandidateEvaluation;
  binding_from_value : Value → result string ManagedBinding;
  mcodec_contract :: Display ContractError;
  mcodec_authority :: Display AuthorityError
}.

Definition managed_invalid (message : string) : PersistenceError := PeInvalidDocument message.
Definition managed_conflict (identity : string) : PersistenceError :=
  PeImmutableConflict "managed_resource" identity.
Definition managed_busy (message : string) : PersistenceError := PeStorage SfOwnerBusy message.

Section managed.
Context {O : Type} `{!Engine O, !ManagedCodec}.
Variable config : RedbStoreConfig.
Abbreviation txn := (st (Redb O) PersistenceError).

(** [.map_err(|e| invalid(&e.to_string()))] *)
Definition or_managed {E A} `{!Display E} (r : result E A) : result PersistenceError A :=
  map_err (λ e, managed_invalid (to_text e)) r.

(** ** Records ([managed.rs]) *)

Definition same_receipt_scope (prior : ResourceReceipt) (request : ManagedRequest)
    (authorization : AuthorityDecisionSnapshot) : bool :=
  let old := dn_request (rt_authorization prior) in
  let new := dn_request authorization in
  bool_decide (rt_request prior = request)
  && bool_decide (rq_actor old = rq_actor new)
  && bool_decide (rq_grant old = rq_grant new)
  && bool_decide (rq_grant_revision old = rq_grant_revision new)
  && bool_decide (rq_grant_digest old = rq_grant_digest new)
  && bool_decide (rq_revocation_generation old = rq_revocation_generation new)
  && bool_decide (rf_workflow (rq_resources old) = rf_workflow (rq_resources new))
  && bool_decide (rf_run (rq_resources old) = rf_run (rq_resources new))
  && bool_decide (rf_workspace_scope (rq_resources old) = rf_workspace_scope (rq_resources new)).
Definition validate_authorization (request : ManagedRequest) (decision : AuthorityDecisionSnapshot)
    : result PersistenceError () :=
  let authority := dn_request decision in
  refuse_if (negb (is_allowed decision)
             || bool_decide (rq_operation authority ≠ OpAdministerCapabilities)
             || is_none_or (λ id, bool_decide (id ≠ "managed." +:+ mq_installation request))
                  (rf_capability (rq_resources authority))
             || is_none_or (λ operation, bool_decide (operation ≠ managed_operation request))
                  (rf_capability_operation (rq_resources authority)))
    (managed_invalid "managed intent requires exact allowing installation authority").
Definition bump (record : InstallationRecord) : result PersistenceError InstallationRecord :=
  version ← ok_or (checked_add (in_version record) 1) (managed_invalid "managed version exhausted");
  Ok (record <| in_version := version |>).
Definition decode_record (bytes : Bytes) : result PersistenceError InstallationRecord :=
  r ← decode bytes "managed installation";
  InstallationRecord_validate r ;; Ok r.
Definition read_record (name : string) : txn (option InstallationRecord) :=
  open_table MANAGED_INSTALLATIONS ;;
  row ← get MANAGED_INSTALLATIONS name;
  match row with None => mret None | Some bytes => r ← lift (decode_record bytes); mret (Some r) end.
Definition put_record (record : InstallationRecord) : txn () :=
  lift (InstallationRecord_validate record) ;;
  bytes ← lift (encode record "managed installation");
  open_table MANAGED_INSTALLATIONS ;;
  insert_row MANAGED_INSTALLATIONS (in_name record) bytes ;;
  set_membership MANAGED_ACTIVE_INSTALLATIONS MANAGED_ACTIVE_COUNT_KEY (in_name record)
    (negb (in_removed record)).
Definition transition_key (name : ManagedName) (transition : ManagedTransition) : string :=
  name +:+ ":" +:+ mc_identity (tx_change transition).
Definition save_transition (name : ManagedName) (transition : ManagedTransition) : txn () :=
  bytes ← lift (encode transition "managed transition");
  open_table MANAGED_TRANSITIONS ;;
  insert_row MANAGED_TRANSITIONS (transition_key name transition) bytes ;;
  mret tt.

Definition managed_installation (name : ManagedName) : txn (option InstallationRecord) :=
  begin_read ;; read_record name.
(** [table.range((after, Unbounded)).take(limit)] *)
Definition managed_installations (after : option ManagedName) (limit : N)
    : txn (list InstallationRecord) :=
  begin_read ;; open_table MANAGED_INSTALLATIONS ;;
  all ← row_list MANAGED_INSTALLATIONS;
  let selected := take (N.to_nat limit)
    (List.filter (λ kv : string * Bytes, is_none_or (λ a, bool_decide (str_lt a kv.1)) after) all) in
  fold_st (λ acc (kv : string * Bytes),
    call ;; r ← lift (decode_record kv.2); mret (acc ++ [r])) [] selected.

(** ** Integrity of stored documents ([managed/integrity.rs]) *)

Definition receipt_integrity (key bytes : Bytes) : result PersistenceError () :=
  receipt ← decode bytes "managed receipt";
  or_managed (ManagedRequest_validate (rt_request receipt)) ;;
  or_managed (ManagedResponse_validate_for (rt_response receipt) (rt_request receipt)) ;;
  validate_authorization (rt_request receipt) (rt_authorization receipt) ;;
  let mismatch := managed_invalid "managed receipt identity mismatch" in
  refuse_if (negb (rt_schema_version receipt =? MANAGED_SCHEMA_VERSION)%N) mismatch ;;
  expected ← pair (rq_actor (dn_request (rt_authorization receipt))) (mq_command (rt_request receipt));
  refuse_if (bool_decide (key ≠ expected)
             || negb (is_allowed (rt_authorization receipt))
             || bool_decide (mr_installation (rt_response receipt) ≠ mq_installation (rt_request receipt)))
    mismatch.
Definition ends_with (s suffix : string) : bool :=
  (String.length suffix <=? String.length s)
  && bool_decide (str_drop (String.length s - String.length suffix) s = suffix).
Definition transition_integrity (key : string) (bytes : Bytes) : result PersistenceError () :=
  transition ← decode bytes "managed transition";
  ApprovedSetup_validate (mc_candidate (tx_change transition)) ;;
  let steps := vlen (mc_steps (tx_change transition)) in
  refuse_if (negb (ends_with key (":" +:+ mc_identity (tx_change transition)))
             || negb (tx_next_step transition =? vlen (tx_evidence transition))%N
             || (steps =? 0)%N
             || (16 <? steps)%N
             || (steps <? vlen (tx_evidence transition))%N)
    (managed_invalid "managed transition evidence mismatch").
Definition use_index (id name : string) : txn () :=
  open_table MANAGED_INSTALLATIONS ;;
  row ← get MANAGED_INSTALLATIONS name;
  bytes ← lift (ok_or row (managed_invalid "orphan managed use index"));
  record ← lift (decode_record bytes);
  guard_if (negb (existsb (λ u, bool_decide (mu_id u = id)) (in_uses record)))
    (managed_invalid "orphan managed use").

Definition managed_receipt (actor : string) (command : ManagedName) : txn (option ResourceReceipt) :=
  begin_read ;;
  key ← lift (pair actor command);
  open_table MANAGED_RECEIPTS ;;
  row ← get MANAGED_RECEIPTS key;
  match row with
  | None => mret None
  | Some bytes =>
      lift (receipt_integrity key bytes) ;;
      receipt ← lift (decode bytes "managed receipt"); mret (Some receipt)
  end.

(** The receipt of an earlier acceptance of the same command, if any. *)
Definition prior_receipt (key : string) (request : ManagedRequest)
    (authorization : AuthorityDecisionSnapshot) (conflict : string) : txn (option ResourceReceipt) :=
  open_table MANAGED_RECEIPTS ;;
  row ← get MANAGED_RECEIPTS key;
  match row with
  | None => mret None
  | Some bytes =>
      prior ← lift (decode bytes "managed receipt");
      guard_if (negb (same_receipt_scope prior request authorization)) (managed_conflict conflict) ;;
      mret (Some prior)
  end.
(** An evaluation keeps the receipt table open from the lookup on. *)
Definition accept_receipt (reopen : bool) (key : string) (request : ManagedRequest)
    (authorization : AuthorityDecisionSnapshot) (response : ManagedResponse) : txn ResourceReceipt :=
  let receipt := mkResourceReceipt MANAGED_SCHEMA_VERSION request authorization response in
  bytes ← lift (encode receipt "managed receipt");
  (if reopen then open_table MANAGED_RECEIPTS else mret tt) ;;
  insert_row MANAGED_RECEIPTS key bytes ;;
  mret receipt.
(** The fault points around a managed commit. *)
Definition managed_commit : txn () :=
  check_fault BeforeManagedCommit ;; commit ;; check_fault AfterManagedCommit.

(** ** Evaluations ([managed/evaluation.rs]) *)

Definition decode_evaluation (key : string) (bytes : Bytes) : result PersistenceError CandidateEvaluation :=
  evidence ← decode bytes "managed evaluation";
  or_managed (CandidateEvaluation_validate evidence) ;;
  refuse_if (bool_decide (ce_identity evidence ≠ key)) (managed_invalid "evaluation key differs") ;;
  Ok evidence.
Definition read_evaluation (identity : string) : txn (option CandidateEvaluation) :=
  begin_read ;; open_table MANAGED_EVALUATIONS ;;
  row ← get MANAGED_EVALUATIONS identity;
  match row with
  | None => mret None
  | Some bytes => e ← lift (decode_evaluation identity bytes); mret (Some e)
  end.
Definition begin_evaluation (request : ManagedRequest) (authorization : AuthorityDecisionSnapshot)
    (evidence : CandidateEvaluation) : txn ResourceReceipt :=
  lift (or_managed (ManagedRequest_validate request)) ;;
  lift (validate_authorization request authorization) ;;
  lift (or_managed (CandidateEvaluation_validate evidence)) ;;
  candidate ← lift match mq_action request with
    | MaEvaluate candidate => Ok candidate
    | _ => Err (managed_invalid "evaluation request required")
    end;
  let subject := ce_subject evidence in
  guard_if (ce_complete evidence
            || bool_decide (ar_digest candidate ≠ ContentDigest_to_hex (ct_digest (cs_artifact subject)))
            || bool_decide (ar_identity candidate ≠ ct_artifact (cs_artifact subject))
            || bool_decide (ar_size_bytes candidate ≠ Some (ct_size_bytes (cs_artifact subject)))
            || bool_decide (cs_target subject ≠ mq_installation request))
    (managed_invalid "evaluation differs from accepted candidate") ;;
  begin_write ;;
  key ← lift (pair (rq_actor (dn_request authorization)) (mq_command request));
  prior ← prior_receipt key request authorization "evaluation command key";
  match prior with
  | Some prior => mret prior
  | None =>
      found ← read_record (mq_installation request);
      record ← lift (ok_or found (managed_conflict "evaluation target absent"));
      setup ← lift (ok_or (in_current record) (managed_conflict "evaluation target unprepared"));
      protection ← lift (ok_or (su_protection setup) (managed_conflict "target has no protected policy"));
      let stale := managed_conflict "stale evaluation target or policy" in
      guard_if (negb (in_version record =? mq_expected_version request)%N
                || negb (in_generation record =? cs_generation subject)%N
                || in_removed record
                || is_some (in_pending record)
                || bool_decide (rr_digest (su_recipe setup) ≠ cs_configuration subject)
                || bool_decide (pd_agreement protection ≠ cs_agreement subject)) stale ;;
      digest ← lift (or_managed (policy_digest (pd_policy protection)));
      guard_if (bool_decide (digest ≠ cs_policy subject)) stale ;;
      open_table MANAGED_EVALUATIONS ;;
      pending ← capacity_count MANAGED_PENDING_EVALUATIONS EVALUATION_PENDING_COUNT_KEY;
      guard_if (cf_max_pending_evaluations config <=? pending)%N
        (managed_busy "pending evaluation limit reached") ;;
      existing ← get MANAGED_EVALUATIONS (ce_identity evidence);
      guard_if (is_some existing) (managed_conflict "evaluation identity") ;;
      bytes ← lift (encode evidence "managed evaluation");
      insert_row MANAGED_EVALUATIONS (ce_identity evidence) bytes ;;
      set_membership MANAGED_PENDING_EVALUATIONS EVALUATION_PENDING_COUNT_KEY (ce_identity evidence) true ;;
      value ← lift (or_managed (to_value evidence));
      document ← lift (or_managed (BoundedJson_new value));
      let response := InstallationRecord_view record
        <| mr_state := "evaluating" |> <| mr_evaluation := Some document |> in
      receipt ← accept_receipt false key request authorization response;
      managed_commit ;;
      mret receipt
  end.
Definition finish_evaluation (evidence : CandidateEvaluation) : txn () :=
  lift (or_managed (CandidateEvaluation_validate evidence)) ;;
  begin_write ;; open_table MANAGED_EVALUATIONS ;;
  row ← get MANAGED_EVALUATIONS (ce_identity evidence);
  decoded ← lift (decode_row row "managed evaluation");
  old ← lift (ok_or decoded (managed_conflict "missing evaluation intent"));
  if ce_complete old then
    guard_if (bool_decide (old ≠ evidence)) (managed_conflict "evaluation result is immutable")
  else
    guard_if (negb (ce_complete evidence)
              || bool_decide (ce_subject old ≠ ce_subject evidence)
              || negb (ce_started_at old =? ce_started_at evidence)%N
              || negb (ce_expires_at old =? ce_expires_at evidence)%N
              || bool_decide (cc_name <$> ce_checks old ≠ cc_name <$> ce_checks evidence))
      (managed_conflict "evaluation result differs from intent") ;;
    bytes ← lift (encode evidence "managed evaluation");
    insert_row MANAGED_EVALUATIONS (ce_identity evidence) bytes ;;
    set_membership MANAGED_PENDING_EVALUATIONS EVALUATION_PENDING_COUNT_KEY (ce_identity evidence) false ;;
    managed_commit.

(** ** Changes ([managed.rs]) *)

Definition check_protected_change (current : ApprovedSetup) (generation : N) (request : ManagedRequest)
    (authorization : AuthorityDecisionSnapshot) (change : ManagedChange) : txn () :=
  match su_protection current with
  | None =>
      guard_if (is_some (su_protection (mc_candidate change)))
        (managed_conflict "protect a distinct new installation")
  | Some protected =>
      candidate ← lift (ok_or (su_protection (mc_candidate change))
        (managed_conflict "protected target cannot become unprotected"));
      guard_if (bool_decide (pd_agreement candidate ≠ pd_agreement protected)
                || bool_decide (pd_policy candidate ≠ pd_policy protected)
                || bool_decide (su_recipe (mc_candidate change) ≠ su_recipe current))
        (managed_conflict "protected target policy cannot be changed by lifecycle update") ;;
      match mq_action request with
      | MaPublish evaluation =>
          open_table MANAGED_EVALUATIONS ;;
          row ← get MANAGED_EVALUATIONS evaluation;
          decoded ← lift match row with
            | None => Ok None
            | Some bytes => Some <$> decode_evaluation evaluation bytes
            end;
          evidence ← lift (ok_or decoded (managed_conflict "unknown trusted evaluation"));
          lift (or_managed (require_pass (pd_policy protected) evidence
            (rq_evaluated_at (dn_request authorization)))) ;;
          guard_if (bool_decide (mc_entry_authorization change ≠ Some authorization)
                    || negb (cs_generation (ce_subject evidence) =? generation)%N
                    || bool_decide (pd_evidence candidate ≠ Some evidence)
                    || bool_decide (cs_target (ce_subject evidence) ≠ mq_installation request)
                    || bool_decide (checked_add (cs_generation (ce_subject evidence)) 1
                                    ≠ Some (mc_generation change))
                    || bool_decide (cs_configuration (ce_subject evidence) ≠ rr_digest (su_recipe current)))
            (managed_conflict "publication candidate, target or generation differs")
      | _ =>
          guard_if (bool_decide (candidate ≠ protected))
            (managed_conflict "raw lifecycle cannot replace protected candidate")
      end
  end.
Definition is_recover (action : ManagedAction) : bool :=
  match action with MaRecover => true | _ => false end.
(** The record with the accepted intent: resumed after an uncertain outcome, or new
    on an idle installation. *)
Definition pend_change (request : ManagedRequest) (change : ManagedChange)
    (record : InstallationRecord) : result PersistenceError InstallationRecord :=
  if is_recover (mq_action request) then
    pending ← ok_or (in_pending record) (managed_conflict "no pending change");
    refuse_if (bool_decide (tx_change pending ≠ change)
               || negb match tx_phase pending with ChangeUncertain _ => true | _ => false end)
      (managed_conflict "recovery requires an uncertain, unchanged accepted intent") ;;
    Ok (record <| in_pending := Some (pending <| tx_phase := ChangePending |>) |>)
  else
    refuse_if (is_some (in_pending record))
      (managed_busy "installation has an unresolved platform change") ;;
    refuse_if (negb (bool_decide (in_uses record = [])))
      (managed_busy "accepted resource users block maintenance; inspect exact blockers") ;;
    refuse_if (is_some_and (λ current,
        bool_decide (su_ownership current ≠ su_ownership (mc_candidate change))
        || bool_decide (su_platform_owner current ≠ su_platform_owner (mc_candidate change)))
        (in_current record))
      (managed_conflict "ownership cannot change during maintenance") ;;
    Ok (record <| in_pending := Some (mkTransition change 0 [] ChangePending) |>).
Definition begin_managed_change (request : ManagedRequest) (authorization : AuthorityDecisionSnapshot)
    (change : ManagedChange) : txn ResourceReceipt :=
  lift (or_managed (ManagedRequest_validate request)) ;;
  lift (validate_authorization request authorization) ;;
  lift (ApprovedSetup_validate (mc_candidate change)) ;;
  guard_if (negb (is_allowed authorization)
            || (vlen (mc_steps change) =? 0)%N
            || (16 <? vlen (mc_steps change))%N
            || negb (is_canonical_blake3_digest (mc_identity change))
            || (mc_generation change =? 0)%N)
    (managed_invalid "invalid managed transition acceptance") ;;
  begin_write ;;
  key ← lift (pair (rq_actor (dn_request authorization)) (mq_command request));
  prior ← prior_receipt key request authorization (mq_command request);
  match prior with
  | Some prior => mret prior
  | None =>
      existing ← read_record (mq_installation request);
      guard_if (negb (default 0 (in_version <$> existing) =? mq_expected_version request)%N)
        (managed_conflict (mq_installation request)) ;;
      (if is_some existing then mret tt
       else
         active ← capacity_count MANAGED_ACTIVE_INSTALLATIONS MANAGED_ACTIVE_COUNT_KEY;
         guard_if (cf_max_active_installations config <=? active)%N
           (managed_busy "active managed installation limit reached")) ;;
      let record := default (mkInstallation MANAGED_SCHEMA_VERSION (mq_installation request) 0 0 None None
        false None false false []) existing in
      guard_if (in_removed record) (managed_conflict "removed installation identity cannot be reused") ;;
      record ← lift (pend_change request change record);
      (if is_recover (mq_action request) then mret tt
       else match in_current record with
            | Some current =>
                check_protected_change current (in_generation record) request authorization change
            | None => mret tt
            end) ;;
      record ← lift (bump (record <| in_admission_open := false |>));
      receipt ← accept_receipt true key request authorization (InstallationRecord_view record);
      match in_pending record with
      | Some pending => save_transition (in_name record) pending
      | None => mret tt
      end ;;
      put_record record ;;
      managed_commit ;;
      mret receipt
  end.
(** The transition after one observed step, complete after the last. *)
Definition observe_step (pending : ManagedTransition) (observation : ManagedObservation)
    : ManagedTransition :=
  let pending := pending <| tx_evidence ::= λ e, e ++ [observation] |> <| tx_next_step ::= N.succ |> in
  if (tx_next_step pending =? vlen (mc_steps (tx_change pending)))%N
  then pending <| tx_phase := ChangeComplete |> else pending.
(** The record with that transition: a complete one has become the setup. *)
Definition step_record (record : InstallationRecord) (pending : ManagedTransition)
    : InstallationRecord :=
  let change := tx_change pending in
  if (tx_next_step pending =? vlen (mc_steps change))%N then
    record <| in_current := Some (mc_candidate change) |> <| in_generation := mc_generation change |>
      <| in_removed := mc_removing change |> <| in_desired_running := mc_running change |>
      <| in_admission_open := negb (mc_removing change) |> <| in_pending := None |>
  else record <| in_pending := Some pending |>.
Definition advance_managed_change (installation : ManagedName) (transition : string) (expected_step : N)
    (observation : ManagedObservation) : txn InstallationRecord :=
  guard_if (negb (is_canonical_blake3_digest (mo_digest observation))
            || (512 <? strlen (mo_summary observation))%N)
    (managed_invalid "invalid platform observation") ;;
  begin_write ;;
  found ← read_record installation;
  record ← lift (ok_or found (managed_conflict "missing installation"));
  pending ← lift (ok_or (in_pending record) (managed_conflict "no pending transition"));
  guard_if (bool_decide (mc_identity (tx_change pending) ≠ transition)
            || negb (tx_next_step pending =? expected_step)%N
            || bool_decide (tx_phase pending ≠ ChangePending))
    (managed_conflict "stale platform callback") ;;
  let pending := observe_step pending observation in
  save_transition (in_name record) pending ;;
  let record := step_record record pending in
  record ← lift (bump (record <| in_observation := Some observation |>));
  put_record record ;;
  managed_commit ;;
  mret record.
Definition fail_managed_change (installation : ManagedName) (transition : string) (expected_step : N)
    (diagnostic : string) : txn () :=
  begin_write ;;
  found ← read_record installation;
  record ← lift (ok_or found (managed_conflict "missing installation"));
  pending ← lift (ok_or (in_pending record) (managed_conflict "missing pending transition"));
  guard_if (bool_decide (mc_identity (tx_change pending) ≠ transition)
            || negb (tx_next_step pending =? expected_step)%N)
    (managed_conflict "stale failure callback") ;;
  let pending := pending <| tx_phase := ChangeUncertain (truncate_utf8 diagnostic 512) |> in
  save_transition (in_name record) pending ;;
  record ← lift (bump (record <| in_pending := Some pending |>));
  put_record record ;;
  commit.

(** ** Uses ([managed/uses.rs]) *)

Definition no_hold : PersistenceError := managed_invalid "use index has no hold".
Definition position (id : string) (uses : list ManagedUse) : option nat :=
  fst <$> list_find (λ u, mu_id u = id) uses.
Definition locate (id : string) : txn (option (InstallationRecord * nat)) :=
  open_table MANAGED_USES ;;
  name ← get MANAGED_USES id;
  match name with
  | None => mret None
  | Some name =>
      found ← read_record name;
      record ← lift (ok_or found (managed_invalid "use index refers to missing installation"));
      index ← lift (ok_or (position id (in_uses record)) no_hold);
      mret (Some (record, index))
  end.
Definition read_use (id : string) : txn (option ManagedUse) :=
  begin_read ;; open_table MANAGED_USES ;;
  name ← get MANAGED_USES id;
  match name with
  | None => mret None
  | Some name =>
      open_table MANAGED_INSTALLATIONS ;;
      row ← get MANAGED_INSTALLATIONS name;
      bytes ← lift (ok_or row (managed_invalid "use index refers to missing installation"));
      record ← lift (decode_record bytes);
      usage ← lift (ok_or (snd <$> list_find (λ u, mu_id u = id) (in_uses record)) no_hold);
      mret (Some usage)
  end.
Definition set_use (record : InstallationRecord) (i : nat) (usage : ManagedUse) : InstallationRecord :=
  record <| in_uses ::= <[i := usage]> |>.
Definition drop_use (record : InstallationRecord) (i : nat) : InstallationRecord :=
  record <| in_uses ::= delete i |>.
(** Some other use than number [i] satisfies [f]. *)
Definition other_use (f : ManagedUse → bool) (i : nat) (uses : list ManagedUse) : bool :=
  existsb f (delete i uses).

Definition binds_resource (b : ManagedBinding) (resource : ManagedName) : bool :=
  existsb (λ r, bool_decide (rq_resource r = resource)) (bn_resources b).
Definition shares_resource (a b : ManagedBinding) : bool :=
  existsb (λ r, binds_resource b (rq_resource r)) (bn_resources a).
Definition missing_editing (u : ManagedUse) : bool :=
  existsb (λ r, rq_mutation r && negb (bool_decide (rq_resource r ∈ mu_editing u)))
    (bn_resources (mu_binding u)).
Definition begin_resolution (request : ManagedRequest) (authorization : AuthorityDecisionSnapshot)
    : txn ResourceReceipt :=
  lift (or_managed (ManagedRequest_validate request)) ;;
  lift (validate_authorization request authorization) ;;
  guard_if (negb (is_allowed authorization)) (managed_conflict "resolution requires authorization") ;;
  '(id, expected_claim) ← lift match mq_action request with
    | MaResolve id expected_claim => Ok (id, expected_claim)
    | _ => Err (managed_invalid "resolution action required")
    end;
  begin_write ;;
  key ← lift (pair (rq_actor (dn_request authorization)) (mq_command request));
  prior ← prior_receipt key request authorization "resolution command conflict";
  match prior with
  | Some prior => mret prior
  | None =>
      located ← locate id;
      '(record, i) ← lift (ok_or located (managed_conflict "unknown resolution use"));
      usage ← lift (ok_or (in_uses record !! i) no_hold);
      guard_if (bool_decide (in_name record ≠ mq_installation request)
                || negb (in_version record =? mq_expected_version request)%N
                || negb (mu_claim usage =? expected_claim)%N
                || is_some (in_pending record))
        (managed_conflict "stale resolution guard") ;;
      guard_if (existsb (λ u, bool_decide (mu_parent u = Some id)) (in_uses record))
        (managed_busy "settle exact child ownership before resolving this use") ;;
      guard_if (other_use (λ other,
          negb match mu_phase other with Suspended child _ => bool_decide (child = id) | _ => false end
          && shares_resource (mu_binding other) (mu_binding usage)) i (in_uses record))
        (managed_busy "other accepted readers or writers prevent disruption of the shared resource") ;;
      let service := setup ← in_current record;
        snd <$> list_find (λ r, rv_kind r = KindService ∧ binds_resource (mu_binding usage) (rv_name r) = true)
          (su_resources setup) in
      physical_identity ← lift match mu_phase usage with
        | Reserved => Ok (default ("mdtask-" +:+ id) (rv_identity <$> service))
        | Entered physical_identity | Fencing physical_identity
        | Quiescent (PhysicalStop physical_identity _ _) => Ok physical_identity
        | Suspended _ _ => Err (managed_busy "suspended use requires child settlement")
        end;
      claim ← lift (ok_or (checked_add (mu_claim usage) 1) (managed_invalid "claim exhausted"));
      let usage := usage <| mu_claim := claim |> <| mu_phase := Fencing physical_identity |> in
      record ← lift (bump (set_use record i usage));
      receipt ← accept_receipt true key request authorization (InstallationRecord_view record);
      put_record record ;;
      managed_commit ;;
      mret receipt
  end.
Definition enter_use (id : string) (claim : N) (physical : string) : txn ManagedUse :=
  guard_if (is_empty physical || (256 <? strlen physical)%N)
    (managed_invalid "invalid physical use identity") ;;
  begin_write ;;
  located ← locate id;
  '(record, i) ← lift (ok_or located (managed_conflict "use has no durable acceptance"));
  u ← lift (ok_or (in_uses record !! i) no_hold);
  guard_if (negb (in_admission_open record) || is_some (in_pending record)
            || negb (mu_claim u =? claim)%N || negb (mu_entry_committed u)
            || mu_execution_terminal u || missing_editing u)
    (managed_busy "use does not own current entry and editing claims") ;;
  guard_if (negb (is_reserved (mu_phase u))) (managed_conflict "resource use cannot enter twice") ;;
  let u := u <| mu_phase := Entered physical |> in
  record ← lift (bump (set_use record i u));
  put_record record ;;
  commit ;;
  mret u.
Definition owned_service (record : InstallationRecord) (identity : string) : bool :=
  is_some_and (λ setup, existsb (λ r, bool_decide (rv_kind r = KindService)
    && bool_decide (rv_ownership r = Owned) && bool_decide (rv_identity r = identity))
    (su_resources setup)) (in_current record).
Definition quiesce_use (id : string) (claim : N) (evidence : QuiescenceEvidence) : txn () :=
  let '(PhysicalStop stopped_identity observation_digest _) := evidence in
  guard_if (negb (is_canonical_blake3_digest observation_digest)) (managed_invalid "invalid stop evidence") ;;
  begin_write ;;
  located ← locate id;
  '(record, i) ← lift (ok_or located (managed_conflict "unknown use"));
  u ← lift (ok_or (in_uses record !! i) no_hold);
  guard_if (negb (mu_claim u =? claim)%N) (managed_conflict "stale stop evidence") ;;
  let mismatch := managed_conflict "stop evidence does not bind the entered physical identity" in
  (** [None] when the same evidence is already recorded. *)
  fenced ← lift match mu_phase u with
    | Entered physical_identity =>
        refuse_if (bool_decide (physical_identity ≠ stopped_identity)) mismatch ;; Ok (Some false)
    | Fencing physical_identity =>
        refuse_if (bool_decide (physical_identity ≠ stopped_identity)) mismatch ;; Ok (Some true)
    | Quiescent old => refuse_if (bool_decide (old ≠ evidence)) mismatch ;; Ok None
    | _ => Err mismatch
    end;
  match fenced with
  | None => mret tt
  | Some fenced =>
      let record := set_use record i (u <| mu_phase := Quiescent evidence |>) in
      let record :=
        if fenced && owned_service record stopped_identity then
          record <| in_desired_running := false |>
            <| in_observation := Some (mkObservation observation_digest
                 "owned service physically fenced; prior operation outcome remains unchanged" false) |>
        else record in
      record ← lift (bump record);
      put_record record ;;
      commit
  end.
Definition release_use (id : string) (claim : N) : txn () :=
  begin_write ;;
  located ← locate id;
  match located with
  | None => mret tt
  | Some (record, i) =>
      u ← lift (ok_or (in_uses record !! i) no_hold);
      guard_if (negb (mu_claim u =? claim)%N || negb (is_quiescent (mu_phase u))
                || is_some (mu_parent u)
                || existsb (λ c, bool_decide (mu_parent c = Some id)) (in_uses record))
        (managed_busy "physical quiescence and settled child ownership are required") ;;
      let record := drop_use record i in
      open_table MANAGED_USES ;;
      remove_row MANAGED_USES id ;;
      record ← lift (bump record);
      put_record record ;;
      commit
  end.
Definition transfer_editing (request : ManagedRequest) (authorization : AuthorityDecisionSnapshot)
    : txn ResourceReceipt :=
  fail (managed_conflict
    "editing transfer requires an accepted parent relationship; task workflows do not support this operation").

(** ** Executions ([managed/execution.rs]) *)

Definition binding_extension (snapshot : ResolvedCapabilitySnapshot) : option Value :=
  rs_descriptor_extensions snapshot !! MANAGED_BINDING_EXTENSION.
Definition acquire (snapshot : ResolvedCapabilitySnapshot) (execution : ManagedExecution) : txn () :=
  match binding_extension snapshot with
  | None => mret tt
  | Some extension =>
      binding ← lift (map_err managed_invalid (binding_from_value extension));
      lift (or_managed (ManagedBinding_validate binding)) ;;
      found ← read_record (bn_installation binding);
      record ← lift (ok_or found (managed_conflict "managed generation absent"));
      current ← lift (ok_or (in_current record) (managed_conflict "managed generation not verified"));
      guard_if (negb (in_admission_open record) || is_some (in_pending record) || in_removed record
                || negb (in_generation record =? bn_generation binding)%N
                || bool_decide (rr_digest (su_recipe current) ≠ bn_recipe_digest binding)
                || (MAX_MANAGED_USES <=? vlen (in_uses record))%N)
        (managed_busy "managed generation is busy, unavailable or stale") ;;
      match list_find (λ d, cd_identity d = rs_capability snapshot
              ∧ cd_descriptor_revision d = rs_descriptor_revision snapshot) (su_capabilities current) with
      | Some (_, descriptor) => lift (or_managed (validate_against snapshot descriptor))
      | None => fail (managed_conflict "managed capability is absent from its exact installed generation")
      end ;;
      guard_if (negb (bool_decide (NoDup (rq_resource <$> bn_resources binding))))
        (managed_invalid "duplicate managed dependency") ;;
      lift (for_each (λ requirement,
        refuse_if (existsb (λ usage, is_fencing (mu_phase usage)
            && binds_resource (mu_binding usage) (rq_resource requirement)) (in_uses record))
          (managed_busy "resource fencing excludes new accepted use") ;;
        r ← ok_or (snd <$> list_find (λ r, rv_name r = rq_resource requirement) (su_resources current))
          (managed_conflict "resource absent from generation");
        refuse_if (bool_decide (rv_kind r = KindService) && bool_decide (rv_ownership r = Owned)
                   && negb (is_some_and mo_running (in_observation record)))
          (managed_busy "owned service is stopped")) (bn_resources binding)) ;;
      let id := use_id execution in
      open_table MANAGED_USES ;;
      existing ← get MANAGED_USES id;
      guard_if (is_some existing) (managed_conflict "duplicate managed use acceptance") ;;
      let editing := rq_resource <$> List.filter rq_mutation (bn_resources binding) in
      guard_if (existsb (λ u, existsb (λ r, bool_decide (r ∈ editing)) (mu_editing u)) (in_uses record))
        (managed_busy "working area already has an exclusive editor") ;;
      let usage := mkUse id execution binding 1 editing false false Reserved None in
      record ← lift (bump (record <| in_uses ::= λ uses, uses ++ [usage] |>));
      open_table MANAGED_USES ;;
      insert_row MANAGED_USES id (in_name record) ;;
      put_record record
  end.
Definition entry (id : string) : txn () :=
  located ← locate id;
  match located with
  | None => mret tt
  | Some (record, i) =>
      u ← lift (ok_or (in_uses record !! i) no_hold);
      guard_if (negb (in_admission_open record) || is_some (in_pending record)
                || mu_execution_terminal u || negb (is_reserved (mu_phase u)) || missing_editing u)
        (managed_busy "resource editing transfer or maintenance blocks final entry") ;;
      record ← lift (bump (set_use record i (u <| mu_entry_committed := true |>)));
      put_record record
  end.
Definition terminal (id : string) : txn () :=
  located ← locate id;
  match located with
  | None => mret tt
  | Some (record, i) =>
      u ← lift (ok_or (in_uses record !! i) no_hold);
      let u := u <| mu_execution_terminal := true |> in
      let record := set_use record i u in
      let stopped_or_never_entered :=
        is_quiescent (mu_phase u) || (negb (mu_entry_committed u) && is_reserved (mu_phase u)) in
      let released := negb (is_some (mu_parent u))
        && negb (other_use (λ c, bool_decide (mu_parent c = Some id)) i (in_uses record))
        && stopped_or_never_entered in
      (if released then open_table MANAGED_USES ;; remove_row MANAGED_USES id ;; mret tt else mret tt) ;;
      record ← lift (bump (if released then drop_use record i else record));
      put_record record
  end.

Definition managed_selection (selection : ResolvedCapabilitySnapshot) : bool :=
  is_some (binding_extension selection).
Definition same_acceptance (prior fact : WorkflowManagedExecution) : bool :=
  bool_decide (wme_task prior = wme_task fact)
  && (wme_accepted_generation prior =? wme_accepted_generation fact)%N
  && bool_decide (wme_selection prior = wme_selection fact)
  && negb (wme_entered prior && negb (wme_entered fact))
  && negb (wme_settled prior
           && (negb (wme_settled fact) || negb (Bool.eqb (wme_entered prior) (wme_entered fact)))).
Definition apply_fact {D} (previous : list WorkflowManagedExecution) (next : WorkflowSnapshot D)
    (seen : list InvocationId * list TaskId) (fact : WorkflowManagedExecution)
    : txn (list InvocationId * list TaskId) :=
  let '(identities, tasks) := seen in
  guard_if (bool_decide (wme_invocation fact ∈ identities)
            || bool_decide (wme_task fact ∈ tasks)
            || (wme_accepted_generation fact =? 0)%N
            || (sn_generation next <? wme_accepted_generation fact)%N
            || negb (managed_selection (wme_selection fact))
            || negb (Bool.eqb (wme_entered fact)
                       (bool_decide (wme_invocation fact ∈ sn_entered_invocations next))))
    (managed_invalid "managed task acceptance contradicts its bounded frozen entry") ;;
  let prior := snd <$> list_find (λ prior, wme_invocation prior = wme_invocation fact) previous in
  match prior with
  | Some prior =>
      guard_if (negb (same_acceptance prior fact))
        (managed_invalid "managed task frozen selection and history are immutable")
  | None =>
      guard_if (wme_entered fact || wme_settled fact
                || negb (wme_accepted_generation fact =? sn_generation next)%N)
        (managed_invalid "managed task requires fresh no-entry acceptance before entry or settlement") ;;
      acquire (wme_selection fact) (ExecutionTask (sn_workflow next) (wme_task fact)
        (wme_invocation fact) (wme_accepted_generation fact))
  end ;;
  let id := managed_use_id (wme_invocation fact) in
  (if wme_entered fact && is_some_and (λ prior, negb (wme_entered prior)) prior
   then entry id else mret tt) ;;
  (if wme_settled fact && is_some_and (λ prior, negb (wme_settled prior)) prior
   then terminal id else mret tt) ;;
  mret (wme_invocation fact :: identities, wme_task fact :: tasks).
Definition apply_task_resources {D} (old : option (WorkflowSnapshot D)) (next : WorkflowSnapshot D)
    : txn () :=
  let previous := default [] (sn_managed_executions <$> old) in
  lift (for_each (λ prior,
    refuse_if (negb (existsb (λ fact, bool_decide (wme_invocation fact = wme_invocation prior))
                       (sn_managed_executions next)))
      (managed_invalid "managed task acceptance cannot be removed")) previous) ;;
  guard_if (4096 <? vlen (sn_managed_executions next))%N
    (managed_invalid "managed task acceptance count exceeds its bound") ;;
  fold_st (apply_fact previous next) ([], []) (sn_managed_executions next) ;;
  mret tt.
End managed.
