(* ===== verification/PeerStore.v ===== *)
(** * Serving executions in the store ([adapters/redb-store/src/peer])

    What a serving installation retains of the work it accepted: admission under one
    request identity, dispatch claims, the entry evidence, the append-only
    observations, cancellation, recovery after a restart and the move of finished
    executions into tombstones; every operation in one transaction. *)
From S2P Require Import Prelude Effects Contracts Capability Blueprint Authority.
From S2P Require Import Model Workspace Persistence Dispatch Managed PeerProtocol Storage ManagedStore.

(** ** Durable records ([crates/persistence/src/peer.rs]) *)

Abbreviation WorkerId := string (only parsing).
Definition SERVING_EXECUTION_RECORD_SCHEMA_VERSION : N := 5.
Definition SERVING_EXECUTION_TOMBSTONE_SCHEMA_VERSION : N := 3.
Record ServingCallerState := mkCallerState {
  cr_caller : ServingCaller;
  cr_generation : N;
  cr_enabled : bool;
  cr_expires_at_unix_ms : N;
  cr_maximum_active : N
}.
Record ServingCatalogState := mkCatalogState {
  cg_caller : ServingCaller;
  cg_relationship_generation : N;
  cg_generation : N;
  cg_digest : string;
  cg_expires_at_unix_ms : N
}.
Record PeerDispatchClaim := mkDispatchClaim {
  dc_worker : WorkerId;
  dc_generation : N;
  dc_claimed_at_unix_ms : N;
  dc_lease_expires_at_unix_ms : N
}.
Record PeerEntryEvidence := mkEntryEvidence {
  pn_worker : WorkerId;
  pn_claim_generation : N;
  pn_entered_at_unix_ms : N;
  pn_authority : AuthorityDecisionSnapshot
}.
Record PeerCancellationRecord := mkCancellationRecord {
  xr_request : PeerCancellationRequest;
  xr_requested_at_unix_ms : N;
  xr_acknowledgement : option PeerCancellationAcknowledgement;
  xr_acknowledged_at_unix_ms : option N
}.
Inductive PeerExecutionPhase :=
| PhAvailable (available_at_unix_ms : N)
| PhClaimed (claim : PeerDispatchClaim)
| PhEntered (claim : PeerDispatchClaim) (evidence : PeerEntryEvidence)
| PhCancellation (claim : option PeerDispatchClaim) (evidence : option PeerEntryEvidence)
| PhTerminal (sequence terminal_at_unix_ms : N)
| PhUncertain (uncertain_at_unix_ms : N) (reason : string).
Definition phase_is_active (self : PeerExecutionPhase) : bool :=
  match self with
  | PhAvailable _ | PhClaimed _ | PhEntered _ _ | PhCancellation _ _ => true
  | PhTerminal _ _ | PhUncertain _ _ => false
  end.
Definition phase_claim (self : PeerExecutionPhase) : option PeerDispatchClaim :=
  match self with
  | PhClaimed claim | PhEntered claim _ => Some claim
  | PhCancellation claim _ => claim
  | PhAvailable _ | PhTerminal _ _ | PhUncertain _ _ => None
  end.
Definition entry_evidence (self : PeerExecutionPhase) : option PeerEntryEvidence :=
  match self with
  | PhEntered _ evidence => Some evidence
  | PhCancellation _ evidence => evidence
  | PhAvailable _ | PhClaimed _ | PhTerminal _ _ | PhUncertain _ _ => None
  end.
Record PeerExecutionAccounting := mkPeerAccounting {
  pa_outputs : N;
  pa_observations : N;
  pa_artifact_bytes : N;
  pa_duration_ms : option N;
  pa_cost_micros : option N
}.
#[global] Instance eta_PeerExecutionAccounting : Settable PeerExecutionAccounting := λ a,
  mkPeerAccounting (pa_outputs a) (pa_observations a) (pa_artifact_bytes a) (pa_duration_ms a)
    (pa_cost_micros a).
Record PeerExecutionRecord := mkPeerRecord {
  px_schema_version : N;
  px_caller : ServingCaller;
  px_relationship_generation : N;
  px_request : ServingInvocationRequest;
  px_authority : AuthorityDecisionSnapshot;
  px_execution : PeerExecutionId;
  px_acceptance_sequence : N;
  px_accepted_at_unix_ms : N;
  px_phase : PeerExecutionPhase;
  px_cancellation : option PeerCancellationRecord;
  px_last_observation_sequence : N;
  px_accounting : PeerExecutionAccounting;
  px_observation_digest : string;
  px_revision : N
}.
#[global] Instance eta_PeerExecutionRecord : Settable PeerExecutionRecord := λ r,
  mkPeerRecord (px_schema_version r) (px_caller r) (px_relationship_generation r) (px_request r)
    (px_authority r) (px_execution r) (px_acceptance_sequence r) (px_accepted_at_unix_ms r)
    (px_phase r) (px_cancellation r) (px_last_observation_sequence r) (px_accounting r)
    (px_observation_digest r) (px_revision r).
Record PeerAcceptedAuthoritySummary := mkAuthoritySummary {
  au_decision : DecisionId;
  au_actor : ActorRef;
  au_grant : GrantId;
  au_grant_revision : N;
  au_grant_digest : string;
  au_revocation_generation : N;
  au_policy : PolicyId;
  au_policy_version : N;
  au_decision_digest : string
}.
Inductive PeerArchivedDisposition :=
| DispositionTerminal (observation : PeerObservation)
| DispositionUncertain (uncertain_at_unix_ms : N) (reason : string).
Record PeerExecutionTombstone := mkTombstone {
  tm_output_observations : list PeerObservation;
  tm_schema_version : N;
  tm_caller : ServingCaller;
  tm_authorization : ServingAuthorization;
  tm_relationship_generation : N;
  tm_request_id : PeerRequestId;
  tm_request_digest : string;
  tm_execution : PeerExecutionId;
  tm_acceptance_sequence : N;
  tm_accepted_at_unix_ms : N;
  tm_catalog_generation : N;
  tm_catalog_digest : string;
  tm_capability : CapabilityId;
  tm_capability_generation : N;
  tm_capability_digest : string;
  tm_operation : OperationId;
  tm_side_effect : SideEffectClass;
  tm_idempotency : IdempotencyBehavior;
  tm_authority : PeerAcceptedAuthoritySummary;
  tm_disposition : PeerArchivedDisposition;
  tm_cancellation : option PeerCancellationRecord;
  tm_last_observation_sequence : N;
  tm_observation_digest : string;
  tm_accounting : PeerExecutionAccounting;
  tm_compacted_through_sequence : N;
  tm_archived_at_unix_ms : N
}.
Inductive PeerExecutionSnapshot :=
| SnapshotHot (record : PeerExecutionRecord)
| SnapshotArchived (tombstone : PeerExecutionTombstone).
Definition ps_caller (self : PeerExecutionSnapshot) : ServingCaller :=
  match self with SnapshotHot r => px_caller r | SnapshotArchived t => tm_caller t end.
Definition ps_request_id (self : PeerExecutionSnapshot) : PeerRequestId :=
  match self with SnapshotHot r => sq_request_id (px_request r) | SnapshotArchived t => tm_request_id t end.
Definition ps_request_digest (self : PeerExecutionSnapshot) : string :=
  match self with
  | SnapshotHot r => sq_request_digest (px_request r)
  | SnapshotArchived t => tm_request_digest t
  end.
Definition ps_execution (self : PeerExecutionSnapshot) : PeerExecutionId :=
  match self with SnapshotHot r => px_execution r | SnapshotArchived t => tm_execution t end.
Definition ps_last_observation_sequence (self : PeerExecutionSnapshot) : N :=
  match self with
  | SnapshotHot r => px_last_observation_sequence r
  | SnapshotArchived t => tm_last_observation_sequence t
  end.

Record PeerAdmission := mkAdmission {
  ad_caller : ServingCaller;
  ad_request : ServingInvocationRequest;
  ad_authority : AuthorityDecisionSnapshot;
  ad_execution : PeerExecutionId;
  ad_relationship_generation : N;
  ad_accepted_at_unix_ms : N;
  ad_maximum_global_active : N;
  ad_maximum_dispatch_queue : N;
  ad_maximum_hot_terminal_records : N;
  ad_archive_batch_size : N;
  ad_archive_terminal_before_or_at_unix_ms : N
}.
Inductive PeerAdmissionRejection :=
| RejAdmissionClosed | RejRelationshipUnavailable | RejCatalogUnavailable | RejPeerCapacity
| RejGlobalCapacity | RejDispatchCapacity | RejRetentionCapacity.
Inductive PeerAdmissionOutcome :=
| AdmissionAccepted (record : PeerExecutionRecord)
| AdmissionReplayed (snapshot : PeerExecutionSnapshot)
| AdmissionConflict (snapshot : PeerExecutionSnapshot)
| AdmissionRejected (rejection : PeerAdmissionRejection).
Record PeerDispatchClaimRequest := mkClaimRequest {
  cq_worker : WorkerId;
  cq_claimed_at_unix_ms : N;
  cq_lease_expires_at_unix_ms : N
}.
Inductive PeerClaimOutcome :=
| ClaimEmpty
| ClaimClaimed (record : PeerExecutionRecord)
| ClaimCancellationRequested (record : PeerExecutionRecord).
Record PeerEntryRequest := mkEntryRequest {
  nq_owner : ServingCaller;
  nq_execution : PeerExecutionId;
  nq_worker : WorkerId;
  nq_claim_generation : N;
  nq_relationship_generation : N;
  nq_entered_at_unix_ms : N;
  nq_authority : AuthorityDecisionSnapshot
}.
Inductive PeerEntryOutcome :=
| EntryEntered (record : PeerExecutionRecord)
| EntryAdmissionClosed
| EntryRelationshipUnavailable.
Inductive PeerObservationAppend :=
| ObservationAppended (record : PeerExecutionRecord)
| ObservationReplayed (record : PeerExecutionRecord).
Record PeerObservationPage := mkPeerObservationPage {
  og_execution : PeerExecutionSnapshot;
  og_observations : list PeerObservation
}.
Record PeerExecutionStatus := mkPeerStatus {
  pw_active : N;
  pw_dispatch_queued : N;
  pw_hot_terminal : N;
  pw_tombstones : N;
  pw_archive_generation : N;
  pw_last_archived_at_unix_ms : option N
}.
Record PeerRecoveryResult := mkRecoveryResult { rv_requeued : N; rv_uncertain : N; rv_more : bool }.
#[global] Instance eta_PeerRecoveryResult : Settable PeerRecoveryResult := λ r,
  mkRecoveryResult (rv_requeued r) (rv_uncertain r) (rv_more r).
Record PeerRetentionPage := mkRetentionPage { rg_archived : N; rg_more : bool }.

#[global] Instance ServingCallerState_eq_dec : EqDecision ServingCallerState.
Proof. solve_decision. Defined.
#[global] Instance ServingCatalogState_eq_dec : EqDecision ServingCatalogState.
Proof. solve_decision. Defined.
#[global] Instance PeerDispatchClaim_eq_dec : EqDecision PeerDispatchClaim.
Proof. solve_decision. Defined.
#[global] Instance PeerEntryEvidence_eq_dec : EqDecision PeerEntryEvidence.
Proof. solve_decision. Defined.
#[global] Instance PeerCancellationRecord_eq_dec : EqDecision PeerCancellationRecord.
Proof. solve_decision. Defined.
#[global] Instance PeerExecutionPhase_eq_dec : EqDecision PeerExecutionPhase.
Proof. solve_decision. Defined.
#[global] Instance PeerExecutionAccounting_eq_dec : EqDecision PeerExecutionAccounting.
Proof. solve_decision. Defined.
#[global] Instance PeerExecutionRecord_eq_dec : EqDecision PeerExecutionRecord.
Proof. solve_decision. Defined.
#[global] Instance PeerAcceptedAuthoritySummary_eq_dec : EqDecision PeerAcceptedAuthoritySummary.
Proof. solve_decision. Defined.
#[global] Instance PeerArchivedDisposition_eq_dec : EqDecision PeerArchivedDisposition.
Proof. solve_decision. Defined.
#[global] Instance PeerExecutionTombstone_eq_dec : EqDecision PeerExecutionTombstone.
Proof. solve_decision. Defined.

(** ** Accounting documents ([peer/accounting.rs]) *)

Definition PEER_ACCOUNTING_SCHEMA_VERSION : N := 3.
Record GlobalPeerAccounting := mkGlobalAccounting {
  gp_schema_version : N;
  gp_next_acceptance_sequence : N;
  gp_active : N;
  gp_dispatch_queued : N;
  gp_hot_terminal : N;
  gp_tombstones : N;
  gp_archive_generation : N;
  gp_last_archived_at_unix_ms : option N;
  gp_admission_open : bool
}.
#[global] Instance eta_GlobalPeerAccounting : Settable GlobalPeerAccounting := λ g,
  mkGlobalAccounting (gp_schema_version g) (gp_next_acceptance_sequence g) (gp_active g)
    (gp_dispatch_queued g) (gp_hot_terminal g) (gp_tombstones g) (gp_archive_generation g)
    (gp_last_archived_at_unix_ms g) (gp_admission_open g).
Definition GlobalPeerAccounting_EMPTY : GlobalPeerAccounting :=
  mkGlobalAccounting PEER_ACCOUNTING_SCHEMA_VERSION 1 0 0 0 0 0 None false.
Record PerPeerAccounting := mkPerPeer {
  pr_schema_version : N;
  pr_peer : ServingCaller;
  pr_active : N;
  pr_revision : N
}.
#[global] Instance eta_PerPeerAccounting : Settable PerPeerAccounting := λ p,
  mkPerPeer (pr_schema_version p) (pr_peer p) (pr_active p) (pr_revision p).
Definition PerPeerAccounting_empty (peer : ServingCaller) : PerPeerAccounting :=
  mkPerPeer PEER_ACCOUNTING_SCHEMA_VERSION peer 0 0.

(** The writers and readers of the stored documents. *)
Class PeerCodec := {
  pcodec_serving :: ServingCodec;
  pcodec_relationship :: Stored ServingCallerState;
  pcodec_catalog :: Stored ServingCatalogState;
  pcodec_execution :: Stored PeerExecutionRecord;
  pcodec_tombstone :: Stored PeerExecutionTombstone;
  pcodec_observation :: Stored PeerObservation;
  pcodec_artifact :: Stored ArtifactReference;
  pcodec_global :: Stored GlobalPeerAccounting;
  pcodec_per_peer :: Stored PerPeerAccounting;
  pcodec_identity :: Serialize (PeerId * ServingCaller * PeerExecutionId)
}.

Definition MAX_UNCERTAINTY_REASON_BYTES : N := 2048.
Definition LOCATION_HOT : N := 1.
Definition LOCATION_ARCHIVED : N := 2.
Definition OBSERVATION_DIGEST_DOMAIN : string :=
  "milkdrift.peer.observation-history.v1" +:+ String "000" EmptyString.

(** ** Errors and keys ([peer/records.rs]) *)

Definition peer_invalid (message : string) : PersistenceError := PeInvalidDocument message.
Definition peer_missing (entity identity : string) : PersistenceError := PeNotFound entity identity.
Definition peer_corruption (message : string) : PersistenceError := PeStorage SfCorruption message.
Definition ordered_key (number : N) (identity : string) : result PersistenceError string :=
  component ← push_component EmptyString identity;
  Ok (be_bytes 8 number +:+ component).
Definition decode_ordered_time (key : string) : result PersistenceError N :=
  if (strlen key <? 8)%N then Err (peer_corruption "ordered peer index key is truncated")
  else Ok (be_value (str_take 8 key)).
Definition request_key (owner : ServingCaller) (request : PeerRequestId) : result PersistenceError string :=
  pair (storage_key owner) request.
Definition observation_key (execution : PeerExecutionId) (sequence : N) : result PersistenceError string :=
  refuse_if (sequence =? 0)%N (peer_invalid "peer observation sequence must be nonzero") ;;
  ordered_key sequence execution.
Definition available_key (record : PeerExecutionRecord) : result PersistenceError string :=
  ordered_key (px_acceptance_sequence record) (px_execution record).
Definition claim_key (execution : PeerExecutionId) (claim : PeerDispatchClaim)
    : result PersistenceError string := ordered_key (dc_lease_expires_at_unix_ms claim) execution.
Definition bump_record (record : PeerExecutionRecord) : result PersistenceError PeerExecutionRecord :=
  revision ← ok_or (checked_add (px_revision record) 1)
    (peer_corruption "peer execution revision overflowed");
  Ok (record <| px_revision := revision |>).
Definition claim_conflict (record : PeerExecutionRecord) : PersistenceError :=
  PeImmutableConflict "peer_dispatch_claim" (px_execution record).
Definition exact_claim (record : PeerExecutionRecord) (worker : WorkerId) (generation : N)
    : result PersistenceError PeerDispatchClaim :=
  ok_or (claim ← phase_claim (px_phase record);
         if bool_decide (dc_worker claim = worker) && (dc_generation claim =? generation)%N
         then Some claim else None) (claim_conflict record).
Definition exact_pre_entry_claim (record : PeerExecutionRecord) (worker : WorkerId) (generation : N)
    : result PersistenceError PeerDispatchClaim :=
  match px_phase record with
  | PhClaimed claim =>
      if bool_decide (dc_worker claim = worker) && (dc_generation claim =? generation)%N
      then Ok claim else Err (claim_conflict record)
  | _ => Err (claim_conflict record)
  end.
Definition parse_execution_id (execution : string) : result PersistenceError PeerExecutionId :=
  map_err (λ cause, peer_corruption ("stored peer execution identity is invalid: " +:+ to_text cause))
    (PeerExecutionId_new execution).

Section digests.
Context `{!Blake3}.
Definition observation_genesis_digest : string :=
  "b3_" +:+ blake3_hex (OBSERVATION_DIGEST_DOMAIN +:+ "genesis").
Definition observation_link_digest (previous : string) (observation_document : Bytes)
    : result PersistenceError string :=
  refuse_if (negb (is_canonical_blake3_digest previous))
    (peer_corruption "peer observation history digest is invalid") ;;
  Ok ("b3_" +:+ blake3_hex (OBSERVATION_DIGEST_DOMAIN +:+ previous +:+ observation_document)).
End digests.

(** ** Validation ([peer/validation.rs]) *)

Definition validate_relationship (value : ServingCallerState) : result PersistenceError () :=
  refuse_if ((cr_generation value =? 0)%N || (cr_expires_at_unix_ms value =? 0)%N
             || (cr_maximum_active value =? 0)%N)
    (peer_invalid "peer relationship persistence facts are invalid").
Definition validate_catalog (value : ServingCatalogState) : result PersistenceError () :=
  refuse_if ((cg_relationship_generation value =? 0)%N || (cg_generation value =? 0)%N
             || (cg_expires_at_unix_ms value =? 0)%N || negb (is_canonical_blake3_digest (cg_digest value)))
    (peer_invalid "peer catalog persistence facts are invalid").
Definition valid_capability_digest (value : string) : bool := is_hex64 value.

Section validation.
Context `{managed : !ManagedCodec, codec : !PeerCodec}.
Definition validate_admission (value : PeerAdmission) : result PersistenceError () :=
  let request := ad_request value in
  map_err (λ cause, peer_invalid (to_text cause)) (ServingInvocationRequest_validate request) ;;
  let decision := dn_request (ad_authority value) in
  let resources := rq_resources decision in
  let provenance := rq_provenance decision in
  let delegated := origin_workflow (sa_origin (sq_authorization request)) in
  operation ← match sq_authorization request with
    | SaPeer _ => Ok OpInvokePeerCapability
    | SaClient client =>
        refuse_if (bool_decide (rq_grant decision ≠ cia_grant client)
                   || negb (rq_grant_revision decision =? cia_grant_revision client)%N
                   || bool_decide (rq_grant_digest decision ≠ cia_grant_digest client)
                   || negb (rq_revocation_generation decision =? cia_revocation_generation client)%N)
          (peer_invalid "client admission must retain its exact authenticated grant") ;;
        Ok OpInvokeCapability
    end;
  refuse_if (negb (is_allowed (ad_authority value))
             || bool_decide (rq_operation decision ≠ operation)
             || bool_decide (rq_actor decision ≠ sa_actor (sq_authorization request))
             || bool_decide (sa_caller (sq_authorization request) ≠ ad_caller value)
             || bool_decide (rf_peer resources ≠ peer_identity (ad_caller value))
             || bool_decide (rf_capability resources ≠ Some (rs_capability (sq_selection request)))
             || bool_decide (rf_capability_operation resources ≠ Some (rs_operation (sq_selection request)))
             || bool_decide (pv_revision provenance ≠ xp_revision <$> delegated)
             || bool_decide (pv_node provenance ≠ xp_node <$> delegated)
             || bool_decide (pv_execution provenance ≠ xp_execution <$> delegated)
             || bool_decide (pv_attempt provenance ≠ xp_attempt <$> delegated)
             || bool_decide (pv_descriptor_revision provenance
                             ≠ Some (rs_descriptor_revision (sq_selection request)))
             || (ad_relationship_generation value =? 0)%N
             || (ad_accepted_at_unix_ms value =? 0)%N
             || (ad_maximum_global_active value =? 0)%N
             || (ad_maximum_dispatch_queue value =? 0)%N
             || (ad_maximum_hot_terminal_records value =? 0)%N
             || (ad_archive_batch_size value =? 0)%N
             || (ad_archive_terminal_before_or_at_unix_ms value =? 0)%N
             || (ad_maximum_hot_terminal_records value <? ad_maximum_global_active value)%N)
    (peer_invalid "peer admission persistence facts are invalid").
Definition validate_entry_authority (record : PeerExecutionRecord) (authority : AuthorityDecisionSnapshot)
    : result PersistenceError () :=
  let accepted := dn_request (px_authority record) in
  let entry := dn_request authority in
  refuse_if (negb (is_allowed authority)
             || bool_decide (rq_operation entry ≠ rq_operation accepted)
             || bool_decide (rq_actor entry ≠ sa_actor (sq_authorization (px_request record)))
             || bool_decide (rq_resources entry ≠ rq_resources accepted)
             || bool_decide (rq_budget entry ≠ rq_budget accepted)
             || bool_decide (rq_provenance entry ≠ rq_provenance accepted))
    (peer_invalid "peer adapter-entry authority does not match the accepted execution envelope").

Definition is_cancellation (phase : PeerExecutionPhase) : bool :=
  match phase with PhCancellation _ _ => true | _ => false end.
Definition validate_record (record : PeerExecutionRecord) : result PersistenceError () :=
  let request := px_request record in
  let accounting := px_accounting record in
  map_err (λ cause, peer_corruption ("stored peer request is invalid: " +:+ to_text cause))
    (ServingInvocationRequest_validate request) ;;
  let facts := peer_corruption "stored peer execution primary facts are invalid" in
  refuse_if (negb (px_schema_version record =? SERVING_EXECUTION_RECORD_SCHEMA_VERSION)%N
             || (px_relationship_generation record =? 0)%N
             || (px_acceptance_sequence record =? 0)%N
             || (px_accepted_at_unix_ms record =? 0)%N
             || (px_revision record =? 0)%N
             || negb (pa_observations accounting =? px_last_observation_sequence record)%N
             || (el_observations (sq_limits request) <? px_last_observation_sequence record)%N
             || (256 <? pa_outputs accounting)%N
             || (pa_observations accounting <? pa_outputs accounting)%N
             || (el_artifact_bytes (sq_limits request) <? pa_artifact_bytes accounting)%N) facts ;;
  input ← map_err (λ cause, peer_corruption ("stored peer input is invalid: " +:+ to_text cause))
    (input_artifact_bytes request);
  refuse_if ((pa_artifact_bytes accounting <? input)%N
             || negb (is_canonical_blake3_digest (px_observation_digest record))) facts ;;
  refuse_if (bool_decide (px_caller record ≠ sa_caller (sq_authorization request))
             || bool_decide (rq_actor (dn_request (px_authority record)) ≠ sa_actor (sq_authorization request)))
    (peer_corruption "stored serving caller contradicts accepted authority") ;;
  match px_phase record with
  | PhTerminal sequence _ =>
      refuse_if (negb (sequence =? px_last_observation_sequence record)%N)
        (peer_corruption "stored peer terminal sequence disagrees with its head")
  | _ => Ok tt
  end ;;
  refuse_if (negb (Bool.eqb (is_cancellation (px_phase record)) (is_some (px_cancellation record)))
             && phase_is_active (px_phase record))
    (peer_corruption "stored peer cancellation phase disagrees with its facts").

Definition validate_tombstone (tombstone : PeerExecutionTombstone) : result PersistenceError () :=
  let accounting := tm_accounting tombstone in
  let authority := tm_authority tombstone in
  refuse_if (negb (vlen (tm_output_observations tombstone) =? pa_outputs accounting)%N
             || (256 <? vlen (tm_output_observations tombstone))%N)
    (peer_corruption "archived output manifest contradicts its bounded accounting") ;;
  archived_outputs (λ error, peer_corruption (to_text error))
    (peer_corruption "archived output identity or order is invalid")
    (tm_execution tombstone) (tm_last_observation_sequence tombstone) (tm_output_observations tombstone) ;;
  refuse_if (bool_decide (tm_caller tombstone ≠ sa_caller (tm_authorization tombstone))
             || bool_decide (au_actor authority ≠ sa_actor (tm_authorization tombstone)))
    (peer_corruption "archived serving caller contradicts accepted authority") ;;
  match tm_authorization tombstone with
  | SaPeer delegation =>
      refuse_if (bool_decide (da_capability delegation ≠ tm_capability tombstone)
                 || bool_decide (da_operation delegation ≠ tm_operation tombstone)
                 || bool_decide (da_request delegation ≠ tm_request_id tombstone)
                 || (el_artifact_bytes (da_limits delegation) <? pa_artifact_bytes accounting)%N
                 || (el_observations (da_limits delegation) <? pa_observations accounting)%N)
        (peer_corruption "archived execution contradicts its exact accepted delegation")
  | SaClient client =>
      refuse_if (bool_decide (cia_grant client ≠ au_grant authority)
                 || negb (cia_grant_revision client =? au_grant_revision authority)%N
                 || bool_decide (cia_grant_digest client ≠ au_grant_digest authority)
                 || negb (cia_revocation_generation client =? au_revocation_generation authority)%N)
        (peer_corruption "archived client execution contradicts its accepted grant")
  end ;;
  refuse_if (negb (tm_schema_version tombstone =? SERVING_EXECUTION_TOMBSTONE_SCHEMA_VERSION)%N
             || (tm_relationship_generation tombstone =? 0)%N
             || (tm_acceptance_sequence tombstone =? 0)%N
             || (tm_accepted_at_unix_ms tombstone =? 0)%N
             || (tm_catalog_generation tombstone =? 0)%N
             || (tm_capability_generation tombstone =? 0)%N
             || (au_grant_revision authority =? 0)%N
             || (au_policy_version authority =? 0)%N
             || (tm_archived_at_unix_ms tombstone =? 0)%N
             || negb (tm_compacted_through_sequence tombstone =? tm_last_observation_sequence tombstone)%N
             || negb (pa_observations accounting =? tm_last_observation_sequence tombstone)%N
             || negb (is_canonical_blake3_digest (tm_request_digest tombstone))
             || negb (is_canonical_blake3_digest (tm_catalog_digest tombstone))
             || negb (valid_capability_digest (tm_capability_digest tombstone))
             || negb (is_canonical_blake3_digest (au_decision_digest authority))
             || negb (is_canonical_blake3_digest (tm_observation_digest tombstone)))
    (peer_corruption "stored peer execution tombstone facts are invalid") ;;
  match tm_disposition tombstone with
  | DispositionTerminal observation =>
      map_err (λ cause, peer_corruption ("archived terminal summary is invalid: " +:+ to_text cause))
        (PeerObservation_validate observation) ;;
      refuse_if (bool_decide (ob_execution observation ≠ tm_execution tombstone)
                 || negb (ob_sequence observation =? tm_last_observation_sequence tombstone)%N
                 || negb (is_some (ob_terminal observation))
                 || (tm_archived_at_unix_ms tombstone <? ob_observed_at_unix_ms observation)%N)
        (peer_corruption "archived terminal summary disagrees with its tombstone")
  | DispositionUncertain uncertain_at reason =>
      refuse_if ((uncertain_at =? 0)%N || (tm_archived_at_unix_ms tombstone <? uncertain_at)%N
                 || is_empty reason || (MAX_UNCERTAINTY_REASON_BYTES <? strlen reason)%N)
        (peer_corruption "archived uncertainty summary is invalid")
  end ;;
  refuse_if (is_some_and (λ cancellation,
               bool_decide (xc_execution (xr_request cancellation) ≠ tm_execution tombstone)
               || is_some_and (λ acknowledgement,
                    bool_decide (xa_execution acknowledgement ≠ tm_execution tombstone))
                    (xr_acknowledgement cancellation)) (tm_cancellation tombstone))
    (peer_corruption "archived cancellation facts target another execution").
End validation.

Section peers.
Context {O : Type} `{engine : !Engine O, managed : !ManagedCodec, codec : !PeerCodec}.
Abbreviation txn := (st (Redb O) PersistenceError).

(** ** Rows ([peer/records.rs]) *)

Definition relationship_in_transaction (peer : ServingCaller) : txn (option ServingCallerState) :=
  open_table PEER_RELATIONSHIPS ;;
  row ← get PEER_RELATIONSHIPS (storage_key peer);
  lift (decode_row row "peer relationship").
Definition catalog_in_transaction (peer : ServingCaller) : txn (option ServingCatalogState) :=
  open_table PEER_CATALOGS ;;
  row ← get PEER_CATALOGS (storage_key peer);
  lift (decode_row row "peer catalog").
Definition decode_peer_record (bytes : Bytes) : result PersistenceError PeerExecutionRecord :=
  record ← decode bytes "peer execution"; validate_record record ;; Ok record.
Definition decode_tombstone (bytes : Bytes) : result PersistenceError PeerExecutionTombstone :=
  tombstone ← decode bytes "peer execution tombstone"; validate_tombstone tombstone ;; Ok tombstone.
Definition execution_location_in_transaction (execution : PeerExecutionId) : txn (option N) :=
  open_table PEER_EXECUTION_LOCATIONS ;; get PEER_EXECUTION_LOCATIONS execution.
Definition execution_optional_in_transaction (execution : PeerExecutionId)
    : txn (option PeerExecutionRecord) :=
  open_table PEER_EXECUTIONS ;;
  row ← get PEER_EXECUTIONS execution;
  match row with
  | None => mret None
  | Some bytes =>
      record ← lift (decode_peer_record bytes);
      location ← execution_location_in_transaction execution;
      guard_if (bool_decide (location ≠ Some LOCATION_HOT))
        (peer_corruption "hot peer execution disagrees with its location index") ;;
      mret (Some record)
  end.
Definition tombstone_optional_in_transaction (execution : PeerExecutionId)
    : txn (option PeerExecutionTombstone) :=
  open_table PEER_EXECUTION_TOMBSTONES ;;
  row ← get PEER_EXECUTION_TOMBSTONES execution;
  match row with
  | None => mret None
  | Some bytes => tombstone ← lift (decode_tombstone bytes); mret (Some tombstone)
  end.
Definition execution_in_transaction_text (execution : string) : txn PeerExecutionRecord :=
  id ← lift (parse_execution_id execution);
  record ← execution_optional_in_transaction id;
  lift (ok_or record (peer_corruption "peer index points at a missing primary record")).
Definition read_snapshot (execution : PeerExecutionId) : txn (option PeerExecutionSnapshot) :=
  open_table PEER_EXECUTION_LOCATIONS ;; open_table PEER_EXECUTIONS ;;
  open_table PEER_EXECUTION_TOMBSTONES ;;
  location ← get PEER_EXECUTION_LOCATIONS execution;
  match location with
  | None =>
      hot ← get PEER_EXECUTIONS execution;
      archived ← get PEER_EXECUTION_TOMBSTONES execution;
      guard_if (is_some hot || is_some archived)
        (peer_corruption "peer execution exists without a location index") ;;
      mret None
  | Some location =>
      if (location =? LOCATION_HOT)%N then
        hot ← get PEER_EXECUTIONS execution;
        bytes ← lift (ok_or hot (peer_corruption "peer hot location points at a missing record"));
        record ← lift (decode_peer_record bytes);
        mret (Some (SnapshotHot record))
      else if (location =? LOCATION_ARCHIVED)%N then
        archived ← get PEER_EXECUTION_TOMBSTONES execution;
        bytes ← lift (ok_or archived
          (peer_corruption "peer archived location points at a missing tombstone"));
        tombstone ← lift (decode_tombstone bytes);
        mret (Some (SnapshotArchived tombstone))
      else fail (peer_corruption "peer execution location has an unknown value")
  end.
(** [snapshot_in_transaction_text] and [snapshot_in_read_transaction_text] *)
Definition snapshot_in_transaction_text (execution : string) : txn PeerExecutionSnapshot :=
  id ← lift (parse_execution_id execution);
  snapshot ← read_snapshot id;
  lift (ok_or snapshot (peer_corruption "peer index points at a missing execution authority")).
Definition owned_execution_in_transaction (owner : ServingCaller) (execution : PeerExecutionId)
    : txn PeerExecutionRecord :=
  record ← execution_optional_in_transaction execution;
  lift (ok_or (r ← record; if bool_decide (px_caller r = owner) then Some r else None)
    (peer_missing "peer_execution" execution)).
Definition put_execution (record : PeerExecutionRecord) : txn () :=
  lift (validate_record record) ;;
  bytes ← lift (encode record "peer execution");
  open_table PEER_EXECUTIONS ;;
  insert_row PEER_EXECUTIONS (px_execution record) bytes ;;
  mret tt.
Definition put_tombstone (tombstone : PeerExecutionTombstone) : txn () :=
  lift (validate_tombstone tombstone) ;;
  bytes ← lift (encode tombstone "peer execution tombstone");
  open_table PEER_EXECUTION_TOMBSTONES ;;
  previous ← insert_row PEER_EXECUTION_TOMBSTONES (tm_execution tombstone) bytes;
  guard_if (is_some previous) (peer_corruption "peer tombstone insertion replaced an existing authority").
Definition remove_claim_index (execution : PeerExecutionId) (claim : PeerDispatchClaim) : txn () :=
  key ← lift (claim_key execution claim);
  open_table PEER_ACTIVE_CLAIMS ;;
  removed ← remove_row PEER_ACTIVE_CLAIMS key;
  guard_if (bool_decide (removed ≠ Some execution))
    (peer_corruption "peer claim index is missing or mismatched").
Definition insert_terminal_index (record : PeerExecutionRecord) (terminal_at : N) : txn () :=
  key ← lift (ordered_key terminal_at (px_execution record));
  open_table PEER_TERMINAL_INDEX ;;
  insert_row PEER_TERMINAL_INDEX key (px_execution record) ;;
  mret tt.
Definition remove_terminal_index (execution : PeerExecutionId) (terminal_at : N) : txn () :=
  key ← lift (ordered_key terminal_at execution);
  open_table PEER_TERMINAL_INDEX ;;
  removed ← remove_row PEER_TERMINAL_INDEX key;
  guard_if (bool_decide (removed ≠ Some execution))
    (peer_corruption "peer terminal index is missing or mismatched").
(** [PEER_DISPATCH_AVAILABLE.insert(available_key(record), record.execution)] *)
Definition insert_available (record : PeerExecutionRecord) : txn () :=
  key ← lift (available_key record);
  open_table PEER_DISPATCH_AVAILABLE ;;
  insert_row PEER_DISPATCH_AVAILABLE key (px_execution record) ;;
  mret tt.

(** ** Accounting ([peer/accounting.rs]) *)

Definition validate_global_accounting (value : GlobalPeerAccounting)
    : result PersistenceError GlobalPeerAccounting :=
  refuse_if (negb (gp_schema_version value =? PEER_ACCOUNTING_SCHEMA_VERSION)%N
             || (gp_next_acceptance_sequence value =? 0)%N
             || negb (Bool.eqb (gp_archive_generation value =? 0)%N
                        (negb (is_some (gp_last_archived_at_unix_ms value)))))
    (peer_corruption "peer global accounting schema is invalid") ;;
  Ok value.
(** [global_accounting] and [global_accounting_read] *)
Definition global_accounting : txn GlobalPeerAccounting :=
  open_table PEER_EXECUTION_ACCOUNTING ;;
  row ← get PEER_EXECUTION_ACCOUNTING PEER_EXECUTION_GLOBAL_ACCOUNTING_KEY;
  bytes ← lift (ok_or row (peer_corruption "peer global accounting is missing"));
  value ← lift (decode bytes "peer global accounting");
  lift (validate_global_accounting value).
Definition put_global_accounting (value : GlobalPeerAccounting) : txn () :=
  bytes ← lift (encode value "peer global accounting");
  open_table PEER_EXECUTION_ACCOUNTING ;;
  insert_row PEER_EXECUTION_ACCOUNTING PEER_EXECUTION_GLOBAL_ACCOUNTING_KEY bytes ;;
  mret tt.
Definition peer_accounting (peer : ServingCaller) : txn PerPeerAccounting :=
  open_table PEER_EXECUTION_ACCOUNTING ;;
  row ← get PEER_EXECUTION_ACCOUNTING (storage_key peer);
  stored ← lift (decode_row row "peer relationship accounting");
  let value := default (PerPeerAccounting_empty peer) stored in
  guard_if (negb (pr_schema_version value =? PEER_ACCOUNTING_SCHEMA_VERSION)%N
            || bool_decide (pr_peer value ≠ peer))
    (peer_corruption "per-peer accounting schema or key is invalid") ;;
  mret value.
Definition put_peer_accounting (value : PerPeerAccounting) : txn () :=
  bytes ← lift (encode value "peer relationship accounting");
  open_table PEER_EXECUTION_ACCOUNTING ;;
  insert_row PEER_EXECUTION_ACCOUNTING (storage_key (pr_peer value)) bytes ;;
  mret tt.
Definition released_global (global : GlobalPeerAccounting) (decrement_dispatch : bool)
    : result PersistenceError GlobalPeerAccounting :=
  active ← ok_or (checked_sub (gp_active global) 1) (peer_corruption "peer global active count underflowed");
  queued ← (if decrement_dispatch
            then ok_or (checked_sub (gp_dispatch_queued global) 1)
                   (peer_corruption "peer dispatch count underflowed")
            else Ok (gp_dispatch_queued global));
  hot_terminal ← ok_or (checked_add (gp_hot_terminal global) 1)
    (peer_corruption "peer hot terminal count overflowed");
  Ok (global <| gp_active := active |> <| gp_dispatch_queued := queued |>
             <| gp_hot_terminal := hot_terminal |>).
Definition release_active_accounting (owner : ServingCaller) (decrement_dispatch : bool) : txn () :=
  global ← global_accounting;
  peer ← peer_accounting owner;
  global ← lift (released_global global decrement_dispatch);
  active ← lift (ok_or (checked_sub (pr_active peer) 1) (peer_corruption "per-peer active count underflowed"));
  revision ← lift (ok_or (checked_add (pr_revision peer) 1)
    (peer_corruption "per-peer accounting revision overflowed"));
  put_global_accounting global ;;
  put_peer_accounting (peer <| pr_active := active |> <| pr_revision := revision |>).

(** ** Managed resources of serving executions ([managed/execution.rs]) *)

Definition serving_invocation_identity (host : PeerId) (caller : ServingCaller) (execution : PeerExecutionId)
    : result PersistenceError InvocationId :=
  bytes ← map_err PeInvalidDocument (to_vec (host, caller, execution));
  map_err (λ error, PeInvalidDocument (to_text error))
    (capability_identity "InvocationId" 128 ("serving:" +:+ blake3_hex bytes)).
Definition managed_invocation (self : PeerExecutionRecord) : result PersistenceError InvocationId :=
  serving_invocation_identity (sa_host (sq_authorization (px_request self))) (px_caller self)
    (px_execution self).
Definition accept_serving_resources (record : PeerExecutionRecord) : txn () :=
  invocation ← lift (managed_invocation record);
  acquire (sq_selection (px_request record)) (ExecutionServing (px_execution record) invocation).
Definition enter_serving_resources (record : PeerExecutionRecord) : txn () :=
  invocation ← lift (managed_invocation record);
  entry (managed_use_id invocation).
Definition terminal_serving_resources (record : PeerExecutionRecord) : txn () :=
  invocation ← lift (managed_invocation record);
  terminal (managed_use_id invocation).

(** ** Configuration ([peer.rs]) *)

Definition bind_host_in_transaction (host : PeerId) : txn () :=
  open_table SERVING_HOST_IDENTITY ;;
  existing ← get SERVING_HOST_IDENTITY "host";
  count ← table_len SERVING_HOST_IDENTITY;
  guard_if (negb (count =? (if is_some existing then 1 else 0))%N)
    (peer_corruption "serving installation identity table is invalid") ;;
  match existing with
  | Some existing =>
      guard_if (bool_decide (existing ≠ host))
        (PeInvalidDocument "configured host_id differs from this store's serving installation; use its original identity")
  | None => insert_row SERVING_HOST_IDENTITY "host" host ;; mret tt
  end.
Definition bind_serving_host (host : PeerId) : txn () :=
  begin_write ;; bind_host_in_transaction host ;; commit.
Definition set_peer_admission_open (open : bool) : txn () :=
  begin_write ;;
  global ← global_accounting;
  put_global_accounting (global <| gp_admission_open := open |>) ;;
  commit.
Definition configure_peer_relationship (relationship : ServingCallerState) : txn () :=
  lift (validate_relationship relationship) ;;
  begin_write ;;
  bind_host_in_transaction (sc_host (cr_caller relationship)) ;;
  existing ← relationship_in_transaction (cr_caller relationship);
  if bool_decide (existing = Some relationship) then mret tt
  else
    guard_if (is_some_and (λ existing, cr_generation relationship <=? cr_generation existing)%N existing)
      (PeImmutableConflict "peer_relationship_generation" (storage_key (cr_caller relationship))) ;;
    bytes ← lift (encode relationship "peer relationship");
    open_table PEER_RELATIONSHIPS ;;
    insert_row PEER_RELATIONSHIPS (storage_key (cr_caller relationship)) bytes ;;
    commit.
Definition publish_peer_catalog (catalog : ServingCatalogState) : txn () :=
  lift (validate_catalog catalog) ;;
  begin_write ;;
  found ← relationship_in_transaction (cg_caller catalog);
  relationship ← lift (ok_or found (peer_missing "peer_relationship" (storage_key (cg_caller catalog))));
  guard_if (negb (cr_enabled relationship)
            || negb (cr_generation relationship =? cg_relationship_generation catalog)%N)
    (PeImmutableConflict "peer_catalog_relationship_generation" (storage_key (cg_caller catalog))) ;;
  existing ← catalog_in_transaction (cg_caller catalog);
  if bool_decide (existing = Some catalog) then mret tt
  else
    guard_if (is_some_and (λ existing, cg_generation catalog <=? cg_generation existing)%N existing)
      (PeImmutableConflict "peer_catalog_generation" (storage_key (cg_caller catalog))) ;;
    bytes ← lift (encode catalog "peer catalog");
    open_table PEER_CATALOGS ;;
    insert_row PEER_CATALOGS (storage_key (cg_caller catalog)) bytes ;;
    commit.

(** ** Retention ([peer/retention.rs]) *)

(** [1..=last] *)
Definition sequences (last : N) : list N := N.of_nat <$> seq 1 (N.to_nat last).
Definition archived_disposition (record : PeerExecutionRecord) : txn PeerArchivedDisposition :=
  match px_phase record with
  | PhTerminal sequence _ =>
      key ← lift (observation_key (px_execution record) sequence);
      open_table PEER_OBSERVATIONS ;;
      row ← get PEER_OBSERVATIONS key;
      bytes ← lift (ok_or row (peer_corruption "terminal peer record lacks its final observation"));
      observation ← lift (decode bytes "peer observation");
      mret (DispositionTerminal observation)
  | PhUncertain uncertain_at reason => mret (DispositionUncertain uncertain_at reason)
  | _ => fail (peer_corruption "active peer record cannot become a tombstone")
  end.
Definition archived_outputs_of (record : PeerExecutionRecord) : txn (list PeerObservation) :=
  open_table PEER_OBSERVATIONS ;;
  fold_st (λ outputs sequence,
    key ← lift (observation_key (px_execution record) sequence);
    row ← get PEER_OBSERVATIONS key;
    bytes ← lift (ok_or row (peer_corruption "archived observation is missing"));
    observation ← lift (decode bytes "peer observation");
    mret (if is_some (ob_output observation) then outputs ++ [observation] else outputs))
    [] (sequences (px_last_observation_sequence record)).
Definition authority_summary (authority : AuthorityDecisionSnapshot) : PeerAcceptedAuthoritySummary :=
  let request := dn_request authority in
  mkAuthoritySummary (rq_decision request) (rq_actor request) (rq_grant request)
    (rq_grant_revision request) (rq_grant_digest request) (rq_revocation_generation request)
    (dn_policy authority) (dn_policy_version authority) (dn_digest authority).
Definition make_tombstone (record : PeerExecutionRecord) (disposition : PeerArchivedDisposition)
    (outputs : list PeerObservation) (archived_at_unix_ms : N) : PeerExecutionTombstone :=
  let request := px_request record in
  let selection := sq_selection request in
  mkTombstone outputs SERVING_EXECUTION_TOMBSTONE_SCHEMA_VERSION (px_caller record)
    (sq_authorization request) (px_relationship_generation record) (sq_request_id request)
    (sq_request_digest request) (px_execution record) (px_acceptance_sequence record)
    (px_accepted_at_unix_ms record) (sq_catalog_generation request) (sq_catalog_digest request)
    (rs_capability selection) (rs_descriptor_revision selection) (rs_digest selection)
    (rs_operation selection) (oc_side_effect (rs_operation_contract selection))
    (oc_idempotency (rs_operation_contract selection)) (authority_summary (px_authority record))
    disposition (px_cancellation record) (px_last_observation_sequence record)
    (px_observation_digest record) (px_accounting record) (px_last_observation_sequence record)
    archived_at_unix_ms.
Definition tombstone_from_record (record : PeerExecutionRecord) (archived_at_unix_ms : N)
    : txn PeerExecutionTombstone :=
  disposition ← archived_disposition record;
  outputs ← archived_outputs_of record;
  let tombstone := make_tombstone record disposition outputs archived_at_unix_ms in
  lift (validate_tombstone tombstone) ;;
  mret tombstone.
Definition compact_observation_rows (record : PeerExecutionRecord) : txn () :=
  open_table PEER_OBSERVATIONS ;; open_table PEER_OBSERVATION_ARTIFACTS ;;
  each_st (λ sequence,
    key ← lift (observation_key (px_execution record) sequence);
    removed ← remove_row PEER_OBSERVATIONS key;
    guard_if (negb (is_some removed)) (peer_corruption "peer archival encountered a missing observation row") ;;
    remove_row PEER_OBSERVATION_ARTIFACTS key ;;
    mret tt) (sequences (px_last_observation_sequence record)).
Definition is_finished (phase : PeerExecutionPhase) : bool :=
  match phase with PhTerminal _ _ | PhUncertain _ _ => true | _ => false end.
Definition archived_global (global : GlobalPeerAccounting) : result PersistenceError GlobalPeerAccounting :=
  hot_terminal ← ok_or (checked_sub (gp_hot_terminal global) 1)
    (peer_corruption "peer hot terminal count underflowed during archival");
  tombstones ← ok_or (checked_add (gp_tombstones global) 1) (peer_corruption "peer tombstone count overflowed");
  Ok (global <| gp_hot_terminal := hot_terminal |> <| gp_tombstones := tombstones |>).
(** The body of the loop after its two exits. *)
Definition archive_one (terminal_at archived_at : N) (execution_text : string) : txn () :=
  execution ← lift (parse_execution_id execution_text);
  location ← execution_location_in_transaction execution;
  guard_if (bool_decide (location ≠ Some LOCATION_HOT))
    (peer_corruption "peer terminal index does not point at singular hot ownership") ;;
  archived ← tombstone_optional_in_transaction execution;
  guard_if (is_some archived) (peer_corruption "peer execution has hot and tombstone dual ownership") ;;
  found ← execution_optional_in_transaction execution;
  record ← lift (ok_or found (peer_corruption "peer terminal index points at a missing hot record"));
  guard_if (negb (is_finished (px_phase record)))
    (peer_corruption "peer terminal index points at an active record") ;;
  key ← lift (request_key (px_caller record) (sq_request_id (px_request record)));
  open_table PEER_EXECUTIONS_BY_REQUEST ;;
  indexed ← get PEER_EXECUTIONS_BY_REQUEST key;
  guard_if (bool_decide (indexed ≠ Some (px_execution record)))
    (peer_corruption "peer request index disagrees before tombstone creation") ;;
  tombstone ← tombstone_from_record record archived_at;
  put_tombstone tombstone ;;
  check_fault AfterPeerTombstoneInsert ;;
  open_table PEER_EXECUTION_LOCATIONS ;;
  previous ← insert_row PEER_EXECUTION_LOCATIONS execution LOCATION_ARCHIVED;
  guard_if (bool_decide (previous ≠ Some LOCATION_HOT))
    (peer_corruption "peer archive location transition lost hot ownership") ;;
  compact_observation_rows record ;;
  check_fault AfterPeerObservationCleanup ;;
  remove_terminal_index (px_execution record) terminal_at ;;
  open_table PEER_EXECUTIONS ;;
  removed ← remove_row PEER_EXECUTIONS execution;
  guard_if (negb (is_some removed)) (peer_corruption "peer hot record disappeared during archival") ;;
  check_fault AfterPeerHotRemove ;;
  global ← global_accounting;
  global ← lift (archived_global global);
  put_global_accounting global ;;
  check_fault AfterPeerArchiveAccounting.
(** The loop over the candidates: how many were archived, and whether more wait. *)
Fixpoint archive_loop (terminal_before_or_at archived_at limit archived : N)
    (candidates : list (string * string)) : txn (N * bool) :=
  match candidates with
  | [] => mret (archived, false)
  | (terminal_key, execution_text) :: candidates =>
      terminal_at ← lift (decode_ordered_time terminal_key);
      if (terminal_before_or_at <? terminal_at)%N then mret (archived, false)
      else if (limit <=? archived)%N then mret (archived, true)
      else
        archive_one terminal_at archived_at execution_text ;;
        archive_loop terminal_before_or_at archived_at limit (N.min (archived + 1) u32_max) candidates
  end.
(** [rows.take(n).collect()]: every row read may fail. *)
Definition take_rows {V} (table : Table V) (n : N) : txn (list (string * V)) :=
  open_table table ;;
  all ← row_list table;
  fold_st (λ acc row, call ;; mret (acc ++ [row])) [] (take (N.to_nat n) all).
Definition archive_eligible_in_transaction (terminal_before_or_at archived_at limit : N)
    : txn PeerRetentionPage :=
  guard_if ((terminal_before_or_at =? 0)%N || (archived_at =? 0)%N || (limit =? 0)%N)
    (peer_invalid "peer archival boundaries and limit must be nonzero") ;;
  candidates ← take_rows PEER_TERMINAL_INDEX (limit + 1);
  '(archived, more) ← archive_loop terminal_before_or_at archived_at limit 0 candidates;
  (if (0 <? archived)%N then
     global ← global_accounting;
     generation ← lift (ok_or (checked_add (gp_archive_generation global) 1)
       (peer_corruption "peer archive generation overflowed"));
     put_global_accounting (global <| gp_archive_generation := generation |>
       <| gp_last_archived_at_unix_ms := Some archived_at |>)
   else mret tt) ;;
  mret (mkRetentionPage archived more).
Definition archive_peer_executions (terminal_before_or_at archived_at limit : N) : txn PeerRetentionPage :=
  guard_if (archived_at =? 0)%N (peer_invalid "peer archive boundary must be nonzero") ;;
  begin_write ;;
  page ← archive_eligible_in_transaction terminal_before_or_at archived_at limit;
  check_fault BeforePeerArchiveCommit ;;
  commit ;;
  check_fault AfterPeerArchiveCommit ;;
  mret page.

(** ** Admission ([peer.rs]) *)

Definition admitted_global (global : GlobalPeerAccounting) : result PersistenceError GlobalPeerAccounting :=
  next ← ok_or (checked_add (gp_next_acceptance_sequence global) 1)
    (peer_corruption "peer acceptance sequence overflowed");
  active ← ok_or (checked_add_u32 (gp_active global) 1) (peer_corruption "peer active count overflowed");
  queued ← ok_or (checked_add_u32 (gp_dispatch_queued global) 1)
    (peer_corruption "peer dispatch count overflowed");
  Ok (global <| gp_next_acceptance_sequence := next |> <| gp_active := active |>
             <| gp_dispatch_queued := queued |>).
Definition admitted_peer (peer : PerPeerAccounting) : result PersistenceError PerPeerAccounting :=
  active ← ok_or (checked_add_u32 (pr_active peer) 1) (peer_corruption "per-peer active count overflowed");
  revision ← ok_or (checked_add (pr_revision peer) 1)
    (peer_corruption "per-peer accounting revision overflowed");
  Ok (peer <| pr_active := active |> <| pr_revision := revision |>).
Definition accepted_record (admission : PeerAdmission) (sequence artifact_bytes : N) : PeerExecutionRecord :=
  mkPeerRecord SERVING_EXECUTION_RECORD_SCHEMA_VERSION (ad_caller admission)
    (ad_relationship_generation admission) (ad_request admission) (ad_authority admission)
    (ad_execution admission) sequence (ad_accepted_at_unix_ms admission)
    (PhAvailable (ad_accepted_at_unix_ms admission)) None 0
    (mkPeerAccounting 0 0 artifact_bytes None None) observation_genesis_digest 1.
Definition relationship_refuses (admission : PeerAdmission) (relationship : ServingCallerState) : bool :=
  negb (cr_enabled relationship)
  || negb (cr_generation relationship =? ad_relationship_generation admission)%N
  || (cr_expires_at_unix_ms relationship <? ad_accepted_at_unix_ms admission)%N.
Definition catalog_refuses (admission : PeerAdmission) (catalog : option ServingCatalogState) : bool :=
  is_none_or (λ state,
    negb (cg_relationship_generation state =? ad_relationship_generation admission)%N
    || negb (cg_generation state =? sq_catalog_generation (ad_request admission))%N
    || bool_decide (cg_digest state ≠ sq_catalog_digest (ad_request admission))
    || (cg_expires_at_unix_ms state <? ad_accepted_at_unix_ms admission)%N) catalog.
Definition reserved_hot (global : GlobalPeerAccounting) : result PersistenceError N :=
  ok_or (checked_add (gp_hot_terminal global) (gp_active global))
    (peer_corruption "peer reserved hot capacity overflowed").
(** The writes of an accepted request, after its capacity checks. *)
Definition accept_execution (admission : PeerAdmission) (key : string) (global : GlobalPeerAccounting)
    (peer : PerPeerAccounting) : txn PeerAdmissionOutcome :=
  existing ← read_snapshot (ad_execution admission);
  guard_if (is_some existing) (PeImmutableConflict "peer_execution" (ad_execution admission)) ;;
  let sequence := gp_next_acceptance_sequence global in
  global ← lift (admitted_global global);
  peer ← lift (admitted_peer peer);
  input ← lift (map_err (λ cause, peer_invalid (to_text cause)) (input_artifact_bytes (ad_request admission)));
  let record := accepted_record admission sequence input in
  lift (validate_record record) ;;
  accept_serving_resources record ;;
  put_execution record ;;
  open_table PEER_EXECUTIONS_BY_REQUEST ;;
  insert_row PEER_EXECUTIONS_BY_REQUEST key (px_execution record) ;;
  open_table PEER_EXECUTION_LOCATIONS ;;
  insert_row PEER_EXECUTION_LOCATIONS (px_execution record) LOCATION_HOT ;;
  insert_available record ;;
  put_global_accounting global ;;
  put_peer_accounting peer ;;
  check_fault BeforePeerAdmissionCommit ;;
  commit ;;
  check_fault AfterPeerAdmissionCommit ;;
  mret (AdmissionAccepted record).
(** Retention frees room for one more record when the reserve is exhausted. *)
Definition admit_with_room (admission : PeerAdmission) (key : string) (global : GlobalPeerAccounting)
    (peer : PerPeerAccounting) : txn PeerAdmissionOutcome :=
  reserved ← lift (reserved_hot global);
  global ← (if (ad_maximum_hot_terminal_records admission <=? reserved)%N then
      archive_eligible_in_transaction (ad_archive_terminal_before_or_at_unix_ms admission)
        (ad_accepted_at_unix_ms admission) (ad_archive_batch_size admission) ;;
      global_accounting
    else mret global);
  reserved ← lift (reserved_hot global);
  if (ad_maximum_hot_terminal_records admission <=? reserved)%N
  then mret (AdmissionRejected RejRetentionCapacity)
  else accept_execution admission key global peer.
Definition admit_new (admission : PeerAdmission) (key : string) : txn PeerAdmissionOutcome :=
  lift (validate_admission admission) ;;
  global ← global_accounting;
  if negb (gp_admission_open global) then mret (AdmissionRejected RejAdmissionClosed) else
  found ← relationship_in_transaction (ad_caller admission);
  match found with
  | None => mret (AdmissionRejected RejRelationshipUnavailable)
  | Some relationship =>
      if relationship_refuses admission relationship
      then mret (AdmissionRejected RejRelationshipUnavailable) else
      catalog ← catalog_in_transaction (ad_caller admission);
      if catalog_refuses admission catalog then mret (AdmissionRejected RejCatalogUnavailable) else
      peer ← peer_accounting (ad_caller admission);
      if (cr_maximum_active relationship <=? pr_active peer)%N
      then mret (AdmissionRejected RejPeerCapacity) else
      if (ad_maximum_global_active admission <=? gp_active global)%N
      then mret (AdmissionRejected RejGlobalCapacity) else
      if (ad_maximum_dispatch_queue admission <=? gp_dispatch_queued global)%N
      then mret (AdmissionRejected RejDispatchCapacity) else
      admit_with_room admission key global peer
  end.
Definition admit_peer_execution (admission : PeerAdmission) : txn PeerAdmissionOutcome :=
  lift (map_err (λ cause, peer_invalid (to_text cause))
    (ServingInvocationRequest_validate (ad_request admission))) ;;
  begin_write ;;
  key ← lift (request_key (ad_caller admission) (sq_request_id (ad_request admission)));
  open_table PEER_EXECUTIONS_BY_REQUEST ;;
  indexed ← get PEER_EXECUTIONS_BY_REQUEST key;
  match indexed with
  | Some execution =>
      existing ← snapshot_in_transaction_text execution;
      guard_if (bool_decide (ps_caller existing ≠ ad_caller admission)
                || bool_decide (ps_request_id existing ≠ sq_request_id (ad_request admission)))
        (peer_corruption "peer request index disagrees with its execution") ;;
      mret (if bool_decide (ps_request_digest existing = sq_request_digest (ad_request admission))
            then AdmissionReplayed existing else AdmissionConflict existing)
  | None => admit_new admission key
  end.

(** ** Claims ([peer/claims.rs]) *)

Definition is_unclaimed_cancellation (phase : PeerExecutionPhase) : bool :=
  match phase with PhCancellation None None => true | _ => false end.
Definition is_available (phase : PeerExecutionPhase) : bool :=
  match phase with PhAvailable _ => true | _ => false end.
Definition claim_peer_dispatch (request : PeerDispatchClaimRequest) : txn PeerClaimOutcome :=
  guard_if ((cq_claimed_at_unix_ms request =? 0)%N
            || (cq_lease_expires_at_unix_ms request <=? cq_claimed_at_unix_ms request)%N)
    (peer_invalid "peer dispatch claim has an invalid lease boundary") ;;
  begin_write ;;
  open_table PEER_DISPATCH_AVAILABLE ;;
  rows ← row_list PEER_DISPATCH_AVAILABLE;
  call ;;
  match rows with
  | [] => mret ClaimEmpty
  | (index_key, execution) :: _ =>
      record ← execution_in_transaction_text execution;
      key ← lift (available_key record);
      guard_if (bool_decide (key ≠ index_key))
        (peer_corruption "peer dispatch index disagrees with its primary record") ;;
      let cancellation_only := is_unclaimed_cancellation (px_phase record) in
      guard_if (negb (is_available (px_phase record)) && negb cancellation_only)
        (peer_corruption "peer dispatch index points at a nondispatchable phase") ;;
      generation ← lift (ok_or (checked_add (px_revision record) 1)
        (peer_corruption "peer claim generation overflowed"));
      let claim := mkDispatchClaim (cq_worker request) generation (cq_claimed_at_unix_ms request)
        (cq_lease_expires_at_unix_ms request) in
      record ← lift (bump_record (record <| px_phase :=
        if cancellation_only then PhCancellation (Some claim) None else PhClaimed claim |>));
      lift (validate_record record) ;;
      open_table PEER_DISPATCH_AVAILABLE ;;
      removed ← remove_row PEER_DISPATCH_AVAILABLE index_key;
      guard_if (negb (is_some removed)) (peer_corruption "peer dispatch row disappeared during claim") ;;
      key ← lift (claim_key (px_execution record) claim);
      open_table PEER_ACTIVE_CLAIMS ;;
      insert_row PEER_ACTIVE_CLAIMS key (px_execution record) ;;
      put_execution record ;;
      check_fault BeforePeerClaimCommit ;;
      commit ;;
      check_fault AfterPeerClaimCommit ;;
      mret (if cancellation_only then ClaimCancellationRequested record else ClaimClaimed record)
  end.
Definition mark_peer_entered (request : PeerEntryRequest) : txn PeerEntryOutcome :=
  guard_if (nq_entered_at_unix_ms request =? 0)%N (peer_invalid "peer adapter entry time must be nonzero") ;;
  begin_write ;;
  record ← owned_execution_in_transaction (nq_owner request) (nq_execution request);
  lift (validate_entry_authority record (nq_authority request)) ;;
  claim ← lift (exact_pre_entry_claim record (nq_worker request) (nq_claim_generation request));
  guard_if ((dc_lease_expires_at_unix_ms claim <? nq_entered_at_unix_ms request)%N
            || (sq_deadline_unix_ms (px_request record) <? nq_entered_at_unix_ms request)%N)
    (PeImmutableConflict "peer_dispatch_claim" (nq_execution request)) ;;
  global ← global_accounting;
  if negb (gp_admission_open global) then mret EntryAdmissionClosed else
  relationship ← relationship_in_transaction (nq_owner request);
  if is_none_or (λ relationship,
       negb (cr_enabled relationship)
       || negb (cr_generation relationship =? nq_relationship_generation request)%N
       || (cr_expires_at_unix_ms relationship <? nq_entered_at_unix_ms request)%N) relationship
  then mret EntryRelationshipUnavailable else
  let evidence := mkEntryEvidence (nq_worker request) (nq_claim_generation request)
    (nq_entered_at_unix_ms request) (nq_authority request) in
  enter_serving_resources record ;;
  record ← lift (bump_record (record <| px_phase := PhEntered claim evidence |>));
  queued ← lift (ok_or (checked_sub (gp_dispatch_queued global) 1)
    (peer_corruption "peer dispatch count underflowed at entry"));
  put_execution record ;;
  put_global_accounting (global <| gp_dispatch_queued := queued |>) ;;
  check_fault BeforePeerEntryCommit ;;
  commit ;;
  check_fault AfterPeerEntryCommit ;;
  mret (EntryEntered record).
Definition is_claimed (phase : PeerExecutionPhase) : bool :=
  match phase with PhClaimed _ => true | _ => false end.
Definition is_unentered_cancellation (phase : PeerExecutionPhase) : bool :=
  match phase with PhCancellation _ None => true | _ => false end.
Definition release_peer_claim (owner : ServingCaller) (execution : PeerExecutionId) (worker : WorkerId)
    (claim_generation available_at_unix_ms : N) : txn PeerExecutionRecord :=
  guard_if (available_at_unix_ms =? 0)%N (peer_invalid "peer dispatch availability time must be nonzero") ;;
  begin_write ;;
  record ← owned_execution_in_transaction owner execution;
  claim ← lift (exact_claim record worker claim_generation);
  let cancellation_only := is_unentered_cancellation (px_phase record) in
  guard_if (negb (is_claimed (px_phase record)) && negb cancellation_only)
    (PeImmutableConflict "peer_dispatch_claim" execution) ;;
  remove_claim_index execution claim ;;
  record ← lift (bump_record (record <| px_phase :=
    if cancellation_only then PhCancellation None None else PhAvailable available_at_unix_ms |>));
  key ← lift (available_key record);
  open_table PEER_DISPATCH_AVAILABLE ;;
  insert_row PEER_DISPATCH_AVAILABLE key execution ;;
  put_execution record ;;
  commit ;;
  mret record.
Definition with_claim (phase : PeerExecutionPhase) (claim : PeerDispatchClaim)
    : result PersistenceError PeerExecutionPhase :=
  match phase with
  | PhClaimed _ => Ok (PhClaimed claim)
  | PhEntered _ evidence => Ok (PhEntered claim evidence)
  | PhCancellation _ evidence => Ok (PhCancellation (Some claim) evidence)
  | _ => Err (peer_corruption "peer claim phase changed during lease extension")
  end.
Definition extend_peer_claim (owner : ServingCaller) (execution : PeerExecutionId) (worker : WorkerId)
    (claim_generation lease_expires_at_unix_ms : N) : txn () :=
  begin_write ;;
  record ← owned_execution_in_transaction owner execution;
  old ← lift (exact_claim record worker claim_generation);
  guard_if (lease_expires_at_unix_ms <=? dc_lease_expires_at_unix_ms old)%N
    (peer_invalid "peer claim lease did not move forward") ;;
  remove_claim_index execution old ;;
  let updated := mkDispatchClaim (dc_worker old) (dc_generation old) (dc_claimed_at_unix_ms old)
    lease_expires_at_unix_ms in
  phase ← lift (with_claim (px_phase record) updated);
  record ← lift (bump_record (record <| px_phase := phase |>));
  key ← lift (claim_key execution updated);
  open_table PEER_ACTIVE_CLAIMS ;;
  insert_row PEER_ACTIVE_CLAIMS key execution ;;
  put_execution record ;;
  commit.
Definition mark_peer_uncertain (owner : ServingCaller) (execution : PeerExecutionId) (worker : WorkerId)
    (claim_generation uncertain_at_unix_ms : N) (reason : string) : txn PeerExecutionRecord :=
  guard_if ((uncertain_at_unix_ms =? 0)%N || is_empty reason
            || (MAX_UNCERTAINTY_REASON_BYTES <? strlen reason)%N)
    (peer_invalid "peer uncertainty reason or boundary is invalid") ;;
  begin_write ;;
  record ← owned_execution_in_transaction owner execution;
  guard_if (negb (is_some (entry_evidence (px_phase record))))
    (PeImmutableConflict "peer_execution_entry" execution) ;;
  claim ← lift (exact_claim record worker claim_generation);
  remove_claim_index execution claim ;;
  record ← lift (bump_record (record <| px_phase := PhUncertain uncertain_at_unix_ms reason |>));
  release_active_accounting (px_caller record) false ;;
  insert_terminal_index record uncertain_at_unix_ms ;;
  put_execution record ;;
  check_fault BeforePeerUncertainCommit ;;
  commit ;;
  check_fault AfterPeerUncertainCommit ;;
  mret record.
(** One claim left by a previous owner: work not entered is offered again, entered work
    becomes uncertain. *)
Definition recover_claim (recovered_at_unix_ms : N) (result : PeerRecoveryResult) (row : string * string)
    : txn PeerRecoveryResult :=
  record ← execution_in_transaction_text row.2;
  claim ← lift (ok_or (phase_claim (px_phase record))
    (peer_corruption "active peer claim index points at an unclaimed phase"));
  key ← lift (claim_key (px_execution record) claim);
  guard_if (bool_decide (key ≠ row.1)) (peer_corruption "active peer claim key disagrees with primary record") ;;
  remove_claim_index (px_execution record) claim ;;
  '(record, result) ← match entry_evidence (px_phase record) with
    | None =>
        let record := record <| px_phase :=
          if is_claimed (px_phase record) then PhAvailable recovered_at_unix_ms
          else PhCancellation None None |> in
        insert_available record ;;
        mret (record, result <| rv_requeued ::= λ n, N.min (n + 1) u32_max |>)
    | Some _ =>
        let record := record <| px_phase :=
          PhUncertain recovered_at_unix_ms "serving daemon restarted after durable adapter entry" |> in
        release_active_accounting (px_caller record) false ;;
        insert_terminal_index record recovered_at_unix_ms ;;
        mret (record, result <| rv_uncertain ::= λ n, N.min (n + 1) u32_max |>)
    end;
  record ← lift (bump_record record);
  put_execution record ;;
  mret result.
Definition recover_peer_claims (recovered_at_unix_ms limit : N) : txn PeerRecoveryResult :=
  guard_if (recovered_at_unix_ms =? 0)%N (peer_invalid "peer recovery boundary must be nonzero") ;;
  begin_write ;;
  candidates ← take_rows PEER_ACTIVE_CLAIMS limit;
  result ← fold_st (recover_claim recovered_at_unix_ms) (mkRecoveryResult 0 0 false) candidates;
  open_table PEER_ACTIVE_CLAIMS ;;
  remaining ← table_len PEER_ACTIVE_CLAIMS;
  commit ;;
  mret (result <| rv_more := (0 <? remaining)%N |>).

(** ** Reads ([peer.rs]) *)

Definition peer_catalog (peer : ServingCaller) : txn (option ServingCatalogState) :=
  begin_read ;; catalog_in_transaction peer.
(** The page over the hot records after [after]: the active ones, and the cursor that
    continues a full page. *)
Definition active_serving_page (after : option PeerExecutionId) (limit : N)
    : txn (list PeerExecutionRecord * option PeerExecutionId) :=
  begin_read ;;
  open_table PEER_EXECUTIONS ;;
  all ← row_list PEER_EXECUTIONS;
  let range := match after with
    | Some after => List.filter (λ row, bool_decide (str_lt after row.1)) all
    | None => all
    end in
  '(result, last, count) ← fold_st (λ '(result, last, count) row,
    call ;;
    record ← lift (decode_peer_record row.2);
    mret (if phase_is_active (px_phase record) then result ++ [record] else result,
          Some (px_execution record), count + 1)%N) ([], None, 0%N) (take (N.to_nat limit) range);
  mret (result, if (count =? limit)%N then last else None).
Definition peer_execution_by_request (owner : ServingCaller) (request : PeerRequestId)
    : txn (option PeerExecutionSnapshot) :=
  begin_read ;;
  key ← lift (request_key owner request);
  open_table PEER_EXECUTIONS_BY_REQUEST ;;
  indexed ← get PEER_EXECUTIONS_BY_REQUEST key;
  match indexed with
  | None => mret None
  | Some execution =>
      snapshot ← snapshot_in_transaction_text execution;
      guard_if (bool_decide (ps_caller snapshot ≠ owner) || bool_decide (ps_request_id snapshot ≠ request))
        (peer_corruption "peer request lookup returned mismatched primary record") ;;
      mret (Some snapshot)
  end.
Definition owned_snapshot (owner : ServingCaller) (snapshot : option PeerExecutionSnapshot)
    : option PeerExecutionSnapshot :=
  s ← snapshot; if bool_decide (ps_caller s = owner) then Some s else None.
Definition peer_execution (owner : ServingCaller) (execution : PeerExecutionId)
    : txn (option PeerExecutionSnapshot) :=
  begin_read ;;
  snapshot ← read_snapshot execution;
  mret (owned_snapshot owner snapshot).
Definition peer_execution_status : txn PeerExecutionStatus :=
  begin_read ;;
  value ← global_accounting;
  mret (mkPeerStatus (gp_active value) (gp_dispatch_queued value) (gp_hot_terminal value)
    (gp_tombstones value) (gp_archive_generation value) (gp_last_archived_at_unix_ms value)).
(** The [while] loop: [fuel] is the room left in the page. *)
Fixpoint observation_loop (fuel : nat) (execution : PeerExecutionId) (last sequence : N)
    (observations : list PeerObservation) : txn (list PeerObservation) :=
  match fuel with
  | 0%nat => mret observations
  | S fuel =>
      if (last <? sequence)%N then mret observations
      else
        key ← lift (observation_key execution sequence);
        row ← get PEER_OBSERVATIONS key;
        bytes ← lift (ok_or row (peer_corruption "peer observation head has a missing row"));
        observation ← lift (decode bytes "peer observation");
        guard_if (bool_decide (ob_execution observation ≠ execution)
                  || negb (ob_sequence observation =? sequence)%N)
          (peer_corruption "peer observation key disagrees with its document") ;;
        observation_loop fuel execution last (saturating_add sequence 1) (observations ++ [observation])
  end.
Definition peer_observations (owner : ServingCaller) (execution : PeerExecutionId)
    (after_sequence limit : N) : txn PeerObservationPage :=
  begin_read ;;
  found ← read_snapshot execution;
  snapshot ← lift (ok_or (owned_snapshot owner found) (peer_missing "peer_execution" execution));
  guard_if (ps_last_observation_sequence snapshot <? after_sequence)%N
    (PeInvalidCursor "peer observation cursor is beyond the durable head") ;;
  match snapshot with
  | SnapshotArchived _ => mret (mkPeerObservationPage snapshot [])
  | SnapshotHot record =>
      open_table PEER_OBSERVATIONS ;;
      observations ← observation_loop (N.to_nat limit) execution (px_last_observation_sequence record)
        (saturating_add after_sequence 1) [];
      mret (mkPeerObservationPage snapshot observations)
  end.
Definition peer_observation_artifact (execution : PeerExecutionId) (sequence : N)
    : txn (option ArtifactReference) :=
  begin_read ;;
  key ← lift (observation_key execution sequence);
  snapshot ← read_snapshot execution;
  match snapshot with
  | Some (SnapshotArchived record) =>
      mret (observation ← List.find (λ observation, ob_sequence observation =? sequence)%N
              (tm_output_observations record);
            snd <$> ob_output observation)
  | _ =>
      open_table PEER_OBSERVATION_ARTIFACTS ;;
      row ← get PEER_OBSERVATION_ARTIFACTS key;
      lift (decode_row row "peer observation artifact")
  end.

(** ** Observations ([peer.rs]) *)

Definition replay_observation (record : PeerExecutionRecord) (observation : PeerObservation)
    : txn PeerObservationAppend :=
  key ← lift (observation_key (ob_execution observation) (ob_sequence observation));
  open_table PEER_OBSERVATIONS ;;
  row ← get PEER_OBSERVATIONS key;
  bytes ← lift (ok_or row (peer_corruption "peer replay sequence is missing its row"));
  existing ← lift (decode bytes "peer observation");
  guard_if (bool_decide (existing ≠ observation))
    (PeImmutableConflict "peer_observation"
      (ob_execution observation +:+ ":" +:+ show_N (ob_sequence observation))) ;;
  mret (ObservationReplayed record).
Definition phase_allows (phase : PeerExecutionPhase) (is_terminal : bool) : bool :=
  match phase with
  | PhEntered _ _ | PhUncertain _ _ => true
  | PhCancellation _ evidence => is_some evidence || is_terminal
  | PhClaimed _ => is_terminal
  | PhAvailable _ | PhTerminal _ _ => false
  end.
Definition exceeds (allowance base extra : N) : bool :=
  is_none_or (λ total, allowance <? total)%N (checked_add base extra).
(** The checks of a next observation, to the output it charges. *)
Definition check_observation (record : PeerExecutionRecord) (observation : PeerObservation)
    : result PersistenceError (option N) :=
  let is_terminal := is_some (ob_terminal observation) in
  let limits := sq_limits (px_request record) in
  refuse_if (negb (ob_sequence observation =? saturating_add (px_last_observation_sequence record) 1)%N)
    (PeInvalidCursor "peer observation sequence is not contiguous") ;;
  refuse_if ((el_observations limits <? ob_sequence observation)%N
             || ((ob_sequence observation =? el_observations limits)%N && negb is_terminal))
    (PeBounds "peer_observations" "accepted observation quota is exhausted") ;;
  refuse_if (negb (phase_allows (px_phase record) is_terminal))
    (PeImmutableConflict "peer_execution_phase" (ob_execution observation)) ;;
  output_size ← match ob_output observation with
    | None => Ok None
    | Some (_, artifact) =>
        size ← ok_or (ar_size_bytes artifact)
          (PeBounds "peer_observation_artifact" "peer output artifact requires an exact byte size");
        Ok (Some size)
    end;
  refuse_if (is_some_and (exceeds (el_artifact_bytes limits) (pa_artifact_bytes (px_accounting record)))
               output_size)
    (PeBounds "peer_execution_artifact_bytes"
      "cumulative input and output artifacts exceed the accepted quota") ;;
  Ok output_size.
Definition count_output (record : PeerExecutionRecord) (output_size : option N)
    : result PersistenceError PeerExecutionRecord :=
  if is_some output_size then
    outputs ← ok_or (count ← checked_add_u32 (pa_outputs (px_accounting record)) 1;
                     if (count <=? 256)%N then Some count else None)
      (PeBounds "peer_output_manifest" "accepted execution already retains 256 named outputs");
    Ok (record <| px_accounting ::= λ a, a <| pa_outputs := outputs |> |>)
  else Ok record.
Definition append_output (record : PeerExecutionRecord) (observation : PeerObservation) (key : string)
    (output_size : option N) : txn PeerExecutionRecord :=
  match ob_output observation with
  | None => mret record
  | Some (_, artifact) =>
      size ← lift (ok_or output_size
        (peer_corruption "peer output artifact size disappeared after validation"));
      bytes ← lift (encode artifact "peer observation artifact");
      open_table PEER_OBSERVATION_ARTIFACTS ;;
      insert_row PEER_OBSERVATION_ARTIFACTS key bytes ;;
      total ← lift (ok_or (checked_add (pa_artifact_bytes (px_accounting record)) size)
        (peer_corruption "peer artifact accounting overflowed"));
      mret (record <| px_accounting ::= λ a, a <| pa_artifact_bytes := total |> |>)
  end.
(** The usage a terminal reports. *)
Definition charge_usage (record : PeerExecutionRecord) (observation : PeerObservation)
    : result PersistenceError PeerExecutionRecord :=
  let limits := sq_limits (px_request record) in
  match terminal ← ob_terminal observation; it_usage terminal with
  | None => Ok record
  | Some usage =>
      refuse_if (negb (permits_usage limits usage)
                 || is_some_and (λ nested, exceeds (el_artifact_bytes limits)
                      (pa_artifact_bytes (px_accounting record)) (nw_artifact_bytes nested))
                      (us_nested_work usage))
        (PeInvalidDocument "terminal usage exceeds the accepted serving allowance") ;;
      Ok (record <| px_accounting ::= λ a, a <| pa_duration_ms := us_duration_ms usage |>
                                             <| pa_cost_micros := us_cost_micros usage |> |>)
  end.
Definition advance_history (record : PeerExecutionRecord) (observation : PeerObservation) (bytes : Bytes)
    : result PersistenceError PeerExecutionRecord :=
  digest ← observation_link_digest (px_observation_digest record) bytes;
  observations ← ok_or (checked_add_u32 (pa_observations (px_accounting record)) 1)
    (peer_corruption "peer observation accounting overflowed");
  Ok (record <| px_last_observation_sequence := ob_sequence observation |>
             <| px_observation_digest := digest |>
             <| px_accounting ::= λ a, a <| pa_observations := observations |> |>).
(** A terminal observation releases the resources, the indexes and the active counts of
    the phase it ends. *)
Definition terminalize (record : PeerExecutionRecord) (observation : PeerObservation)
    : txn PeerExecutionRecord :=
  let execution := ob_execution observation in
  let phase := px_phase record in
  terminal_serving_resources record ;;
  let was_uncertain_at := match phase with PhUncertain at_ _ => Some at_ | _ => None end in
  let was_pre_entry := negb (is_some (entry_evidence phase)) && negb (is_some was_uncertain_at) in
  match phase_claim phase with
  | Some claim => remove_claim_index execution claim
  | None =>
      if was_pre_entry then
        key ← lift (available_key record);
        open_table PEER_DISPATCH_AVAILABLE ;;
        removed ← remove_row PEER_DISPATCH_AVAILABLE key;
        guard_if (bool_decide (removed ≠ Some execution))
          (peer_corruption "pre-entry peer terminalization lacks its dispatch index")
      else mret tt
  end ;;
  match was_uncertain_at with
  | Some uncertain_at => remove_terminal_index execution uncertain_at
  | None => mret tt
  end ;;
  let record := record <| px_phase :=
    PhTerminal (ob_sequence observation) (ob_observed_at_unix_ms observation) |> in
  (if phase_is_active phase then release_active_accounting (px_caller record) was_pre_entry else mret tt) ;;
  insert_terminal_index record (ob_observed_at_unix_ms observation) ;;
  mret record.
Definition append_next (record : PeerExecutionRecord) (observation : PeerObservation)
    : txn PeerObservationAppend :=
  output_size ← lift (check_observation record observation);
  record ← lift (count_output record output_size);
  key ← lift (observation_key (ob_execution observation) (ob_sequence observation));
  bytes ← lift (encode observation "peer observation");
  open_table PEER_OBSERVATIONS ;;
  replaced ← insert_row PEER_OBSERVATIONS key bytes;
  guard_if (is_some replaced) (peer_corruption "peer observation append replaced a prior row") ;;
  record ← append_output record observation key output_size;
  record ← lift (charge_usage record observation);
  record ← lift (advance_history record observation bytes);
  record ← (if is_some (ob_terminal observation) then terminalize record observation else mret record);
  record ← lift (bump_record record);
  put_execution record ;;
  check_fault BeforePeerObservationCommit ;;
  commit ;;
  check_fault AfterPeerObservationCommit ;;
  mret (ObservationAppended record).
Definition append_peer_observation (owner : ServingCaller) (execution : PeerExecutionId)
    (observation : PeerObservation) : txn PeerObservationAppend :=
  lift (map_err (λ cause, peer_invalid (to_text cause)) (PeerObservation_validate observation)) ;;
  guard_if (bool_decide (ob_execution observation ≠ execution))
    (peer_invalid "peer observation targets a different execution") ;;
  begin_write ;;
  record ← owned_execution_in_transaction owner execution;
  if (ob_sequence observation <=? px_last_observation_sequence record)%N
  then replay_observation record observation
  else append_next record observation.

(** ** Cancellation ([peer.rs]) *)

Definition cancelled_phase (record : PeerExecutionRecord) : txn PeerExecutionPhase :=
  match px_phase record with
  | PhAvailable _ => mret (PhCancellation None None)
  | PhClaimed claim =>
      remove_claim_index (px_execution record) claim ;;
      insert_available record ;;
      mret (PhCancellation None None)
  | PhEntered claim evidence => mret (PhCancellation (Some claim) (Some evidence))
  | PhCancellation _ _ => fail (peer_corruption "peer cancellation phase lacks cancellation facts")
  | PhTerminal _ _ | PhUncertain _ _ => mret (px_phase record)
  end.
Definition request_peer_cancellation (owner : ServingCaller) (request : PeerCancellationRequest)
    (requested_at_unix_ms : N) : txn PeerExecutionRecord :=
  guard_if ((xc_sequence request =? 0)%N || is_empty (xc_reason request)
            || (512 <? strlen (xc_reason request))%N || (requested_at_unix_ms =? 0)%N)
    (peer_invalid "peer cancellation request is invalid") ;;
  begin_write ;;
  record ← owned_execution_in_transaction owner (xc_execution request);
  match px_cancellation record with
  | Some existing =>
      guard_if (bool_decide (xr_request existing ≠ request))
        (PeImmutableConflict "peer_cancellation" (xc_execution request)) ;;
      mret record
  | None =>
      phase ← cancelled_phase record;
      record ← lift (bump_record (record <| px_phase := phase |>
        <| px_cancellation := Some (mkCancellationRecord request requested_at_unix_ms None None) |>));
      put_execution record ;;
      commit ;;
      mret record
  end.
Definition acknowledge_peer_cancellation (owner : ServingCaller)
    (acknowledgement : PeerCancellationAcknowledgement) (acknowledged_at_unix_ms : N)
    : txn PeerExecutionRecord :=
  lift (map_err (λ cause, peer_invalid (to_text cause))
    (PeerCancellationAcknowledgement_validate acknowledgement)) ;;
  guard_if (acknowledged_at_unix_ms =? 0)%N
    (peer_invalid "peer cancellation acknowledgement time must be nonzero") ;;
  begin_write ;;
  let execution := xa_execution acknowledgement in
  record ← owned_execution_in_transaction owner execution;
  cancellation ← lift (ok_or (px_cancellation record)
    (PeImmutableConflict "peer_cancellation_request" execution));
  guard_if (bool_decide (xc_request_id (xr_request cancellation) ≠ xa_request_id acknowledgement))
    (PeImmutableConflict "peer_cancellation_request" execution) ;;
  match xr_acknowledgement cancellation with
  | Some existing =>
      guard_if (bool_decide (existing ≠ acknowledgement))
        (PeImmutableConflict "peer_cancellation_acknowledgement" execution) ;;
      mret record
  | None =>
      record ← lift (bump_record (record <| px_cancellation := Some (mkCancellationRecord
        (xr_request cancellation) (xr_requested_at_unix_ms cancellation) (Some acknowledgement)
        (Some acknowledged_at_unix_ms)) |>));
      put_execution record ;;
      commit ;;
      mret record
  end.
End peers.
