(* ===== verification/PeerIntegrity.v ===== *)
(** * Integrity of the serving executions ([adapters/redb-store/src/peer/integrity.rs])

    The whole-store check a serving installation runs when it starts: every primary
    record against its location, its request, its history and its index rows, and every
    counter against what the rows add up to. *)
From S2P Require Import Prelude Effects Contracts Capability Blueprint Authority.
From S2P Require Import Model Workspace Persistence Dispatch Managed PeerProtocol Storage ManagedStore PeerStore.

(** The running counts of [verify]. *)
Record Tally := mkTally {
  ty_active_by_peer : list (ServingCaller * N);
  ty_dispatch : N;
  ty_hot_terminal : N;
  ty_available : N;
  ty_claims : N;
  ty_terminal : N;
  ty_observations : N;
  ty_artifacts : N
}.
#[global] Instance eta_Tally : Settable Tally := λ t,
  mkTally (ty_active_by_peer t) (ty_dispatch t) (ty_hot_terminal t) (ty_available t) (ty_claims t)
    (ty_terminal t) (ty_observations t) (ty_artifacts t).
Definition empty_tally : Tally := mkTally [] 0 0 0 0 0 0 0.

(** [active_by_peer.entry(caller).or_default()] and [remove]: a map with few entries. *)
Fixpoint peer_count (caller : ServingCaller) (counts : list (ServingCaller * N)) : N :=
  match counts with
  | [] => 0
  | (peer, count) :: counts => if bool_decide (peer = caller) then count else peer_count caller counts
  end.
Definition remove_peer (caller : ServingCaller) (counts : list (ServingCaller * N))
    : list (ServingCaller * N) := List.filter (λ entry, bool_decide (entry.1 ≠ caller)) counts.
Definition saturating_u32 (n : N) : N := N.min (n + 1) u32_max.
Definition saturating_u64 (n : N) : N := saturating_add n 1.
Definition add_active (record : PeerExecutionRecord) (tally : Tally) : result PersistenceError Tally :=
  if phase_is_active (px_phase record) then
    let counts := ty_active_by_peer tally in
    count ← ok_or (checked_add_u32 (peer_count (px_caller record) counts) 1)
      (peer_corruption "peer integrity per-peer count overflowed");
    Ok (tally <| ty_active_by_peer := (px_caller record, count) :: remove_peer (px_caller record) counts |>)
  else Ok tally.

Section integrity.
Context {O : Type} `{engine : !Engine O, managed : !ManagedCodec, codec : !PeerCodec}.
Abbreviation txn := (st (Redb O) PersistenceError).

Definition verify_index (index : Table string) (key execution : string) (message : string) : txn () :=
  row ← get index key;
  guard_if (bool_decide (row ≠ Some execution)) (peer_corruption message).
Definition verify_claim_index (record : PeerExecutionRecord) (claim : PeerDispatchClaim) : txn () :=
  key ← lift (claim_key (px_execution record) claim);
  verify_index PEER_ACTIVE_CLAIMS key (px_execution record) "peer active-claim index is inconsistent".
Definition verify_terminal_index (record : PeerExecutionRecord) (terminal_at : N) : txn () :=
  key ← lift (ordered_key terminal_at (px_execution record));
  verify_index PEER_TERMINAL_INDEX key (px_execution record) "peer hot-terminal index is inconsistent".

Definition verify_host : txn (option PeerId) :=
  open_table SERVING_HOST_IDENTITY ;;
  row ← get SERVING_HOST_IDENTITY "host";
  host ← match row with
    | None => mret None
    | Some value =>
        host ← lift (map_err (λ _, peer_corruption "invalid serving host identity")
          (capability_identity "PeerId" 128 value));
        mret (Some host)
    end;
  count ← table_len SERVING_HOST_IDENTITY;
  guard_if (negb (count =? (if is_some host then 1 else 0))%N)
    (peer_corruption "invalid serving host identity membership") ;;
  mret host.
Definition verify_relationships (host : option PeerId) : txn () :=
  open_table PEER_RELATIONSHIPS ;;
  all ← row_list PEER_RELATIONSHIPS;
  each_st (λ row,
    call ;;
    state ← lift (decode row.2 "peer relationship");
    lift (validate_relationship state) ;;
    guard_if (bool_decide (host ≠ Some (sc_host (cr_caller state)))
              || bool_decide (row.1 ≠ storage_key (cr_caller state)))
      (peer_corruption "serving caller belongs to another installation or key")) all.
Definition verify_catalogs (host : option PeerId) : txn () :=
  open_table PEER_CATALOGS ;;
  all ← row_list PEER_CATALOGS;
  each_st (λ row,
    call ;;
    state ← lift (decode row.2 "peer catalog");
    lift (validate_catalog state) ;;
    let refused := peer_corruption "serving catalog has no exact caller installation" in
    guard_if (bool_decide (host ≠ Some (sc_host (cg_caller state)))
              || bool_decide (row.1 ≠ storage_key (cg_caller state))) refused ;;
    caller ← get PEER_RELATIONSHIPS row.1;
    guard_if (negb (is_some caller)) refused) all.

(** One retained observation: the digest so far, the outputs and the artifact rows seen. *)
Definition verify_observation (record : PeerExecutionRecord) (acc : string * N * N) (sequence : N)
    : txn (string * N * N) :=
  let '(digest, outputs, artifacts) := acc in
  key ← lift (observation_key (px_execution record) sequence);
  row ← get PEER_OBSERVATIONS key;
  stored ← lift (ok_or row (peer_corruption "peer hot observation history has a missing row"));
  observation ← lift (decode stored "peer observation");
  guard_if (bool_decide (ob_execution observation ≠ px_execution record)
            || negb (ob_sequence observation =? sequence)%N)
    (peer_corruption "peer observation row key/document integrity is inconsistent") ;;
  stored_artifact ← get PEER_OBSERVATION_ARTIFACTS key;
  '(outputs, artifacts) ← match ob_output observation, stored_artifact with
    | Some (_, expected), Some bytes =>
        reference ← lift (decode bytes "peer observation artifact");
        guard_if (bool_decide (reference ≠ expected))
          (peer_corruption "peer observation artifact mapping is inconsistent") ;;
        artifacts ← lift (ok_or (checked_add artifacts 1)
          (peer_corruption "peer integrity artifact mapping count overflowed"));
        mret (outputs + 1, artifacts)%N
    | None, None => mret (outputs, artifacts)
    | _, _ => fail (peer_corruption "peer observation artifact mapping presence is inconsistent")
    end;
  digest ← lift (observation_link_digest digest stored);
  mret (digest, outputs, artifacts).
Definition verify_history (record : PeerExecutionRecord) (tally : Tally) : txn Tally :=
  observations ← lift (ok_or (checked_add (ty_observations tally) (px_last_observation_sequence record))
    (peer_corruption "peer integrity observation count overflowed"));
  '(digest, outputs, artifacts) ← fold_st (verify_observation record)
    (observation_genesis_digest, 0%N, ty_artifacts tally) (sequences (px_last_observation_sequence record));
  guard_if (negb (outputs =? pa_outputs (px_accounting record))%N)
    (peer_corruption "peer output count differs from retained observations") ;;
  guard_if (bool_decide (digest ≠ px_observation_digest record))
    (peer_corruption "peer observation history digest is inconsistent") ;;
  mret (tally <| ty_observations := observations |> <| ty_artifacts := artifacts |>).
(** The counts and the index row each phase asks for. *)
Definition verify_phase (record : PeerExecutionRecord) (tally : Tally) : txn Tally :=
  let available :=
    key ← lift (available_key record);
    verify_index PEER_DISPATCH_AVAILABLE key (px_execution record)
      "peer dispatch-available index is inconsistent" ;;
    mret (tally <| ty_dispatch ::= saturating_u32 |> <| ty_available ::= saturating_u64 |>) in
  let finished at_ :=
    verify_terminal_index record at_ ;;
    mret (tally <| ty_hot_terminal ::= saturating_u64 |> <| ty_terminal ::= saturating_u64 |>) in
  match px_phase record with
  | PhAvailable _ | PhCancellation None None => available
  | PhClaimed claim =>
      verify_claim_index record claim ;;
      mret (tally <| ty_dispatch ::= saturating_u32 |> <| ty_claims ::= saturating_u64 |>)
  | PhEntered claim _ | PhCancellation (Some claim) _ =>
      verify_claim_index record claim ;;
      mret (tally <| ty_claims ::= saturating_u64 |>)
  | PhTerminal _ at_ => finished at_
  | PhUncertain at_ _ => finished at_
  | PhCancellation None (Some _) =>
      fail (peer_corruption "peer cancellation phase has inconsistent claim evidence")
  end.
Definition verify_hot_record (host : option PeerId) (tally : Tally) (row : string * Bytes) : txn Tally :=
  call ;;
  record ← lift (decode_peer_record row.2);
  let execution := px_execution record in
  guard_if (bool_decide (host ≠ Some (sc_host (px_caller record))))
    (peer_corruption "accepted invocation belongs to another serving installation") ;;
  let refused := peer_corruption "peer hot record key/location/tombstone ownership is inconsistent" in
  guard_if (bool_decide (row.1 ≠ execution)) refused ;;
  location ← get PEER_EXECUTION_LOCATIONS execution;
  guard_if (bool_decide (location ≠ Some LOCATION_HOT)) refused ;;
  archived ← get PEER_EXECUTION_TOMBSTONES execution;
  guard_if (is_some archived) refused ;;
  key ← lift (request_key (px_caller record) (sq_request_id (px_request record)));
  verify_index PEER_EXECUTIONS_BY_REQUEST key execution "peer hot record request index is inconsistent" ;;
  tally ← verify_history record tally;
  tally ← lift (add_active record tally);
  verify_phase record tally.
Definition verify_tombstone_row (host : option PeerId) (count : N) (row : string * Bytes) : txn N :=
  call ;;
  tombstone ← lift (decode_tombstone row.2);
  let execution := tm_execution tombstone in
  guard_if (bool_decide (host ≠ Some (sc_host (tm_caller tombstone))))
    (peer_corruption "archived invocation belongs to another serving installation") ;;
  let refused := peer_corruption "peer tombstone key/location/hot ownership is inconsistent" in
  guard_if (bool_decide (row.1 ≠ execution)) refused ;;
  location ← get PEER_EXECUTION_LOCATIONS execution;
  guard_if (bool_decide (location ≠ Some LOCATION_ARCHIVED)) refused ;;
  hot ← get PEER_EXECUTIONS execution;
  guard_if (is_some hot) refused ;;
  key ← lift (request_key (tm_caller tombstone) (tm_request_id tombstone));
  verify_index PEER_EXECUTIONS_BY_REQUEST key execution "peer tombstone request index is inconsistent" ;;
  (if (0 <? tm_last_observation_sequence tombstone)%N then
     let retained := peer_corruption "archived peer execution retained a compacted hot observation row" in
     last ← lift (observation_key execution (tm_last_observation_sequence tombstone));
     row ← get PEER_OBSERVATIONS last;
     guard_if (is_some row) retained ;;
     artifact ← get PEER_OBSERVATION_ARTIFACTS last;
     guard_if (is_some artifact) retained
   else mret tt) ;;
  mret (saturating_u64 count).

Definition drifted : PersistenceError :=
  peer_corruption "peer global counters or primary index cardinality drifted".
Definition verify_len {V} (table : Table V) (expected : N) : txn () :=
  len ← table_len table; guard_if (negb (len =? expected)%N) drifted.
Definition active_total (counts : list (ServingCaller * N)) : result PersistenceError N :=
  try_fold (λ total entry, ok_or (checked_add_u32 total entry.2)
    (peer_corruption "peer integrity active count overflowed")) 0%N counts.
Definition verify_counters (global : GlobalPeerAccounting) (tally : Tally) (tombstones : N) : txn () :=
  active ← lift (active_total (ty_active_by_peer tally));
  guard_if (negb (active =? gp_active global)%N
            || negb (ty_dispatch tally =? gp_dispatch_queued global)%N
            || negb (ty_hot_terminal tally =? gp_hot_terminal global)%N
            || negb (tombstones =? gp_tombstones global)%N) drifted ;;
  verify_len PEER_DISPATCH_AVAILABLE (ty_available tally) ;;
  verify_len PEER_ACTIVE_CLAIMS (ty_claims tally) ;;
  verify_len PEER_TERMINAL_INDEX (ty_terminal tally) ;;
  verify_len PEER_OBSERVATIONS (ty_observations tally) ;;
  verify_len PEER_OBSERVATION_ARTIFACTS (ty_artifacts tally) ;;
  verify_len PEER_EXECUTIONS (saturating_add (gp_active global) (gp_hot_terminal global)) ;;
  locations ← table_len PEER_EXECUTION_LOCATIONS;
  hot ← table_len PEER_EXECUTIONS;
  guard_if (negb (locations =? saturating_add hot tombstones)%N) drifted ;;
  requests ← table_len PEER_EXECUTIONS_BY_REQUEST;
  locations ← table_len PEER_EXECUTION_LOCATIONS;
  guard_if (negb (requests =? locations)%N) drifted.
Definition verify_peer_indexes : txn () :=
  open_table PEER_EXECUTIONS_BY_REQUEST ;;
  all ← row_list PEER_EXECUTIONS_BY_REQUEST;
  each_st (λ row,
    call ;;
    snapshot ← snapshot_in_transaction_text row.2;
    key ← lift (request_key (ps_caller snapshot) (ps_request_id snapshot));
    guard_if (bool_decide (key ≠ row.1))
      (peer_corruption "peer request index key disagrees with its authority")) all ;;
  open_table PEER_EXECUTION_LOCATIONS ;;
  all ← row_list PEER_EXECUTION_LOCATIONS;
  each_st (λ row,
    call ;;
    snapshot ← snapshot_in_transaction_text row.1;
    guard_if (negb match snapshot with
                   | SnapshotHot _ => (row.2 =? LOCATION_HOT)%N
                   | SnapshotArchived _ => (row.2 =? LOCATION_ARCHIVED)%N
                   end)
      (peer_corruption "peer execution location points at the wrong authority")) all.
Definition verify_per_peer_accounting (active_by_peer : list (ServingCaller * N)) : txn () :=
  open_table PEER_EXECUTION_ACCOUNTING ;;
  all ← row_list PEER_EXECUTION_ACCOUNTING;
  rest ← fold_st (λ counts row,
    call ;;
    if bool_decide (row.1 = PEER_EXECUTION_GLOBAL_ACCOUNTING_KEY) then mret counts
    else
      value ← lift (decode (T := PerPeerAccounting) row.2 "peer relationship accounting");
      guard_if (bool_decide (storage_key (pr_peer value) ≠ row.1)
                || negb (pr_schema_version value =? PEER_ACCOUNTING_SCHEMA_VERSION)%N)
        (peer_corruption "per-peer accounting row key/schema is inconsistent") ;;
      guard_if (negb (peer_count (pr_peer value) counts =? pr_active value)%N)
        (peer_corruption "per-peer active accounting drifted") ;;
      mret (remove_peer (pr_peer value) counts)) active_by_peer all;
  guard_if (bool_decide (rest ≠ [])) (peer_corruption "active peer record has no per-peer accounting").
Definition verify_peer_execution_integrity : txn () :=
  begin_read ;;
  host ← verify_host;
  verify_relationships host ;;
  verify_catalogs host ;;
  global ← global_accounting;
  open_table PEER_EXECUTIONS ;; open_table PEER_EXECUTION_TOMBSTONES ;;
  open_table PEER_EXECUTION_LOCATIONS ;; open_table PEER_EXECUTIONS_BY_REQUEST ;;
  open_table PEER_DISPATCH_AVAILABLE ;; open_table PEER_ACTIVE_CLAIMS ;;
  open_table PEER_TERMINAL_INDEX ;; open_table PEER_OBSERVATIONS ;;
  open_table PEER_OBSERVATION_ARTIFACTS ;;
  hot ← row_list PEER_EXECUTIONS;
  tally ← fold_st (verify_hot_record host) empty_tally hot;
  archived ← row_list PEER_EXECUTION_TOMBSTONES;
  tombstones ← fold_st (verify_tombstone_row host) 0%N archived;
  verify_counters global tally tombstones ;;
  verify_peer_indexes ;;
  verify_per_peer_accounting (ty_active_by_peer tally).
End integrity.
