(* ===== verification/Domains.v ===== *)
(** * Artifact accounting domains ([adapters/redb-store/src/artifact])

    The key space of artifact owners ([owner.rs]), their immutable budgets and
    cumulative usage ([domain.rs]), and the publication and accounting documents of
    [artifact.rs] and [accounting.rs] that task storage reads. *)
From S2P Require Import Prelude Effects Contracts Capability Blueprint Authority.
From S2P Require Import Workspace Persistence Storage.

Abbreviation ArtifactPublicationId := string (only parsing).

Definition PUBLICATION_SCHEMA_VERSION : N := 3.
Definition ARTIFACT_ACCOUNTING_SCHEMA_VERSION : N := 3.
Definition GLOBAL_ARTIFACT_BYTES_KEY : string := "artifact_content_bytes".

Inductive PublicationState :=
| PubWritable
| PubCommitted (content_deduplicated : bool)
| PubReleased.
Record PublicationRecord := mkPublication {
  pb_schema_version : N;
  pb_publication : ArtifactPublicationId;
  pb_owner : ArtifactOwner;
  pb_metadata : ArtifactMetadata;
  pb_budget : WorkspaceBudget;
  pb_expected_usage : WorkspaceUsage;
  pb_resulting_usage : WorkspaceUsage;
  pb_task_output_limit : option N;
  pb_created_at_millis : N;
  pb_state : PublicationState
}.
#[global] Instance eta_PublicationRecord : Settable PublicationRecord := λ r,
  mkPublication (pb_schema_version r) (pb_publication r) (pb_owner r) (pb_metadata r) (pb_budget r)
    (pb_expected_usage r) (pb_resulting_usage r) (pb_task_output_limit r) (pb_created_at_millis r)
    (pb_state r).
Record ArtifactAccountingRecord := mkArtifactAccounting {
  aa_schema_version : N;
  aa_committed_content_bytes : N
}.
Definition ArtifactAccountingRecord_EMPTY : ArtifactAccountingRecord :=
  mkArtifactAccounting ARTIFACT_ACCOUNTING_SCHEMA_VERSION 0.

#[global] Instance PublicationState_eq_dec : EqDecision PublicationState.
Proof. solve_decision. Defined.
#[global] Instance PublicationRecord_eq_dec : EqDecision PublicationRecord.
Proof. solve_decision. Defined.
#[global] Instance ArtifactAccountingRecord_eq_dec : EqDecision ArtifactAccountingRecord.
Proof. solve_decision. Defined.

(** The derived encoders and readers of these documents. *)
Class DomainCodec := {
  dcodec_owner :: Serialize ArtifactOwner;
  owner_from_str : string → result string ArtifactOwner;
  dcodec_budget :: Stored WorkspaceBudget;
  dcodec_usage :: Stored WorkspaceUsage;
  dcodec_publication :: Stored PublicationRecord;
  dcodec_artifacts :: Stored ArtifactAccountingRecord
}.

Section domains.
Context {O : Type} `{!Engine O, !Blake3, !DomainCodec}.
Abbreviation txn := (st (Redb O) PersistenceError).

(** ** Owner keys ([owner.rs]) *)

Definition domain_key (owner : ArtifactOwner) : result PersistenceError string :=
  match owner with
  | OwnerWorkflow run => Ok run
  | _ => map_err (λ cause, corruption ("artifact owner encoding failed: " +:+ cause)) (to_vec owner)
  end.
Definition domain_owner (key : string) : result PersistenceError ArtifactOwner :=
  owner ←
    (if bool_decide (String.get 0 key = Some "{"%char) then
       map_err (λ cause, corruption ("invalid artifact owner: " +:+ cause)) (owner_from_str key)
     else
       run ← map_err (λ cause, corruption ("invalid artifact workflow owner: " +:+ to_text cause))
         (RunId_new key);
       Ok (OwnerWorkflow run));
  canonical ← domain_key owner;
  refuse_if (bool_decide (canonical ≠ key)) (corruption "noncanonical artifact owner key") ;;
  Ok owner.

(** ** Budgets and usage ([domain.rs]) *)

Definition usage_within (budget : WorkspaceBudget) (usage : WorkspaceUsage)
    (error : string → PersistenceError) : result PersistenceError () :=
  map_err (λ cause, error (to_text cause)) (validate_usage budget usage).
Definition workspace_domain_in_transaction (owner : ArtifactOwner)
    : txn (option (WorkspaceBudget * WorkspaceUsage)) :=
  key ← lift (domain_key owner);
  open_table WORKSPACE_BUDGETS ;;
  row ← get WORKSPACE_BUDGETS key;
  budget ← lift (decode_row row "workspace budget");
  open_table WORKSPACE_USAGE ;;
  row ← get WORKSPACE_USAGE key;
  usage ← lift (decode_row row "workspace usage");
  lift match budget, usage with
    | None, None => Ok None
    | Some budget, Some usage =>
        usage_within budget usage (λ cause, corruption ("workspace usage exceeds its budget: " +:+ cause)) ;;
        Ok (Some (budget, usage))
    | _, _ => Err (corruption "workspace budget and usage records are incomplete")
    end.
Definition present_domain (owner : ArtifactOwner) : txn (WorkspaceBudget * WorkspaceUsage) :=
  domain ← workspace_domain_in_transaction owner;
  lift (ok_or domain (corruption "workspace accounting domain is absent")).
Definition persist_workspace_value_usage_accounting_in_transaction (owner : ArtifactOwner)
    (usage : WorkspaceUsage) : txn () :=
  '(_, stored) ← present_domain owner;
  guard_if (bool_decide (stored ≠ usage))
    (corruption "workspace usage argument disagrees with its durable document").
Definition validate_workspace_domain_in_transaction (owner : ArtifactOwner)
    (supplied : WorkspaceBudget) : txn WorkspaceUsage :=
  '(budget, usage) ← present_domain owner;
  (if bool_decide (budget = supplied) then mret tt
   else key ← lift (domain_key owner); fail (PeImmutableConflict "workspace_budget" key)) ;;
  lift (usage_within budget usage
    (λ cause, corruption ("workspace usage exceeds its durable budget: " +:+ cause))) ;;
  mret usage.
Definition validate_or_initialize_workspace_domain (owner : ArtifactOwner)
    (supplied : WorkspaceBudget) : txn WorkspaceUsage :=
  key ← lift (domain_key owner);
  domain ← workspace_domain_in_transaction owner;
  match domain with
  | None =>
      lift (usage_within supplied WorkspaceUsage_EMPTY (λ cause,
        PeInvalidDocument ("empty workspace usage violates the supplied budget: " +:+ cause))) ;;
      budget_bytes ← lift (encode supplied "workspace budget");
      usage_bytes ← lift (encode WorkspaceUsage_EMPTY "workspace usage");
      open_table WORKSPACE_BUDGETS ;; insert_row WORKSPACE_BUDGETS key budget_bytes ;;
      open_table WORKSPACE_USAGE ;; insert_row WORKSPACE_USAGE key usage_bytes ;;
      mret WorkspaceUsage_EMPTY
  | Some _ => validate_workspace_domain_in_transaction owner supplied
  end.
Definition advance_workspace_global_usage_in_transaction (owner : ArtifactOwner)
    (expected resulting : WorkspaceUsage) : txn () :=
  '(budget, actual) ← present_domain owner;
  guard_if (bool_decide (actual ≠ expected))
    (corruption "workspace usage changed before artifact accounting advance") ;;
  lift (usage_within budget resulting
    (λ cause, PeInvalidDocument ("workspace usage exceeds budget: " +:+ cause))).
(** The same reads in a read transaction. *)
Definition validated_workspace_domain (owner : ArtifactOwner) : txn (option WorkspaceUsage) :=
  domain ← workspace_domain_in_transaction owner; mret (snd <$> domain).

(** ** Accounting documents ([artifact.rs], [accounting.rs]) *)

Definition pending_owner_bytes (owner : ArtifactOwner) : txn N :=
  open_table ARTIFACT_RESERVATIONS ;;
  key ← lift (domain_key owner);
  identity ← get ARTIFACT_RESERVATIONS key;
  match identity with
  | None => mret 0%N
  | Some identity =>
      open_table ARTIFACT_PUBLICATIONS ;;
      row ← get ARTIFACT_PUBLICATIONS identity;
      bytes ← lift (ok_or row (corruption "pending artifact reservation has no publication"));
      record ← lift (decode bytes "artifact publication");
      guard_if (bool_decide (pb_owner record ≠ owner) || bool_decide (pb_state record ≠ PubWritable))
        (corruption "pending artifact reservation disagrees with publication") ;;
      mret (ct_size_bytes (md_reference (pb_metadata record)))
  end.
Definition validate_artifact_state : txn ArtifactAccountingRecord :=
  open_table ARTIFACT_ACCOUNTING ;;
  count ← table_len ARTIFACT_ACCOUNTING;
  guard_if (negb (count =? 1)%N)
    (corruption "artifact accounting must contain exactly one checked document") ;;
  row ← get ARTIFACT_ACCOUNTING GLOBAL_ARTIFACT_BYTES_KEY;
  bytes ← lift (ok_or row (corruption "artifact accounting document is missing"));
  stored ← lift (decode bytes "artifact accounting");
  guard_if (negb (aa_schema_version stored =? ARTIFACT_ACCOUNTING_SCHEMA_VERSION)%N)
    (PeUnsupportedVersion "artifact_accounting" (aa_schema_version stored)
       ARTIFACT_ACCOUNTING_SCHEMA_VERSION) ;;
  mret stored.
(** [usage_covers] *)
Definition usage_covers (current historical : WorkspaceUsage) : bool :=
  (wu_value_versions historical <=? wu_value_versions current)%N
  && (wu_inline_bytes historical <=? wu_inline_bytes current)%N
  && (wu_artifacts historical <=? wu_artifacts current)%N
  && (wu_artifact_bytes historical <=? wu_artifact_bytes current)%N.
End domains.
