(* ===== verification/TaskStore.v ===== *)
(** * Task storage ([adapters/redb-store/src/task.rs], [task/capacity.rs])

    Atomic workflow snapshots, exact command receipts, and the one retained-history
    allowance that task facts, reservations, pending writes and artifact content
    share. *)
From S2P Require Import Prelude Effects Contracts Capability Blueprint Authority.
From S2P Require Import Workspace Persistence Dispatch Managed Storage ManagedStore Domains.

Definition ACTION_RECEIPT_BYTES : N := 8192.
Definition MAX_RECEIPT_RESULT_BYTES : N := 65536.
Definition MAX_WORKFLOW_PAGE_BYTES : N := 4194304.

Record Accounting := mkAccounting {
  ac_history_bytes : N;
  ac_receipt_bytes : N;
  ac_receipt_entries : N;
  ac_reserved_bytes : N;
  ac_reserved_receipts : N;
  ac_artifact_reserved_bytes : N;
  ac_pending_artifact_bytes : N
}.
#[global] Instance eta_Accounting : Settable Accounting := λ a,
  mkAccounting (ac_history_bytes a) (ac_receipt_bytes a) (ac_receipt_entries a) (ac_reserved_bytes a)
    (ac_reserved_receipts a) (ac_artifact_reserved_bytes a) (ac_pending_artifact_bytes a).
Definition Accounting_default : Accounting := mkAccounting 0 0 0 0 0 0 0.
Record TaskOutputUsage := mkOutputUsage { ou_limit : N; ou_bytes : N; ou_count : N }.
#[global] Instance Accounting_eq_dec : EqDecision Accounting.
Proof. solve_decision. Defined.
#[global] Instance TaskOutputUsage_eq_dec : EqDecision TaskOutputUsage.
Proof. solve_decision. Defined.

(** The encoders and readers of the documents of task storage; [D] is the runtime's
    document. *)
Class TaskCodec (D : Type) := {
  tcodec_document :: Serialize D;
  tcodec_acceptance :: Serialize WorkflowCommandAcceptance;
  tcodec_snapshot :: Stored (WorkflowSnapshot D);
  tcodec_receipt :: Stored WorkflowCommandReceipt;
  tcodec_accounting :: Stored Accounting;
  tcodec_output :: Stored TaskOutputUsage;
  value_from_slice : string → result string Value
}.

Definition task_bounds (reason : string) : PersistenceError := PeBounds "task_storage" reason.
(** [value.to_vec()?] *)
Definition json_bytes {A} `{!Serialize A} (value : A) : result PersistenceError string :=
  map_err PeJson (to_vec value).

Definition identity (value : string) : result PersistenceError () :=
  refuse_if (is_empty value || (512 <? strlen value)%N || has_control value)
    (task_bounds "task identity must contain 1..=512 bytes without control characters").
Definition receipt_key (actor key : string) : result PersistenceError string :=
  identity actor ;; identity key ;;
  Ok (show_N (strlen actor) +:+ ":" +:+ actor +:+ key).
Definition add (left right : N) : result PersistenceError N :=
  ok_or (checked_add left right) (task_bounds "task storage accounting overflow").
Definition replace (total old new : N) : result PersistenceError N :=
  rest ← ok_or (checked_sub total old) (corruption "task storage accounting underflow");
  add rest new.

Section tasks.
Context {O D : Type} `{!Engine O, !ManagedCodec, !DomainCodec, !TaskCodec D}.
Variable config : RedbStoreConfig.
Abbreviation txn := (st (Redb O) PersistenceError).

(** A request is canonical when parsing and writing it gives the same bytes. *)
Definition reencoded (request : string) : result PersistenceError string :=
  value ← map_err PeJson (value_from_slice request); json_bytes value.
Definition validate_command (command : WorkflowCommandAcceptance) : result PersistenceError () :=
  identity (wca_actor command) ;;
  identity (wca_key command) ;;
  let exceeds := task_bounds "workflow request or compact result exceeds its bound" in
  refuse_if (MAX_WORKFLOW_REQUEST_BYTES <? strlen (wca_canonical_request command))%N exceeds ;;
  answer ← json_bytes (wca_result command);
  refuse_if (MAX_RECEIPT_RESULT_BYTES <? strlen answer)%N exceeds ;;
  canonical ← reencoded (wca_canonical_request command);
  refuse_if (bool_decide (canonical ≠ wca_canonical_request command))
    (PeInvalidDocument "workflow request is not canonical JSON").
Definition validate (commit : WorkflowCommit D) : result PersistenceError () :=
  let snapshot := cm_snapshot commit in
  let invocations := sn_entered_invocations snapshot in
  refuse_if ((4096 <? vlen invocations)%N || negb (bool_decide (NoDup invocations)))
    (task_bounds "workflow entered invocation evidence must be unique and bounded") ;;
  expected ← ok_or (checked_add (default 0%N (cm_expected_generation commit)) 1)
    (task_bounds "workflow generation exhausted");
  refuse_if (negb (sn_generation snapshot =? expected)%N)
    (PeInvalidDocument "next workflow generation must increment exactly once") ;;
  identity (sn_owner_actor snapshot) ;;
  let exceeds := task_bounds "workflow document or discovery text exceeds its bound" in
  refuse_if (is_empty (sn_title snapshot) || (512 <? strlen (sn_title snapshot))%N
             || (65536 <? strlen (sn_description snapshot))%N) exceeds ;;
  document ← json_bytes (sn_document snapshot);
  refuse_if (MAX_WORKFLOW_DOCUMENT_BYTES <? strlen document)%N exceeds ;;
  match cm_command commit with Some command => validate_command command | None => Ok tt end.

(** ** Shared capacity ([task/capacity.rs]) *)

Definition output_key (owner : ArtifactOwner) (metadata : ArtifactMetadata)
    : result PersistenceError string :=
  run ← ok_or (owner_run owner) (task_bounds "task output has no workflow owner");
  match ap_producer (md_provenance metadata) with
  | CauseInvocation invocation => Ok (show_N (strlen run) +:+ ":" +:+ run +:+ invocation)
  | _ => Err (task_bounds "task output has no invocation producer")
  end.
Definition artifact_size (metadata : ArtifactMetadata) : N := ct_size_bytes (md_reference metadata).
Definition reserve_task_output (owner : ArtifactOwner) (metadata : ArtifactMetadata)
    (limit : option N) : txn () :=
  match limit with
  | None => mret tt
  | Some limit =>
      key ← lift (output_key owner metadata);
      open_table TASK_OUTPUT_USAGE ;;
      row ← get TASK_OUTPUT_USAGE key;
      stored ← lift (decode_row row "task output usage");
      let usage := default (mkOutputUsage limit 0 0) stored in
      guard_if (negb (ou_limit usage =? limit)%N)
        (task_bounds "task output ceiling changed after first publication") ;;
      used ← lift (add (ou_bytes usage) (artifact_size metadata));
      count ← lift (add (ou_count usage) 1);
      guard_if ((limit <? used)%N || (64 <? count)%N)
        (task_bounds "task cumulative output allowance exhausted") ;;
      bytes ← lift (encode (mkOutputUsage limit used count) "task output usage");
      insert_row TASK_OUTPUT_USAGE key bytes ;; mret tt
  end.
Definition release_task_output (owner : ArtifactOwner) (metadata : ArtifactMetadata)
    (limit : option N) : txn () :=
  if is_some limit then
    key ← lift (output_key owner metadata);
    open_table TASK_OUTPUT_USAGE ;;
    row ← get TASK_OUTPUT_USAGE key;
    stored ← lift (decode_row row "task output usage");
    usage ← lift (ok_or stored (corruption "task output reservation disappeared"));
    used ← lift (replace (ou_bytes usage) (artifact_size metadata) 0);
    count ← lift (replace (ou_count usage) 1 0);
    bytes ← lift (encode (mkOutputUsage (ou_limit usage) used count) "task output usage");
    insert_row TASK_OUTPUT_USAGE key bytes ;; mret tt
  else mret tt.
Definition committed_owner_bytes (owner : ArtifactOwner) : txn N :=
  domain ← workspace_domain_in_transaction owner;
  mret match domain with Some (_, usage) => wu_artifact_bytes usage | None => 0%N end.
Definition workflow_output_bytes (workflow : WorkflowId) : txn N :=
  run ← lift (map_err (λ error, PeInvalidDocument (to_text error)) (RunId_new workflow));
  let owner := OwnerWorkflow run in
  committed ← committed_owner_bytes owner;
  pending ← pending_owner_bytes owner;
  lift (add committed pending).
Definition owner_capacity (owner : ArtifactOwner) : txn N :=
  match owner_run owner with
  | None => mret 0%N
  | Some run =>
      open_table TASK_WORKFLOWS ;;
      row ← get TASK_WORKFLOWS run;
      snapshot ← lift (decode_row row "task workflow");
      mret (default 0%N (@sn_artifact_capacity D <$> snapshot))
  end.
Definition require_history_capacity (accounting : Accounting) (limit : N) : txn () :=
  physical ← validate_artifact_state;
  used ← lift (try_fold add 0%N [ac_history_bytes accounting; ac_reserved_bytes accounting;
    ac_artifact_reserved_bytes accounting; ac_pending_artifact_bytes accounting;
    aa_committed_content_bytes physical]);
  guard_if (limit <? used)%N
    (task_bounds "retained history, artifacts and accepted work reservations fill the storage allowance").
(** The accounting document of an open table. *)
Definition read_accounting : txn Accounting :=
  row ← get TASK_ACCOUNTING "global";
  stored ← lift (decode_row row "task accounting");
  lift (ok_or stored (corruption "task accounting is missing")).
Definition write_accounting (accounting : Accounting) : txn () :=
  bytes ← lift (encode accounting "task accounting");
  insert_row TASK_ACCOUNTING "global" bytes ;; mret tt.
Definition update (change : Accounting → result PersistenceError Accounting) (limit : option N)
    : txn () :=
  open_table TASK_ACCOUNTING ;;
  accounting ← read_accounting;
  accounting ← lift (change accounting);
  match limit with
  | Some limit => require_history_capacity accounting limit
  | None => mret tt
  end ;;
  write_accounting accounting.
Definition promised_bytes (owner : ArtifactOwner) : txn N :=
  capacity ← owner_capacity owner;
  committed ← committed_owner_bytes owner;
  mret (saturating_sub capacity committed).
Definition begin_artifact (owner : ArtifactOwner) (bytes limit : N) : txn () :=
  remaining ← promised_bytes owner;
  update (λ accounting,
    pending ← add (ac_pending_artifact_bytes accounting) bytes;
    reserved ← replace (ac_artifact_reserved_bytes accounting) (N.min remaining bytes) 0;
    Ok (accounting <| ac_pending_artifact_bytes := pending |>
                   <| ac_artifact_reserved_bytes := reserved |>)) (Some limit).
Definition commit_artifact (bytes : N) : txn () :=
  update (λ accounting,
    pending ← replace (ac_pending_artifact_bytes accounting) bytes 0;
    Ok (accounting <| ac_pending_artifact_bytes := pending |>)) None.
Definition release_artifact (owner : ArtifactOwner) (bytes : N) : txn () :=
  promised ← promised_bytes owner;
  let restored := N.min promised bytes in
  update (λ accounting,
    pending ← replace (ac_pending_artifact_bytes accounting) bytes 0;
    reserved ← add (ac_artifact_reserved_bytes accounting) restored;
    Ok (accounting <| ac_pending_artifact_bytes := pending |>
                   <| ac_artifact_reserved_bytes := reserved |>)) None.
Definition validate_output_usage (bytes : Bytes) : result PersistenceError () :=
  usage ← decode bytes "task output usage";
  refuse_if ((ou_limit usage =? 0)%N || (ou_limit usage <? ou_bytes usage)%N || (64 <? ou_count usage)%N)
    (corruption "task output usage exceeds frozen allowance").

(** ** Reads ([task.rs]) *)

Definition workflow_storage_usage : txn WorkflowStorageUsage :=
  begin_read ;; open_table TASK_ACCOUNTING ;;
  a ← read_accounting;
  open_table ARTIFACT_ACCOUNTING ;;
  row ← get ARTIFACT_ACCOUNTING GLOBAL_ARTIFACT_BYTES_KEY;
  a_bytes ← lift (ok_or row (corruption "artifact accounting missing"));
  artifact ← lift (decode a_bytes "artifact accounting");
  mret (mkStorageUsage (ac_history_bytes a) (ac_receipt_bytes a) (ac_receipt_entries a)
    (ac_reserved_bytes a) (ac_reserved_receipts a) (ac_artifact_reserved_bytes a)
    (ac_pending_artifact_bytes a) (aa_committed_content_bytes artifact)).
Definition workflow (id : WorkflowId) : txn (option (WorkflowSnapshot D)) :=
  begin_read ;; open_table TASK_WORKFLOWS ;;
  row ← get TASK_WORKFLOWS id;
  lift (decode_row row "task workflow").
(** The scan of [workflows]: one engine call per row, until the page is full. *)
Fixpoint page_from (after : option string) (limit : N) (rows : list (string * Bytes))
    (items : list (WorkflowSnapshot D)) (page_bytes : N) : txn (WorkflowPage D) :=
  match rows with
  | [] => mret (mkPage items None)
  | (key, value) :: rows =>
      call ;;
      if is_some_and (λ after, bool_decide (String.le key after)) after then
        page_from after limit rows items page_bytes
      else if (vlen items =? limit)%N
              || (negb (vlen items =? 0)%N
                  && (MAX_WORKFLOW_PAGE_BYTES <? saturating_add page_bytes (strlen value))%N)
      then mret (mkPage items (sn_workflow <$> last items))
      else
        item ← lift (decode value "task workflow");
        page_from after limit rows (items ++ [item]) (saturating_add page_bytes (strlen value))
  end.
Definition workflows (after : option string) (limit : N) : txn (WorkflowPage D) :=
  guard_if ((limit =? 0)%N || (200 <? limit)%N)
    (task_bounds "workflow page must contain 1..=200 records") ;;
  match after with Some cursor => lift (identity cursor) | None => mret tt end ;;
  begin_read ;; open_table TASK_WORKFLOWS ;;
  rows ← row_range TASK_WORKFLOWS (default EmptyString after);
  page_from after limit rows [] 0.
Definition workflow_receipt (actor key : string) : txn (option WorkflowCommandReceipt) :=
  key ← lift (receipt_key actor key);
  begin_read ;; open_table TASK_RECEIPTS ;;
  row ← get TASK_RECEIPTS key;
  lift (decode_row row "task receipt").
Definition validate_task_invocation_in_transaction (run : RunId) (invocation : InvocationId)
    : txn bool :=
  open_table TASK_WORKFLOWS ;;
  row ← get TASK_WORKFLOWS run;
  match row with
  | None => mret false
  | Some bytes =>
      snapshot ← lift (decode (T := WorkflowSnapshot D) bytes "task workflow");
      guard_if (bool_decide (sn_workflow snapshot ≠ run))
        (corruption "task workflow key differs from its provenance owner") ;;
      guard_if (negb (bool_decide (invocation ∈ sn_entered_invocations snapshot)))
        (PeNotFound "task_artifact_provenance_invocation" invocation) ;;
      mret true
  end.

(** ** The commit *)

(** The receipt of an earlier commit under the same key. *)
Definition prior_commit (command : option WorkflowCommandAcceptance) (key : option string)
    : txn (option WorkflowCommandReceipt) :=
  open_table TASK_RECEIPTS ;;
  match key with
  | None => mret None
  | Some key =>
      row ← get TASK_RECEIPTS key;
      match row with
      | None => mret None
      | Some bytes =>
          receipt ← lift (decode bytes "task receipt");
          request ← lift (ok_or command (corruption "receipt key has no command"));
          guard_if (bool_decide (wca_canonical_request (wcr_acceptance receipt)
                                 ≠ wca_canonical_request request))
            (PeWorkflowIdempotencyConflict (wca_actor request) (wca_key request)) ;;
          mret (Some receipt)
      end
  end.
(** A stop consumes the control reservation of its exact task once. *)
Definition reserve_action (commit : WorkflowCommit D) (old : option (WorkflowSnapshot D)) : txn () :=
  open_table TASK_ACTION_OWNERS ;;
  match cm_command commit with
  | None => mret tt
  | Some command =>
      match wca_reserved_action command with
      | None => mret tt
      | Some action =>
          let prefix := "stop:" +:+ sn_workflow (cm_snapshot commit) +:+ ":" in
          guard_if (bool_decide (action ≠ wca_key command)
                    || negb (String.prefix prefix action)
                    || (strlen action =? strlen prefix)%N)
            (task_bounds "mandatory action must use its exact workflow/task stop identity") ;;
          taken ← get TASK_ACTION_OWNERS action;
          guard_if (is_some taken) (task_bounds "mandatory action reservation was already consumed") ;;
          let unavailable :=
            task_bounds "mandatory action requires an available bounded control reservation" in
          guard_if (is_none_or (λ old, (sn_reserved_receipts old
              <=? sn_reserved_receipts (cm_snapshot commit))%N) old) unavailable ;;
          encoded ← lift (json_bytes command);
          guard_if (ACTION_RECEIPT_BYTES - 1024 <? strlen encoded)%N unavailable ;;
          insert_row TASK_ACTION_OWNERS action (wca_actor command) ;;
          mret tt
      end
  end.
(** The accounting after the commit. *)
Definition charge (accounting : Accounting) (old_bytes : option Bytes)
    (old : option (WorkflowSnapshot D)) (snapshot : WorkflowSnapshot D) (bytes : Bytes)
    (receipt_bytes : option Bytes) (output_usage : N) : result PersistenceError Accounting :=
  let old_artifact_reserve :=
    default 0%N ((λ old, saturating_sub (sn_artifact_capacity old) output_usage) <$> old) in
  let next_artifact_reserve := saturating_sub (sn_artifact_capacity snapshot) output_usage in
  history ← replace (ac_history_bytes accounting) (default 0%N (strlen <$> old_bytes)) (strlen bytes);
  reserved ← replace (ac_reserved_bytes accounting) (default 0%N (sn_reserved_bytes <$> old))
    (sn_reserved_bytes snapshot);
  reserved_receipts ← replace (ac_reserved_receipts accounting)
    (default 0%N (sn_reserved_receipts <$> old)) (sn_reserved_receipts snapshot);
  artifact_reserved ← replace (ac_artifact_reserved_bytes accounting) old_artifact_reserve
    next_artifact_reserve;
  receipts ← add (ac_receipt_bytes accounting) (default 0%N (strlen <$> receipt_bytes));
  entries ← add (ac_receipt_entries accounting) (if is_some receipt_bytes then 1 else 0)%N;
  Ok (mkAccounting history receipts entries reserved reserved_receipts artifact_reserved
        (ac_pending_artifact_bytes accounting)).
Definition full : PersistenceError := task_bounds
  "task storage is full; accepted work and its settlement/control reserve remain protected".
Definition encode_receipt (receipt : option WorkflowCommandReceipt)
    : result PersistenceError (option Bytes) :=
  match receipt with None => Ok None | Some receipt => Some <$> encode receipt "task receipt" end.
Definition commit_workflow (c : WorkflowCommit D) : txn WorkflowCommitOutcome :=
  begin_write ;;
  key ← lift match cm_command c with
    | Some command => Some <$> receipt_key (wca_actor command) (wca_key command)
    | None => Ok None
    end;
  prior ← prior_commit (cm_command c) key;
  match prior with
  | Some receipt => mret (CommitReplay receipt)
  | None =>
      lift (validate c) ;;
      now ← clock_now;
      require_clock_in_transaction now ;;
      let snapshot := cm_snapshot c in
      open_table TASK_WORKFLOWS ;;
      old_bytes ← get TASK_WORKFLOWS (sn_workflow snapshot);
      old ← lift (decode_row old_bytes "task workflow");
      guard_if (bool_decide (sn_generation <$> old ≠ cm_expected_generation c))
        (PeWorkflowGenerationConflict (sn_workflow snapshot) (cm_expected_generation c)
           (sn_generation <$> old)) ;;
      guard_if (is_some_and (λ old, bool_decide (sn_owner_actor old ≠ sn_owner_actor snapshot)) old)
        (PeInvalidDocument "workflow owner is immutable") ;;
      guard_if (is_some_and (λ old, existsb (λ i,
          negb (bool_decide (i ∈ sn_entered_invocations snapshot))) (sn_entered_invocations old)) old)
        (PeInvalidDocument "workflow entered invocation evidence cannot be removed") ;;
      reserve_action c old ;;
      bytes ← lift (encode snapshot "task workflow");
      apply_task_resources old snapshot ;;
      let receipt := receipt_of c in
      receipt_bytes ← lift (encode_receipt receipt);
      output_usage ← workflow_output_bytes (sn_workflow snapshot);
      open_table TASK_ACCOUNTING ;;
      accounting ← read_accounting;
      entries ← table_len TASK_RECEIPTS;
      guard_if (negb (ac_receipt_entries accounting =? entries)%N)
        (corruption "task receipt count differs from accounting") ;;
      accounting ← lift (charge accounting old_bytes old snapshot bytes receipt_bytes output_usage);
      reserved_receipt_bytes ← lift (ok_or
        (checked_mul (ac_reserved_receipts accounting) ACTION_RECEIPT_BYTES)
        (task_bounds "reserved action capacity overflow"));
      require_history_capacity accounting (wsl_history_bytes (cf_workflow_limits config)) ;;
      receipt_total ← lift (add (ac_receipt_bytes accounting) reserved_receipt_bytes);
      guard_if (wsl_receipt_bytes (cf_workflow_limits config) <? receipt_total)%N full ;;
      entry_total ← lift (add (ac_receipt_entries accounting) (ac_reserved_receipts accounting));
      guard_if (wsl_receipt_entries (cf_workflow_limits config) <? entry_total)%N full ;;
      insert_row TASK_WORKFLOWS (sn_workflow snapshot) bytes ;;
      match key, receipt_bytes with
      | Some key, Some bytes => insert_row TASK_RECEIPTS key bytes ;; mret tt
      | _, _ => mret tt
      end ;;
      write_accounting accounting ;;
      check_fault BeforeCommandCommit ;;
      commit ;;
      check_fault AfterCommandCommit ;;
      mret (CommitApplied receipt)
  end.

(** ** Row validation and initialization *)

Definition validate_snapshot_row (key : string) (bytes : Bytes) : result PersistenceError () :=
  snapshot ← decode bytes "task workflow";
  refuse_if (bool_decide (sn_workflow snapshot ≠ key) || (sn_generation snapshot =? 0)%N)
    (corruption "task snapshot identity/generation mismatch") ;;
  let expected := n ← checked_sub (sn_generation snapshot) 1; if (n =? 0)%N then None else Some n in
  validate (mkCommit expected snapshot None).
Definition validate_receipt_row (key : string) (bytes : Bytes) : result PersistenceError () :=
  receipt ← decode bytes "task receipt";
  expected ← receipt_key (wca_actor (wcr_acceptance receipt)) (wca_key (wcr_acceptance receipt));
  refuse_if (bool_decide (expected ≠ key) || (wcr_generation receipt =? 0)%N)
    (corruption "task receipt identity mismatch") ;;
  canonical ← reencoded (wca_canonical_request (wcr_acceptance receipt));
  refuse_if (bool_decide (canonical ≠ wca_canonical_request (wcr_acceptance receipt)))
    (corruption "task receipt request is not canonical").
Definition validate_accounting_row (key : string) (bytes : Bytes) : result PersistenceError () :=
  refuse_if (bool_decide (key ≠ "global")) (corruption "unknown task accounting identity") ;;
  decode (T := Accounting) bytes "task accounting" ;; Ok tt.
Definition initialize_accounting : txn () :=
  bytes ← lift (encode Accounting_default "task accounting");
  open_table TASK_ACCOUNTING ;;
  insert_row TASK_ACCOUNTING "global" bytes ;; mret tt.
End tasks.
