(* ===== verification/Workflow.v ===== *)
(** * Workflow records and their pure transitions ([crates/runtime/src/tasks.rs],
    [tasks/{account,capacity,duration,policy,inputs,model_actions}.rs])

    The durable record of a workflow, the derived aggregate state, the cumulative
    accounts, the policy stops, and the resolution of task inputs. *)
From S2P Require Import Prelude Contracts Capability Blueprint Authority Workspace Persistence.
From S2P Require Import Dispatch Managed.

(** ** Data ([tasks.rs], [model_actions.rs]) *)

Inductive TaskState := Queued | Running | Completed | Failed | Stopped | Uncertain.

Definition is_settled (s : TaskState) : bool :=
  match s with Completed | Failed | Stopped => true | _ => false end.

Inductive WorkflowState := WfWaiting | WfRunning | WfCompleted | WfBlocked | WfStopped.

#[global] Instance TaskState_eq_dec : EqDecision TaskState.
Proof. solve_decision. Defined.
#[global] Instance WorkflowState_eq_dec : EqDecision WorkflowState.
Proof. solve_decision. Defined.

Record TaskExecutionDuration := mkExecutionDuration {
  xt_started_at : TimestampMillis;
  xt_accounted_at : TimestampMillis;
  xt_maximum_ms : N
}.
#[global] Instance eta_TaskExecutionDuration : Settable TaskExecutionDuration := λ d,
  mkExecutionDuration (xt_started_at d) (xt_accounted_at d) (xt_maximum_ms d).

Record FrozenTaskStart := mkFrozen {
  fz_accepted_generation : N;
  fz_definition : TaskDefinition;
  fz_inputs : gmap string TaskInputValue;
  fz_dispatch : ExecutionDispatch;
  fz_entered : bool;
  fz_execution_duration : option TaskExecutionDuration;
  fz_reports : list InvocationEvent
}.
#[global] Instance eta_FrozenTaskStart : Settable FrozenTaskStart := λ f,
  mkFrozen (fz_accepted_generation f) (fz_definition f) (fz_inputs f) (fz_dispatch f)
    (fz_entered f) (fz_execution_duration f) (fz_reports f).

Record TaskResult := mkTaskResult {
  ts_terminal : InvocationTerminal;
  ts_outputs : gmap string ArtifactReference;
  ts_recorded_at : TimestampMillis
}.

Record TaskRecord := mkTaskRecord {
  tr_id : TaskId;
  tr_version : N;
  tr_definition : TaskDefinition;
  tr_previous_definitions : list TaskDefinition;
  tr_removed : bool;
  tr_state : TaskState;
  tr_reason : option string;
  tr_created_at : TimestampMillis;
  tr_started_at : option TimestampMillis;
  tr_ended_at : option TimestampMillis;
  tr_stop_requested : bool;
  tr_cancellation_sent : bool;
  tr_frozen : option FrozenTaskStart;
  tr_result : option TaskResult;
  tr_adopted_correction : option TaskId
}.
#[global] Instance eta_TaskRecord : Settable TaskRecord := λ t,
  mkTaskRecord (tr_id t) (tr_version t) (tr_definition t) (tr_previous_definitions t)
    (tr_removed t) (tr_state t) (tr_reason t) (tr_created_at t) (tr_started_at t) (tr_ended_at t)
    (tr_stop_requested t) (tr_cancellation_sent t) (tr_frozen t) (tr_result t)
    (tr_adopted_correction t).

Inductive ModelAdmissionStatus :=
| AdmPending | AdmAccepted | AdmRejected | AdmRepaired | AdmDismissed.
#[global] Instance ModelAdmissionStatus_eq_dec : EqDecision ModelAdmissionStatus.
Proof. solve_decision. Defined.

Definition blocks_completion (s : ModelAdmissionStatus) : bool :=
  match s with AdmPending | AdmRejected => true | _ => false end.

Record ModelAdmission := mkAdmission {
  ma_response : option ArtifactReference;
  ma_expected_generation : N;
  ma_status : ModelAdmissionStatus;
  ma_reason : option string;
  ma_repair_allowed : bool;
  ma_receipt_key : option string;
  ma_aliases : gmap TaskId TaskId
}.
#[global] Instance eta_ModelAdmission : Settable ModelAdmission := λ a,
  mkAdmission (ma_response a) (ma_expected_generation a) (ma_status a) (ma_reason a)
    (ma_repair_allowed a) (ma_receipt_key a) (ma_aliases a).

Record WorkflowRecord := mkWorkflow {
  wf_decision_generation : N;
  wf_admissions : gmap TaskId ModelAdmission;
  wf_admitted_model_batches : N;
  wf_rejected_responses : N;
  wf_schema_version : N;
  wf_id : WorkflowId;
  wf_title : string;
  wf_description : string;
  wf_generation : N;
  wf_owner_actor : string;
  wf_created_at : TimestampMillis;
  wf_updated_at : TimestampMillis;
  wf_state : WorkflowState;
  wf_inputs : gmap string TaskInputValue;
  wf_limits : WorkflowLimits;
  wf_finish_when_settled : bool;
  wf_wait_question : option string;
  wf_model_admission_wait : option TaskId;
  wf_tasks : gmap TaskId TaskRecord;
  wf_execution_authority : ExecutionAuthorityBasis;
  wf_admitted_tasks : N;
  wf_active_execution_ms : N;
  wf_allowance : AuthorityBudget;
  wf_committed_allowance : AuthorityBudget;
  wf_spending_currency : option string
}.
#[global] Instance eta_WorkflowRecord : Settable WorkflowRecord := λ w,
  mkWorkflow (wf_decision_generation w) (wf_admissions w) (wf_admitted_model_batches w)
    (wf_rejected_responses w) (wf_schema_version w) (wf_id w) (wf_title w) (wf_description w)
    (wf_generation w) (wf_owner_actor w) (wf_created_at w) (wf_updated_at w) (wf_state w)
    (wf_inputs w) (wf_limits w) (wf_finish_when_settled w) (wf_wait_question w)
    (wf_model_admission_wait w) (wf_tasks w) (wf_execution_authority w) (wf_admitted_tasks w)
    (wf_active_execution_ms w) (wf_allowance w) (wf_committed_allowance w)
    (wf_spending_currency w).

Definition unsettled (t : TaskRecord) : bool := negb (is_settled (tr_state t)).
Definition entered (t : TaskRecord) : bool := is_some_and fz_entered (tr_frozen t).
Definition execution_duration (t : TaskRecord) : option TaskExecutionDuration :=
  tr_frozen t ≫= fz_execution_duration.

(** A correction that was adopted and completed satisfies its origin's obligation. *)
Definition adopted_completed (tasks : gmap TaskId TaskRecord) (t : TaskRecord) : bool :=
  is_some_and (λ c, bool_decide (tr_state c = Completed))
    (tr_adopted_correction t ≫= λ id, tasks !! id).

(** ** Derived facts ([tasks.rs]) *)

Definition active_starts (record : WorkflowRecord) : N :=
  count_values (λ t, is_some (tr_frozen t) && unsettled t) (wf_tasks record).


Definition managed_executions (record : WorkflowRecord) : list WorkflowManagedExecution :=
  omap (λ task,
    frozen ← tr_frozen task;
    let selection := xd_resolution (fz_dispatch frozen) in
    if bool_decide (rs_descriptor_extensions selection !! MANAGED_BINDING_EXTENSION = None)
    then None
    else Some (mkManagedExecution (tr_id task) (iv_invocation (xd_request (fz_dispatch frozen)))
                 (fz_accepted_generation frozen) selection (fz_entered frozen)
                 (is_settled (tr_state task))))
    (values (wf_tasks record)).

Definition entered_invocations (record : WorkflowRecord) : list InvocationId :=
  dedup (merge_sort String.le
    ((λ start, iv_invocation (xd_request (fz_dispatch start)))
       <$> List.filter fz_entered (omap tr_frozen (values (wf_tasks record))))).

Definition output_contract_failure (definition : TaskDefinition)
    (outputs : gmap string ArtifactReference) : option string :=
  match for_each (λ '(name, declaration),
    match outputs !! name with
    | None =>
        refuse_if (od_required declaration) ("required output " +:+ name +:+ " was not published")
    | Some reference =>
        map_err (λ reason, "output " +:+ name +:+ ": " +:+ to_text reason)
          (validate_reference declaration reference)
    end) (entries (td_outputs definition)) with
  | Ok _ => None
  | Err reason => Some reason
  end.

Definition obligations_met (tasks : gmap TaskId TaskRecord) : bool :=
  forallb (λ t, bool_decide (tr_state t = Completed) || adopted_completed tasks t)
    (List.filter (λ t, td_required (tr_definition t) && negb (tr_removed t)) (values tasks)).

Definition update_workflow_state (workflow : WorkflowRecord) : WorkflowRecord :=
  let tasks := values (wf_tasks workflow) in
  let any s := existsb (λ t, bool_decide (tr_state t = s)) tasks in
  let met := obligations_met (wf_tasks workflow) in
  workflow <| wf_state :=
    if any Running then WfRunning
    else if negb (existsb unsettled tasks) && met && wf_finish_when_settled workflow
         && negb (is_some (wf_wait_question workflow))
         && negb (existsb (λ a, blocks_completion (ma_status a)) (values (wf_admissions workflow)))
    then WfCompleted
    else if any Uncertain || (negb met && any Failed) then WfBlocked
    else if negb (bool_decide (wf_tasks workflow = ∅))
            && forallb (λ t, bool_decide (tr_state t = Stopped)) tasks
    then WfStopped
    else WfWaiting |>.

(** ** The spending account ([tasks/account.rs]) *)

Definition denied (message : string) : RuntimeError := RtScheduling message.

Definition account_bounded (bound : AdmissionBound N) (name : string) : result RuntimeError N :=
  match bound with
  | Bounded value => Ok value
  | NotApplicable => Ok 0%N
  | BoundUnknown => Err (denied ("external " +:+ name +:+ " have no enforceable bound"))
  end.

Definition account_add (prior : option N) (requested : N) (maximum : option N) (name : string)
    : result RuntimeError (option N) :=
  if (requested =? 0)%N then Ok prior else
  total ← ok_or (checked_add (default 0%N prior) requested)
    (denied (name +:+ " cumulative reservation overflow"));
  refuse_if (is_none_or (λ maximum, maximum <? total)%N maximum)
    (denied (name +:+ " cumulative allowance exhausted or absent")) ;;
  Ok (Some total).

Definition account_cost (workflow : WorkflowRecord) (cost : AdmissionBound AdmissionMonetaryBound)
    : result RuntimeError (N * option string) :=
  match cost with
  | NotApplicable => Ok (0%N, wf_spending_currency workflow)
  | BoundUnknown => Err (denied "external monetary allowance has no enforceable bound")
  | Bounded value =>
      refuse_if (is_some_and (λ currency, bool_decide (currency ≠ mb_currency value))
                   (wf_spending_currency workflow))
        (denied "workflow spending account cannot mix currencies") ;;
      micros ← ok_or (checked_add (maximum_micros value) 9999)
        (denied "monetary reservation overflow");
      Ok ((micros / 10000)%N, Some (mb_currency value))
  end.

(** Entered, unsettled executions: the concurrency already spent. *)
Definition open_entries (workflow : WorkflowRecord) : N :=
  count_values (λ t, entered t && unsettled t) (wf_tasks workflow).

Definition account_reserve (workflow : WorkflowRecord) (dispatch : ExecutionDispatch)
    (envelope : InvocationAdmissionEnvelope) (duration_maximum_ms : N)
    : result RuntimeError (AuthorityBudget * option string) :=
  artifact_limit ← ok_or (task_output_bytes dispatch) (denied "task artifact ceiling is absent");
  let artifact_bytes := match en_artifact_bytes envelope with
    | Bounded value => N.min value artifact_limit
    | NotApplicable => 0%N
    | BoundUnknown => artifact_limit
    end in
  input_units ← account_bounded (en_input_units envelope) "input units";
  output_units ← account_bounded (en_output_units envelope) "output units";
  units ← ok_or (checked_add input_units output_units) (denied "unit reservation overflow");
  cost ← account_cost workflow (en_monetary_cost envelope);
  invocations ← ok_or
    match en_nested_invocations envelope with
    | None => Some 1%N
    | Some counts =>
        value ← checked_add (ic_process counts) (ic_model counts); checked_add value 1
    end (denied "invocation reservation overflow");
  let prior := wf_committed_allowance workflow in
  let ceiling := wf_allowance workflow in
  let required := rq_budget (dn_request (xd_entry_authorization dispatch)) in
  invocations ← account_add (ab_invocations prior) invocations (ab_invocations ceiling)
    "external invocations";
  units ← account_add (ab_units prior) units (ab_units ceiling) "input/output units";
  artifact_bytes ← account_add (ab_artifact_bytes prior) artifact_bytes
    (ab_artifact_bytes ceiling) "artifact bytes";
  cost_minor ← account_add (ab_cost_minor prior) cost.1 (ab_cost_minor ceiling)
    "monetary spending";
  duration_ms ← account_add (ab_duration_ms prior)
    (N.max (default 0%N (ab_duration_ms required)) duration_maximum_ms)
    (ab_duration_ms ceiling) "execution duration";
  let reservation := mkBudget cost_minor duration_ms invocations artifact_bytes units None in
  concurrent ← ok_or (concurrent ← u32_of_usize (open_entries workflow); checked_add_u32 concurrent 1)
    (denied "concurrency reservation overflow");
  refuse_if (is_none_or (λ maximum, maximum <? concurrent)%N (ab_concurrency ceiling))
    (denied "concurrent external execution allowance exhausted or absent") ;;
  Ok (reservation, cost.2).

(** ** The elapsed-time account ([tasks/duration.rs]) *)

Definition SCHEMA_VERSION : N := 3.
Definition EXHAUSTED : string := "workflow cumulative active execution allowance exhausted".
Definition history (message : string) : RuntimeError := RtInvalidHistory message.

Definition read_version (workflow : WorkflowRecord) : result RuntimeError () :=
  refuse_if (negb (wf_schema_version workflow =? SCHEMA_VERSION)%N)
    (history "unsupported task workflow document schema; retained timing evidence cannot be reinterpreted") ;;
  for_each (λ task, match tr_frozen task with
    | None => Ok tt
    | Some start =>
        refuse_if ((fz_entered start || bool_decide (tr_state task = Uncertain))
                   && negb (is_some (fz_execution_duration start)))
          (history "open execution has no cumulative-time watermark") ;;
        refuse_if (is_some_and (λ duration,
            is_none_or (λ started, xt_started_at duration <? started)%N (tr_started_at task)
            || (xt_accounted_at duration <? xt_started_at duration)%N
            || (wf_updated_at workflow <? xt_accounted_at duration)%N) (fz_execution_duration start))
          (history "execution timing contradicts durable workflow times")
    end) (values (wf_tasks workflow)).

(** One iteration of the loop of [accrue], over the elapsed total and [changed]. *)
Definition accrue_task (now : TimestampMillis) (acc : N * bool) (task : TaskRecord)
    : result RuntimeError ((N * bool) * TaskRecord) :=
  if is_settled (tr_state task) then Ok (acc, task) else
  match tr_frozen task with
  | None => Ok (acc, task)
  | Some start =>
      match fz_execution_duration start with
      | None => Ok (acc, task)
      | Some duration =>
          elapsed ← ok_or (checked_sub now (xt_accounted_at duration))
            (history "clock moved backward during cumulative execution accounting");
          total ← ok_or (checked_add acc.1 elapsed)
            (history "cumulative execution duration overflow");
          Ok ((total, acc.2 || negb (elapsed =? 0)%N),
              task <| tr_frozen := Some (start <| fz_execution_duration :=
                        Some (duration <| xt_accounted_at := now |>) |>) |>)
      end
  end.

Definition accrue (workflow : WorkflowRecord) (now : TimestampMillis)
    : result RuntimeError (WorkflowRecord * bool) :=
  res ← values_mut (accrue_task now) (wf_active_execution_ms workflow, false) (wf_tasks workflow);
  Ok (workflow <| wf_active_execution_ms := res.1.1 |> <| wf_tasks := res.2 |>, res.1.2).

Definition duration_remaining (workflow : WorkflowRecord) : N :=
  saturating_sub (wl_active_execution_ms (wf_limits workflow)) (wf_active_execution_ms workflow).

(** What one unsettled execution still holds of the shared remainder. *)
Definition task_outstanding (task : TaskRecord) (duration : TaskExecutionDuration)
    : result RuntimeError N :=
  elapsed ← ok_or (checked_sub (xt_accounted_at duration) (xt_started_at duration))
    (history "execution duration watermark precedes entry");
  Ok (if bool_decide (tr_state task = Uncertain) || tr_stop_requested task
         || tr_cancellation_sent task
         || (negb (xt_maximum_ms duration =? 0)%N && (xt_maximum_ms duration <=? elapsed)%N)
      then xt_maximum_ms duration
      else saturating_sub (xt_maximum_ms duration) elapsed).

Definition duration_reserve (workflow : WorkflowRecord) (envelope : InvocationAdmissionEnvelope)
    : result RuntimeError N :=
  let unbounded := RtScheduling "external execution duration has no enforceable positive bound" in
  requested ← match en_execution_duration_ms envelope with
    | Bounded maximum => if (0 <? maximum)%N then Ok maximum else Err unbounded
    | NotApplicable => Ok 0%N
    | BoundUnknown => Err unbounded
    end;
  outstanding ← try_fold (λ outstanding task,
    match execution_duration task with
    | None => Ok outstanding
    | Some duration =>
        reserved ← task_outstanding task duration;
        ok_or (checked_add outstanding reserved)
          (history "outstanding duration reservation overflow")
    end) 0%N (List.filter unsettled (values (wf_tasks workflow)));
  admitted ← ok_or (total ← checked_add (wf_active_execution_ms workflow) outstanding;
                    checked_add total requested)
    (history "cumulative duration admission overflow");
  refuse_if ((wl_active_execution_ms (wf_limits workflow) <? admitted)%N
             || (duration_remaining workflow =? 0)%N)
    (RtScheduling "workflow cumulative execution allowance cannot reserve this adapter's enforced duration alongside live work") ;;
  Ok requested.

(** Whether an execution has used up its own enforceable maximum. *)
Definition elapsed_limit (task : TaskRecord) : bool :=
  is_some_and (λ duration,
    negb (xt_maximum_ms duration =? 0)%N
    && is_some_and (λ elapsed, xt_maximum_ms duration <=? elapsed)%N
         (checked_sub (xt_accounted_at duration) (xt_started_at duration)))
    (execution_duration task).

(** [task.stop_requested = true] for the selected started tasks, and whether any changed. *)
Definition request_stops (select : TaskRecord → bool) (tasks : gmap TaskId TaskRecord)
    : gmap TaskId TaskRecord * bool :=
  let hit t := select t && unsettled t && is_some (tr_frozen t) && negb (tr_stop_requested t) in
  ((λ t, if hit t then t <| tr_stop_requested := true |> else t) <$> tasks,
   existsb hit (values tasks)).

Definition duration_request_limit_stop (workflow : WorkflowRecord) : WorkflowRecord * bool :=
  let exhausted := (duration_remaining workflow =? 0)%N in
  let ask := exhausted && negb (is_some (wf_wait_question workflow)) in
  let workflow := if ask
    then workflow <| wf_wait_question := Some EXHAUSTED |> <| wf_model_admission_wait := None |>
    else workflow in
  let '(tasks, stopped) := request_stops (λ t, exhausted || elapsed_limit t) (wf_tasks workflow) in
  (workflow <| wf_tasks := tasks |>, ask || stopped).

(** ** Policy ([tasks/policy.rs]) *)

Definition policy_invalid (message : string) : RuntimeError := RtInvalidCommand message.

Definition change_limits (workflow : WorkflowRecord) (limits : WorkflowLimits)
    `{!TaskCodec} : result RuntimeError WorkflowRecord :=
  or_invalid policy_invalid (WorkflowLimits_validate limits) ;;
  refuse_if ((wl_tasks limits <? wf_admitted_tasks workflow)%N
             || (wl_model_batches limits <? wf_admitted_model_batches workflow)%N
             || (wl_active_execution_ms limits <? wf_active_execution_ms workflow)%N)
    (policy_invalid "new workflow limits cannot be below already admitted tasks, model batches or elapsed execution") ;;
  Ok (workflow <| wf_limits := limits |>).

(** The walk of [lineage_root]. [None] means the fuel ran out. *)
Fixpoint lineage_walk (fuel : nat) (tasks : gmap TaskId TaskRecord) (visited : gset TaskId)
    (current : TaskId) : option (result RuntimeError TaskId) :=
  if decide (current ∈ visited)
  then Some (Err (history "retained corrective lineage contains a cycle"))
  else match tasks !! current with
  | None => Some (Err (history "retained corrective lineage names an absent task"))
  | Some task =>
      match td_corrective_of (tr_definition task), fuel with
      | None, _ => Some (Ok current)
      | Some parent, S fuel => lineage_walk fuel tasks ({[current]} ∪ visited) parent
      | Some _, O => None
      end
  end.
Definition lineage_root (workflow : WorkflowRecord) (task : TaskId) : result RuntimeError TaskId :=
  default (Err (history "loop bound"))
    (lineage_walk (size (wf_tasks workflow)) (wf_tasks workflow) ∅ task).

Definition lineages (workflow : WorkflowRecord) : result RuntimeError (gmap TaskId (N * bool)) :=
  try_fold (λ (lineages : gmap TaskId (N * bool)) task,
    root ← lineage_root workflow (tr_id task);
    let '(failures, outstanding) := default (0%N, false) (lineages !! root) in
    failures ← (if bool_decide (tr_state task = Failed)
                then ok_or (checked_add_u32 failures 1) (history "corrective failure accounting overflow")
                else Ok failures);
    let adopted := adopted_completed (wf_tasks workflow) task in
    let outstanding := outstanding
      || (negb (tr_removed task)
          && (unsettled task
              || (td_required (tr_definition task) && negb (bool_decide (tr_state task = Completed))
                  && negb adopted))) in
    Ok (<[root := (failures, outstanding)]> lineages)) ∅ (values (wf_tasks workflow)).

Definition lineage_stop (workflow : WorkflowRecord) : result RuntimeError (option string) :=
  lineages ← lineages workflow;
  Ok (head (omap (λ '(root, (failures, outstanding)),
    if outstanding && (wl_corrective_failures (wf_limits workflow) <=? failures)%N
    then Some ("corrective lineage " +:+ root +:+ " has " +:+ show_N failures
               +:+ " failed tasks; raise its workflow failure limit before continuing")
    else None) (entries lineages))).

Definition REJECTIONS_EXHAUSTED : string :=
  "model rejected/no-progress response allowance exhausted; raise its workflow limit before continuing".

Definition rejections_exhausted (workflow : WorkflowRecord) : bool :=
  (wl_rejected_responses (wf_limits workflow) <=? wf_rejected_responses workflow)%N.

Definition resume (workflow : WorkflowRecord) : result RuntimeError WorkflowRecord :=
  refuse_if (duration_remaining workflow =? 0)%N (policy_invalid EXHAUSTED) ;;
  refuse_if (rejections_exhausted workflow) (policy_invalid REJECTIONS_EXHAUSTED) ;;
  reason ← lineage_stop workflow;
  match reason with
  | Some reason => Err (policy_invalid reason)
  | None => Ok (workflow <| wf_wait_question := None |> <| wf_model_admission_wait := None |>)
  end.

Definition policy_request_limit_stop (workflow : WorkflowRecord)
    : result RuntimeError (WorkflowRecord * bool) :=
  reason ← (if rejections_exhausted workflow then Ok (Some REJECTIONS_EXHAUSTED)
            else lineage_stop workflow);
  match reason with
  | None => Ok (workflow, false)
  | Some reason =>
      let ask := negb (is_some (wf_wait_question workflow)) in
      let workflow := if ask
        then workflow <| wf_wait_question := Some reason |> <| wf_model_admission_wait := None |>
        else workflow in
      let '(tasks, stopped) := request_stops (λ _, true) (wf_tasks workflow) in
      Ok (workflow <| wf_tasks := tasks |>, ask || stopped)
  end.

(** ** Readiness ([tasks/inputs.rs]) *)

(** [{state:?}] *)
Definition debug_state (s : TaskState) : string :=
  match s with
  | Queued => "Queued" | Running => "Running" | Completed => "Completed"
  | Failed => "Failed" | Stopped => "Stopped" | Uncertain => "Uncertain"
  end.
(** The [snake_case] names of the JSON form. *)
Definition state_json (s : TaskState) : Value :=
  JString match s with
  | Queued => "queued" | Running => "running" | Completed => "completed"
  | Failed => "failed" | Stopped => "stopped" | Uncertain => "uncertain"
  end.

(** [json!] panics where a serializer fails; the derived serializers of the types it
    is used with never do, and the model takes [null] there. *)
Definition json {A} `{!Serialize A} (a : A) : Value :=
  match to_value a with Ok v => v | Err _ => JNull end.
Definition json_option {A} `{!Serialize A} (o : option A) : Value :=
  match o with Some a => json a | None => JNull end.

Definition supplied_input (value : option TaskInputValue) (name : string) (optional : bool)
    : result string TaskInputValue :=
  match value with
  | None => if optional then Ok Absent else Err ("missing supplied input " +:+ name)
  | Some Absent => if optional then Ok Absent else Err ("missing supplied input " +:+ name)
  | Some value => Ok value
  end.

(** Whether [task] reads the outcome of [dependency] in a form that accepts any settlement. *)
Definition accepts_settled (task : TaskRecord) (dependency : TaskId) : bool :=
  existsb (λ binding, match binding with
    | SettledOutcome task => bool_decide (task = dependency)
    | TaskOutput task _ true => bool_decide (task = dependency)
    | _ => false
    end) (values (td_inputs (tr_definition task))).

Section inputs.
Context `{!Serialize TaskResult}.

Definition resolve_binding (workflow : WorkflowRecord) (binding : TaskInputBinding)
    : result string TaskInputValue :=
  match binding with
  | Inline value => Ok value
  | Supplied name optional => supplied_input (wf_inputs workflow !! name) name optional
  | TaskOutput task output optional =>
      producer ← ok_or (wf_tasks workflow !! task) ("producer " +:+ task +:+ " is absent");
      refuse_if (negb optional && negb (bool_decide (tr_state producer = Completed)))
        ("required output " +:+ task +:+ "/" +:+ output
         +:+ " needs a successful producer; producer is " +:+ debug_state (tr_state producer)) ;;
      match tr_result producer ≫= λ result, ts_outputs result !! output with
      | Some reference => Ok (Artifact reference)
      | None => if optional && is_settled (tr_state producer) then Ok Absent
                else Err ("missing output " +:+ task +:+ "/" +:+ output)
      end
  | SettledOutcome task =>
      producer ← ok_or (wf_tasks workflow !! task) ("producer " +:+ task +:+ " is absent");
      refuse_if (unsettled producer) ("producer " +:+ task +:+ " is not settled") ;;
      Ok (Json (JObject [("result", json_option (tr_result producer));
                         ("state", state_json (tr_state producer)); ("task", JString task)]))
  end.

Definition resolve_inputs (workflow : WorkflowRecord) (task : TaskRecord)
    : result string (gmap string TaskInputValue) :=
  match td_corrective_of (tr_definition task) with
  | Some original =>
      refuse_if (is_none_or unsettled (wf_tasks workflow !! original))
        ("corrected task " +:+ original
         +:+ " has not settled; replacement effects cannot enter")
  | None => Ok tt
  end ;;
  for_each (λ dependency,
    producer ← ok_or (wf_tasks workflow !! dependency)
      ("dependency " +:+ dependency +:+ " is absent");
    refuse_if (negb (bool_decide (tr_state producer = Completed))
               && negb (accepts_settled task dependency && is_settled (tr_state producer)))
      ("dependency " +:+ dependency +:+ " is " +:+ debug_state (tr_state producer)))
    (members (td_dependencies (tr_definition task))) ;;
  try_fold (λ (inputs : gmap string TaskInputValue) '(name, binding),
    value ← resolve_binding workflow binding; Ok (<[name := value]> inputs))
    ∅ (entries (td_inputs (tr_definition task))).
End inputs.

(** ** Growth reserved for accepted work ([tasks/capacity.rs]) *)

Definition MAX_DISPATCH_BYTES : N := 65536.
Definition REPORT_BYTES : N := 262144.
Definition TERMINAL_BYTES : N := 262144.
Definition MAX_TASK_REPORTS : N := 256.
Definition TASK_OUTPUT_BYTES : N := MAX_TASK_OUTPUT_BYTES.
Definition invalid_transition (message : string) : RuntimeError := RtInvalidTransition message.

Section capacity.
Context `{!RuntimeCodec}.

(** [serde_json::to_vec(..)?.len()] *)
Definition encoded_bytes {A} `{!Serialize A} (a : A) : result RuntimeError N :=
  strlen <$> map_err RtJson (to_vec a).

Definition task_remaining (task : TaskRecord) : result RuntimeError N :=
  match tr_frozen task with
  | None =>
      definition ← encoded_bytes (tr_definition task);
      inputs ← try_fold (λ sum input,
        bytes ← match input with
          | Inline value => encoded_bytes value
          | TaskOutput _ _ _ => Ok 2048%N
          | Supplied _ _ | SettledOutcome _ => Ok 1048576%N
          end;
        ok_or (checked_add sum bytes) (invalid_transition "frozen input reservation overflow"))
        0%N (values (td_inputs (tr_definition task)));
      ok_or (n ← checked_add definition inputs;
             checked_add n (131072 + REPORT_BYTES + TERMINAL_BYTES))
        (invalid_transition "frozen start reservation overflow")
  | Some frozen =>
      used ← encoded_bytes (fz_reports frozen);
      Ok (saturating_add (saturating_sub REPORT_BYTES used) TERMINAL_BYTES)
  end.

(** [capacity::remaining] *)
Definition capacity_remaining (workflow : WorkflowRecord) : result RuntimeError N :=
  try_fold (λ sum task,
    additional ← (if is_settled (tr_state task) then Ok 0%N else task_remaining task);
    ok_or (checked_add sum additional)
      (invalid_transition "remaining record reservation overflow"))
    0%N (values (wf_tasks workflow)).

Definition output_sizes (outputs : list (string * ArtifactReference)) : option N :=
  foldl (λ sum output, sum ← sum;
      checked_add sum (default TASK_OUTPUT_BYTES (ar_size_bytes output.2))) (Some 0%N) outputs.

Definition validate_report (prior : list InvocationEvent) (report : InvocationEvent)
    : result RuntimeError () :=
  refuse_if ((MAX_TASK_REPORTS <=? vlen prior)%N
             || (negb (is_some (event_terminal report))
                 && (saturating_sub MAX_TASK_REPORTS 1 <=? vlen prior)%N))
    (invalid_transition "task observation capacity exhausted; terminal slot remains reserved") ;;
  bytes ← encoded_bytes report;
  if is_some (event_terminal report) then
    refuse_if (131072 <? bytes)%N
      (invalid_transition "terminal report exceeds its reserved allowance")
  else
    used ← encoded_bytes prior;
    refuse_if (is_none_or (λ n, REPORT_BYTES <? n)%N (n ← checked_add used bytes; checked_add n 1))
      (invalid_transition "task progress capacity exhausted; terminal allowance remains reserved") ;;
    match event_output report with
    | None => Ok tt
    | Some (_, reference) =>
        let outputs := omap event_output prior in
        used ← ok_or (output_sizes outputs) (invalid_transition "output byte accounting overflow");
        refuse_if ((64 <=? vlen outputs)%N
                   || is_none_or (λ size, TASK_OUTPUT_BYTES <? size)%N
                        (size ← ar_size_bytes reference; checked_add used size))
          (invalid_transition "task output count or byte allowance exceeded")
    end.
End capacity.

(** ** Model response admission ([tasks/model_actions.rs]) *)

Definition check_admission (record : WorkflowRecord) (source : TaskId) (batch : TaskBatch)
    (repair : bool) : result RuntimeError () :=
  admission ← ok_or (wf_admissions record !! source)
    (invalid_transition "model source admission is absent");
  refuse_if (wl_model_batches (wf_limits record) <=? wf_admitted_model_batches record)%N
    (invalid_transition "cumulative model batch allowance exhausted") ;;
  (if repair then
     refuse_if (negb (bool_decide (ma_status admission = AdmRejected))
                || negb (ma_repair_allowed admission)
                || rejections_exhausted record
                || negb (tb_expected_generation batch =? wf_generation record)%N
                || (is_some (wf_wait_question record)
                    && bool_decide (wf_model_admission_wait record ≠ Some source)))
       (invalid_transition "automatic feedback needs an eligible rejection and current snapshot within its allowance")
   else
     refuse_if (negb (bool_decide (ma_status admission = AdmPending))
                || negb (tb_expected_generation batch =? ma_expected_generation admission)%N
                || negb (wf_decision_generation record =? ma_expected_generation admission)%N)
       (invalid_transition ("model snapshot conflict: expected "
          +:+ show_N (ma_expected_generation admission) +:+ ", current authoring generation "
          +:+ show_N (wf_decision_generation record)))) ;;
  refuse_if (existsb (λ change, match change with
               | SetLimits _ | DismissAdmission _ => true | _ => false end) (tb_changes batch))
    (invalid_transition "model actions cannot increase policy or dismiss another admission").

Definition clear_owned_wait (record : WorkflowRecord) (source : TaskId) : WorkflowRecord :=
  if bool_decide (wf_model_admission_wait record = Some source)
  then record <| wf_wait_question := None |> <| wf_model_admission_wait := None |>
  else record.

Definition accept_admission (record : WorkflowRecord) (source : TaskId) (key : string)
    (aliases : gmap TaskId TaskId) (repair : bool) : result RuntimeError WorkflowRecord :=
  batches ← ok_or (checked_add_u32 (wf_admitted_model_batches record) 1)
    (invalid_transition "model batch account overflow");
  let record := record <| wf_admitted_model_batches := batches |> in
  admission ← ok_or (wf_admissions record !! source)
    (invalid_transition "model source admission is absent");
  let record := record <| wf_admissions := <[source := admission
      <| ma_status := if repair then AdmRepaired else AdmAccepted |>
      <| ma_receipt_key := Some key |> <| ma_aliases := aliases |>]> (wf_admissions record) |> in
  if repair then Ok (clear_owned_wait record source)
  else if negb (bool_decide (aliases = ∅)) then Ok (record <| wf_rejected_responses := 0%N |>)
  else if negb (wf_finish_when_settled record) && negb (is_some (wf_wait_question record)) then
    rejected ← ok_or (checked_add_u32 (wf_rejected_responses record) 1)
      (invalid_transition "model no-progress account overflow");
    let record := record <| wf_rejected_responses := rejected |> in
    Ok (if rejections_exhausted record
        then record <| wf_wait_question :=
                 Some "model no-progress allowance exhausted; inspect and revise future work" |>
               <| wf_model_admission_wait := None |>
        else record)
  else Ok record.
