(* ===== verification/Admission.v ===== *)
(** * Admission of work ([crates/runtime/src/tasks/admission.rs], pure part)

    Alias remapping, access to unstarted tasks, adoption of corrections, canonical
    request identities, and the single steps an edit applies to a workflow record. *)
From S2P Require Import Prelude Contracts Capability Blueprint Authority Workspace Persistence.
From S2P Require Import Dispatch Workflow.

Definition invalid_command (message : string) : RuntimeError := RtInvalidCommand message.

(** ** Tasks an edit may still change *)

(** [future_task]: the task an edit may change, which the caller writes back. *)
Definition future_task (record : WorkflowRecord) (task : TaskId) (expected_version : N)
    : result RuntimeError TaskRecord :=
  value ← ok_or (wf_tasks record !! task) (invalid_command "task does not exist");
  refuse_if (negb (tr_version value =? expected_version)%N || is_some (tr_frozen value)
             || negb (bool_decide (tr_state value = Queued)))
    (RtInvalidTransition "task version changed or task already started") ;;
  Ok value.

Definition set_task (record : WorkflowRecord) (id : TaskId) (task : TaskRecord) : WorkflowRecord :=
  record <| wf_tasks := <[id := task]> (wf_tasks record) |>.

Definition definitions (tasks : gmap TaskId TaskRecord) : gmap TaskId TaskDefinition :=
  tr_definition <$> filter (λ kv : TaskId * TaskRecord, tr_removed kv.2 = false) tasks.

(** [aliases.get(id).unwrap_or(id)] *)
Definition resolve_alias (aliases : gmap TaskId TaskId) (id : TaskId) : TaskId :=
  default id (aliases !! id).

Definition remap_binding (aliases : gmap TaskId TaskId) (binding : TaskInputBinding)
    : TaskInputBinding :=
  match binding with
  | TaskOutput task output optional => TaskOutput (resolve_alias aliases task) output optional
  | SettledOutcome task => SettledOutcome (resolve_alias aliases task)
  | _ => binding
  end.

Definition remap_definition (definition : TaskDefinition) (aliases : gmap TaskId TaskId)
    : TaskDefinition :=
  definition <| td_dependencies := set_map (resolve_alias aliases) (td_dependencies definition) |>
    <| td_inputs := remap_binding aliases <$> td_inputs definition |>
    <| td_corrective_of := resolve_alias aliases <$> td_corrective_of definition |>.

(** The record of a task at its admission. *)
Definition new_task (id : TaskId) (definition : TaskDefinition) (now : TimestampMillis)
    : TaskRecord :=
  mkTaskRecord id 1 definition [] false Queued None now None None false false None None None.

(** ** Adoption of a correction *)

Definition validate_redirect_output (declarations : gmap string TaskOutputDeclaration)
    (original_outputs : gmap string ArtifactReference) (output : string)
    (replacement : ArtifactReference) : result RuntimeError () :=
  let checked contract reference :=
    or_invalid invalid_command (validate_reference contract reference) in
  match declarations !! output with
  | Some contract => checked contract replacement
  | None =>
      original ← ok_or (original_outputs !! output)
        (invalid_command "redirected source lacks a retained named output");
      media_type ← ok_or (ar_media_type original)
        (invalid_command "redirected source lacks retained media type");
      let contract := mkOutputDeclaration true (Some media_type) MAX_TASK_OUTPUT_BYTES in
      checked contract original ;;
      checked contract replacement
  end.

(** The loop state of [adopt_correction]: the record, the changed consumers and the
    redirected inputs. *)
Record Adoption := mkAdoption {
  ad_record : WorkflowRecord;
  ad_changed : gset TaskId;
  ad_seen : gset (TaskId * string)
}.

Definition redirect_input (original_id correction : TaskId)
    (declarations : gmap string TaskOutputDeclaration)
    (original_outputs outputs : gmap string ArtifactReference)
    (acc : Adoption) (redirect : TaskBindingRedirect) : result RuntimeError Adoption :=
  let coordinate := (br_consumer redirect, br_input redirect) in
  refuse_if (bool_decide (coordinate ∈ ad_seen acc))
    (invalid_command "correction redirects the same input more than once") ;;
  consumer ← future_task (ad_record acc) (br_consumer redirect) (br_expected_version redirect);
  match td_inputs (tr_definition consumer) !! br_input redirect with
  | Some (TaskOutput task output optional) =>
      replacement ← ok_or (if bool_decide (task = original_id) then outputs !! output else None)
        (invalid_command "correction redirect names another source or an absent replacement output");
      validate_redirect_output declarations original_outputs output replacement ;;
      let first := bool_decide (br_consumer redirect ∉ ad_changed acc) in
      refuse_if (first && (128 <=? vlen (tr_previous_definitions consumer))%N)
        (invalid_command "retained task definition capacity exhausted") ;;
      let consumer := if first
        then consumer <| tr_previous_definitions :=
               tr_previous_definitions consumer ++ [tr_definition consumer] |>
        else consumer in
      let consumer := consumer <| tr_definition := tr_definition consumer
        <| td_inputs := <[br_input redirect := TaskOutput correction output optional]>
             (td_inputs (tr_definition consumer)) |>
        <| td_dependencies := {[correction]} ∪ td_dependencies (tr_definition consumer) |> |> in
      Ok (mkAdoption (set_task (ad_record acc) (br_consumer redirect) consumer)
            ({[br_consumer redirect]} ∪ ad_changed acc) ({[coordinate]} ∪ ad_seen acc))
  | _ => Err (invalid_command "correction redirect must name an existing task-output binding")
  end.

(** Whether a consumer still reads from [original_id]. *)
Definition reads_from (original_id : TaskId) (definition : TaskDefinition) : bool :=
  existsb (λ binding, match binding with
    | TaskOutput task _ _ | SettledOutcome task => bool_decide (task = original_id)
    | _ => false
    end) (values (td_inputs definition)).

Definition settle_redirected (original_id : TaskId) (record : WorkflowRecord) (id : TaskId)
    : result RuntimeError WorkflowRecord :=
  consumer ← ok_or (wf_tasks record !! id) (invalid_command "redirected consumer disappeared");
  let consumer := if reads_from original_id (tr_definition consumer) then consumer
    else consumer <| tr_definition := tr_definition consumer
           <| td_dependencies := td_dependencies (tr_definition consumer) ∖ {[original_id]} |> |> in
  version ← ok_or (checked_add (tr_version consumer) 1) (invalid_command "task version exhausted");
  Ok (set_task record id (consumer <| tr_version := version |> <| tr_reason := None |>)).

Definition adopt_correction (record : WorkflowRecord) (original_id correction : TaskId)
    (redirects : list TaskBindingRedirect) : result RuntimeError WorkflowRecord :=
  refuse_if ((64 <? vlen redirects)%N || bool_decide (original_id = correction))
    (invalid_command "correction redirects exceed their bound or form a cycle") ;;
  original ← ok_or (wf_tasks record !! original_id) (invalid_command "corrected task does not exist");
  refuse_if (negb (bool_decide (tr_state original = Failed) || bool_decide (tr_state original = Stopped))
             || is_some (tr_adopted_correction original))
    (invalid_command "adoption requires a settled failed/stopped task without an existing adoption") ;;
  replacement ← ok_or (wf_tasks record !! correction)
    (invalid_command "corrective task does not exist");
  refuse_if (negb (bool_decide (tr_state replacement = Completed))
             || bool_decide (td_corrective_of (tr_definition replacement) ≠ Some original_id)
             || is_some (tr_adopted_correction replacement))
    (invalid_command "adoption requires successful explicitly linked correction without an adoption chain") ;;
  outputs ← ts_outputs <$> ok_or (tr_result replacement)
    (invalid_command "successful correction lacks immutable result");
  match output_contract_failure (tr_definition original) outputs with
  | Some reason =>
      Err (invalid_command ("correction does not satisfy original outputs: " +:+ reason))
  | None => Ok tt
  end ;;
  let original_outputs := default ∅ (ts_outputs <$> tr_result original) in
  acc ← try_fold (redirect_input original_id correction (td_outputs (tr_definition original))
                    original_outputs outputs) (mkAdoption record ∅ ∅) redirects;
  record ← try_fold (settle_redirected original_id) (ad_record acc) (members (ad_changed acc));
  original ← ok_or (wf_tasks record !! original_id) (invalid_command "corrected task disappeared");
  Ok (set_task record original_id (original <| tr_adopted_correction := Some correction |>)).

(** ** Request identities *)

Section identities.
Context `{!RuntimeCodec}.

Definition canonical_transport_value (bytes : string) : result RuntimeError Value :=
  refuse_if (is_empty bytes || (1000000 <? strlen bytes)%N)
    (invalid_command "canonical public request exceeds its bounded receipt allowance") ;;
  value ← map_err RtJson (from_slice bytes);
  canonical ← match value with
    | JObject _ => encoded ← map_err RtJson (to_vec value); Ok (bool_decide (encoded = bytes))
    | _ => Ok false
    end;
  refuse_if (negb canonical)
    (invalid_command "public request must be a canonical JSON object") ;;
  Ok value.

Definition canonical_request (workflow : option WorkflowId) (request : Value)
    : result RuntimeError string :=
  map_err RtJson (to_vec match workflow with
    | Some workflow => JObject [("batch", request); ("operation", JString "edit_workflow");
                                ("workflow", JString workflow)]
    | None => JObject [("operation", JString "create_workflow"); ("request", request)]
    end).

(** The text of [IdentityError]. *)
Definition identity_error (kind value : string) : string :=
  "invalid " +:+ kind +:+ ": " +:+
  if is_empty value || (128 <? strlen value)%N then "length must be between 1 and 128 bytes"
  else "must start with an alphanumeric and contain safe ASCII identity characters".

(** [WorkflowId::new], [TaskId::new] and [NodeId::new] under [map_err(invalid)]. *)
Definition blueprint_id (invalid : string → RuntimeError) (kind value : string)
    : result RuntimeError string :=
  refuse_if (negb (validate_identity value 128)) (invalid (identity_error kind value)) ;;
  Ok value.

Definition workflow_identity (actor key : string) : result RuntimeError WorkflowId :=
  bytes ← map_err RtJson (to_vec (actor, key));
  blueprint_id invalid_command "WorkflowId" ("workflow_" +:+ blake3_hex bytes).

(** [revision_identity]: the parsed form of a [rev_] digest. *)
Definition revision_identity (bytes : string) : result RuntimeError RevisionId :=
  let value := "rev_" +:+ blake3_hex bytes in
  refuse_if (negb (validate_digest_identity value "rev_"))
    (RtJson "invalid RevisionId: must contain a lowercase 32-byte BLAKE3 digest") ;;
  Ok value.

(** [receipt] *)
Definition receipt (outcome : WorkflowCommitOutcome) : result RuntimeError WorkflowCommandReceipt :=
  match outcome with
  | CommitApplied (Some receipt) | CommitReplay receipt => Ok receipt
  | CommitApplied None =>
      Err (RtInvalidHistory "external task acceptance omitted its receipt")
  end.

Definition aliases_json (aliases : gmap TaskId TaskId) : Value :=
  JObject ((λ kv, (kv.1, JString kv.2)) <$> entries aliases).

(** The compact result of an accepted command. *)
Definition acceptance_result (workflow : WorkflowId) (generation : N)
    (aliases : gmap TaskId TaskId) : Value :=
  JObject [("aliases", aliases_json aliases); ("generation", JNumber (PosInt generation));
           ("workflow_id", JString workflow)].
End identities.
