(* ===== verification/Runtime.v ===== *)
(** * The task runtime ([crates/runtime/src/tasks.rs] and [tasks/*.rs])

    The daemon-owned scheduler as state-passing code over its boundaries: the store,
    the executor host, the authority evaluator, the clock and the identity source.
    Every critical section of the transition gate is one definition; methods that
    release the gate are composed of several, so that other threads' sections may run
    in between. Poisoned locks, which only a panic of the daemon produces, are not
    modelled. *)
From S2P Require Import Prelude Effects Contracts Capability Blueprint Authority Model.
From S2P Require Import Workspace Persistence Dispatch Workflow Admission.

(** ** Boundaries ([boundary.rs], [executor.rs]) *)

Class BoundaryClock (C : Type) := clock_now : C → C * result RuntimeError TimestampMillis.
Class IdGenerator (I : Type) := ids_next : I → string → I * result RuntimeError string.

Class TaskExecutor (X : Type) := {
  executor_resolve : X → CapabilityRequirement → CapabilityResolutionContext → Evaluator → N →
    X * result ExecutorError ResolvedCapability;
  executor_prepare : X → ExecutionDispatch → X * result ExecutorError PreparedExecution;
  executor_cancel : X → CancellationRequest → X * result ExecutorError CancellationAcknowledgement;
  executor_settle : X → ExecutionDispatch → X * result ExecutorError ()
}.

(** The JSON form of a workflow record: [serde_json::to_value], [from_value], and the
    length of its encoding. *)
Class WorkflowDocument (D : Type) := {
  document_of : WorkflowRecord → result string D;
  record_of : D → result string WorkflowRecord;
  document_bytes : D → result string N;
  document_result :: Serialize TaskResult
}.

Record World (C I X S : Type) := mkWorld {
  w_store : S;
  w_executor : X;
  w_authority : Evaluator;
  w_clock : C;
  w_ids : I;
  w_cursor : option string;
  w_cancellation_cursor : option string;
  w_maximum_active_tasks : N;
  w_active_tasks : option N;
  w_executing : gset InvocationId;
  w_admission_closed : bool
}.
Arguments mkWorld {C I X S}. Arguments w_store {C I X S}. Arguments w_executor {C I X S}.
Arguments w_authority {C I X S}. Arguments w_clock {C I X S}. Arguments w_ids {C I X S}.
Arguments w_cursor {C I X S}. Arguments w_cancellation_cursor {C I X S}.
Arguments w_maximum_active_tasks {C I X S}. Arguments w_active_tasks {C I X S}.
Arguments w_executing {C I X S}. Arguments w_admission_closed {C I X S}.
#[global] Instance eta_World {C I X S} : Settable (World C I X S) := λ w,
  mkWorld (w_store w) (w_executor w) (w_authority w) (w_clock w) (w_ids w) (w_cursor w)
    (w_cancellation_cursor w) (w_maximum_active_tasks w) (w_active_tasks w) (w_executing w)
    (w_admission_closed w).

(** [TaskRuntime::new] *)
Definition runtime_new {C I X S} (store : S) (executor : X) (authority : Evaluator) (clock : C)
    (ids : I) : World C I X S :=
  mkWorld store executor authority clock ids None None 32 None ∅ false.

Definition with_maximum_active_tasks {C I X S} (w : World C I X S) (maximum : N)
    : result RuntimeError (World C I X S) :=
  refuse_if ((maximum =? 0)%N || (65536 <? maximum)%N)
    (RtScheduling "global task concurrency must be 1..=65,536") ;;
  Ok (w <| w_maximum_active_tasks := maximum |>).

Section runtime.
Context {C I X S D : Type}.
Context `{!RuntimeCodec, !WorkflowDocument D, !BoundaryClock C, !IdGenerator I, !TaskExecutor X,
          !WorkflowStore S D}.
(** The pages a scan of all workflows may read; more than the stored workflows. *)
Context (page_fuel : nat).

Abbreviation W := (World C I X S).
Abbreviation M := (st W RuntimeError).

Definition now : M TimestampMillis := λ w,
  let '(c, r) := clock_now (w_clock w) in (w <| w_clock := c |>, r).
Definition next_id (kind : string) : M string := λ w,
  let '(i, r) := ids_next (w_ids w) kind in (w <| w_ids := i |>, r).
Definition authority_evaluate (request : AuthorityRequest) : M AuthorityDecisionSnapshot := λ w,
  (w, map_err RtAuthority (w_authority w request)).
Definition on_store {A} (f : S → S * result PersistenceError A) : M A := λ w,
  let '(s, r) := f (w_store w) in (w <| w_store := s |>, map_err RtPersistence r).
Definition on_executor {A} (f : X → X * result ExecutorError A) : M (result ExecutorError A) := λ w,
  let '(x, r) := f (w_executor w) in (w <| w_executor := x |>, Ok r).
(** [?] on an executor result. *)
Definition executor_ok {A} (r : result ExecutorError A) : M A := lift (map_err RtExecutor r).
Definition settle (dispatch : ExecutionDispatch) : M () :=
  r ← on_executor (λ x, executor_settle x dispatch); executor_ok r.
Definition is_closed : M bool := gets w_admission_closed.

Definition begin_shutdown : M () := modify (λ w, w <| w_admission_closed := true |>).

(** ** Reading and saving workflows *)

(** The document of a snapshot and its agreement with the discovery envelope. *)
Definition check_snapshot (snapshot : WorkflowSnapshot D) : result RuntimeError WorkflowRecord :=
  record ← map_err RtJson (record_of (sn_document snapshot));
  read_version record ;;
  refuse_if (bool_decide (wf_id record ≠ sn_workflow snapshot)
             || negb (wf_generation record =? sn_generation snapshot)%N
             || bool_decide (wf_owner_actor record ≠ sn_owner_actor snapshot)
             || bool_decide (wf_title record ≠ sn_title snapshot)
             || bool_decide (wf_description record ≠ sn_description snapshot)
             || negb (wf_updated_at record =? sn_updated_at snapshot)%N
             || bool_decide (entered_invocations record ≠ sn_entered_invocations snapshot)
             || bool_decide (managed_executions record ≠ sn_managed_executions snapshot))
    (RtInvalidHistory "task workflow envelope differs from its durable document") ;;
  Ok record.

Definition workflow (id : WorkflowId) : M (option WorkflowRecord) :=
  snapshot ← on_store (λ s, store_workflow s id);
  match snapshot with
  | None => mret None
  | Some snapshot => record ← lift (check_snapshot snapshot); mret (Some record)
  end.

Definition require_workflow (id : WorkflowId) : M WorkflowRecord :=
  record ← workflow id;
  lift (ok_or record (RtInvalidCommand "workflow does not exist")).

(** The snapshot [save] commits. *)
Definition snapshot_of (record : WorkflowRecord) (document : D) (reserved_bytes reserved_receipts
    artifact_capacity : N) : WorkflowSnapshot D :=
  mkWorkflowSnapshot (wf_id record) (wf_generation record) (wf_title record)
    (wf_description record) (wf_owner_actor record) (wf_updated_at record) document
    (entered_invocations record) (managed_executions record) artifact_capacity reserved_bytes
    reserved_receipts.

(** The occupancy cache after a save: [None] until the first scan. *)
Definition next_active (record : WorkflowRecord) : M (option N) :=
  active ← gets w_active_tasks;
  match active with
  | None => mret None
  | Some count =>
      prior ← workflow (wf_id record);
      let prior := default 0%N (active_starts <$> prior) in
      next ← lift (ok_or (count ← checked_sub count prior; checked_add count (active_starts record))
        (RtScheduling "global task occupancy contradicts durable starts"));
      mret (Some next)
  end.

Definition save (record : WorkflowRecord) (expected_generation : option N)
    (command : option WorkflowCommandAcceptance) : M WorkflowCommitOutcome :=
  let pending := count_values unsettled (wf_tasks record) in
  reserved_bytes ← lift (capacity_remaining record);
  document ← lift (map_err RtJson (document_of record));
  document_bytes ← lift (map_err RtJson (document_bytes document));
  guard_if (is_none_or (λ bytes, MAX_WORKFLOW_DOCUMENT_BYTES <? bytes)%N
              (checked_add document_bytes reserved_bytes))
    (RtInvalidTransition "workflow document cannot reserve its remaining start, observation and settlement records") ;;
  reserved_receipts ← lift (ok_or
    (u32_of_usize (count_values (λ t, unsettled t && negb (tr_stop_requested t)) (wf_tasks record)))
    (RtInvalidTransition "task control reservation overflow"));
  next ← next_active record;
  artifact_capacity ← (if (pending =? 0)%N then mret 0%N
    else lift (ok_or (checked_mul (wf_admitted_tasks record) TASK_OUTPUT_BYTES)
                 (RtInvalidTransition "artifact reservation overflow")));
  outcome ← on_store (λ s, store_commit s (mkCommit expected_generation
    (snapshot_of record document reserved_bytes reserved_receipts artifact_capacity) command));
  match outcome with
  | CommitApplied _ => modify (λ w, w <| w_active_tasks := next |>)
  | CommitReplay _ => mret tt
  end ;;
  mret outcome.

Definition advance (record : WorkflowRecord) : M (WorkflowRecord * N) :=
  let prior := wf_generation record in
  generation ← lift (ok_or (checked_add prior 1)
    (RtInvalidTransition "workflow generation exhausted"));
  updated_at ← now;
  stopped ← lift (policy_request_limit_stop
    (record <| wf_generation := generation |> <| wf_updated_at := updated_at |>));
  mret (update_workflow_state stopped.1, prior).

(** [let expected = self.advance(&mut r)?; self.save(&r, Some(expected), None)?] *)
Definition advance_save (record : WorkflowRecord) : M WorkflowRecord :=
  '(record, expected) ← advance record;
  save record (Some expected) None ;;
  mret record.

(** The same with [r.decision_generation = r.generation] in between. *)
Definition advance_start (record : WorkflowRecord) : M WorkflowRecord :=
  '(record, expected) ← advance record;
  let record := record <| wf_decision_generation := wf_generation record |> in
  save record (Some expected) None ;;
  mret record.

Definition observe_duration (record : WorkflowRecord) (at_ms : TimestampMillis) : M WorkflowRecord :=
  '(record, changed) ← lift (accrue record at_ms);
  let '(record, stopped) := duration_request_limit_stop record in
  if stopped || changed then advance_save record else mret record.

(** Starts held by one page of workflows. *)
Definition count_page (count : N) (items : list (WorkflowSnapshot D)) : M N :=
  fold_st (λ count snapshot,
    record ← require_workflow (sn_workflow snapshot);
    lift (ok_or (checked_add count (active_starts record))
      (RtScheduling "global task occupancy overflow"))) count items.

Fixpoint count_pages (fuel : nat) (count : N) (cursor : option string) : M N :=
  page ← on_store (λ s, store_workflows s cursor 200);
  count ← count_page count (wp_items page);
  match wp_next page, fuel with
  | None, _ => mret count
  | Some next, Datatypes.S fuel => count_pages fuel count (Some next)
  | Some _, O => fail (RtScheduling "loop bound")
  end.

Definition active_task_count : M N :=
  active ← gets w_active_tasks;
  match active with
  | Some count => mret count
  | None =>
      count ← count_pages page_fuel 0 None;
      modify (λ w, w <| w_active_tasks := Some count |>) ;;
      mret count
  end.
End runtime.
