(* ===== verification/Commands.v ===== *)
(** * Commands ([crates/runtime/src/tasks/admission.rs], [model_actions.rs])

    Creating and editing workflows: exact replay, checked definitions, identities for
    new tasks, the changes of a batch, and the admission or rejection of the batches
    models propose. Each operation holds the transition gate throughout. *)
From S2P Require Import Prelude Effects Contracts Capability Blueprint Authority Model.
From S2P Require Import Workspace Persistence Dispatch Workflow Admission Runtime.

Section commands.
Context {C I X S D : Type}.
Context `{!RuntimeCodec, !WorkflowDocument D, !BoundaryClock C, !IdGenerator I, !TaskExecutor X,
          !WorkflowStore S D}.

Abbreviation M := (st (World C I X S) RuntimeError).

(** [FilesystemScope::new(path, {Write or Read})] for every declared path. *)
Definition path_scopes (paths : list TaskPathAccess) : result RuntimeError (list FilesystemScope) :=
  map_err RtAuthority (try_map (λ access,
    FilesystemScope_new (pa_path access) {[if pa_write access then AccWrite else AccRead]})
    paths).

Definition resolve_capability (requirement : CapabilityRequirement)
    (context : CapabilityResolutionContext) (at_ms : N) : M ResolvedCapability := λ w,
  let '(x, r) := executor_resolve (w_executor w) requirement context (w_authority w) at_ms in
  (w <| w_executor := x |>, map_err RtExecutor r).

Definition validate_future_definition (record : WorkflowRecord) (definition : TaskDefinition)
    : M () :=
  lift (or_invalid invalid_transition (TaskDefinition_validate definition)) ;;
  encoded ← lift (map_err RtJson (to_vec definition));
  revision ← lift (revision_identity encoded);
  node ← lift (blueprint_id invalid_transition "NodeId" "future-admission");
  execution ← lift (or_invalid invalid_transition
    (persistence_identity "NodeExecutionId" "future-admission"));
  attempt ← lift (or_invalid invalid_transition
    (persistence_identity "AttemptId" "future-admission"));
  filesystem ← lift (path_scopes (td_paths definition));
  let context := mkResolutionContext (wf_execution_authority record) revision node execution
                   attempt filesystem in
  at_ms ← now;
  resolved ← resolve_capability (td_capability definition) context at_ms;
  let is_model := bool_decide (cd_category (rc_descriptor resolved) = CatModel) in
  guard_if (negb (vlen (td_tools definition) =? 0)%N && negb is_model)
    (invalid_transition "only model task capabilities may select a model/tool catalog") ;;
  guard_if (is_some (td_actions definition) && negb is_model)
    (invalid_transition "only model task capabilities may publish structured actions or request automatic feedback") ;;
  each_st (λ tool, match tool with
    | ProcessTool capability =>
        at_ms ← now;
        tool ← resolve_capability capability context at_ms;
        guard_if (bool_decide (cd_category (rc_descriptor tool) ≠ CatProcess))
          (invalid_transition "process tools must select an ordinary process capability")
    | _ => mret tt
    end) (td_tools definition).

Definition replay (actor key request : string) : M (option WorkflowCommandReceipt) :=
  receipt ← on_store (λ s, store_receipt s actor key);
  match receipt with
  | None => mret None
  | Some receipt =>
      guard_if (bool_decide (wca_canonical_request (wcr_acceptance receipt) ≠ request))
        (RtPersistence (PeWorkflowIdempotencyConflict actor key)) ;;
      mret (Some receipt)
  end.

Definition replay_exact (actor key : string) (workflow : option WorkflowId)
    (canonical_transport : string) : M (option WorkflowCommandReceipt) :=
  identity ← lift (canonical_transport_value canonical_transport);
  request ← lift (canonical_request workflow identity);
  replay actor key request.

Definition replay_edit (actor key : string) (workflow : WorkflowId) (batch : TaskBatch)
    : M (option WorkflowCommandReceipt) :=
  identity ← lift (map_err RtJson (to_value batch));
  request ← lift (canonical_request (Some workflow) identity);
  replay actor key request.

(** The canonical identity of a request: its public transport bytes, or its typed
    form, which is computed either way. *)
Definition request_identity {A} `{!Serialize A} (workflow : option WorkflowId)
    (transport : option string) (request : A) : result RuntimeError string :=
  identity ← match transport with
    | Some transport => Some <$> canonical_transport_value transport
    | None => Ok None
    end;
  typed ← map_err RtJson (to_value request);
  canonical_request workflow (default typed identity).

(** [validate_task_set] over a task map, with the outputs it already published. *)
Definition validate_tasks (tasks : gmap TaskId TaskRecord)
    (published : TaskId → string → option ArtifactReference) (limits : WorkflowLimits)
    : result RuntimeError () :=
  or_invalid invalid_command (validate_task_set (definitions tasks) published limits).

Definition create_request (owner_actor key : string) (request : WorkflowCreate)
    (decision : AuthorityDecisionSnapshot) (transport : option string) : M WorkflowCommandReceipt :=
  canonical_request ← lift (request_identity None transport request);
  replayed ← replay owner_actor key canonical_request;
  match replayed with
  | Some receipt => mret receipt
  | None =>
  closed ← is_closed;
  guard_if closed (invalid_command "task admission is closed") ;;
  guard_if (trim_is_empty (wc_title request) || (256 <? strlen (wc_title request))%N
            || (4096 <? strlen (wc_description request))%N
            || (MAX_TASK_BATCH_ACTIONS <? vlen (wc_tasks request))%N
            || (vlen (wc_tasks request) =? 0)%N)
    (invalid_command "workflow needs a bounded title and 1..=32 initial tasks") ;;
  guard_if (bool_decide (rq_actor (dn_request decision) ≠ owner_actor))
    (invalid_command "workflow owner differs from authenticated start decision") ;;
  id ← lift (workflow_identity owner_actor key);
  revision ← lift (revision_identity canonical_request);
  run ← lift (or_invalid invalid_command (RunId_new id));
  execution_authority ← lift (map_err RtAuthority (from_start_decision decision id run revision));
  at_ms ← now;
  aliases ← fold_st (λ (aliases : gmap TaskId TaskId) task,
    text ← next_id "task";
    id ← lift (blueprint_id invalid_command "TaskId" text);
    mret (<[nt_alias task := id]> aliases)) ∅ (wc_tasks request);
  guard_if (negb (N.of_nat (size aliases) =? vlen (wc_tasks request))%N)
    (invalid_command "new task aliases must be unique") ;;
  tasks ← lift (try_fold (λ (tasks : gmap TaskId TaskRecord) task,
    id ← ok_or (aliases !! nt_alias task) (invalid_command "task alias missing");
    Ok (<[id := new_task id (remap_definition (nt_definition task) aliases) at_ms]> tasks))
    ∅ (wc_tasks request));
  lift (validate_tasks tasks (λ _ _, None) (wc_limits request)) ;;
  lift (for_each (λ value, or_invalid invalid_command (TaskInputValue_validate value))
          (values (wc_inputs request))) ;;
  lift (for_each (λ task, or_invalid invalid_command
            (validate_supplied_inputs (tr_definition task) (wc_inputs request))) (values tasks)) ;;
  admitted ← lift (ok_or (u32_of_usize (N.of_nat (size tasks)))
    (invalid_command "out of range integral type conversion attempted"));
  let record := mkWorkflow 1 ∅ 0 0 SCHEMA_VERSION id (wc_title request) (wc_description request)
    1 owner_actor at_ms at_ms WfWaiting (wc_inputs request) (wc_limits request)
    (wc_finish_when_settled request) None None tasks execution_authority admitted 0
    (dn_evaluated_budget decision) AuthorityBudget_default None in
  let acceptance := mkAcceptance owner_actor key None canonical_request
    (acceptance_result id 1 aliases) in
  each_st (λ task, validate_future_definition record (tr_definition task)) (values tasks) ;;
  outcome ← save record None (Some acceptance);
  lift (receipt outcome)
  end.

(** The attempts of [unused_task_id]. *)
Fixpoint unused_task_id_from (tries : nat) (record : WorkflowRecord) (aliases : gmap TaskId TaskId)
    : M TaskId :=
  match tries with
  | O => fail (invalid_command "task identity source cannot allocate an unused identity")
  | Datatypes.S tries =>
      text ← next_id "task";
      id ← lift (blueprint_id invalid_command "TaskId" text);
      if bool_decide (wf_tasks record !! id = None)
         && negb (existsb (λ v, bool_decide (v = id)) (values aliases))
      then mret id
      else unused_task_id_from tries record aliases
  end.
Definition unused_task_id := unused_task_id_from 4097.

(** Identities for the aliases an edit introduces. *)
Definition allocate_aliases (record : WorkflowRecord) (changes : list TaskChange)
    : M (gmap TaskId TaskId) :=
  fold_st (λ (aliases : gmap TaskId TaskId) change,
    match change with
    | Add alias _ =>
        id ← unused_task_id record aliases;
        guard_if (is_some (aliases !! alias) || is_some (wf_tasks record !! alias))
          (invalid_command "new aliases must be unique and cannot name existing tasks") ;;
        mret (<[alias := id]> aliases)
    | _ => mret aliases
    end) ∅ changes.

(** One change of an edit, at [at_ms]. *)
Definition apply_change (aliases : gmap TaskId TaskId) (at_ms : TimestampMillis)
    (record : WorkflowRecord) (change : TaskChange) : M WorkflowRecord :=
  match change with
  | DismissAdmission task =>
      lift (admission ← ok_or (wf_admissions record !! task)
              (invalid_command "model admission does not exist");
            refuse_if (negb (bool_decide (ma_status admission = AdmRejected)))
              (invalid_command "only a rejected model admission can be dismissed") ;;
            Ok (clear_owned_wait (record <| wf_admissions :=
                  <[task := admission <| ma_status := AdmDismissed |>]> (wf_admissions record) |>)
                  task))
  | SetLimits limits => lift (change_limits record limits)
  | Add alias definition =>
      validate_future_definition record definition ;;
      lift (id ← ok_or (aliases !! alias) (invalid_command "missing allocated alias");
            admitted ← ok_or (checked_add_u32 (wf_admitted_tasks record) 1)
              (invalid_command "admitted task accounting overflow");
            refuse_if (wl_tasks (wf_limits record) <? admitted)%N
              (invalid_command "cumulative workflow task capacity exhausted") ;;
            Ok (set_task (record <| wf_admitted_tasks := admitted |>) id
                  (new_task id (remap_definition definition aliases) at_ms)))
  | Revise task expected_version definition =>
      validate_future_definition record definition ;;
      lift (value ← future_task record task expected_version;
            refuse_if (128 <=? vlen (tr_previous_definitions value))%N
              (invalid_command "retained task definition version capacity exhausted") ;;
            version ← ok_or (checked_add (tr_version value) 1)
              (invalid_command "task version exhausted");
            Ok (set_task record task (value
                  <| tr_previous_definitions :=
                       tr_previous_definitions value ++ [tr_definition value] |>
                  <| tr_definition := remap_definition definition aliases |>
                  <| tr_version := version |> <| tr_reason := None |>)))
  | Remove task expected_version =>
      lift (value ← future_task record task expected_version;
            Ok (set_task record task (value <| tr_removed := true |> <| tr_state := Stopped |>
                  <| tr_ended_at := Some at_ms |>
                  <| tr_reason := Some "unstarted obligation removed by an authorized edit" |>)))
  | BindInput name value =>
      lift (or_invalid invalid_command (TaskInputValue_validate value) ;;
            refuse_if (is_empty name || (128 <? strlen name)%N
                       || ((256 <=? N.of_nat (size (wf_inputs record)))%N
                           && negb (is_some (wf_inputs record !! name))))
              (invalid_command "workflow input name or count exceeds its bound") ;;
            Ok (record <| wf_inputs := <[name := value]> (wf_inputs record) |>
                  <| wf_wait_question := None |> <| wf_model_admission_wait := None |>))
  | Stop task =>
      lift (value ← ok_or (wf_tasks record !! task) (invalid_command "stop task does not exist");
            Ok (if is_settled (tr_state value) then record
                else
                  let value := value <| tr_stop_requested := true |> in
                  set_task record task
                    (if is_some (tr_frozen value) then value
                     else value <| tr_state := Stopped |> <| tr_ended_at := Some at_ms |>
                            <| tr_reason := Some "stopped before task start" |>)))
  | AdoptCorrection task correction redirects =>
      lift (adopt_correction record task (resolve_alias aliases correction) redirects)
  | Continue => lift (resume record)
  | Wait question =>
      lift (refuse_if (trim_is_empty question || (4096 <? strlen question)%N)
              (invalid_command "wait question is empty or oversized") ;;
            Ok (record <| wf_wait_question := Some question |>
                  <| wf_model_admission_wait := None |>))
  | Finish => mret (record <| wf_finish_when_settled := true |>)
  end.

(** The output a producer of the record already published under a name. *)
Definition published_output (record : WorkflowRecord) (producer : TaskId) (output : string)
    : option ArtifactReference :=
  task ← wf_tasks record !! producer;
  result ← tr_result task;
  ts_outputs result !! output.

(** The stop that may use the receipt slot reserved for its task. *)
Definition reserved_action (record : WorkflowRecord) (key : string) (workflow : WorkflowId)
    (changes : list TaskChange) : option string :=
  match changes with
  | [Stop task] =>
      if bool_decide (key = "stop:" +:+ workflow +:+ ":" +:+ task)
         && is_some_and (λ t, negb (tr_stop_requested t) && unsettled t) (wf_tasks record !! task)
      then Some key else None
  | _ => None
  end.

Definition is_stop (change : TaskChange) : bool :=
  match change with Stop _ => true | _ => false end.

Definition edit_request (owner_actor key : string) (workflow : WorkflowId) (batch : TaskBatch)
    (transport : option string) (model_source : option (TaskId * bool)) : M WorkflowCommandReceipt :=
  canonical_request ← lift (request_identity (Some workflow) transport batch);
  replayed ← replay owner_actor key canonical_request;
  match replayed with
  | Some receipt => mret receipt
  | None =>
  closed ← is_closed;
  guard_if (closed && existsb (λ change, negb (is_stop change)) (tb_changes batch))
    (invalid_command "task edits are closed during shutdown; stop remains available") ;;
  record ← require_workflow workflow;
  lift match model_source with
    | Some (source, repair) => check_admission record source batch repair
    | None =>
        refuse_if (negb (tb_expected_generation batch =? wf_generation record)%N)
          (RtInvalidTransition ("stale workflow generation: expected "
             +:+ show_N (tb_expected_generation batch) +:+ ", actual "
             +:+ show_N (wf_generation record)))
    end ;;
  guard_if ((vlen (tb_changes batch) =? 0)%N || (MAX_TASK_BATCH_ACTIONS <? vlen (tb_changes batch))%N)
    (invalid_command "task batch must contain 1..=32 changes") ;;
  let reserved_action := reserved_action record key workflow (tb_changes batch) in
  aliases ← allocate_aliases record (tb_changes batch);
  at_ms ← now;
  record ← fold_st (apply_change aliases at_ms) record (tb_changes batch);
  lift (validate_tasks (wf_tasks record) (published_output record) (wf_limits record)) ;;
  lift (for_each (λ task, or_invalid invalid_command
          (validate_supplied_inputs (tr_definition task) (wf_inputs record)))
          (List.filter (λ t, negb (is_some (tr_frozen t)) && negb (tr_removed t))
             (values (wf_tasks record)))) ;;
  record ← lift match model_source with
    | Some (source, repair) => accept_admission record source key aliases repair
    | None => Ok record
    end;
  '(record, expected) ← advance record;
  let record := record <| wf_decision_generation := wf_generation record |> in
  let acceptance := mkAcceptance owner_actor key reserved_action canonical_request
    (acceptance_result workflow (wf_generation record) aliases) in
  outcome ← save record (Some expected) (Some acceptance);
  lift (receipt outcome)
  end.

(** [create], [create_exact], [edit] and [edit_exact] *)
Definition create (owner_actor key : string) (request : WorkflowCreate)
    (decision : AuthorityDecisionSnapshot) : M WorkflowCommandReceipt :=
  create_request owner_actor key request decision None.
Definition create_exact (owner_actor key : string) (request : WorkflowCreate)
    (decision : AuthorityDecisionSnapshot) (canonical_transport : string)
    : M WorkflowCommandReceipt :=
  create_request owner_actor key request decision (Some canonical_transport).
Definition edit (owner_actor key : string) (workflow : WorkflowId) (batch : TaskBatch)
    : M WorkflowCommandReceipt := edit_request owner_actor key workflow batch None None.
Definition edit_exact (owner_actor key : string) (workflow : WorkflowId) (batch : TaskBatch)
    (canonical_transport : string) : M WorkflowCommandReceipt :=
  edit_request owner_actor key workflow batch (Some canonical_transport) None.

Definition admit_model_batch (actor : string) (workflow : WorkflowId) (source : TaskId)
    (batch : TaskBatch) (repair : bool) : M WorkflowCommandReceipt :=
  let key := "model:" +:+ (if repair then "repair" else "actions") +:+ ":" +:+ workflow
             +:+ ":" +:+ source in
  edit_request actor key workflow batch None (Some (source, repair)).

Definition reject_model_batch (workflow : WorkflowId) (source : TaskId) (reason : string)
    (repair_allowed : bool) : M () :=
  record ← require_workflow workflow;
  admission ← lift (ok_or (wf_admissions record !! source)
    (invalid_transition "model source admission is absent"));
  if negb (bool_decide (ma_status admission = AdmPending)) then mret tt else
  let reason := truncate_utf8 reason 2048 in
  let record := record <| wf_admissions := <[source := admission
      <| ma_status := AdmRejected |> <| ma_reason := Some reason |>
      <| ma_repair_allowed := repair_allowed |>]> (wf_admissions record) |> in
  rejected ← lift (ok_or (checked_add_u32 (wf_rejected_responses record) 1)
    (invalid_transition "model rejection account overflow"));
  let record := record <| wf_rejected_responses := rejected |> in
  let record := if is_some (wf_wait_question record) then record
    else record <| wf_wait_question := Some ("Model actions from " +:+ source
                     +:+ " need a decision: " +:+ reason) |>
           <| wf_model_admission_wait := Some source |> in
  advance_save record ;;
  mret tt.

Definition refuse_model_repair (workflow : WorkflowId) (source : TaskId) (reason : string) : M () :=
  record ← require_workflow workflow;
  admission ← lift (ok_or (wf_admissions record !! source)
    (invalid_transition "model source admission is absent"));
  if negb (bool_decide (ma_status admission = AdmRejected)) || negb (ma_repair_allowed admission)
  then mret tt else
  let reason := truncate_utf8 reason 2048 in
  let record := record <| wf_admissions := <[source := admission
      <| ma_repair_allowed := false |> <| ma_reason := Some reason |>]> (wf_admissions record) |> in
  let record :=
    if negb (is_some (wf_wait_question record))
       || bool_decide (wf_model_admission_wait record = Some source)
    then record <| wf_wait_question := Some ("Automatic model feedback refused for " +:+ source
                     +:+ ": " +:+ reason) |>
           <| wf_model_admission_wait := Some source |>
    else record in
  advance_save record ;;
  mret tt.
End commands.
