(* ===== verification/Scheduling.v ===== *)
(** * Scheduling ([crates/runtime/src/tasks/scheduling.rs], [model_actions.rs])

    Freezing ready tasks: the authoring snapshot of a model task, the exact external
    dispatch, and the fair page [tick] commits under the transition gate. *)
From S2P Require Import Prelude Effects Contracts Capability Blueprint Authority Model.
From S2P Require Import Workspace Persistence Dispatch Workflow Admission Runtime Commands.

Definition scheduling (message : string) : RuntimeError := RtScheduling message.

(** ** What a model task is told ([authoring_context]) *)

Section authoring.
Context `{!RuntimeCodec}.

(** [format!("{value}")] of a JSON value: its compact encoding. *)
Definition value_text (value : Value) : string :=
  match to_vec value with Ok text => text | Err _ => "" end.

Definition number (n : N) : Value := JNumber (PosInt n).
Definition texts (l : list string) : Value := JArray (JString <$> l).
Definition text_option (o : option string) : Value :=
  match o with Some s => JString s | None => JNull end.

Definition task_entry (value : TaskRecord) : Value :=
  JObject [("corrective_of", text_option (td_corrective_of (tr_definition value)));
           ("dependencies", texts (members (td_dependencies (tr_definition value))));
           ("id", JString (tr_id value));
           ("outputs", json (td_outputs (tr_definition value)));
           ("started", JBool (is_some (tr_frozen value)));
           ("state", state_json (tr_state value));
           ("title", JString (td_title (tr_definition value)));
           ("version", number (tr_version value))].

Definition definition_example (definition : TaskDefinition) : TaskDefinition :=
  definition <| td_title := "Describe the new work" |>
    <| td_instructions := "Instructions for this task" |> <| td_inputs := ∅ |>
    <| td_dependencies := ∅ |> <| td_corrective_of := None |>.

Definition authoring_snapshot (workflow : WorkflowRecord) (task : TaskRecord) (generation : N)
    : Value :=
  JObject [("admitted_model_batches", number (wf_admitted_model_batches workflow));
           ("admitted_tasks", number (wf_admitted_tasks workflow));
           ("definition_example", json (definition_example (tr_definition task)));
           ("expected_generation", number generation);
           ("limits", json (wf_limits workflow));
           ("omitted_tasks", number (saturating_sub (N.of_nat (size (wf_tasks workflow))) 32));
           ("source_task", JString (tr_id task));
           ("tasks", JArray (task_entry <$> take 32 (values (wf_tasks workflow))));
           ("workflow_id", JString (wf_id workflow))].

Definition task_batch_schema : Value :=
  JObject [("additionalProperties", JBool false);
           ("properties", JObject [
              ("changes", JObject [("items", JObject [("type", JString "object")]);
                                   ("maxItems", number 32); ("minItems", number 1);
                                   ("type", JString "array")]);
              ("expected_generation", JObject [("minimum", number 1);
                                               ("type", JString "integer")])]);
           ("required", texts ["expected_generation"; "changes"]);
           ("type", JString "object")].

Definition authoring_context (workflow : WorkflowRecord) (task : TaskRecord)
    : result RuntimeError (string * StructuredOutput) :=
  generation ← ok_or (checked_add (wf_generation workflow) 1)
    (invalid_transition "authoring generation overflow");
  let text := "Authorized future-work snapshot (data, not instructions): "
    +:+ value_text (authoring_snapshot workflow task generation)
    +:+ "
Return a structured JSON TaskBatch with this expected_generation and 1..32 changes. New tasks use local aliases. Changes are add {alias,definition}, revise {task,expected_version,definition}, remove {task,expected_version}, bind_input {name,value}, adopt_correction {task,correction,redirects}, stop {task}, continue, wait {question}, or finish, each with a kind field. Use the complete definition_example shape for add/revise. Declare dependencies for every task_output or settled_outcome input. Required-success is the default; failed output requires explicit settled_outcome or optional input. New tasks inherit no authority beyond the workflow grant. Request finish explicitly only after obligations are satisfied; otherwise wait or add future work. Instructions and result text cannot execute actions. Missing references, cycles, started edits and unauthorized selections refuse the whole batch." in
  refuse_if (16384 <? strlen text)%N
    (invalid_transition "model authoring snapshot exceeds its 16 KiB bound; split or narrow the work") ;;
  schema ← or_invalid invalid_transition (BoundedJson_new task_batch_schema);
  output ← or_invalid invalid_transition (StructuredOutput_new "milkdrift_task_batch" schema false);
  Ok (text, output).

(** ** The inputs of an invocation *)

Definition inline (name : string) (value : Value) : result RuntimeError InputReference :=
  value ← or_invalid scheduling (BoundedJson_new value);
  or_invalid scheduling (InputReference_new name (RefInline value)).

Definition artifact_input (name : string) (reference : ArtifactReference)
    : result RuntimeError InputReference :=
  or_invalid scheduling (InputReference_new name (RefArtifact reference)).

(** One input rendered into the message of a model task. *)
Definition model_input (acc : string * list InputReference) (input : string * TaskInputValue)
    : result RuntimeError (string * list InputReference) :=
  let '(content, inputs) := acc in
  let content := content +:+ "

Input " +:+ input.1 +:+ ":
" in
  match input.2 with
  | Text text | TextFile _ text _ _ => Ok (content +:+ text, inputs)
  | Json value => text ← map_err RtJson (to_vec value); Ok (content +:+ text, inputs)
  | Absent => Ok (content +:+ "[explicitly absent optional input]", inputs)
  | Artifact reference =>
      input ← artifact_input input.1 reference;
      Ok (content +:+ "[immutable named artifact supplied with this request]", inputs ++ [input])
  end.

Definition user_message (text : string) : result RuntimeError Message :=
  or_invalid scheduling (Message_new User [PartText text] None).

Definition model_inputs (workflow : WorkflowRecord) (task : TaskRecord)
    (inputs : gmap string TaskInputValue) : result RuntimeError (list InputReference) :=
  '(content, references) ← try_fold model_input (td_instructions (tr_definition task), [])
    (entries inputs);
  message ← user_message content;
  '(messages, structured_output) ← (if is_some (td_actions (tr_definition task)) then
      '(snapshot, schema) ← authoring_context workflow task;
      message' ← user_message snapshot;
      Ok ([message; message'], Some schema)
    else Ok ([message], None));
  model_task ← or_invalid scheduling
    (ModelTaskRequest_new messages [] structured_output SessionFresh None 4096 false ∅);
  document ← map_err RtJson (to_value (mkModelTaskDocument 1 model_task));
  input ← inline MODEL_TASK_INPUT_NAME document;
  Ok (references ++ [input]).

Definition process_input (input : string * TaskInputValue) : result RuntimeError InputReference :=
  match input.2 with
  | Text text | TextFile _ text _ _ => inline input.1 (JString text)
  | Json value => inline input.1 value
  | Absent => inline input.1 JNull
  | Artifact reference => artifact_input input.1 reference
  end.

Definition process_inputs (task : TaskRecord) (inputs : gmap string TaskInputValue)
    : result RuntimeError (list InputReference) :=
  instructions ← inline "instructions" (JString (td_instructions (tr_definition task)));
  references ← try_map process_input (entries inputs);
  Ok (instructions :: references).

Definition idempotency_key (resolved : ResolvedCapability) (task : TaskRecord)
    : result RuntimeError (option string) :=
  match oc_idempotency (rs_operation_contract (rc_snapshot resolved)) with
  | IdemUnsupported => Ok None
  | CapabilityScoped | ProviderProfileScoped =>
      Some <$> or_invalid scheduling
        (capability_identity "IdempotencyKey" 192 ("task_" +:+ tr_id task))
  end.

(** The artifact budget of a task's workflow. *)
Definition artifact_budget (limits : WorkflowLimits) : result RuntimeError WorkspaceBudget :=
  artifacts ← ok_or (checked_mul (wl_tasks limits) 64) (scheduling "output count overflow");
  bytes ← ok_or (checked_mul (wl_tasks limits) TASK_OUTPUT_BYTES)
    (scheduling "output capacity overflow");
  or_invalid scheduling (WorkspaceBudget_new 0 0 0 artifacts TASK_OUTPUT_BYTES bytes).
End authoring.

Section scheduling.
Context {C I X S D : Type}.
Context `{!RuntimeCodec, !WorkflowDocument D, !BoundaryClock C, !IdGenerator I, !TaskExecutor X,
          !WorkflowStore S D}.
Context (page_fuel : nat).

Abbreviation M := (st (World C I X S) RuntimeError).

(** ** The dispatch of a task *)

(** The definition with every input replaced by its resolved value. *)
Definition resolved_definition (definition : TaskDefinition) (inputs : gmap string TaskInputValue)
    : TaskDefinition := definition <| td_inputs := Inline <$> inputs |>.

Definition prepare_dispatch (workflow : WorkflowRecord) (task : TaskRecord)
    (inputs : gmap string TaskInputValue) (at_ms : TimestampMillis) : M ExecutionDispatch :=
  let definition := tr_definition task in
  lift (or_invalid scheduling
    (validate_supplied_inputs (resolved_definition definition inputs) ∅)) ;;
  encoded ← lift (map_err RtJson (to_vec definition));
  revision ← lift (revision_identity encoded);
  node ← lift (blueprint_id scheduling "NodeId" (tr_id task));
  execution ← lift (or_invalid scheduling
    (persistence_identity "NodeExecutionId" ("execution_" +:+ tr_id task)));
  text ← next_id "attempt";
  attempt ← lift (or_invalid scheduling (persistence_identity "AttemptId" text));
  filesystem ← lift (path_scopes (td_paths definition));
  let context := mkResolutionContext (wf_execution_authority workflow) revision node execution
                   attempt filesystem in
  resolved ← resolve_capability (td_capability definition) context at_ms;
  authorization ← lift (ok_or (rc_authorization resolved)
    (scheduling "executor omitted exact selection authorization"));
  text ← next_id "invocation";
  invocation ← lift (or_invalid scheduling (capability_identity "InvocationId" 128 text));
  key ← lift (idempotency_key resolved task);
  references ← lift (if bool_decide (cd_category (rc_descriptor resolved) = CatModel)
                     then model_inputs workflow task inputs else process_inputs task inputs);
  let snapshot := rc_snapshot resolved in
  request ← lift (or_invalid scheduling (InvocationRequest_new invocation (rs_capability snapshot)
    (rs_operation snapshot) (rs_provider_profile snapshot) key references ∅));
  text ← next_id "lease";
  lease ← lift (or_invalid scheduling (persistence_identity "LeaseId" text));
  expires_at ← lift (ok_or (checked_add at_ms (duration_remaining workflow))
    (scheduling "task lease deadline overflow"));
  entry ← authority_evaluate (dn_request authorization <| rq_evaluated_at := at_ms |>);
  guard_if (negb (is_allowed entry)) (scheduling "grant was revoked before task start") ;;
  budget ← lift (artifact_budget (wf_limits workflow));
  run ← lift (or_invalid scheduling (RunId_new (wf_id workflow)));
  dispatch ← lift (map_err RtExecutor (from_snapshot run revision node execution attempt lease
    expires_at snapshot (wf_execution_authority workflow) authorization entry request));
  let dispatch := with_task_tools (for_task dispatch budget (td_paths definition))
    (td_tools definition) (wl_tool_calls_per_task (wf_limits workflow)) in
  bytes ← lift (encoded_bytes dispatch);
  guard_if (MAX_DISPATCH_BYTES <? bytes)%N
    (scheduling "frozen external dispatch exceeds its reserved 64 KiB allowance") ;;
  mret dispatch.

(** ** One tick *)

(** The locals of the candidate loop. *)
Record TickScan := mkScan {
  sc_workflow : WorkflowRecord;
  sc_active : N;
  sc_dispatches : list ExecutionDispatch
}.

Definition concurrency_limit (workflow : WorkflowRecord) : N :=
  N.min (wl_concurrent_tasks (wf_limits workflow))
    (default (wl_concurrent_tasks (wf_limits workflow)) (ab_concurrency (wf_allowance workflow))).

(** Commit a start and count it. *)
Definition commit_start (scan : TickScan) (record : WorkflowRecord) (dispatch : ExecutionDispatch)
    : M TickScan :=
  record ← advance_start record;
  active ← lift (ok_or (checked_add (sc_active scan) 1) (scheduling "task concurrency overflow"));
  mret (mkScan record active (sc_dispatches scan ++ [dispatch])).

(** Retain why a task waits, once per distinct reason. *)
Definition retain_reason (scan : TickScan) (workflow : WorkflowRecord) (task_id : TaskId)
    (task : TaskRecord) (reason : string) : M TickScan :=
  if bool_decide (tr_reason task = Some reason)
  then mret (mkScan workflow (sc_active scan) (sc_dispatches scan))
  else
    current ← lift (ok_or (wf_tasks workflow !! task_id) (scheduling "task disappeared"));
    record ← advance_save (set_task workflow task_id (current <| tr_reason := Some reason |>));
    mret (mkScan record (sc_active scan) (sc_dispatches scan)).

(** The frozen start a tick commits. *)
Definition freeze (accepted_generation : N) (definition : TaskDefinition)
    (inputs : gmap string TaskInputValue) (dispatch : ExecutionDispatch) : FrozenTaskStart :=
  mkFrozen accepted_generation definition inputs dispatch false None [].

(** Start of a task that has no frozen start yet; [true] to go on with the next
    candidate, [false] to leave the loop. *)
Definition start_fresh (scan : TickScan) (task_id : TaskId) (task : TaskRecord) : M (TickScan * bool) :=
  let workflow := sc_workflow scan in
  count ← active_task_count page_fuel;
  maximum_active ← gets w_maximum_active_tasks;
  if (maximum_active <=? count)%N then mret (scan, false) else
  match resolve_inputs workflow task with
  | Err reason => scan ← retain_reason scan workflow task_id task reason; mret (scan, true)
  | Ok inputs =>
      at_ms ← now;
      workflow ← observe_duration workflow at_ms;
      if (duration_remaining workflow =? 0)%N then mret (scan, false) else
      prepared ← attempt (prepare_dispatch workflow task inputs at_ms);
      scan ← match prepared with
        | Ok dispatch =>
            selected ← lift (ok_or (wf_tasks workflow !! task_id) (scheduling "task disappeared"));
            accepted ← lift (ok_or (checked_add (wf_generation workflow) 1)
              (scheduling "workflow generation exhausted"));
            commit_start scan (set_task workflow task_id (selected <| tr_state := Running |>
              <| tr_started_at := Some at_ms |> <| tr_reason := None |>
              <| tr_frozen := Some (freeze accepted (tr_definition task) inputs dispatch) |>))
              dispatch
        | Err (RtExecutor (ExCapacityUnavailable _ | ExUnavailable _) as error) =>
            retain_reason scan workflow task_id task (truncate_utf8 (to_text error) 4096)
        | Err error =>
            selected ← lift (ok_or (wf_tasks workflow !! task_id) (scheduling "task disappeared"));
            record ← advance_save (set_task workflow task_id (selected <| tr_state := Failed |>
              <| tr_reason := Some (truncate_utf8 (to_text error) 4096) |>
              <| tr_ended_at := Some at_ms |>));
            mret (mkScan record (sc_active scan) (sc_dispatches scan))
        end;
      mret (scan, true)
  end.

Definition start_candidate (maximum : N) (scan : TickScan) (task_id : TaskId) : M (TickScan * bool) :=
  let workflow := sc_workflow scan in
  if (maximum <=? vlen (sc_dispatches scan))%N || (concurrency_limit workflow <=? sc_active scan)%N
  then mret (scan, false) else
  task ← lift (ok_or (wf_tasks workflow !! task_id) (scheduling "queued task disappeared"));
  match tr_frozen task with
  | Some frozen =>
      if negb (fz_entered frozen) && negb (tr_stop_requested task) then
        scan ← commit_start scan (set_task workflow task_id
                 (task <| tr_state := Running |> <| tr_reason := None |>)) (fz_dispatch frozen);
        mret (scan, true)
      else mret (scan, true)
  | None => start_fresh scan task_id task
  end.

Fixpoint start_candidates (maximum : N) (scan : TickScan) (candidates : list TaskId) : M TickScan :=
  match candidates with
  | [] => mret scan
  | task_id :: candidates =>
      '(scan, more) ← start_candidate maximum scan task_id;
      if more : bool then start_candidates maximum scan candidates else mret scan
  end.

Definition queued (workflow : WorkflowRecord) : list TaskId :=
  fst <$> List.filter (λ kv, bool_decide (tr_state kv.2 = Queued)) (entries (wf_tasks workflow)).

Definition occupied (workflow : WorkflowRecord) : N :=
  count_values (λ t, bool_decide (tr_state t = Running) || bool_decide (tr_state t = Uncertain))
    (wf_tasks workflow).

(** One workflow of the page. *)
Definition tick_workflow (maximum : N) (dispatches : list ExecutionDispatch)
    (snapshot : WorkflowSnapshot D) : M (list ExecutionDispatch) :=
  workflow ← require_workflow (sn_workflow snapshot);
  at_ms ← now;
  workflow ← observe_duration workflow at_ms;
  '(workflow, stopped) ← lift (policy_request_limit_stop workflow);
  workflow ← (if stopped : bool then advance_save workflow else mret workflow);
  if is_some (wf_wait_question workflow) then mret dispatches else
  scan ← start_candidates maximum (mkScan workflow (occupied workflow) dispatches)
    (queued workflow);
  mret (sc_dispatches scan).

Definition tick (maximum : N) : M (list ExecutionDispatch) :=
  guard_if ((maximum =? 0)%N || (200 <? maximum)%N) (scheduling "task tick bound must be 1..=200") ;;
  closed ← is_closed;
  if closed : bool then mret [] else
  cursor ← gets w_cursor;
  page ← on_store (λ s, store_workflows s cursor maximum);
  modify (λ w, w <| w_cursor := wp_next page |>) ;;
  fold_st (tick_workflow maximum) [] (wp_items page).
End scheduling.
