(* ===== verification/Execution.v ===== *)
(** * External effects ([crates/runtime/src/tasks/effects.rs])

    Entering a frozen start once, recording what the adapter reports, settling without
    entry, uncertainty, restart recovery and cancellation. A method that releases the
    transition gate is a thread of critical sections. *)
From S2P Require Import Prelude Effects Contracts Capability Blueprint Authority Model.
From S2P Require Import Workspace Persistence Dispatch Workflow Admission Runtime.

Section execution.
Context {C I X S D : Type}.
Context `{!RuntimeCodec, !WorkflowDocument D, !BoundaryClock C, !IdGenerator I, !TaskExecutor X,
          !WorkflowStore S D}.
Context (page_fuel : nat).

Abbreviation W := (World C I X S).
Abbreviation M := (st W RuntimeError).
Abbreviation T := (thread W RuntimeError).

Definition task_of (record : WorkflowRecord) (id : TaskId) (message : string)
    : result RuntimeError TaskRecord := ok_or (wf_tasks record !! id) (invalid_transition message).

(** ** Worker ownership ([ExecutionClaim]) *)

Definition claim_execution (invocation : InvocationId) : M () :=
  executing ← gets w_executing;
  guard_if ((65536 <=? N.of_nat (size executing))%N || bool_decide (invocation ∈ executing))
    (invalid_transition "exact task invocation is already owned by an active worker") ;;
  modify (λ w, w <| w_executing := {[invocation]} ∪ executing |>).

Definition release (invocation : InvocationId) : M () :=
  modify (λ w, w <| w_executing := w_executing w ∖ {[invocation]} |>).

(** ** Settlement without entry *)

(** The gate-held part: [Some] for a settled task whose host resources are released
    after the gate. *)
Definition finish_section (workflow_id : WorkflowId) (task_id : TaskId) (state : TaskState)
    (reason : string) (pause : bool) : M (option ExecutionDispatch) :=
  workflow ← require_workflow workflow_id;
  let workflow := if pause
    then workflow <| wf_wait_question := Some (truncate_utf8 reason 4096) |>
           <| wf_model_admission_wait := None |>
    else workflow in
  task ← lift (task_of workflow task_id "task is absent");
  if is_settled (tr_state task) then mret (fz_dispatch <$> tr_frozen task) else
  guard_if (is_some_and (λ start, fz_entered start || is_some (fz_execution_duration start))
              (tr_frozen task))
    (invalid_transition "entered or unresolved task cannot be settled using non-entry evidence") ;;
  ended_at ← now;
  advance_save (set_task workflow task_id (task <| tr_state := state |>
    <| tr_reason := Some (truncate_utf8 reason 4096) |> <| tr_ended_at := Some ended_at |>)) ;;
  match tr_frozen task with
  | Some start => settle (fz_dispatch start)
  | None => mret tt
  end ;;
  mret None.

Definition finish_without_entry_policy (workflow_id : WorkflowId) (task_id : TaskId)
    (state : TaskState) (reason : string) (pause : bool) : T () :=
  dispatch ← atomic (finish_section workflow_id task_id state reason pause);
  match dispatch with
  | Some dispatch => atomic (settle dispatch)
  | None => mret tt
  end.

Definition finish_without_entry (workflow_id : WorkflowId) (task_id : TaskId) (state : TaskState)
    (reason : string) : T () :=
  finish_without_entry_policy workflow_id task_id state reason false.

Definition mark_uncertain (workflow_id : WorkflowId) (task_id : TaskId) (reason : string) : M () :=
  workflow ← require_workflow workflow_id;
  task ← lift (task_of workflow task_id "task is absent");
  if is_settled (tr_state task) then mret tt else
  frozen ← lift (ok_or (tr_frozen task)
    (invalid_transition "uncertain task lost its accepted start"));
  frozen ← match fz_execution_duration frozen with
    | Some _ => mret frozen
    | None =>
        started_at ← lift (ok_or (tr_started_at task)
          (invalid_transition "uncertain task lost its accepted start time"));
        mret (frozen <| fz_execution_duration := Some (mkExecutionDuration started_at started_at
                (wl_active_execution_ms (wf_limits workflow))) |>)
    end;
  let workflow := set_task workflow task_id (task <| tr_state := Uncertain |>
    <| tr_frozen := Some frozen |> <| tr_reason := Some (truncate_utf8 reason 4096) |>) in
  at_ms ← now;
  '(workflow, _) ← lift (accrue workflow at_ms);
  advance_save (duration_request_limit_stop workflow).1 ;;
  mret tt.

(** ** Capacity refusals *)

Inductive Deferral := DeferSettled | DeferStopped | DeferQueued.

(** The gate-held part of [defer_before_entry]; it gives up the worker's claim before
    scheduling may run again. *)
Definition defer_section (workflow_id : WorkflowId) (task_id : TaskId)
    (dispatch : ExecutionDispatch) (reason : string) : M Deferral :=
  workflow ← require_workflow workflow_id;
  at_ms ← now;
  '(workflow, _) ← lift (accrue workflow at_ms);
  task ← lift (task_of workflow task_id "capacity-deferred task is absent");
  if is_settled (tr_state task) then mret DeferSettled else
  frozen ← lift (ok_or (tr_frozen task)
    (invalid_transition "capacity refusal lost its accepted start"));
  guard_if (bool_decide (fz_dispatch frozen ≠ dispatch) || fz_entered frozen
            || bool_decide (tr_state task ≠ Running))
    (invalid_transition "capacity refusal does not own the exact unentered task") ;;
  if tr_stop_requested task then mret DeferStopped else
  advance_save (set_task workflow task_id (task <| tr_state := Queued |>
    <| tr_reason := Some (truncate_utf8 ("waiting for capability capacity: " +:+ reason) 4096) |>)) ;;
  release (iv_invocation (xd_request dispatch)) ;;
  mret DeferQueued.

(** [true] when the claim was given up. *)
Definition defer_before_entry (workflow_id : WorkflowId) (task_id : TaskId)
    (dispatch : ExecutionDispatch) (reason : string) : T bool :=
  deferral ← atomic (defer_section workflow_id task_id dispatch reason);
  match deferral with
  | DeferSettled => atomic (settle dispatch) ;; mret false
  | DeferStopped =>
      finish_without_entry workflow_id task_id Stopped "stopped while awaiting capability capacity" ;;
      mret false
  | DeferQueued => mret true
  end.

(** ** Entry *)

(** A dispatch owns its task: the exact unentered start of a running task. *)
Definition owned_start (workflow : WorkflowRecord) (task_id : TaskId)
    (dispatch : ExecutionDispatch) (changed : string)
    : result RuntimeError (TaskRecord * FrozenTaskStart) :=
  task ← task_of workflow task_id "dispatch task is absent";
  frozen ← ok_or (tr_frozen task) (invalid_transition "dispatch has no frozen start");
  refuse_if (bool_decide (fz_dispatch frozen ≠ dispatch) || fz_entered frozen
             || bool_decide (tr_state task ≠ Running)) (invalid_transition changed) ;;
  Ok (task, frozen).

(** The first section of [execute]: whether a stop already won. *)
Definition check_section (workflow_id : WorkflowId) (task_id : TaskId)
    (dispatch : ExecutionDispatch) : M bool :=
  workflow ← require_workflow workflow_id;
  '(task, _) ← lift (owned_start workflow task_id dispatch
    "dispatch no longer owns the exact unentered task");
  mret (tr_stop_requested task).

Inductive Entry :=
| EntrySettled
| EntryRefused (state : TaskState) (reason : string) (pause : bool)
| EntryCommitted (dispatch : ExecutionDispatch).

(** The request of the final authority decision at the adapter boundary. *)
Definition entry_request (dispatch : ExecutionDispatch) (at_ms : TimestampMillis)
    : result RuntimeError AuthorityRequest :=
  decision ← or_invalid invalid_transition
    (DecisionId_new ("entry_" +:+ blake3_hex (iv_invocation (xd_request dispatch))));
  Ok (dn_request (xd_entry_authorization dispatch) <| rq_decision := decision |>
        <| rq_evaluated_at := at_ms |>).

(** The durations, money and units the entry reserves. *)
Definition reserve_entry (workflow : WorkflowRecord) (dispatch : ExecutionDispatch)
    (envelope : InvocationAdmissionEnvelope)
    : result RuntimeError (AuthorityBudget * option string * N) :=
  maximum ← duration_reserve workflow envelope;
  '(allowance, currency) ← account_reserve workflow dispatch envelope maximum;
  Ok (allowance, currency, maximum).

(** The gate-held decision to enter: the entry evidence and the reservation are
    committed together, before the adapter runs. *)
Definition entry_section (workflow_id : WorkflowId) (task_id : TaskId)
    (dispatch : ExecutionDispatch) (prepared : PreparedExecution) : M Entry :=
  workflow ← require_workflow workflow_id;
  at_ms ← now;
  workflow ← observe_duration workflow at_ms;
  if is_some_and (λ task, is_settled (tr_state task)) (wf_tasks workflow !! task_id)
  then mret EntrySettled else
  match wf_wait_question workflow with
  | Some reason =>
      mret (EntryRefused Failed ("workflow paused before external entry: " +:+ reason) false)
  | None =>
  match reserve_entry workflow dispatch (px_envelope prepared) with
  | Err error => mret (EntryRefused Failed (to_text error) true)
  | Ok (allowance, spending_currency, maximum_ms) =>
  '(task, frozen) ← lift (owned_start workflow task_id dispatch "task changed during preparation");
  if tr_stop_requested task
  then mret (EntryRefused Stopped "stopped during local preparation" false) else
  request ← lift (entry_request dispatch at_ms);
  decision ← authority_evaluate request;
  if negb (is_allowed decision)
  then mret (EntryRefused Failed "authority was revoked before external entry" false) else
  if (xd_lease_expires_at dispatch <=? at_ms)%N
  then mret (EntryRefused Failed "task execution allowance expired before entry" false) else
  exact ← lift (map_err RtExecutor (with_entry_authorization dispatch decision));
  advance_save (set_task workflow task_id (task <| tr_frozen := Some (frozen
      <| fz_dispatch := exact |> <| fz_entered := true |>
      <| fz_execution_duration := Some (mkExecutionDuration at_ms at_ms maximum_ms) |>) |>)
    <| wf_committed_allowance := allowance |> <| wf_spending_currency := spending_currency |>) ;;
  mret (EntryCommitted exact)
  end
  end.

(** ** Reports ([TaskReporter]) *)

Definition check_continuation (workflow_id : WorkflowId) (task_id : TaskId)
    (dispatch : ExecutionDispatch) : M ObservationDisposition :=
  workflow ← require_workflow workflow_id;
  at_ms ← now;
  workflow ← observe_duration workflow at_ms;
  task ← lift (task_of workflow task_id "heartbeat task disappeared");
  guard_if (is_none_or (λ start, negb (fz_entered start)
                        || bool_decide (fz_dispatch start ≠ dispatch)) (tr_frozen task)
            || is_settled (tr_state task))
    (invalid_transition "heartbeat differs from an unsettled entered execution") ;;
  guard_if (tr_stop_requested task || (duration_remaining workflow =? 0)%N
            || (xd_lease_expires_at dispatch <=? at_ms)%N)
    (invalid_transition "task continuation refused by its stop or cumulative execution allowance") ;;
  mret ObsApplied.

Definition terminal_state (status : TerminalStatus) : TaskState :=
  match status with
  | TsSuccess => Completed
  | TsFailure | TsRejected => Failed
  | TsCancelled => Stopped
  | TsUncertain => Uncertain
  end.

(** The named outputs of a report history; a later one would replace an earlier one. *)
Definition report_outputs (reports : list InvocationEvent) : gmap string ArtifactReference :=
  foldl (λ outputs output, <[output.1 := output.2]> outputs) ∅ (omap event_output reports).

Definition pending_admission (response : option ArtifactReference) (frozen : FrozenTaskStart)
    : ModelAdmission :=
  mkAdmission response (fz_accepted_generation frozen) AdmPending None false None ∅.

(** The task after a terminal report, at [at_ms]; [frozen] already has the report. *)
Definition settle_terminal (task : TaskRecord) (frozen : FrozenTaskStart)
    (terminal : InvocationTerminal) (at_ms : TimestampMillis) : TaskRecord :=
  let state := terminal_state (it_status terminal) in
  let outputs := report_outputs (fz_reports frozen) in
  let task := task <| tr_state := state |>
    <| tr_ended_at := if is_settled state then Some at_ms else None |>
    <| tr_reason := debug_text <$> it_failure terminal |> in
  let task := match (if bool_decide (state = Completed)
                     then output_contract_failure (fz_definition frozen) outputs else None) with
    | Some reason => task <| tr_state := Failed |> <| tr_reason := Some reason |>
    | None => task
    end in
  task <| tr_result := Some (mkTaskResult terminal outputs at_ms) |>.

(** Whether a report may extend the history of an unsettled task. *)
Definition validate_next (task : TaskRecord) (frozen : FrozenTaskStart) (report : InvocationEvent)
    : result RuntimeError () :=
  next ← (if is_settled (tr_state task) || is_some (tr_result task)
             || (MAX_REPORTS_PER_DISPATCH <=? vlen (fz_reports frozen))%N
          then Ok None
          else Some <$> ok_or (checked_add (vlen (fz_reports frozen)) 1)
                 (invalid_transition "report sequence exhausted"));
  refuse_if (bool_decide (Some (ev_sequence report) ≠ next))
    (invalid_transition "report sequence or task state is invalid") ;;
  validate_report (fz_reports frozen) report ;;
  match event_output report with
  | None => Ok tt
  | Some (name, _) =>
      refuse_if (existsb (λ prior, is_some_and (λ output, bool_decide (output.1 = name))
                                     (event_output prior)) (fz_reports frozen))
        (invalid_transition "an immutable named output cannot be published twice")
  end.

(** The start, the task and the model admissions after an accepted report. *)
Definition reported_start (frozen : FrozenTaskStart) (report : InvocationEvent)
    : FrozenTaskStart := frozen <| fz_reports := fz_reports frozen ++ [report] |>.

Definition reported_task (task : TaskRecord) (frozen : FrozenTaskStart) (report : InvocationEvent)
    (at_ms : TimestampMillis) : TaskRecord :=
  let task := match event_progress report with
    | Some message => task <| tr_reason := Some message |>
    | None => task
    end in
  let task := task <| tr_frozen := Some (reported_start frozen report) |> in
  match event_terminal report with
  | None => task
  | Some terminal => settle_terminal task (reported_start frozen report) terminal at_ms
  end.

Definition reported_admissions (admissions : gmap TaskId ModelAdmission) (task_id : TaskId)
    (task : TaskRecord) (frozen : FrozenTaskStart) (report : InvocationEvent)
    : gmap TaskId ModelAdmission :=
  let publishes := is_some (td_actions (fz_definition frozen)) in
  let admissions := match event_output report with
    | Some (name, reference) =>
        if bool_decide (name = "model_response") && publishes
        then <[task_id := pending_admission (Some reference) frozen]> admissions
        else admissions
    | None => admissions
    end in
  let response := tr_result task ≫= λ result, ts_outputs result !! "model_response" in
  if is_some (event_terminal report) && bool_decide (tr_state task = Completed) && publishes
     && negb (is_some (admissions !! task_id))
  then <[task_id := pending_admission response frozen]> admissions
  else admissions.

Definition apply_report (workflow : WorkflowRecord) (task_id : TaskId) (task : TaskRecord)
    (frozen : FrozenTaskStart) (report : InvocationEvent) (at_ms : TimestampMillis)
    : WorkflowRecord :=
  let task := reported_task task frozen report at_ms in
  set_task workflow task_id task
    <| wf_admissions := reported_admissions (wf_admissions workflow) task_id task frozen report |>.

Definition record (workflow_id : WorkflowId) (task_id : TaskId) (dispatch : ExecutionDispatch)
    (report : InvocationEvent) : M ObservationDisposition :=
  guard_if (bool_decide (ev_invocation report ≠ iv_invocation (xd_request dispatch)))
    (invalid_transition "report names another invocation") ;;
  workflow ← require_workflow workflow_id;
  at_ms ← now;
  '(workflow, _) ← lift (accrue workflow at_ms);
  task ← lift (task_of workflow task_id "report task disappeared");
  frozen ← lift (ok_or (tr_frozen task) (invalid_transition "report task lost its start"));
  guard_if (negb (fz_entered frozen) || bool_decide (fz_dispatch frozen ≠ dispatch))
    (invalid_transition "report differs from exact entered dispatch") ;;
  match List.find (λ existing, ev_sequence existing =? ev_sequence report)%N (fz_reports frozen) with
  | Some existing =>
      guard_if (bool_decide (existing ≠ report))
        (invalid_transition "report sequence reused with different content") ;;
      mret ObsReplayed
  | None =>
      lift (validate_next task frozen report) ;;
      let workflow := (duration_request_limit_stop
        (apply_report workflow task_id task frozen report at_ms)).1 in
      let continuation_refused := negb (is_some (event_terminal report))
        && is_some_and tr_stop_requested (wf_tasks workflow !! task_id) in
      advance_save workflow ;;
      guard_if continuation_refused
        (invalid_transition "further execution refused after the retained report exhausted its duration or stop allowance") ;;
      mret ObsApplied
  end.

(** [ExecutionReporter::invocation] and [heartbeat] *)
Definition report_outcome (r : result RuntimeError ObservationDisposition)
    : result ExecutorError ObservationDisposition :=
  map_err (λ error, ExBoundaryAfterEntry (to_text error)) r.

(** The adapter's run: every report and heartbeat is one section. *)
Fixpoint run_adapter (workflow_id : WorkflowId) (task_id : TaskId) (dispatch : ExecutionDispatch)
    (adapter : AdapterRun) : T (result ExecutorError ()) :=
  match adapter with
  | AdapterReturn outcome => mret outcome
  | AdapterReport report continue =>
      r ← outcome (atomic (record workflow_id task_id dispatch report));
      run_adapter workflow_id task_id dispatch (continue (report_outcome r))
  | AdapterHeartbeat continue =>
      r ← outcome (atomic (check_continuation workflow_id task_id dispatch));
      run_adapter workflow_id task_id dispatch (continue (report_outcome r))
  end.

(** ** [execute] *)

(** After the adapter returned: settle, leave, or retain uncertainty. *)
Definition after_entry (workflow_id : WorkflowId) (task_id : TaskId) (dispatch : ExecutionDispatch)
    (returned : result ExecutorError ()) : T () :=
  workflow ← atomic (require_workflow workflow_id);
  task ← thread_lift (task_of workflow task_id "entered task disappeared");
  if is_settled (tr_state task) then atomic (settle dispatch)
  else if bool_decide (tr_state task = Uncertain) then mret tt
  else
    let reason := match returned with
      | Ok _ => "adapter returned without durable terminal evidence"
      | Err error => "external outcome remains uncertain: " +:+ to_text error
      end in
    atomic (mark_uncertain workflow_id task_id reason).

(** With an entry prepared. *)
Definition enter_prepared (workflow_id : WorkflowId) (task_id : TaskId)
    (dispatch : ExecutionDispatch) (prepared : PreparedExecution) : T () :=
  entry ← atomic (entry_section workflow_id task_id dispatch prepared);
  match entry with
  | EntrySettled => atomic (settle dispatch)
  | EntryRefused state reason pause =>
      finish_without_entry_policy workflow_id task_id state reason pause
  | EntryCommitted exact =>
      returned ← run_adapter workflow_id task_id exact (prepared_enter prepared exact);
      after_entry workflow_id task_id exact returned
  end.

(** Whether a preparation error establishes that nothing was entered. *)
Definition refused_before_entry (error : ExecutorError) : bool :=
  match error with
  | ExBoundaryBeforeEntry _ | ExUnavailableGeneration _ _ | ExUnavailable _ | ExAdmissionClosed
  | ExInvalidDispatch _ | ExContract _ | ExAdapterPanicked false => true
  | _ => false
  end.

(** With the claim held; [true] when it was given up on the way. *)
Definition execute_claimed (dispatch : ExecutionDispatch) : T bool :=
  workflow_id ← thread_lift (blueprint_id invalid_transition "WorkflowId" (xd_run dispatch));
  task_id ← thread_lift (blueprint_id invalid_transition "TaskId" (xd_node dispatch));
  stopped ← atomic (check_section workflow_id task_id dispatch);
  if stopped : bool then
    finish_without_entry workflow_id task_id Stopped "stopped before external entry" ;; mret false
  else
  prepared ← atomic (on_executor (λ x, executor_prepare x dispatch));
  match prepared with
  | Ok prepared => enter_prepared workflow_id task_id dispatch prepared ;; mret false
  | Err (ExCapacityUnavailable reason) => defer_before_entry workflow_id task_id dispatch reason
  | Err error =>
      if refused_before_entry error then
        finish_without_entry workflow_id task_id Failed
          ("local preparation refused before entry: " +:+ to_text error) ;; mret false
      else
        atomic (mark_uncertain workflow_id task_id
          ("preparation could not establish exclusive non-entry: " +:+ to_text error)) ;; mret false
  end.

Definition execute (dispatch : ExecutionDispatch) : T () :=
  let invocation := iv_invocation (xd_request dispatch) in
  atomic (claim_execution invocation) ;;
  r ← outcome (execute_claimed dispatch);
  match r with
  | Ok true => mret tt
  | Ok false => atomic (release invocation)
  | Err error => atomic (release invocation) ;; thread_lift (Err error)
  end.

(** ** Restart recovery *)

Definition MAX_RECOVERED : N := 200.

(** The snapshot of a workflow recovery works on. *)
Definition recover_section (id : WorkflowId) : M WorkflowRecord :=
  workflow ← require_workflow id;
  at_ms ← now;
  observe_duration workflow at_ms.

(** Return an accepted start to the queue beyond the bounded startup set. *)
Definition requeue_section (workflow_id : WorkflowId) (id : TaskId) : M () :=
  current ← require_workflow workflow_id;
  retained ← lift (task_of current id "recoverable task disappeared");
  advance_save (set_task current id (retained <| tr_state := Queued |>
    <| tr_reason := Some "accepted start retained for bounded worker recovery" |>)) ;;
  mret tt.

Definition recover_task (workflow : WorkflowRecord) (ready : list ExecutionDispatch)
    (entry : TaskId * TaskRecord) : T (list ExecutionDispatch) :=
  let '(id, task) := entry in
  if is_settled (tr_state task) then
    match tr_frozen task with
    | Some frozen => atomic (settle (fz_dispatch frozen))
    | None => mret tt
    end ;;
    mret ready
  else if bool_decide (tr_state task ≠ Running) then mret ready
  else
    frozen ← thread_lift (ok_or (tr_frozen task)
      (invalid_transition "running task lost its frozen start"));
    if fz_entered frozen then
      atomic (mark_uncertain (wf_id workflow) id
        "daemon restarted after durable external entry; no terminal evidence is available") ;;
      mret ready
    else if (MAX_RECOVERED <=? vlen ready)%N then
      atomic (requeue_section (wf_id workflow) id) ;; mret ready
    else
      mret (if negb (tr_stop_requested task) && negb (is_some (wf_wait_question workflow))
            then ready ++ [fz_dispatch frozen] else ready).

Definition recover_workflow (ready : list ExecutionDispatch) (snapshot : WorkflowSnapshot D)
    : T (list ExecutionDispatch) :=
  workflow ← atomic (recover_section (sn_workflow snapshot));
  fold_thread (recover_task workflow) ready (entries (wf_tasks workflow)).

Fixpoint recover_pages (fuel : nat) (ready : list ExecutionDispatch) (cursor : option string)
    : T (list ExecutionDispatch) :=
  page ← atomic (on_store (λ s, store_workflows s cursor 200));
  ready ← fold_thread recover_workflow ready (wp_items page);
  match wp_next page, fuel with
  | None, _ => mret ready
  | Some next, Datatypes.S fuel => recover_pages fuel ready (Some next)
  | Some _, O => thread_lift (Err (invalid_transition "loop bound"))
  end.

Definition recover : T (list ExecutionDispatch) := recover_pages page_fuel [] None.

(** ** Cancellation *)

Definition STOP_REQUEST : string := "authorized task stop request".

Definition stop_request (invocation : InvocationId) : result RuntimeError CancellationRequest :=
  or_invalid invalid_transition (CancellationRequest_new invocation 1 STOP_REQUEST).

Definition awaits_cancellation (task : TaskRecord) : bool :=
  tr_stop_requested task && negb (tr_cancellation_sent task) && unsettled task.

(** Retain that the adapter acknowledged the stop. *)
Definition cancelled_section (workflow_id : WorkflowId) (id : TaskId) : M () :=
  current ← require_workflow workflow_id;
  task ← lift (task_of current id "cancelled task disappeared");
  let task := task <| tr_cancellation_sent := true |> in
  let task := if is_settled (tr_state task) then task
    else task <| tr_reason := Some "stop requested; awaiting terminal stop evidence" |> in
  advance_save (set_task current id task) ;;
  mret tt.

Definition cancel_task (dispatch : CancellationDispatch) (workflow : WorkflowRecord)
    (entry : TaskId * TaskRecord) : T () :=
  let '(id, task) := entry in
  if negb (awaits_cancellation task) then mret tt else
  match tr_frozen task with
  | None => mret tt
  | Some frozen =>
      let invocation := iv_invocation (xd_request (fz_dispatch frozen)) in
      if bool_decide (xd_attempt (fz_dispatch frozen) ≠ cx_attempt dispatch)
         || bool_decide (invocation ≠ cq_invocation (cx_request dispatch)) then mret tt
      else if negb (fz_entered frozen) && negb (is_some (fz_execution_duration frozen)) then
        finish_without_entry (wf_id workflow) id Stopped "stop won before external entry"
      else
        request ← thread_lift (stop_request invocation);
        acknowledged ← atomic (on_executor (λ x, executor_cancel x request));
        match acknowledged with
        | Ok acknowledgement =>
            if bool_decide (ca_invocation acknowledgement = cq_invocation request)
               && (ca_request_sequence acknowledgement =? cq_request_sequence request)%N
            then atomic (cancelled_section (wf_id workflow) id)
            else atomic (mark_uncertain (wf_id workflow) id
                   "cancellation acknowledgement named a different invocation or request")
        | Err error =>
            atomic (mark_uncertain (wf_id workflow) id
              ("stop request outcome is unresolved: " +:+ to_text error))
        end
  end.

Definition execute_cancellation (dispatch : CancellationDispatch) : T () :=
  workflow_id ← thread_lift (blueprint_id invalid_transition "WorkflowId" (cx_run dispatch));
  workflow ← atomic (require_workflow workflow_id);
  each_thread (cancel_task dispatch workflow) (entries (wf_tasks workflow)).

(** The stops of one workflow, [true] when [maximum] was reached. *)
Fixpoint collect_stops (maximum : N) (actions : list EffectAction) (tasks : list TaskRecord)
    : result RuntimeError (list EffectAction * bool) :=
  match tasks with
  | [] => Ok (actions, false)
  | task :: tasks =>
      if (maximum <=? vlen actions)%N then Ok (actions, true) else
      match (if awaits_cancellation task then tr_frozen task else None) with
      | None => collect_stops maximum actions tasks
      | Some frozen =>
          request ← stop_request (iv_invocation (xd_request (fz_dispatch frozen)));
          collect_stops maximum (actions ++ [EffectCancel (mkCancellationDispatch
            (xd_run (fz_dispatch frozen)) (xd_attempt (fz_dispatch frozen)) request)]) tasks
      end
  end.

Fixpoint collect_page (maximum : N) (actions : list EffectAction)
    (items : list (WorkflowSnapshot D)) : T (list EffectAction) :=
  match items with
  | [] => mret actions
  | snapshot :: items =>
      workflow ← atomic (require_workflow (sn_workflow snapshot));
      '(actions, full) ← thread_lift (collect_stops maximum actions (values (wf_tasks workflow)));
      if full : bool then mret actions else collect_page maximum actions items
  end.

(** Reading the page moves the discovery cursor under its own lock. *)
Definition cancellation_page (maximum : N) : M (list (WorkflowSnapshot D)) :=
  cursor ← gets w_cancellation_cursor;
  page ← on_store (λ s, store_workflows s cursor (N.min maximum 200));
  modify (λ w, w <| w_cancellation_cursor := wp_next page |>) ;;
  mret (wp_items page).

Definition cancellation_actions (maximum : N) : T (list EffectAction) :=
  items ← atomic (cancellation_page maximum);
  collect_page maximum [] items.
End execution.
