(* ===== verification/Evolution.v ===== *)
(** * How workflow records evolve

    What every stored workflow record satisfies ([wf_ok]) and what no transition of
    the runtime ever takes back ([evolves]): settlement, entry evidence, accepted
    starts, recorded reports, results, adopted corrections, spending and admission
    decisions. Every pure transition of [Workflow] and [Admission] is shown to
    [improve] a record: from an [ok] record it leads to an [ok] one that evolved from it. *)
From S2P Require Import Prelude Effects Contracts Capability Blueprint Authority Model.
From S2P Require Import Workspace Persistence Dispatch Workflow Admission Runtime Execution.

(** ** What is never taken back *)

(** An accepted start: only the entry decision of its dispatch may still be made, and
    only before entry; reports are appended. *)
Record start_evolves (f f' : FrozenTaskStart) : Prop := {
  se_generation : fz_accepted_generation f' = fz_accepted_generation f;
  se_definition : fz_definition f' = fz_definition f;
  se_inputs : fz_inputs f' = fz_inputs f;
  se_dispatch : ∃ a, fz_dispatch f' = fz_dispatch f <| xd_entry_authorization := a |>;
  se_entered : fz_entered f = true → fz_entered f' = true ∧ fz_dispatch f' = fz_dispatch f;
  se_reports : fz_reports f `prefix_of` fz_reports f'
}.

Record task_evolves (t t' : TaskRecord) : Prop := {
  te_id : tr_id t' = tr_id t;
  te_created : tr_created_at t' = tr_created_at t;
  te_version : (tr_version t ≤ tr_version t')%N;
  te_history : tr_previous_definitions t `prefix_of` tr_previous_definitions t';
  te_settled : is_settled (tr_state t) = true →
    tr_state t' = tr_state t ∧ tr_frozen t' = tr_frozen t ∧ tr_definition t' = tr_definition t
    ∧ tr_ended_at t' = tr_ended_at t ∧ tr_result t' = tr_result t;
  te_frozen : ∀ f, tr_frozen t = Some f → tr_definition t' = tr_definition t
    ∧ ∃ f', tr_frozen t' = Some f' ∧ start_evolves f f';
  te_result : ∀ r, tr_result t = Some r → tr_result t' = Some r;
  te_stop : tr_stop_requested t = true → tr_stop_requested t' = true;
  te_sent : tr_cancellation_sent t = true → tr_cancellation_sent t' = true;
  te_removed : tr_removed t = true → tr_removed t' = true;
  te_adopted : ∀ c, tr_adopted_correction t = Some c → tr_adopted_correction t' = Some c
}.

(** [Pending] is decided once; a rejection may be repaired or dismissed once. *)
Definition status_evolves (s s' : ModelAdmissionStatus) : Prop :=
  s = s' ∨ s = AdmPending ∨ (s = AdmRejected ∧ (s' = AdmRepaired ∨ s' = AdmDismissed)).
Record admission_evolves (a a' : ModelAdmission) : Prop := {
  ae_response : ma_response a' = ma_response a;
  ae_expected : ma_expected_generation a' = ma_expected_generation a;
  ae_status : status_evolves (ma_status a) (ma_status a')
}.

(** Spending in every dimension: absent counts as nothing spent. *)
Definition amount_le (a b : option N) : Prop :=
  ∀ x, a = Some x → ∃ y, b = Some y ∧ (x ≤ y)%N.
Record budget_le (b b' : AuthorityBudget) : Prop := {
  bl_cost : amount_le (ab_cost_minor b) (ab_cost_minor b');
  bl_duration : amount_le (ab_duration_ms b) (ab_duration_ms b');
  bl_invocations : amount_le (ab_invocations b) (ab_invocations b');
  bl_artifacts : amount_le (ab_artifact_bytes b) (ab_artifact_bytes b');
  bl_units : amount_le (ab_units b) (ab_units b')
}.

Record evolves (r r' : WorkflowRecord) : Prop := {
  ev_id : wf_id r' = wf_id r;
  ev_owner : wf_owner_actor r' = wf_owner_actor r;
  ev_created : wf_created_at r' = wf_created_at r;
  ev_authority : wf_execution_authority r' = wf_execution_authority r;
  ev_allowance : wf_allowance r' = wf_allowance r;
  ev_generation : (wf_generation r ≤ wf_generation r')%N;
  ev_tasks : ∀ id t, wf_tasks r !! id = Some t →
    ∃ t', wf_tasks r' !! id = Some t' ∧ task_evolves t t';
  ev_elapsed : (wf_active_execution_ms r ≤ wf_active_execution_ms r')%N;
  ev_spent : budget_le (wf_committed_allowance r) (wf_committed_allowance r');
  ev_currency : ∀ c, wf_spending_currency r = Some c → wf_spending_currency r' = Some c;
  ev_admitted : (wf_admitted_tasks r ≤ wf_admitted_tasks r')%N;
  ev_batches : (wf_admitted_model_batches r ≤ wf_admitted_model_batches r')%N;
  ev_admissions : ∀ id a, wf_admissions r !! id = Some a →
    ∃ a', wf_admissions r' !! id = Some a' ∧ admission_evolves a a'
}.

(** ** What every record satisfies *)

Definition output_names (reports : list InvocationEvent) : list string :=
  fst <$> omap event_output reports.

(** The report history of one invocation: numbered from one without gaps, within the
    report capacity, every named output published once, a terminal report last, and
    room for it as long as there is none. *)
Record reports_ok (invocation : InvocationId) (reports : list InvocationEvent) : Prop := {
  ro_sequence : ∀ i e, reports !! i = Some e → ev_sequence e = N.of_nat (Datatypes.S i);
  ro_invocation : ∀ e, e ∈ reports → ev_invocation e = invocation;
  ro_bounded : (vlen reports ≤ MAX_TASK_REPORTS)%N;
  ro_outputs : NoDup (output_names reports);
  ro_terminal : ∀ i e, reports !! i = Some e → is_some (event_terminal e) = true →
    Datatypes.S i = length reports;
  ro_reserved : (∀ e, e ∈ reports → event_terminal e = None) → (vlen reports < MAX_TASK_REPORTS)%N
}.

Record task_ok (id : TaskId) (t : TaskRecord) : Prop := {
  ok_id : tr_id t = id;
  ok_history : (vlen (tr_previous_definitions t) ≤ 128)%N;
  ok_unstarted : tr_frozen t = None →
    tr_result t = None ∧ (tr_state t = Queued ∨ tr_state t = Failed ∨ tr_state t = Stopped);
  ok_started : ∀ f, tr_frozen t = Some f → fz_definition f = tr_definition t
    ∧ (fz_entered f = false → fz_reports f = [])
    ∧ reports_ok (iv_invocation (xd_request (fz_dispatch f))) (fz_reports f)
    ∧ (tr_result t = None → ∀ e, e ∈ fz_reports f → event_terminal e = None);
  ok_result : ∀ res, tr_result t = Some res →
    (is_settled (tr_state t) = true ∨ tr_state t = Uncertain)
    ∧ ∃ f e, tr_frozen t = Some f ∧ last (fz_reports f) = Some e
      ∧ event_terminal e = Some (ts_terminal res)
      ∧ ts_outputs res = report_outputs (fz_reports f);
  ok_completed : tr_state t = Completed → ∃ res, tr_result t = Some res
    ∧ it_status (ts_terminal res) = TsSuccess
    ∧ output_contract_failure (tr_definition t) (ts_outputs res) = None
}.

(** Nothing is committed beyond the accepted allowance. *)
Definition spent_within (committed allowance : AuthorityBudget) : Prop := budget_le committed allowance.

Record wf_ok (r : WorkflowRecord) : Prop := {
  ok_tasks : ∀ id t, wf_tasks r !! id = Some t → task_ok id t;
  ok_count : (N.of_nat (size (wf_tasks r)) ≤ wf_admitted_tasks r)%N;
  ok_admitted : (wf_admitted_tasks r ≤ wl_tasks (wf_limits r))%N;
  ok_batches : (wf_admitted_model_batches r ≤ wl_model_batches (wf_limits r))%N;
  ok_spent : spent_within (wf_committed_allowance r) (wf_allowance r);
  ok_admissions : ∀ id a, wf_admissions r !! id = Some a →
    ∃ t f, wf_tasks r !! id = Some t ∧ tr_frozen t = Some f
    ∧ ("model_response" ∈ output_names (fz_reports f) ∨ is_some (tr_result t) = true)
}.

Definition improves (r r' : WorkflowRecord) : Prop := wf_ok r → wf_ok r' ∧ evolves r r'.

(** ** Preorders *)

#[global] Instance start_evolves_refl : Reflexive start_evolves.
Proof. intros f. split; auto. by exists (xd_entry_authorization (fz_dispatch f)); destruct (fz_dispatch f). Qed.
#[global] Instance start_evolves_trans : Transitive start_evolves.
Proof.
  intros f g h [? ? ? [a Ha] He ?] [? ? ? [b Hb] He' ?].
  split; try congruence; [| |by etrans].
  - exists b. rewrite Hb, Ha. by destruct (fz_dispatch f).
  - intros Hf. destruct (He Hf) as [Hg ?]. destruct (He' Hg). split; congruence.
Qed.

#[global] Instance task_evolves_refl : Reflexive task_evolves.
Proof. intros t. split; auto; try lia. intros f ->. split; [done|]. by exists f. Qed.
#[global] Instance task_evolves_trans : Transitive task_evolves.
Proof.
  intros t u v H1 H2. destruct H1, H2. split; eauto; try (by etrans); try congruence; try lia.
  - intros Hs. destruct (te_settled0 Hs) as (E & ? & ? & ? & ?). rewrite <-E in Hs.
    destruct (te_settled1 Hs) as (? & ? & ? & ? & ?). split_and!; congruence.
  - intros f Hf. destruct (te_frozen0 f Hf) as (E & g & Hg & Hfg).
    destruct (te_frozen1 g Hg) as (E' & h & Hh & Hgh). split; [congruence|].
    exists h. split; [done|]. by trans g.
Qed.

#[global] Instance admission_evolves_refl : Reflexive admission_evolves.
Proof. intros a. split; [done..|]. by left. Qed.
#[global] Instance admission_evolves_trans : Transitive admission_evolves.
Proof.
  intros a b c [? ? Hs] [? ? Hs']. split; [congruence..|].
  unfold status_evolves in *. destruct (ma_status a), (ma_status b), (ma_status c); intuition congruence.
Qed.
#[global] Instance amount_le_refl : Reflexive amount_le.
Proof. intros a x ->. exists x. split; [done|lia]. Qed.
#[global] Instance amount_le_trans : Transitive amount_le.
Proof. intros a b c H1 H2 x Hx. destruct (H1 x Hx) as (y & Hy & ?), (H2 y Hy) as (z & ? & ?). exists z. split; [done|lia]. Qed.
#[global] Instance budget_le_refl : Reflexive budget_le.
Proof. by split. Qed.
#[global] Instance budget_le_trans : Transitive budget_le.
Proof. intros a b c [] []. split; by etrans. Qed.

#[global] Instance evolves_refl : Reflexive evolves.
Proof. intros r. split; auto; try done; try lia; eauto using task_evolves_refl, admission_evolves_refl. Qed.
#[global] Instance evolves_trans : Transitive evolves.
Proof.
  intros r s t H1 H2. destruct H1, H2. split; try congruence; try lia; try (by etrans); eauto.
  - intros id x Hx. destruct (ev_tasks0 id x Hx) as (y & Hy & ?).
    destruct (ev_tasks1 id y Hy) as (z & Hz & ?). exists z. split; [done|]. by trans y.
  - intros id a Ha. destruct (ev_admissions0 id a Ha) as (b & Hb & ?).
    destruct (ev_admissions1 id b Hb) as (c & Hc & ?). exists c. split; [done|]. by trans b.
Qed.
#[global] Instance improves_refl : Reflexive improves.
Proof. by intros r Hr. Qed.
#[global] Instance improves_trans : Transitive improves.
Proof.
  intros r s t H1 H2 Hr. destruct (H1 Hr) as [Hs ?], (H2 Hs). split; [done|]. by trans s.
Qed.

(** ** Changes that keep the frame of a record *)

Lemma prefix_output_names f g : f `prefix_of` g → output_names f `prefix_of` output_names g.
Proof.
  intros [k ->]. exists (output_names k). unfold output_names. by rewrite omap_app, fmap_app.
Qed.

(** A task before and after a transition. *)
Definition task_step (id : TaskId) (t t' : TaskRecord) : Prop :=
  task_ok id t → task_ok id t' ∧ task_evolves t t'.
Definition tasks_step (m m' : gmap TaskId TaskRecord) : Prop :=
  ∀ id, match m !! id, m' !! id with
        | Some t, Some t' => task_step id t t'
        | None, None => True
        | _, _ => False
        end.

Record same_frame (r r' : WorkflowRecord) : Prop := {
  sf_id : wf_id r' = wf_id r;
  sf_owner : wf_owner_actor r' = wf_owner_actor r;
  sf_created : wf_created_at r' = wf_created_at r;
  sf_authority : wf_execution_authority r' = wf_execution_authority r;
  sf_allowance : wf_allowance r' = wf_allowance r;
  sf_generation : (wf_generation r ≤ wf_generation r')%N;
  sf_elapsed : (wf_active_execution_ms r ≤ wf_active_execution_ms r')%N;
  sf_committed : wf_committed_allowance r' = wf_committed_allowance r;
  sf_currency : wf_spending_currency r' = wf_spending_currency r;
  sf_admitted : wf_admitted_tasks r' = wf_admitted_tasks r;
  sf_batches : wf_admitted_model_batches r' = wf_admitted_model_batches r;
  sf_limits : wf_limits r' = wf_limits r;
  sf_admissions : wf_admissions r' = wf_admissions r
}.

Lemma tasks_step_size m m' : tasks_step m m' → size m' = size m.
Proof.
  intros H. rewrite <-!size_dom. f_equal. apply set_eq. intros id. rewrite !elem_of_dom.
  specialize (H id). destruct (m !! id), (m' !! id); try done; by split; intros [? [=]].
Qed.

Lemma tasks_step_refl m : tasks_step m m.
Proof. intros id. destruct (m !! id); [|done]. by intros ?. Qed.
Lemma tasks_step_insert m id t t' :
  m !! id = Some t → task_step id t t' → tasks_step m (<[id := t']> m).
Proof.
  intros Hid Ht id'. destruct (decide (id = id')) as [<-|Hne].
  - by rewrite Hid, lookup_insert_eq.
  - rewrite lookup_insert_ne by done. by apply tasks_step_refl.
Qed.
Lemma tasks_step_fmap m f : (∀ id t, m !! id = Some t → task_step id t (f t)) → tasks_step m (f <$> m).
Proof. intros Hf id. rewrite lookup_fmap. destruct (m !! id) eqn:?; [|done]. by apply Hf. Qed.

Lemma improves_frame r r' : same_frame r r' → tasks_step (wf_tasks r) (wf_tasks r') → improves r r'.
Proof.
  intros [] Hts Hr. destruct Hr as [Htasks Hcount ? ? ? Hadm].
  assert (∀ id t, wf_tasks r !! id = Some t →
    ∃ t', wf_tasks r' !! id = Some t' ∧ task_ok id t' ∧ task_evolves t t') as Hfwd.
  { intros id t Hid. specialize (Hts id). rewrite Hid in Hts. destruct (wf_tasks r' !! id); [|done].
    destruct (Hts (Htasks id t Hid)). eauto. }
  split; split; try congruence.
  - intros id t' Hid. specialize (Hts id) as Hs. rewrite Hid in Hs.
    destruct (wf_tasks r !! id) eqn:E; [|done]. by apply Hs, Htasks.
  - rewrite (tasks_step_size _ _ Hts). congruence.
  - intros id a. rewrite sf_admissions0. intros Ha.
    destruct (Hadm id a Ha) as (t & f & Ht & Hf & Hor). destruct (Hfwd id t Ht) as (t' & Ht' & _ & [ ]).
    destruct (te_frozen0 f Hf) as (_ & f' & Hf' & [ ]). exists t', f'. split_and!; [done..|].
    destruct Hor as [Hin|Hres]; [left|right].
    + by eapply elem_of_prefix; [|apply prefix_output_names].
    + destruct (tr_result t); [|done]. by rewrite (te_result0 _ eq_refl).
  - intros id t Ht. destruct (Hfwd id t Ht) as (? & ? & ? & ?). eauto.
  - by rewrite sf_committed0.
  - lia.
  - lia.
  - intros id a. rewrite sf_admissions0. eauto using admission_evolves_refl.
Qed.

Lemma improves_set_task r id t t' :
  wf_tasks r !! id = Some t → task_step id t t' → improves r (set_task r id t').
Proof.
  intros Hid Ht. apply improves_frame; [by split; try done; cbn; lia|]. by eapply tasks_step_insert.
Qed.

(** ** Changes of one task *)

(** Controls of a task: its reason, stop and cancellation flags and adopted correction. *)
Lemma task_step_control id t t' :
  tr_id t' = tr_id t → tr_created_at t' = tr_created_at t → tr_version t' = tr_version t →
  tr_previous_definitions t' = tr_previous_definitions t → tr_definition t' = tr_definition t →
  tr_state t' = tr_state t → tr_frozen t' = tr_frozen t → tr_result t' = tr_result t →
  tr_ended_at t' = tr_ended_at t → tr_removed t' = tr_removed t →
  (tr_stop_requested t = true → tr_stop_requested t' = true) →
  (tr_cancellation_sent t = true → tr_cancellation_sent t' = true) →
  (∀ c, tr_adopted_correction t = Some c → tr_adopted_correction t' = Some c) →
  task_step id t t'.
Proof.
  intros E1 E2 E3 E4 E5 E6 E7 E8 E9 E10 ? ? ? [].
  split; split; rewrite ?E1, ?E2, ?E3, ?E4, ?E5, ?E6, ?E7, ?E8, ?E9, ?E10; auto; try lia.
  intros f ->. split; [done|]. by exists f.
Qed.

(** What may happen to the start of a live task without a report. *)
Definition start_same (o o' : option FrozenTaskStart) : Prop :=
  match o, o' with
  | None, None => True
  | Some f, Some f' => start_evolves f f' ∧ fz_reports f' = fz_reports f
      ∧ (fz_entered f = true → fz_entered f' = true)
  | _, _ => False
  end.

Lemma start_same_refl o : start_same o o.
Proof. by destruct o. Qed.

(** A live task that changes its state, its flags or its start, but gets no report. *)
Lemma task_step_live id t t' :
  unsettled t = true →
  tr_id t' = tr_id t → tr_created_at t' = tr_created_at t → tr_version t' = tr_version t →
  tr_previous_definitions t' = tr_previous_definitions t → tr_definition t' = tr_definition t →
  tr_result t' = tr_result t → tr_adopted_correction t' = tr_adopted_correction t →
  (tr_removed t = true → tr_removed t' = true) →
  (tr_stop_requested t = true → tr_stop_requested t' = true) →
  (tr_cancellation_sent t = true → tr_cancellation_sent t' = true) →
  start_same (tr_frozen t) (tr_frozen t') →
  (tr_state t' = tr_state t ∨ tr_state t' ≠ Completed
     ∧ (tr_frozen t = None → is_settled (tr_state t') = true)
     ∧ (tr_result t = None ∨ tr_state t' = Uncertain)) →
  task_step id t t'.
Proof.
  unfold unsettled. intros Hlive E1 E2 E3 E4 E5 E6 E7 ? ? ? Hstart Hstate [].
  assert (tr_state t ≠ Completed) as Hnc by (by intros HC; rewrite HC in Hlive).
  split; split; rewrite ?E1, ?E2, ?E3, ?E4, ?E5, ?E6, ?E7; auto; try lia.
  - intros Hf. destruct (tr_frozen t) as [f|] eqn:Ef; [by rewrite Hf in Hstart|].
    destruct (ok_unstarted0 eq_refl) as [? Hs]. split; [done|].
    destruct Hstate as [->|(? & Hset & _)]; [done|].
    specialize (Hset eq_refl). destruct (tr_state t'); naive_solver.
  - intros f' Hf'. rewrite Hf' in Hstart. destruct (tr_frozen t) as [f|]; [|done].
    destruct Hstart as ([? ? ? [a Ha] ? ?] & -> & Hent).
    destruct (ok_started0 f eq_refl) as (? & Hun & Hro & ?).
    split_and!; [congruence| |by rewrite Ha|done].
    intros Hf. apply Hun. destruct (fz_entered f); [|done]. by rewrite Hent in Hf.
  - intros res Hres. destruct (ok_result0 res Hres) as (Hs & f & e & Hf & ?).
    rewrite Hf in Hstart. destruct (tr_frozen t') as [f'|]; [|done]. destruct Hstart as (_ & Hr & _).
    split; [|exists f', e; by rewrite Hr].
    destruct Hstate as [->|(_ & _ & [Hn|HU])]; [done|congruence|by right].
  - intros HC. destruct Hstate as [Hs|[]]; congruence.
  - intros Hs. by rewrite Hs in Hlive.
  - intros f Hf. rewrite Hf in Hstart. split; [done|].
    destruct (tr_frozen t') as [f'|]; [|done]. exists f'. by destruct Hstart.
Qed.

(** The start of a task. *)
Lemma task_step_freeze id t t' f :
  unsettled t = true → tr_frozen t = None →
  tr_id t' = tr_id t → tr_created_at t' = tr_created_at t → tr_version t' = tr_version t →
  tr_previous_definitions t' = tr_previous_definitions t → tr_definition t' = tr_definition t →
  tr_result t' = tr_result t → tr_adopted_correction t' = tr_adopted_correction t →
  tr_removed t' = tr_removed t → tr_stop_requested t' = tr_stop_requested t →
  tr_cancellation_sent t' = tr_cancellation_sent t → tr_state t' = Running →
  tr_frozen t' = Some f → fz_definition f = tr_definition t → fz_reports f = [] →
  task_step id t t'.
Proof.
  unfold unsettled. intros Hlive Hf E1 E2 E3 E4 E5 E6 E7 E8 E9 E10 E11 E12 ? Hr [].
  destruct (ok_unstarted0 Hf) as [Hres _].
  split; split; rewrite ?E1, ?E2, ?E3, ?E4, ?E5, ?E6, ?E7, ?E8, ?E9, ?E10, ?E11, ?E12; try done; try lia.
  - intros ? [= <-]. rewrite Hr. split_and!; [done..| |]; [|by intros ? ? ?%elem_of_nil].
    split; try done; [by intros ? ?%elem_of_nil|apply NoDup_nil_2].
  - intros ? ?. congruence.
  - intros Hs. by rewrite Hs in Hlive.
  - congruence.
Qed.

(** The edit of a task that has not started. *)
Lemma task_step_edit id t t' :
  unsettled t = true → tr_frozen t = None →
  tr_id t' = tr_id t → tr_created_at t' = tr_created_at t →
  (tr_version t ≤ tr_version t')%N →
  tr_previous_definitions t `prefix_of` tr_previous_definitions t' →
  (vlen (tr_previous_definitions t) ≤ 128 → vlen (tr_previous_definitions t') ≤ 128)%N →
  tr_result t' = tr_result t → tr_adopted_correction t' = tr_adopted_correction t →
  tr_removed t' = tr_removed t → tr_stop_requested t' = tr_stop_requested t →
  tr_cancellation_sent t' = tr_cancellation_sent t → tr_state t' = tr_state t →
  tr_frozen t' = tr_frozen t → task_step id t t'.
Proof.
  unfold unsettled. intros Hlive Hf E1 E2 ? ? ? E6 E7 E8 E9 E10 E11 E12 [].
  split; split; rewrite ?E1, ?E2, ?E6, ?E7, ?E8, ?E9, ?E10, ?E11, ?E12; auto; try done; try congruence.
  - intros HC. destruct (ok_unstarted0 Hf) as [_ Hs]. naive_solver.
  - intros Hs. by rewrite Hs in Hlive.
Qed.

(** ** Reports *)

Lemma reports_ok_snoc invocation reports e :
  reports_ok invocation reports → (∀ e', e' ∈ reports → event_terminal e' = None) →
  ev_sequence e = N.of_nat (Datatypes.S (length reports)) → ev_invocation e = invocation →
  (vlen reports < MAX_TASK_REPORTS)%N → (event_terminal e = None → (vlen reports + 1 < MAX_TASK_REPORTS)%N) →
  (∀ o, event_output e = Some o → o.1 ∉ output_names reports) →
  reports_ok invocation (reports ++ [e]).
Proof.
  intros [Hseq Hinv Hb Hnd Hterm _] Hopen He Hi Hlen Hslot Hout. split.
  - intros i x [[_ Hx]|[-> <-]]%lookup_snoc_Some; [by apply Hseq|done].
  - intros x [Hx| ->%list_elem_of_singleton]%elem_of_app; auto.
  - unfold vlen in *. rewrite length_app. cbn. lia.
  - unfold output_names. rewrite omap_app, fmap_app. apply NoDup_app. split_and!; [done| |].
    + intros x Hx Hx'. cbn in Hx'. destruct (event_output e) as [o|] eqn:Ho; cbn in Hx'.
      * apply list_elem_of_singleton in Hx' as ->. by apply (Hout o).
      * by apply elem_of_nil in Hx'.
    + cbn. destruct (event_output e); [apply NoDup_singleton|apply NoDup_nil_2].
  - intros i x [[_ Hx]|[-> _]]%lookup_snoc_Some Ht; [|rewrite length_app; cbn; lia].
    rewrite Hopen in Ht; [done|]. by eapply list_elem_of_lookup_2.
  - intros Hno. unfold vlen in *. rewrite length_app. cbn.
    assert (event_terminal e = None) as Hn by (apply Hno, elem_of_app; right; left). specialize (Hslot Hn). lia.
Qed.

Section reports.
Context `{codec : !RuntimeCodec}.

Lemma validate_next_facts t f e :
  validate_next t f e = Ok tt →
  unsettled t = true ∧ tr_result t = None
  ∧ ev_sequence e = N.of_nat (Datatypes.S (length (fz_reports f)))
  ∧ (vlen (fz_reports f) < MAX_TASK_REPORTS)%N
  ∧ (event_terminal e = None → (vlen (fz_reports f) + 1 < MAX_TASK_REPORTS)%N)
  ∧ ∀ o, event_output e = Some o → o.1 ∉ output_names (fz_reports f).
Proof.
  unfold validate_next. intros H. inv_ok. bool_prop.
  destruct (is_settled (tr_state t)) eqn:Hs; [inv_ok; simplify_eq/=; naive_solver|].
  destruct (is_some (tr_result t)) eqn:Hr; [inv_ok; simplify_eq/=; naive_solver|].
  destruct (_ <=? _)%N eqn:Hm in *; [inv_ok; simplify_eq/=; naive_solver|].
  cbn [orb] in *. inv_ok. bool_prop. unfold validate_report in *. inv_ok. bool_prop. subst.
  split_and!; [by unfold unsettled; rewrite Hs|by destruct (tr_result t)| |done| |].
  - assert (Some (ev_sequence e) = Some (vlen (fz_reports f) + 1)%N) as [= ->] by (by destruct (decide (Some (ev_sequence e) = Some (vlen (fz_reports f) + 1)%N))).
    unfold vlen. lia.
  - intros Ht. rewrite Ht in *. cbn in *. bool_prop. unfold saturating_sub, MAX_TASK_REPORTS in *. lia.
  - intros [name ref] Ho Hin. rewrite Ho in H. inv_ok. apply list_elem_of_fmap in Hin as (o & Hname & Hin).
    cbn in Hname. subst name. apply list_elem_of_omap in Hin as (p & Hp & Hpo).
    assert (existsb (λ prior, is_some_and (λ output, bool_decide (output.1 = o.1)) (event_output prior))
      (fz_reports f) = true) as Hx; [|by rewrite Hx in *].
    apply existsb_exists. exists p. split; [by apply list_elem_of_In|]. rewrite Hpo. cbn.
    by apply bool_decide_eq_true.
Qed.

(** The fields a report leaves alone, and the state it leads to. *)
Lemma reported_task_fields t f e at_ms :
  let t' := reported_task t f e at_ms in
  tr_id t' = tr_id t ∧ tr_created_at t' = tr_created_at t ∧ tr_version t' = tr_version t
  ∧ tr_previous_definitions t' = tr_previous_definitions t ∧ tr_definition t' = tr_definition t
  ∧ tr_removed t' = tr_removed t ∧ tr_stop_requested t' = tr_stop_requested t
  ∧ tr_cancellation_sent t' = tr_cancellation_sent t
  ∧ tr_adopted_correction t' = tr_adopted_correction t
  ∧ tr_frozen t' = Some (reported_start f e).
Proof.
  unfold reported_task, settle_terminal. cbn.
  destruct (event_progress e), (event_terminal e); cbn; try done; by repeat case_match.
Qed.

Lemma reported_task_open t f e at_ms :
  event_terminal e = None →
  tr_state (reported_task t f e at_ms) = tr_state t
  ∧ tr_result (reported_task t f e at_ms) = tr_result t.
Proof. unfold reported_task. intros ->. by destruct (event_progress e). Qed.

Lemma reported_task_terminal t f e at_ms terminal :
  event_terminal e = Some terminal →
  let outputs := report_outputs (fz_reports (reported_start f e)) in
  let t' := reported_task t f e at_ms in
  tr_result t' = Some (mkTaskResult terminal outputs at_ms)
  ∧ tr_state t' = if bool_decide (terminal_state (it_status terminal) = Completed)
                     && is_some (output_contract_failure (fz_definition f) outputs)
                  then Failed else terminal_state (it_status terminal).
Proof.
  unfold reported_task, settle_terminal. intros ->.
  destruct (event_progress e); cbn; case_bool_decide; cbn; try done;
    by destruct (output_contract_failure _ _).
Qed.

Lemma task_step_report id t f e at_ms :
  tr_frozen t = Some f → fz_entered f = true →
  ev_invocation e = iv_invocation (xd_request (fz_dispatch f)) →
  validate_next t f e = Ok tt → task_step id t (reported_task t f e at_ms).
Proof.
  intros Hf Hent Hinv (Hlive & Hres & Hseq & Hlen & Hslot & Hout)%validate_next_facts [].
  destruct (reported_task_fields t f e at_ms) as (E1 & E2 & E3 & E4 & E5 & E6 & E7 & E8 & E9 & E10).
  destruct (ok_started0 f Hf) as (Hdef & _ & Hro & Hopen). specialize (Hopen Hres).
  unfold unsettled in Hlive.
  assert (reports_ok (iv_invocation (xd_request (fz_dispatch f))) (fz_reports f ++ [e])) as Hro'
    by by apply reports_ok_snoc.
  split; split; rewrite ?E1, ?E2, ?E3, ?E4, ?E5, ?E6, ?E7, ?E8, ?E9, ?E10; try done; try lia.
  - intros ? [= <-]. cbn. split_and!; [done|congruence|done|]. intros Hn x Hx.
    destruct (event_terminal e) as [terminal|] eqn:He.
    { destruct (reported_task_terminal t f e at_ms _ He) as [Hr _]. congruence. }
    apply elem_of_app in Hx as [Hx| ->%list_elem_of_singleton]; [by apply Hopen|done].
  - intros res. destruct (event_terminal e) as [terminal|] eqn:He.
    + destruct (reported_task_terminal t f e at_ms _ He) as [-> ->]. intros [= <-]. split.
      * case_match; [by left|]. destruct (it_status terminal); cbn; auto.
      * exists (reported_start f e), e. cbn. by rewrite last_snoc.
    + destruct (reported_task_open t f e at_ms He) as [_ ->]. congruence.
  - destruct (event_terminal e) as [terminal|] eqn:He.
    + destruct (reported_task_terminal t f e at_ms _ He) as [-> ->]. intros Hc.
      destruct (_ && _) eqn:Hb in Hc; [done|]. eexists. split; [done|]. cbn.
      rewrite (bool_decide_eq_true_2 _ Hc) in Hb. cbn in Hb. rewrite <-Hdef.
      split; [by destruct (it_status terminal)|].
      by destruct (output_contract_failure _ _).
    + destruct (reported_task_open t f e at_ms He) as [-> _]. intros Hc. by rewrite Hc in Hlive.
  - intros Hs. by rewrite Hs in Hlive.
  - intros f0 Hf0. split; [done|]. exists (reported_start f e). split; [done|].
    rewrite Hf in Hf0. injection Hf0 as <-. split; try done.
    + exists (xd_entry_authorization (fz_dispatch f)). cbn. by destruct (fz_dispatch f).
    + by exists [e].
  - congruence.
Qed.

Lemma reported_admissions_other m id t f e id' :
  id' ≠ id → reported_admissions m id t f e !! id' = m !! id'.
Proof.
  intros Hne. unfold reported_admissions.
  destruct (event_output e) as [[name ref]|]; repeat case_bool; by rewrite ?lookup_insert_ne.
Qed.

Lemma reported_admissions_kept m id t f e a :
  m !! id = Some a → (∀ ref, event_output e ≠ Some ("model_response", ref)) →
  reported_admissions m id t f e !! id = Some a.
Proof.
  intros Ha Hne. unfold reported_admissions.
  assert (match event_output e with
    | Some (name, reference) =>
        if bool_decide (name = "model_response") && is_some (td_actions (fz_definition f))
        then <[id:=pending_admission (Some reference) f]> m else m
    | None => m end = m) as ->.
  { destruct (event_output e) as [[name ref]|]; [|done].
    case_bool_decide; [|done]. subst. by destruct (Hne ref). }
  by rewrite Ha, andb_false_r.
Qed.

Lemma reported_admissions_new m id t f e a :
  reported_admissions m id t f e !! id = Some a → m !! id = None →
  (∃ ref, event_output e = Some ("model_response", ref)) ∨ is_some (event_terminal e) = true.
Proof.
  unfold reported_admissions. intros Ha Hm.
  destruct (event_output e) as [[name ref]|].
  - destruct (bool_decide (name = "model_response")) eqn:Hn; bool_prop; subst; [by eauto|].
    cbn [andb] in Ha. destruct (is_some (event_terminal e)); [by right|]. cbn [andb] in Ha. by rewrite Hm in Ha.
  - destruct (is_some (event_terminal e)); [by right|]. cbn [andb] in Ha. by rewrite Hm in Ha.
Qed.

(** A report accepted by the task's history improves the record. *)
Lemma improves_report r id t f e at_ms :
  wf_tasks r !! id = Some t → tr_frozen t = Some f → fz_entered f = true →
  ev_invocation e = iv_invocation (xd_request (fz_dispatch f)) →
  validate_next t f e = Ok tt → improves r (apply_report r id t f e at_ms).
Proof.
  intros Ht Hf Hent Hinv Hv Hr.
  pose proof (task_step_report id t f e at_ms Hf Hent Hinv Hv) as Hstep.
  destruct (improves_set_task r id t _ Ht Hstep Hr) as [[] []]; cbn in *.
  apply validate_next_facts in Hv as (_ & Hres & _ & _ & _ & Hout).
  destruct (reported_task_fields t f e at_ms) as (_ & _ & _ & _ & _ & _ & _ & _ & _ & Hf').
  assert (∀ a, wf_admissions r !! id = Some a → ∀ ref, event_output e ≠ Some ("model_response", ref)) as Hfresh.
  { intros a Ha ref Ho. destruct Hr as [_ _ _ _ _ Hadm]. destruct (Hadm id a Ha) as (t0 & f0 & Ht0 & Hf0 & Hor).
    rewrite Ht in Ht0. injection Ht0 as <-. rewrite Hf in Hf0. injection Hf0 as <-.
    destruct Hor as [Hin|Hx]; [by apply (Hout _ Ho)|by rewrite Hres in Hx]. }
  split; split; cbn; try done.
  - intros id' a Ha. destruct (decide (id' = id)) as [->|Hne].
    + exists (reported_task t f e at_ms), (reported_start f e). rewrite lookup_insert_eq. split_and!; [done..|].
      destruct (wf_admissions r !! id) as [a0|] eqn:Ha0.
      * destruct (ok_admissions0 id a0 Ha0) as (t0 & f0 & Ht0 & Hf0 & Hor).
        rewrite lookup_insert_eq in Ht0. injection Ht0 as <-. rewrite Hf' in Hf0. by injection Hf0 as <-.
      * destruct (reported_admissions_new _ _ _ _ _ _ Ha Ha0) as [[ref Ho]|Hx]; [left|right].
        -- unfold output_names. cbn. rewrite omap_app, fmap_app. cbn. rewrite Ho. cbn.
           apply elem_of_app. right. by apply list_elem_of_singleton.
        -- destruct (event_terminal e) as [terminal|] eqn:He; [|done].
           destruct (reported_task_terminal t f e at_ms _ He) as [-> _]. done.
    + rewrite reported_admissions_other in Ha by done. by apply (ok_admissions0 id' a).
  - intros id' a Ha. destruct (decide (id' = id)) as [->|Hne].
    + rewrite (reported_admissions_kept _ _ _ _ _ a Ha) by by eapply Hfresh. exists a. by split.
    + rewrite reported_admissions_other by done. exists a. by split.
Qed.
End reports.

(** ** Transitions between two commits

    [grows r r']: [r'] is planned from [r] for the next commit. *)
Definition grows (r r' : WorkflowRecord) : Prop :=
  wf_id r' = wf_id r ∧ wf_generation r' = wf_generation r ∧ improves r r'.

#[global] Instance grows_refl : Reflexive grows.
Proof. intros r. by split_and!. Qed.
#[global] Instance grows_trans : Transitive grows.
Proof. intros r s t (? & ? & ?) (? & ? & ?). split_and!; [congruence..|by trans s]. Qed.

Lemma grows_frame r r' :
  same_frame r r' → wf_generation r' = wf_generation r →
  tasks_step (wf_tasks r) (wf_tasks r') → grows r r'.
Proof. intros Hf Hg Ht. split_and!; [apply Hf|done|by apply improves_frame]. Qed.
Lemma grows_set_task r id t t' :
  wf_tasks r !! id = Some t → task_step id t t' → grows r (set_task r id t').
Proof. intros. split_and!; [done..|]. by eapply improves_set_task. Qed.

(** A change of fields no invariant mentions. *)
Lemma grows_plain r r' : same_frame r r' → wf_generation r' = wf_generation r →
  wf_tasks r' = wf_tasks r → grows r r'.
Proof. intros ? ? E. apply grows_frame; [done..|]. rewrite E. apply tasks_step_refl. Qed.

Ltac same_frame := by split; cbn; try done; lia.
Ltac grows_plain := apply grows_plain; [same_frame|done|done].

Lemma values_mut_acc {E A V} (P : A → Prop) (f : A → V → result E (A * V)) s m s' m' :
  values_mut f s m = Ok (s', m') → P s →
  (∀ a v a' v', P a → f a v = Ok (a', v') → P a') → P s'.
Proof.
  unfold values_mut. intros H Hs Hf.
  apply (try_fold_ind (λ acc : A * gmap string V, P acc.1)) in H; try done.
  intros acc [k v] acc' _ Hacc Hstep. inv_ok. destruct x as [a' v']. subst acc'. cbn in *. by eapply Hf.
Qed.

Section transitions.
Context `{codec : !RuntimeCodec}.

Lemma accrue_task_step id now acc t acc' t' :
  accrue_task now acc t = Ok (acc', t') → task_step id t t' ∧ (acc.1 ≤ acc'.1)%N.
Proof.
  unfold accrue_task. destruct (is_settled (tr_state t)) eqn:Hs.
  { intros [= <- <-]. split; [by intros|lia]. }
  destruct (tr_frozen t) as [f|] eqn:Hf; [|intros [= <- <-]; split; [by intros|lia]].
  destruct (fz_execution_duration f) as [d|] eqn:Hd; [|intros [= <- <-]; split; [by intros|lia]].
  intros H. inv_ok. bool_prop. subst. simplify_eq. cbn. split; [|lia].
  apply task_step_live; try done; [by unfold unsettled; rewrite Hs| |by left].
  cbn. rewrite Hf. split_and!; [|done..]. split; try done.
  exists (xd_entry_authorization (fz_dispatch f)). cbn. by destruct (fz_dispatch f).
Qed.

Lemma grows_accrue r now r' changed : accrue r now = Ok (r', changed) → grows r r'.
Proof.
  unfold accrue. intros H. inv_ok. destruct x as [[total c] tasks]. simplify_eq. cbn.
  apply grows_frame; cbn; [|done|].
  - split; cbn; try done; try lia.
    apply (values_mut_acc (λ a : N * bool, (wf_active_execution_ms r ≤ a.1)%N)) in H0; cbn in *; [done|lia|].
    intros a t a' t' Ha Hs. apply (accrue_task_step "") in Hs as [_ ?]. lia.
  - intros id. pose proof (values_mut_lookup _ _ _ _ _ H0 id) as Hl.
    destruct (wf_tasks r !! id) as [t|]; [|by rewrite Hl].
    destruct Hl as (s0 & s1 & t' & Hs & ->). by apply (accrue_task_step id) in Hs as [? _].
Qed.

Lemma request_stops_step select m : tasks_step m (request_stops select m).1.
Proof.
  apply tasks_step_fmap. intros id t _. case_bool; [|by intros]. by apply task_step_control.
Qed.

Lemma duration_stop_shape r :
  let r' := (duration_request_limit_stop r).1 in
  same_frame r r' ∧ wf_generation r' = wf_generation r ∧ wf_tasks r' =
    (request_stops (λ t, (duration_remaining r =? 0)%N || elapsed_limit t) (wf_tasks r)).1.
Proof.
  unfold duration_request_limit_stop.
  destruct ((duration_remaining r =? 0)%N && negb (is_some (wf_wait_question r))); cbn -[request_stops];
    destruct (request_stops _ _); split_and!; try done; same_frame.
Qed.
Lemma grows_duration_stop r : grows r (duration_request_limit_stop r).1.
Proof.
  destruct (duration_stop_shape r) as (? & ? & Ht). apply grows_frame; [done..|].
  rewrite Ht. apply request_stops_step.
Qed.

Lemma policy_stop_shape r r' stopped :
  policy_request_limit_stop r = Ok (r', stopped) →
  same_frame r r' ∧ wf_generation r' = wf_generation r
  ∧ (wf_tasks r' = wf_tasks r ∨ wf_tasks r' = (request_stops (λ _, true) (wf_tasks r)).1).
Proof.
  unfold policy_request_limit_stop. intros H. inv_ok. destruct x as [reason|].
  - destruct (negb (is_some (wf_wait_question r))); cbn -[request_stops] in H;
      destruct (request_stops _ _); simplify_eq; split_and!; cbn; auto; same_frame.
  - simplify_eq. split_and!; [same_frame|done|by left].
Qed.
Lemma grows_policy_stop r r' stopped :
  policy_request_limit_stop r = Ok (r', stopped) → grows r r'.
Proof.
  intros (? & ? & Ht)%policy_stop_shape. apply grows_frame; [done..|].
  destruct Ht as [-> | ->]; [apply tasks_step_refl|apply request_stops_step].
Qed.

Lemma grows_state r : grows r (update_workflow_state r).
Proof. grows_plain. Qed.
End transitions.

(** ** Watching the clock

    What observing the elapsed time does to tasks: it moves watermarks and asks
    executions to stop, and nothing else. *)
Definition start_watched (o o' : option FrozenTaskStart) : Prop :=
  match o, o' with
  | None, None => True
  | Some f, Some f' => ∃ d, f' = f <| fz_execution_duration := d |>
  | _, _ => False
  end.
Record task_watched (t t' : TaskRecord) : Prop := {
  tw_state : tr_state t' = tr_state t;
  tw_definition : tr_definition t' = tr_definition t;
  tw_result : tr_result t' = tr_result t;
  tw_frozen : start_watched (tr_frozen t) (tr_frozen t')
}.
Definition watched (r r' : WorkflowRecord) : Prop :=
  wf_id r' = wf_id r ∧
  ∀ id, match wf_tasks r !! id, wf_tasks r' !! id with
        | Some t, Some t' => task_watched t t'
        | None, None => True
        | _, _ => False
        end.

#[global] Instance task_watched_refl : Reflexive task_watched.
Proof.
  intros t. split; try done. destruct (tr_frozen t) as [f|]; [|done].
  exists (fz_execution_duration f). by destruct f.
Qed.
#[global] Instance task_watched_trans : Transitive task_watched.
Proof.
  intros t u v [? ? ? H1] [? ? ? H2]. split; try congruence.
  destruct (tr_frozen t), (tr_frozen u), (tr_frozen v); try done.
  destruct H1 as [d ->], H2 as [d' ->]. by exists d'.
Qed.
#[global] Instance watched_refl : Reflexive watched.
Proof. intros r. split; [done|]. intros id. by destruct (wf_tasks r !! id). Qed.
#[global] Instance watched_trans : Transitive watched.
Proof.
  intros r s t [? H1] [? H2]. split; [congruence|]. intros id. specialize (H1 id). specialize (H2 id).
  destruct (wf_tasks r !! id), (wf_tasks s !! id), (wf_tasks t !! id); try done. by etrans.
Qed.

Lemma watched_task r r' id t :
  watched r r' → wf_tasks r !! id = Some t → ∃ t', wf_tasks r' !! id = Some t' ∧ task_watched t t'.
Proof. intros [_ H] Ht. specialize (H id). rewrite Ht in H. destruct (wf_tasks r' !! id); [eauto|done]. Qed.

Lemma watched_stops r r' select :
  wf_id r' = wf_id r → wf_tasks r' = (request_stops select (wf_tasks r)).1 → watched r r'.
Proof.
  intros ? Ht. split; [done|]. intros id. rewrite Ht. cbn. rewrite lookup_fmap.
  destruct (wf_tasks r !! id) as [t|]; [|done]. cbn. case_bool; [|done]. by destruct (task_watched_refl t).
Qed.

Lemma watched_accrue r now r' changed : accrue r now = Ok (r', changed) → watched r r'.
Proof.
  unfold accrue. intros H. inv_ok. destruct x as [[total c] tasks]. simplify_eq. split; [done|].
  intros id. cbn. pose proof (values_mut_lookup _ _ _ _ _ H0 id) as Hl.
  destruct (wf_tasks r !! id) as [t|]; [|by rewrite Hl].
  destruct Hl as (s0 & s1 & t' & Hs & ->). unfold accrue_task in Hs.
  destruct (is_settled (tr_state t)); [by simplify_eq|].
  destruct (tr_frozen t) as [f|] eqn:Hf; [|by simplify_eq].
  destruct (fz_execution_duration f) as [d|]; [|by simplify_eq].
  inv_ok. simplify_eq. split; try done. cbn. rewrite Hf. by eexists.
Qed.

(** ** Edits *)

Lemma grows_admission r id a a' :
  wf_admissions r !! id = Some a → admission_evolves a a' →
  grows r (r <| wf_admissions := <[id := a']> (wf_admissions r) |>).
Proof.
  intros Ha Hev. split_and!; [done..|]. intros [? ? ? ? ? Hadm].
  split; split; cbn; try done; try lia; try (intros id' t Ht; by exists t).
  - intros id' b. destruct (decide (id' = id)) as [->|Hne].
    + intros _. by apply (Hadm id a).
    + rewrite lookup_insert_ne by done. apply Hadm.
  - intros id' b Hb. destruct (decide (id' = id)) as [->|Hne].
    + rewrite lookup_insert_eq. rewrite Ha in Hb. injection Hb as <-. eauto.
    + rewrite lookup_insert_ne by done. by exists b.
Qed.

Lemma grows_limits r limits :
  (wf_admitted_tasks r ≤ wl_tasks limits)%N → (wf_admitted_model_batches r ≤ wl_model_batches limits)%N →
  grows r (r <| wf_limits := limits |>).
Proof. intros. split_and!; [done..|]. intros []. split; [by split|].
  by destruct (evolves_refl r). Qed.

Lemma grows_batches r batches :
  (wf_admitted_model_batches r ≤ batches)%N → (batches ≤ wl_model_batches (wf_limits r))%N →
  grows r (r <| wf_admitted_model_batches := batches |>).
Proof. intros. split_and!; [done..|]. intros []. split; [by split|].
  by destruct (evolves_refl r). Qed.

Lemma task_ok_new id definition at_ms : task_ok id (new_task id definition at_ms).
Proof. split; cbn; try done. auto. Qed.

Lemma grows_add r id definition at_ms admitted :
  wf_tasks r !! id = None → checked_add_u32 (wf_admitted_tasks r) 1 = Some admitted →
  (admitted ≤ wl_tasks (wf_limits r))%N →
  grows r (set_task (r <| wf_admitted_tasks := admitted |>) id (new_task id definition at_ms)).
Proof.
  intros Hid Hadd Hle. bool_prop. subst. split_and!; [done..|]. intros [? ? ? ? ? Hadm].
  split; split; cbn; try done; try lia.
  - intros id' t. destruct (decide (id' = id)) as [->|Hne].
    + rewrite lookup_insert_eq. intros [= <-]. apply task_ok_new.
    + rewrite lookup_insert_ne by done. apply ok_tasks0.
  - rewrite map_size_insert_None by done. lia.
  - intros id' a Ha. destruct (Hadm id' a Ha) as (t & f & Ht & ?). exists t, f.
    rewrite lookup_insert_ne by congruence. done.
  - intros id' t Ht. exists t. rewrite lookup_insert_ne by congruence. done.
  - intros id' a Ha. by exists a.
Qed.

Lemma future_task_facts r id version t :
  future_task r id version = Ok t →
  wf_tasks r !! id = Some t ∧ tr_frozen t = None ∧ tr_state t = Queued.
Proof. unfold future_task. intros H. inv_ok. bool_prop. subst. by destruct (tr_frozen t). Qed.

(** What a redirection leaves in place: everything but unstarted consumers. *)
Definition redirected (r r' : WorkflowRecord) (changed : gset TaskId) : Prop :=
  grows r r'
  ∧ (∀ id t, wf_tasks r !! id = Some t → tr_state t ≠ Queued → wf_tasks r' !! id = Some t)
  ∧ (∀ id, id ∈ changed → ∃ t, wf_tasks r' !! id = Some t ∧ tr_state t = Queued ∧ tr_frozen t = None).

Lemma redirected_set r r' changed id t t' :
  redirected r r' changed → wf_tasks r' !! id = Some t → tr_state t = Queued →
  tr_state t' = Queued → tr_frozen t' = None → task_step id t t' →
  redirected r (set_task r' id t') ({[id]} ∪ changed).
Proof.
  intros (Hg & Hkeep & Hch) Ht Hq Hq' Hf' Hstep. split_and!.
  - trans r'; [done|]. by eapply grows_set_task.
  - intros id' u Hu Hne. cbn. rewrite lookup_insert_ne; [by apply Hkeep|].
    intros <-. rewrite (Hkeep _ _ Hu Hne) in Ht. congruence.
  - intros id' Hin. cbn. destruct (decide (id' = id)) as [->|Hne].
    + rewrite lookup_insert_eq. eauto.
    + rewrite lookup_insert_ne by done. apply Hch. set_solver.
Qed.

Lemma redirected_mono r r' changed changed' :
  redirected r r' changed → changed' ⊆ changed → redirected r r' changed'.
Proof. intros (? & ? & Hch) Hsub. split_and!; [done..|]. intros id Hid. apply Hch. set_solver. Qed.

Lemma redirect_input_ok r original correction declarations outs outs' acc redirect acc' :
  redirect_input original correction declarations outs outs' acc redirect = Ok acc' →
  redirected r (ad_record acc) (ad_changed acc) → redirected r (ad_record acc') (ad_changed acc').
Proof.
  unfold redirect_input. intros H Hred. inv_ok.
  apply future_task_facts in H1 as (Hc & Hf & Hq).
  destruct (td_inputs _ !! _) as [[| |task output optional|]|]; try done. inv_ok. subst acc'. cbn.
  destruct (bool_decide (br_consumer redirect ∉ ad_changed acc)); cbn in *;
    (eapply redirected_set; [done..|]); apply task_step_edit; cbn; try done;
    try (by unfold unsettled; rewrite Hq).
  - by eexists.
  - intros _. bool_prop. unfold vlen in *. rewrite length_app. cbn. lia.
Qed.

Lemma settle_redirected_ok r original r1 id r2 changed :
  settle_redirected original r1 id = Ok r2 → id ∈ changed →
  redirected r r1 changed → redirected r r2 changed.
Proof.
  unfold settle_redirected. intros H Hin Hred. inv_ok. subst r2.
  pose proof Hred as (Hg & Hkeep & Hch). destruct (Hch id Hin) as (t & Ht & Hq & Hf).
  apply (redirected_mono _ _ ({[id]} ∪ changed)); [|set_solver]. simplify_eq. bool_prop.
  destruct (reads_from original (tr_definition _)); cbn in *;
    (eapply redirected_set; [exact Hred|done..|]); apply task_step_edit; cbn; try done; try lia;
    by unfold unsettled; rewrite Hq.
Qed.

Lemma redirects_ok r original correction declarations outs outs' redirects acc r' :
  try_fold (redirect_input original correction declarations outs outs') (mkAdoption r ∅ ∅) redirects
    = Ok acc →
  try_fold (settle_redirected original) (ad_record acc) (members (ad_changed acc)) = Ok r' →
  redirected r r' (ad_changed acc).
Proof.
  intros Hf Hs.
  apply (try_fold_ind (λ acc, redirected r (ad_record acc) (ad_changed acc))) in Hf.
  - apply (try_fold_ind (λ r', redirected r r' (ad_changed acc))) in Hs; [done| |done].
    intros r1 id r2 Hin%elem_of_members ? ?. by eapply settle_redirected_ok.
  - intros. by eapply redirect_input_ok.
  - split_and!; [done..|set_solver].
Qed.

Lemma grows_adopt r original correction redirects r' :
  adopt_correction r original correction redirects = Ok r' → grows r r'.
Proof.
  unfold adopt_correction. intros H. inv_ok. destruct (output_contract_failure _ _); [done|].
  inv_ok. bool_prop. subst r'.
  rename select (wf_tasks r !! original = Some _) into Ho.
  rename select (try_fold (redirect_input _ _ _ _ _) _ _ = _) into Hf.
  rename select (try_fold (settle_redirected _) _ _ = _) into Hs.
  destruct (redirects_ok _ _ _ _ _ _ _ _ _ Hf Hs) as (Hg & Hkeep & _).
  etrans; [exact Hg|]. apply Hkeep in Ho as Hk; [|intros Hq; by rewrite Hq in *].
  simplify_eq. eapply grows_set_task; [eassumption|].
  apply task_step_control; cbn; try done. intros c Hc. by rewrite Hc in *.
Qed.

(** ** Spending *)

Lemma account_add_le prior requested maximum name total :
  account_add prior requested maximum name = Ok total → amount_le prior maximum →
  amount_le prior total ∧ amount_le total maximum.
Proof.
  unfold account_add. case_bool; intros H Hle; [simplify_eq; by split|]. inv_ok. bool_prop. subst.
  split; intros y Hy; simplify_eq/=.
  - eexists. split; [done|]. lia.
  - destruct maximum as [maximum|]; [|done]. cbn in *. bool_prop. eauto.
Qed.

Lemma account_cost_currency r cost minor currency :
  account_cost r cost = Ok (minor, currency) →
  ∀ c, wf_spending_currency r = Some c → currency = Some c.
Proof.
  unfold account_cost. destruct cost; intros H c Hc; try (simplify_eq; congruence).
  inv_ok. rewrite Hc in *. cbn in *. bool_prop. simplify_eq. f_equal. symmetry. by apply dec_stable.
Qed.

(** A reservation never exceeds the accepted allowance, never returns anything already
    spent and never changes the currency. *)
Lemma account_reserve_spent r dispatch envelope maximum budget currency :
  account_reserve r dispatch envelope maximum = Ok (budget, currency) →
  spent_within (wf_committed_allowance r) (wf_allowance r) →
  budget_le (wf_committed_allowance r) budget ∧ spent_within budget (wf_allowance r)
  ∧ ∀ c, wf_spending_currency r = Some c → currency = Some c.
Proof.
  unfold account_reserve, spent_within. intros H []. inv_ok.
  repeat match goal with
  | Ha : account_add _ _ _ _ = Ok _ |- _ => apply account_add_le in Ha as [? ?]; [|done]
  end.
  simplify_eq. split_and!; [by split..|].
  destruct x3 as [minor c0]. by eapply account_cost_currency.
Qed.

Lemma grows_spent r budget currency :
  (wf_ok r → budget_le (wf_committed_allowance r) budget ∧ spent_within budget (wf_allowance r)
   ∧ ∀ c, wf_spending_currency r = Some c → currency = Some c) →
  grows r (r <| wf_committed_allowance := budget |> <| wf_spending_currency := currency |>).
Proof.
  intros Hb. split_and!; [done..|]. intros Hr. destruct (Hb Hr) as (? & ? & ?). destruct Hr.
  split; [by split|]. by destruct (evolves_refl r).
Qed.
