(* ===== verification/RuntimeLaws.v ===== *)
(** * The runtime over its durable store

    Every critical section of the runtime changes the durable facts only by commits
    that replace a workflow by one that evolved from it, whatever the clock, the
    identity source, the executor and the authority do and whether or not the store
    reports the outcome of a commit. *)
From S2P Require Import Prelude Effects Contracts Capability Blueprint Authority Model.
From S2P Require Import Workspace Persistence Dispatch Workflow Admission Runtime Commands.
From S2P Require Import Scheduling Execution Evolution.

(** [serde_json] reads back the records it wrote. *)
Class DocumentRoundtrip (D : Type) `{!WorkflowDocument D} :=
  document_roundtrip : ∀ r d, document_of r = Ok d → record_of d = Ok r.

Section durable.
Context {D : Type} `{!WorkflowDocument D}.

(** The record a store holds for a workflow. *)
Definition stored (d : Durable D) (r : WorkflowRecord) : Prop :=
  ∃ x, du_workflows d !! wf_id r = Some x ∧ record_of (sn_document x) = Ok r
       ∧ sn_generation x = wf_generation r.

(** Every stored document is a well-formed record under its own identity. *)
Definition good (d : Durable D) : Prop :=
  ∀ id x, du_workflows d !! id = Some x →
  ∃ r, record_of (sn_document x) = Ok r ∧ wf_id r = id ∧ wf_generation r = sn_generation x ∧ wf_ok r.

(** One commit of the runtime. *)
Inductive dstep (d : Durable D) : Durable D → Prop :=
| dstep_commit c r' :
    commit_admissible d c →
    record_of (sn_document (cm_snapshot c)) = Ok r' →
    wf_id r' = sn_workflow (cm_snapshot c) → wf_generation r' = sn_generation (cm_snapshot c) →
    wf_ok r' → (∀ r, stored d r → wf_id r = wf_id r' → evolves r r') →
    dstep d (durable_commit d c).

Lemma good_stored d r : good d → stored d r → wf_ok r.
Proof.
  intros Hd (x & Hx & Hr & _). destruct (Hd _ _ Hx) as (r' & Hr' & _ & _ & ?). congruence.
Qed.

Lemma stored_unique d r r' : stored d r → stored d r' → wf_id r = wf_id r' → r = r'.
Proof. intros (x & Hx & Hr & _) (y & Hy & Hr' & _) E. rewrite E in Hx. congruence. Qed.

Lemma good_dstep d d' : dstep d d' → good d → good d'.
Proof.
  intros [c r' _ Hrec Hid Hgen Hok _] Hd id x. cbn.
  destruct (decide (id = sn_workflow (cm_snapshot c))) as [->|Hne].
  - rewrite lookup_insert_eq. intros [= <-]. by exists r'.
  - rewrite lookup_insert_ne by done. apply Hd.
Qed.

(** Along any number of commits a stored record is still there, evolved, and every
    receipt stands. *)
Lemma dsteps_evolve d d' r :
  rtc dstep d d' → stored d r → ∃ r', stored d' r' ∧ wf_id r' = wf_id r ∧ evolves r r'.
Proof.
  intros Hs. revert r. induction Hs as [d|d d1 d' [c r1 _ Hrec Hid Hgen Hok Hev] _ IH]; intros r Hr.
  { by exists r. }
  assert (∃ r2, stored (durable_commit d c) r2 ∧ wf_id r2 = wf_id r ∧ evolves r r2)
    as (r2 & Hr2 & Hid2 & Hev2).
  { destruct (decide (wf_id r = wf_id r1)) as [E|Hne].
    - exists r1. split_and!; [|done|by apply Hev]. exists (cm_snapshot c). cbn.
      by rewrite Hid, lookup_insert_eq.
    - exists r. split_and!; [|done..]. destruct Hr as (x & Hx & ?). exists x. cbn.
      by rewrite lookup_insert_ne by congruence. }
  destruct (IH r2 Hr2) as (r' & Hr' & ? & ?). exists r'.
  split_and!; [done|congruence|by trans r2].
Qed.

Lemma dsteps_receipts d d' k x :
  rtc dstep d d' → du_receipts d !! k = Some x → du_receipts d' !! k = Some x.
Proof.
  intros Hs. induction Hs as [d|d d1 d' [c r1 Hadm _ _ _ _ _] _ IH]; [done|]. intros Hk.
  apply IH. cbn. unfold receipt_of. destruct (cm_command c) as [cmd|] eqn:Hc; cbn; [|done].
  rewrite lookup_insert_ne; [done|]. intros <-. by rewrite (ca_fresh _ _ Hadm _ Hc) in Hk.
Qed.
End durable.

(** ** A logic for critical sections *)

Section logic.
Context {C I X S D : Type}.
Context `{codec : !RuntimeCodec, !WorkflowDocument D, !BoundaryClock C, !IdGenerator I,
          !TaskExecutor X, !WorkflowStore S D, !WorkflowStoreContract S D}.

Abbreviation W := (World C I X S).
Abbreviation M := (st W RuntimeError).

Definition facts (w : W) : Durable D := durable (w_store w).

(** The store is in order and holds well-formed records that evolved from [d0]. *)
Record base (d0 : Durable D) (w : W) : Prop := {
  b_ok : store_ok (w_store w);
  b_good : good (facts w);
  b_steps : rtc dstep d0 (facts w)
}.
Definition held (d0 : Durable D) (r : WorkflowRecord) (w : W) : Prop :=
  base d0 w ∧ stored (facts w) r.

(** Code that leaves the durable facts alone. *)
Definition quiet {A} (m : M A) : Prop :=
  ∀ w w' res, m w = (w', res) → store_ok (w_store w) → store_ok (w_store w') ∧ facts w' = facts w.
(** Code that keeps the durable facts evolving, from any state and with [r] stored. *)
Definition sound {A} (m : M A) : Prop := ∀ d0, keeps (base d0) m.
Definition holding {A} (r : WorkflowRecord) (m : M A) : Prop :=
  ∀ d0, triple (held d0 r) m (λ _, base d0) (base d0).

Lemma quiet_ret {A} (a : A) : quiet (mret a).
Proof. by intros w w' res [= <- <-]. Qed.
Lemma quiet_lift {A} (r : result RuntimeError A) : quiet (lift r).
Proof. by intros w w' res [= <- <-]. Qed.
Lemma quiet_fail {A} e : quiet (fail (A := A) e).
Proof. by intros w w' res [= <- <-]. Qed.
Lemma quiet_gets {A} (f : W → A) : quiet (gets f).
Proof. by intros w w' res [= <- <-]. Qed.
Lemma quiet_guard c e : quiet (guard_if c e).
Proof. apply quiet_lift. Qed.
Lemma quiet_modify (f : W → W) : (∀ w, w_store (f w) = w_store w) → quiet (modify f).
Proof. intros Hf w w' res [= <- <-]. unfold facts. by rewrite Hf. Qed.
Lemma quiet_bind {A B} (m : M A) (f : A → M B) : quiet m → (∀ a, quiet (f a)) → quiet (m ≫= f).
Proof.
  intros Hm Hf w w' res. unfold mbind, st_bind. destruct (m w) as [w1 [a|e]] eqn:E.
  - intros E' Hok. destruct (Hm _ _ _ E Hok) as [Hok1 Hf1], (Hf a _ _ _ E' Hok1). split; congruence.
  - intros [= <- <-]. by eapply Hm.
Qed.
Lemma quiet_fold {A B} (f : B → A → M B) acc xs : (∀ b a, quiet (f b a)) → quiet (fold_st f acc xs).
Proof. intros Hf. revert acc. induction xs; intros acc; [apply quiet_ret|]. by apply quiet_bind. Qed.
Lemma quiet_each {A} (f : A → M ()) xs : (∀ a, quiet (f a)) → quiet (each_st f xs).
Proof. intros. by apply quiet_fold. Qed.
Lemma quiet_attempt {A} (m : M A) : quiet m → quiet (attempt m).
Proof.
  intros Hm w w' res. unfold attempt. destruct (m w) as [w1 r1] eqn:E. intros [= <- <-]. by eapply Hm.
Qed.
Lemma quiet_now : quiet now.
Proof. intros w w' res. unfold now. destruct (clock_now _). by intros [= <- <-]. Qed.
Lemma quiet_next_id kind : quiet (next_id kind).
Proof. intros w w' res. unfold next_id. destruct (ids_next _ _). by intros [= <- <-]. Qed.
Lemma quiet_evaluate request : quiet (authority_evaluate request).
Proof. by intros w w' res [= <- <-]. Qed.
Lemma quiet_executor {A} (f : X → X * result ExecutorError A) : quiet (on_executor f).
Proof. intros w w' res. unfold on_executor. destruct (f _). by intros [= <- <-]. Qed.
Lemma quiet_settle dispatch : quiet (settle dispatch).
Proof. apply quiet_bind; [apply quiet_executor|]. intros. apply quiet_lift. Qed.
Lemma quiet_resolve requirement context at_ms : quiet (resolve_capability requirement context at_ms).
Proof.
  intros w w' res. unfold resolve_capability. destruct (executor_resolve _ _ _ _ _). by intros [= <- <-].
Qed.

(** Reads of the store. *)
Lemma quiet_workflow id : quiet (workflow id).
Proof.
  apply quiet_bind.
  - intros w w' res. unfold on_store. destruct (store_workflow _ _) as [s r] eqn:E. intros [= <- <-] Hok.
    by destruct (store_workflow_law _ _ _ _ Hok E) as (? & ? & _).
  - intros [snapshot|]; [|apply quiet_ret]. apply quiet_bind; [apply quiet_lift|]. intros; apply quiet_ret.
Qed.
Lemma quiet_require id : quiet (require_workflow id).
Proof. apply quiet_bind; [apply quiet_workflow|]. intros; apply quiet_lift. Qed.
Lemma quiet_workflows after limit : quiet (on_store (λ s, store_workflows s after limit)).
Proof.
  intros w w' res. unfold on_store. destruct (store_workflows _ _ _) as [s r] eqn:E. intros [= <- <-] Hok.
  by destruct (store_workflows_law _ _ _ _ _ Hok E) as (? & ? & _).
Qed.
Lemma quiet_receipt actor key : quiet (on_store (λ s, store_receipt s actor key)).
Proof.
  intros w w' res. unfold on_store. destruct (store_receipt _ _ _) as [s r] eqn:E. intros [= <- <-] Hok.
  by destruct (store_receipt_law _ _ _ _ _ Hok E) as (? & ? & _).
Qed.
Lemma quiet_closed : quiet is_closed.
Proof. apply quiet_gets. Qed.
End logic.

Create HintDb quiet discriminated.
#[export] Hint Resolve quiet_ret quiet_lift quiet_fail quiet_gets quiet_guard quiet_now quiet_next_id
  quiet_evaluate quiet_executor quiet_settle quiet_resolve quiet_workflow quiet_require
  quiet_workflows quiet_receipt quiet_attempt quiet_closed : quiet.
#[export] Hint Extern 1 (quiet (modify _)) => apply quiet_modify; done : quiet.
#[export] Hint Constants Opaque : quiet.

(** Closes [quiet] goals by following the structure of the code. *)
Ltac quiet :=
  intros;
  lazymatch goal with
  | |- quiet (mbind _ _) => apply quiet_bind; [quiet|quiet]
  | |- quiet (fold_st _ _ _) => apply quiet_fold; quiet
  | |- quiet (each_st _ _) => apply quiet_each; quiet
  | |- quiet (attempt _) => apply quiet_attempt; quiet
  | |- quiet (if ?b then _ else _) => destruct b; quiet
  | |- quiet (match ?x with _ => _ end) => destruct x; quiet
  | |- quiet (let _ := _ in _) => cbv zeta; quiet
  | |- _ => auto with quiet
  end.

Section rules.
Context {C I X S D : Type}.
Context `{codec : !RuntimeCodec, !WorkflowDocument D, !BoundaryClock C, !IdGenerator I,
          !TaskExecutor X, !WorkflowStore S D, !WorkflowStoreContract S D,
          !DocumentRoundtrip D}.

Abbreviation W := (World C I X S).
Abbreviation M := (st W RuntimeError).

Lemma base_quiet d0 (w w' : W) : store_ok (w_store w') → facts w' = facts w → base d0 w → base d0 w'.
Proof. intros Hok E [_ ? ?]. split; [done|by rewrite E..]. Qed.
Lemma held_quiet d0 r (w w' : W) :
  store_ok (w_store w') → facts w' = facts w → held d0 r w → held d0 r w'.
Proof. intros Hok E [Hb ?]. split; [by eapply base_quiet|by rewrite E]. Qed.

Lemma triple_quiet {A} (m : M A) d0 : quiet m → keeps (base d0) m.
Proof.
  intros Hm w Hw. destruct (m w) as [w' res] eqn:E. destruct (Hm _ _ _ E (b_ok _ _ Hw)).
  destruct res; by eapply base_quiet.
Qed.

(** *** Sound sections *)

Lemma sound_quiet {A} (m : M A) : quiet m → sound m.
Proof. intros Hm d0. by apply triple_quiet. Qed.
Lemma sound_bind {A B} (m : M A) (f : A → M B) : sound m → (∀ a, sound (f a)) → sound (m ≫= f).
Proof. intros Hm Hf d0. apply keeps_bind; [apply Hm|]. intros a. apply Hf. Qed.
Lemma sound_lift {A B} (x : result RuntimeError A) (f : A → M B) :
  (∀ a, x = Ok a → sound (f a)) → sound (lift x ≫= f).
Proof. intros Hf d0. apply triple_lift_bind; [done|]. intros. by apply Hf. Qed.
Lemma sound_guard {B} (c : bool) (e : RuntimeError) (m : M B) :
  (c = false → sound m) → sound (guard_if c e ;; m).
Proof. intros Hm. apply sound_lift. intros [] H. apply Hm. by destruct c. Qed.
Lemma sound_fold {A B} (f : B → A → M B) acc xs : (∀ b a, sound (f b a)) → sound (fold_st f acc xs).
Proof. intros Hf d0. apply keeps_fold. intros. apply Hf. Qed.

(** *** Sections that hold a stored record *)

Lemma holding_sound {A} r (m : M A) : sound m → holding r m.
Proof. intros Hm d0 w [Hw _]. by apply Hm. Qed.
Lemma holding_quiet {A} r (m : M A) : quiet m → holding r m.
Proof. intros. by apply holding_sound, sound_quiet. Qed.

Lemma holding_bind {A B} r (m : M A) (f : A → M B) :
  quiet m → (∀ a, holding r (f a)) → holding r (m ≫= f).
Proof.
  intros Hm Hf d0. eapply triple_bind; [|intros a; apply Hf].
  intros w Hw. destruct (m w) as [w' res] eqn:E. destruct (Hm _ _ _ E (b_ok _ _ (proj1 Hw))) as [Hok Heq].
  pose proof (held_quiet _ _ _ _ Hok Heq Hw) as Hw'. destruct res; [done|apply Hw'].
Qed.
Lemma holding_lift {A B} r (x : result RuntimeError A) (f : A → M B) :
  (∀ a, x = Ok a → holding r (f a)) → holding r (lift x ≫= f).
Proof.
  intros Hf d0 w Hw. unfold mbind, st_bind, lift. destruct x as [a|e]; [by apply Hf|apply Hw].
Qed.
Lemma holding_guard {B} r (c : bool) (e : RuntimeError) (m : M B) :
  (c = false → holding r m) → holding r (guard_if c e ;; m).
Proof. intros Hm. apply holding_lift. intros [] H. apply Hm. by destruct c. Qed.

(** Reading a workflow. *)
Lemma workflow_reads d0 id (w w' : W) o :
  base d0 w → workflow id w = (w', Ok o) →
  match o with
  | Some r => wf_id r = id ∧ wf_ok r ∧ held d0 r w'
  | None => base d0 w' ∧ du_workflows (facts w') !! id = None
  end.
Proof.
  intros Hw. unfold workflow, mbind, st_bind, on_store.
  destruct (store_workflow _ _) as [s res] eqn:E. destruct (store_workflow_law _ _ _ _ (b_ok _ _ Hw) E) as (Hok & Heq & Hres).
  destruct res as [snapshot|e]; [|done]. cbn. specialize (Hres _ eq_refl).
  set (w1 := _ : W). assert (base d0 w1) as Hw1 by by apply (base_quiet _ w).
  destruct snapshot as [x|]; cbn.
  - destruct (check_snapshot x) as [r|e] eqn:Hc; [|done]. intros [= <- <-].
    unfold check_snapshot in Hc. inv_ok. bool_prop. subst.
    assert (du_workflows (facts w1) !! id = Some x) as Hx by (unfold facts; cbn; congruence).
    destruct (b_good _ _ Hw1 _ _ Hx) as (r' & Hr' & Hid & Hgen & Hwf).
    assert (r' = r) as -> by congruence. split_and!; [done..|]. split; [done|]. exists x. rewrite Hid. split_and!; congruence.
  - intros [= <- <-]. split; [done|]. unfold facts. cbn. congruence.
Qed.

Lemma sound_require {A} id (f : WorkflowRecord → M A) :
  (∀ r, wf_id r = id → wf_ok r → holding r (f r)) → sound (require_workflow id ≫= f).
Proof.
  intros Hf d0 w Hw. unfold mbind at 1, st_bind at 1.
  pose proof (triple_quiet _ d0 (quiet_require id) w Hw) as Hq.
  destruct (require_workflow id w) as [w' [r|e]] eqn:E; [|done].
  unfold require_workflow, mbind, st_bind in E. destruct (workflow id w) as [w1 [o|e]] eqn:Ew; [|done].
  destruct o as [r0|]; [|done]. injection E as <- <-.
  destruct (workflow_reads _ _ _ _ _ Hw Ew) as (? & ? & ?). by apply Hf.
Qed.

Lemma holding_require {A} r (f : WorkflowRecord → M A) :
  (wf_ok r → holding r (f r)) → holding r (require_workflow (wf_id r) ≫= f).
Proof.
  intros Hf d0 w Hw. unfold mbind at 1, st_bind at 1.
  pose proof (triple_quiet _ d0 (quiet_require (wf_id r)) w (proj1 Hw)) as Hq.
  destruct (require_workflow (wf_id r) w) as [w' [r'|e]] eqn:E; [|done].
  unfold require_workflow, mbind, st_bind in E. destruct (workflow (wf_id r) w) as [w1 [o|e]] eqn:Ew; [|done].
  destruct o as [r0|]; [|done]. injection E as <- <-.
  destruct (workflow_reads _ _ _ _ _ (proj1 Hw) Ew) as (Hid & Hr0 & Hheld).
  destruct (quiet_workflow _ _ _ _ Ew (b_ok _ _ (proj1 Hw))) as [_ Heq].
  assert (r0 = r) as -> by (apply (stored_unique (facts w1)); [apply Hheld|rewrite Heq; apply Hw|done]).
  by apply Hf.
Qed.

(** *** Commits *)

(** After a commit the new record is stored, or the request was answered from its receipt. *)
Definition committed (d0 : Durable D) (record : WorkflowRecord)
    (command : option WorkflowCommandAcceptance) (o : WorkflowCommitOutcome) (w : W) : Prop :=
  match o with
  | CommitApplied receipt =>
      held d0 record w ∧ receipt = mkReceipt (wf_id record) (wf_generation record) <$> command
  | CommitReplay receipt =>
      base d0 w ∧ ∃ c, command = Some c
      ∧ du_receipts (facts w) !! (wca_actor c, wca_key c) = Some receipt
      ∧ wca_canonical_request (wcr_acceptance receipt) = wca_canonical_request c
  end.

Lemma commit_spec d0 record document b c a expected command (w : W) :
  base d0 w → wf_ok record → document_of record = Ok document →
  (∀ r, stored (facts w) r → wf_id r = wf_id record → expected = Some (wf_generation r) →
        evolves r record) →
  match on_store (λ s, store_commit s (mkCommit expected (snapshot_of record document b c a) command)) w with
  | (w', Ok o) => committed d0 record command o w'
  | (w', Err _) => base d0 w'
  end.
Proof.
  intros [Hok Hgood Hsteps] Hwf Hdoc Hev. unfold on_store.
  destruct (store_commit _ _) as [s res] eqn:E. cbn.
  destruct (store_commit_law _ _ _ _ Hok E) as [Hok' Hlaw].
  set (w' := w <| w_store := s |>). set (cm := mkCommit _ _ _) in *.
  assert (commit_admissible (facts w) cm → facts w' = durable_commit (facts w) cm → held d0 record w') as Happlied.
  { intros Hadm Heq. assert (dstep (facts w) (facts w')) as Hstep.
    { rewrite Heq. apply dstep_commit with record; try done; cbn; [by apply document_roundtrip|].
      intros r Hr Hid. apply Hev; [done..|]. destruct Hr as (x & Hx & _ & Hg).
      pose proof (ca_expected _ _ Hadm) as Hexp. cbn in Hexp. rewrite <-Hid in Hexp.
      rewrite Hx in Hexp. cbn in Hexp. congruence. }
    split; [split; [done|by eapply good_dstep|by eapply rtc_r]|].
    exists (cm_snapshot cm). rewrite Heq. cbn. rewrite lookup_insert_eq.
    split_and!; [done|by apply document_roundtrip|done]. }
  assert (facts w' = facts w → base d0 w') as Hsame.
  { intros Heq. by apply (base_quiet _ w). }
  destruct res as [[receipt|receipt]|e]; cbn.
  - destruct Hlaw as (? & ? & ->). split; [by apply Happlied|done].
  - destruct Hlaw as (Heq & command' & Hc & Hrc & ?). cbn in Hc. split; [by apply Hsame|].
    exists command'. split_and!; [done|by unfold facts; cbn; rewrite Heq|done].
  - destruct Hlaw as [?|[? ?]]; [by apply Hsame|by apply Happlied].
Qed.

Lemma quiet_next_active record : quiet (next_active (C := C) (I := I) (X := X) record).
Proof. unfold next_active. quiet. Qed.

Lemma save_spec d0 record expected command (w : W) :
  base d0 w → wf_ok record →
  (∀ r, stored (facts w) r → wf_id r = wf_id record → expected = Some (wf_generation r) →
        evolves r record) →
  match save record expected command w with
  | (w', Ok o) => committed d0 record command o w'
  | (w', Err _) => base d0 w'
  end.
Proof.
  intros Hw Hwf Hev.
  set (P (w : W) := base d0 w ∧ (∀ r, stored (facts w) r → wf_id r = wf_id record →
    expected = Some (wf_generation r) → evolves r record)).
  assert (∀ B (m : M B), quiet m → keeps P m) as Hq.
  { intros B m Hm w1 [Hb1 Hev1]. destruct (m w1) as [w2 res] eqn:E.
    destruct (Hm _ _ _ E (b_ok _ _ Hb1)) as [Hok Heq].
    assert (P w2) by (split; [by eapply base_quiet|by rewrite Heq]). by destruct res. }
  assert (triple P (save record expected command) (committed d0 record command) (base d0)) as Ht;
    [|by apply Ht].
  assert (∀ B (m : M B) (f : B → M WorkflowCommitOutcome), quiet m →
    (∀ b, triple P (f b) (committed d0 record command) (base d0)) →
    triple P (m ≫= f) (committed d0 record command) (base d0)) as Hbind.
  { intros B m f Hm Hf. eapply triple_bind; [|intros b; apply Hf].
    eapply triple_conseq; [apply (Hq _ m Hm)|done..|]. by intros w0 []. }
  unfold save. apply Hbind; [quiet|]. intros bytes.
  apply triple_lift_bind; [by intros w0 []|intros document Hdoc%map_err_Ok].
  do 3 (apply Hbind; [quiet|intros ?]).
  apply Hbind; [apply quiet_next_active|intros next]. apply Hbind; [quiet|intros capacity].
  eapply triple_bind.
  - intros w0 [Hb0 Hev0].
    apply (commit_spec d0 record document bytes _ capacity expected command w0 Hb0 Hwf Hdoc Hev0).
  - intros o w0 Ho. cbn. destruct o as [rc|rc]; cbn in *; [|done]. destruct Ho as [Ho ->].
    split; [|done]. by apply (held_quiet _ _ w0); [apply Ho|..].
Qed.

Lemma save_next d0 r record command (w : W) :
  held d0 r w → wf_id record = wf_id r → wf_ok record → evolves r record →
  match save record (Some (wf_generation r)) command w with
  | (w', Ok o) => committed d0 record command o w'
  | (w', Err _) => base d0 w'
  end.
Proof.
  intros [Hb Hr] Hid Hwf Hev. apply save_spec; [done..|].
  intros r' Hr' Hid' _. by rewrite (stored_unique _ r' r Hr' Hr) by congruence.
Qed.

(** *** Answers

    What a successful run says about the state it leaves. *)
Definition answers {A} (m : M A) (Q : A → W → Prop) : Prop :=
  ∀ w w' a, store_ok (w_store w) → m w = (w', Ok a) → Q a w'.

Lemma answers_bind {A B} (m : M A) (f : A → M B) Q :
  quiet m → (∀ a, answers (f a) Q) → answers (m ≫= f) Q.
Proof.
  intros Hm Hf w w' b Hok. unfold mbind, st_bind. destruct (m w) as [w1 [a|e]] eqn:E; [|done].
  apply Hf. by destruct (Hm _ _ _ E Hok).
Qed.
Lemma answers_lift {A B} (x : result RuntimeError A) (f : A → M B) Q :
  (∀ a, x = Ok a → answers (f a) Q) → answers (lift x ≫= f) Q.
Proof. intros Hf w w' b Hok. unfold mbind, st_bind, lift. destruct x; [by apply Hf|done]. Qed.

(** The store stays in order. *)
Lemma alive_quiet {A} (m : M A) : quiet m → keeps (λ w : W, store_ok (w_store w)) m.
Proof.
  intros Hm w Hw. destruct (m w) as [w' res] eqn:E. destruct (Hm _ _ _ E Hw). by destruct res.
Qed.
Lemma alive_save record expected command :
  keeps (λ w : W, store_ok (w_store w)) (save record expected command).
Proof.
  unfold save. do 5 (apply keeps_bind; [apply alive_quiet; quiet|intros ?]).
  apply keeps_bind; [apply alive_quiet, quiet_next_active|intros ?].
  apply keeps_bind; [apply alive_quiet; quiet|intros ?]. apply keeps_bind.
  - intros w Hw. unfold on_store. destruct (store_commit _ _) as [s res] eqn:E.
    destruct (store_commit_law _ _ _ _ Hw E) as [? _]. by destruct res.
  - intros o. apply alive_quiet. destruct o; quiet.
Qed.

(** A successful save leaves its record stored. *)
Lemma save_stores record expected :
  answers (save record expected None) (λ _ w, stored (facts w) record).
Proof.
  unfold save. apply answers_bind; [quiet|intros bytes]. apply answers_lift. intros document Hdoc. inv_ok.
  do 3 (apply answers_bind; [quiet|intros ?]).
  apply answers_bind; [apply quiet_next_active|intros next]. apply answers_bind; [quiet|intros capacity].
  intros w w' o Hok. unfold mbind, st_bind, on_store. destruct (store_commit _ _) as [s res] eqn:E.
  destruct (store_commit_law _ _ _ _ Hok E) as [_ Hlaw].
  destruct res as [[rc|rc]|e]; cbn; [|by destruct Hlaw as (_ & ? & ? & _)|done].
  intros [= <- <-]. destruct Hlaw as (_ & Hd & _). eexists. unfold facts. cbn. rewrite Hd. cbn.
  rewrite lookup_insert_eq. split_and!; [done|by apply document_roundtrip|done].
Qed.

(** *** Advancing a record *)

(** The next generation of a planned record: policy may have asked tasks to stop. *)
Record advanced (r r' : WorkflowRecord) : Prop := {
  av_frame : same_frame r r';
  av_generation : wf_generation r' = (wf_generation r + 1)%N;
  av_tasks : wf_tasks r' = wf_tasks r ∨ wf_tasks r' = (request_stops (λ _, true) (wf_tasks r)).1
}.

Lemma advanced_improves r r' : advanced r r' → improves r r'.
Proof.
  intros [? ? Ht]. apply improves_frame; [done|].
  destruct Ht as [-> | ->]; [apply tasks_step_refl|apply request_stops_step].
Qed.

(** A task in the advanced record is the planned one, perhaps asked to stop. *)
Lemma advanced_task r r' id t :
  advanced r r' → wf_tasks r !! id = Some t →
  ∃ t', wf_tasks r' !! id = Some t' ∧ (t' = t ∨ t' = t <| tr_stop_requested := true |>).
Proof.
  intros [_ _ [-> | ->]] Ht; [by eauto|]. cbn. rewrite lookup_fmap, Ht. cbn. case_bool; eauto.
Qed.

Lemma advance_result r (w w' : W) r' expected :
  advance r w = (w', Ok (r', expected)) → expected = wf_generation r ∧ advanced r r'.
Proof.
  unfold advance, mbind, st_bind, lift, mret, st_ret.
  destruct (ok_or _ _) as [generation|] eqn:Hg; [|done]. inv_ok. bool_prop.
  destruct (now w) as [w1 [at_ms|]]; [|done].
  destruct (policy_request_limit_stop _) as [[r1 stopped]|] eqn:Hp; [|done].
  intros [= <- <- <-]. split; [done|]. apply policy_stop_shape in Hp as ([] & Hgen & Ht).
  cbn in *. split; cbn; [split; cbn; try done; lia|congruence|done].
Qed.
Lemma quiet_advance r : quiet (advance (C := C) (I := I) (X := X) (S := S) r).
Proof. unfold advance. quiet. Qed.

Lemma advance_save_stores r (w w' : W) r' :
  store_ok (w_store w) → advance_save r w = (w', Ok r') →
  advanced r r' ∧ stored (facts w') r' ∧ store_ok (w_store w').
Proof.
  intros Hok H. unfold advance_save in H. apply st_bind_Ok in H as (w1 & [r1 e] & Ha & H).
  apply st_bind_Ok in H as (w2 & o & Hs & [= <- <-]). destruct (quiet_advance _ _ _ _ Ha Hok) as [Hok1 _].
  apply advance_result in Ha as [-> ?]. split_and!; [done|by eapply save_stores|].
  pose proof (alive_save r1 (Some (wf_generation r)) None w1 Hok1) as Hal. by rewrite Hs in Hal.
Qed.

Lemma planned_next r r1 r2 :
  wf_ok r → grows r r1 → advanced r1 r2 →
  wf_id r2 = wf_id r ∧ wf_generation r2 = (wf_generation r + 1)%N ∧ wf_ok r2 ∧ evolves r r2.
Proof.
  intros Hr (Hid & Hgen & Himp) Hadv. pose proof (advanced_improves _ _ Hadv) as Himp2.
  destruct (Himp Hr) as [Hr1 ?], (Himp2 Hr1) as [? ?], Hadv as [[] ? _].
  split_and!; [congruence..|done|by trans r1].
Qed.

(** The decision generation is not part of any invariant. *)
Lemma advanced_decision r r' : advanced r r' →
  advanced r (r' <| wf_decision_generation := wf_generation r' |>).
Proof. intros [[] ? ?]. split; [split; try done; cbn; lia|done..]. Qed.

Lemma holding_commit {A} r r1 (f : WorkflowRecord → M A) (start : bool) :
  grows r r1 → (∀ r2, advanced r1 r2 → wf_ok r2 → holding r2 (f r2)) →
  holding r ((if start then advance_start r1 else advance_save r1) ≫= f).
Proof.
  intros Hgr Hf d0 w Hw. pose proof (good_stored _ _ (b_good _ _ (proj1 Hw)) (proj2 Hw)) as Hwf.
  unfold advance_start, advance_save.
  destruct (advance r1 w) as [w1 res] eqn:Ea.
  destruct (quiet_advance _ _ _ _ Ea (b_ok _ _ (proj1 Hw))) as [Hok Heq].
  pose proof (held_quiet _ _ _ _ Hok Heq Hw) as Hw1.
  destruct res as [[r2 expected]|e];
    [|destruct start; unfold mbind, st_bind; rewrite Ea; apply Hw1].
  destruct (advance_result _ _ _ _ _ Ea) as [-> Hadv].
  set (r3 := if start then r2 <| wf_decision_generation := wf_generation r2 |> else r2).
  assert (advanced r1 r3) as Hadv3 by (subst r3; destruct start; [by apply advanced_decision|done]).
  destruct (planned_next _ _ _ Hwf Hgr Hadv3) as (Hid & Hgen & Hwf3 & Hev).
  pose proof (save_next d0 r r3 None w1 Hw1 Hid Hwf3 Hev) as Hs.
  destruct Hgr as (_ & Hgen1 & _). rewrite <-Hgen1 in Hs.
  destruct start; unfold mbind, st_bind; rewrite Ea; fold r3;
    (destruct (save r3 _ None w1) as [w2 [[rc|rc]|e]]; [|by destruct Hs as (_ & ? & ? & _)|done]);
    destruct Hs as [Hs _]; by apply (Hf r3 Hadv3 Hwf3 d0 w2).
Qed.

(** The commit of an accepted command. *)
Lemma holding_command r r1 (acceptance : WorkflowRecord → WorkflowCommandAcceptance) :
  grows r r1 →
  holding r ('(r2, expected) ← advance (C := C) (I := I) (X := X) (S := S) r1;
    let r3 := r2 <| wf_decision_generation := wf_generation r2 |> in
    outcome ← save r3 (Some expected) (Some (acceptance r3));
    lift (receipt outcome)).
Proof.
  intros Hgr d0 w Hw. pose proof (good_stored _ _ (b_good _ _ (proj1 Hw)) (proj2 Hw)) as Hwf.
  unfold mbind, st_bind. destruct (advance r1 w) as [w1 res] eqn:Ea.
  destruct (quiet_advance _ _ _ _ Ea (b_ok _ _ (proj1 Hw))) as [Hok Heq].
  pose proof (held_quiet _ _ _ _ Hok Heq Hw) as Hw1. destruct res as [[r2 expected]|e]; [|apply Hw1].
  destruct (advance_result _ _ _ _ _ Ea) as [-> Hadv%advanced_decision].
  set (r3 := r2 <| wf_decision_generation := wf_generation r2 |>) in *. cbv zeta.
  destruct (planned_next _ _ _ Hwf Hgr Hadv) as (Hid & Hgen & Hwf3 & Hev).
  pose proof (save_next d0 r r3 (Some (acceptance r3)) w1 Hw1 Hid Hwf3 Hev) as Hs.
  destruct Hgr as (_ & Hgen1 & _). rewrite <-Hgen1 in Hs.
  destruct (save r3 _ _ w1) as [w2 [o|e]]; [|done].
  assert (base d0 w2) as Hb by (destruct o; [apply Hs|apply Hs]).
  unfold lift. by destruct (receipt o).
Qed.

Lemma holding_advance_save {A} r r1 (f : WorkflowRecord → M A) :
  grows r r1 → (∀ r2, advanced r1 r2 → wf_ok r2 → holding r2 (f r2)) →
  holding r (advance_save r1 ≫= f).
Proof. apply (holding_commit r r1 f false). Qed.
Lemma holding_advance_start {A} r r1 (f : WorkflowRecord → M A) :
  grows r r1 → (∀ r2, advanced r1 r2 → wf_ok r2 → holding r2 (f r2)) →
  holding r (advance_start r1 ≫= f).
Proof. apply (holding_commit r r1 f true). Qed.

Lemma advanced_watched r r' : advanced r r' → watched r r'.
Proof.
  intros [[] _ [Ht|Ht]]; [|by eapply watched_stops]. split; [done|]. intros id. rewrite Ht.
  by destruct (wf_tasks r !! id).
Qed.

Lemma observe_plan r at_ms r1 changed :
  accrue r at_ms = Ok (r1, changed) →
  let r2 := (duration_request_limit_stop r1).1 in grows r r2 ∧ watched r r2.
Proof.
  intros Ha. split; [trans r1; [by eapply grows_accrue|apply grows_duration_stop]|].
  trans r1; [by eapply watched_accrue|]. destruct (duration_stop_shape r1) as ([] & _ & Ht).
  by eapply watched_stops.
Qed.

(** *** Plans

    [plans r m]: [m] runs with a record stored from which the local record [r] was
    planned since the last commit. *)
Definition plans {A} (r : WorkflowRecord) (m : M A) : Prop :=
  ∀ r0, wf_ok r0 → grows r0 r → holding r0 m.

Lemma plans_ok {A} r (m : M A) : (wf_ok r → plans r m) → plans r m.
Proof. intros H r0 Hr0 Hg. apply H; [|done..]. by apply (proj2 (proj2 Hg)). Qed.
Lemma plans_holding {A} r (m : M A) : wf_ok r → plans r m → holding r m.
Proof. intros Hr Hp. by apply Hp. Qed.
Lemma plans_grow {A} r r1 (m : M A) : grows r r1 → plans r1 m → plans r m.
Proof. intros Hg Hm r0 ? ?. apply Hm; [done|by trans r]. Qed.
Lemma plans_sound {A} r (m : M A) : sound m → plans r m.
Proof. intros ? ? ? ?. by apply holding_sound. Qed.
Lemma plans_quiet {A} r (m : M A) : quiet m → plans r m.
Proof. intros. by apply plans_sound, sound_quiet. Qed.
Lemma plans_bind {A B} r (m : M A) (f : A → M B) :
  quiet m → (∀ a, plans r (f a)) → plans r (m ≫= f).
Proof. intros ? Hf ? ? ?. apply holding_bind; [done|]. intros. by apply Hf. Qed.
Lemma plans_returns {A B} r (m : M A) P (f : A → M B) :
  quiet m → returns m P → (∀ a, P a → plans r (f a)) → plans r (m ≫= f).
Proof.
  intros Hq Hm Hf r0 Hr0 Hg d0 w Hw. unfold mbind, st_bind.
  destruct (m w) as [w' res] eqn:E. destruct (Hq _ _ _ E (b_ok _ _ (proj1 Hw))) as [Hok Heq].
  pose proof (held_quiet _ _ _ _ Hok Heq Hw) as Hw'.
  destruct res as [a|e]; [|apply Hw']. apply (Hf a (Hm _ _ _ E) r0 Hr0 Hg d0 w' Hw').
Qed.
Lemma plans_lift {A B} r (x : result RuntimeError A) (f : A → M B) :
  (∀ a, x = Ok a → plans r (f a)) → plans r (lift x ≫= f).
Proof. intros Hf ? ? ?. apply holding_lift. intros. by apply Hf. Qed.
Lemma plans_guard {B} r (c : bool) (e : RuntimeError) (m : M B) :
  (c = false → plans r m) → plans r (guard_if c e ;; m).
Proof. intros Hm ? ? ?. apply holding_guard. intros. by apply Hm. Qed.
Lemma plans_save {A} r r1 (f : WorkflowRecord → M A) :
  grows r r1 → (∀ r2, advanced r1 r2 → wf_ok r2 → plans r2 (f r2)) → plans r (advance_save r1 ≫= f).
Proof.
  intros Hg Hf r0 Hr0 Hg0. apply holding_advance_save; [by trans r|].
  intros r2 Hadv Hr2. by apply plans_holding, Hf.
Qed.
Lemma plans_start {A} r r1 (f : WorkflowRecord → M A) :
  grows r r1 → (∀ r2, advanced r1 r2 → wf_ok r2 → plans r2 (f r2)) → plans r (advance_start r1 ≫= f).
Proof.
  intros Hg Hf r0 Hr0 Hg0. apply holding_advance_start; [by trans r|].
  intros r2 Hadv Hr2. by apply plans_holding, Hf.
Qed.
Lemma sound_plans {A} id (f : WorkflowRecord → M A) :
  (∀ r, wf_id r = id → wf_ok r → plans r (f r)) → sound (require_workflow id ≫= f).
Proof. intros Hf. apply sound_require. intros r Hid Hr. by apply plans_holding, Hf. Qed.

Lemma plans_assoc {A B F} r (m : M A) (f : A → M B) (g : B → M F) :
  plans r (m ≫= λ a, f a ≫= g) → plans r ((m ≫= f) ≫= g).
Proof. intros Hp r0 ? ? d0. apply triple_assoc. by apply Hp. Qed.
Lemma plans_ret {A B} r (a : A) (f : A → M B) : plans r (f a) → plans r (mret a ≫= f).
Proof. intros Hp r0 ? ? d0 w Hw. by apply (Hp r0). Qed.

Lemma plans_tail {A} r (m : M A) : plans r (m ≫= mret) → plans r m.
Proof.
  intros Hp r0 Hr0 Hg d0 w Hw. specialize (Hp r0 Hr0 Hg d0 w Hw).
  unfold mbind, st_bind in Hp. by destruct (m w) as [w' [a|e]].
Qed.

Lemma plans_observe {A} r at_ms (f : WorkflowRecord → M A) :
  (∀ r2, watched r r2 → plans r2 (f r2)) → plans r (observe_duration r at_ms ≫= f).
Proof.
  intros Hf. unfold observe_duration. apply plans_assoc, plans_lift. intros [r1 changed] Ha.
  destruct (observe_plan _ _ _ _ Ha) as [Hg Hw].
  destruct (duration_request_limit_stop r1) as [r2 stopped]. cbn in Hg, Hw. case_bool.
  - apply plans_save; [done|]. intros r3 Hadv _. apply Hf. trans r2; [done|by apply advanced_watched].
  - apply plans_ret. eapply plans_grow; [done|]. by apply Hf.
Qed.
End rules.
