(* ===== verification/ExecutionLaws.v ===== *)
(** * Soundness of the effect sections

    Every critical section of [Execution] keeps the durable facts evolving. *)
From S2P Require Import Prelude Effects Contracts Capability Blueprint Authority Model.
From S2P Require Import Workspace Persistence Dispatch Workflow Admission Runtime Execution.
From S2P Require Import Evolution RuntimeLaws.

(** [case_plan] follows the next test of the code. *)
Ltac case_plan :=
  match goal with
  | |- plans _ (if ?b then _ else _) => destruct b eqn:?
  | |- plans _ (match ?x with _ => _ end) => destruct x eqn:?
  end.

(** Only a start with a report has a result. *)
Lemma no_result id t :
  task_ok id t → (∀ f, tr_frozen t = Some f → fz_entered f = false) → tr_result t = None.
Proof.
  intros Hok Hun. destruct (tr_result t) as [res|] eqn:Hr; [|done].
  destruct (ok_result _ _ Hok res Hr) as (_ & f & e & Hf & Hl & _).
  destruct (ok_started _ _ Hok f Hf) as (_ & He & _). by rewrite He in Hl by auto.
Qed.
Lemma running_no_result id t : task_ok id t → tr_state t = Running → tr_result t = None.
Proof.
  intros Hok Hs. destruct (tr_result t) as [res|] eqn:Hr; [|done].
  destruct (ok_result _ _ Hok res Hr) as [[Hb|Hb] _]; by rewrite Hs in Hb.
Qed.

Section sections.
Context {C I X S D : Type}.
Context `{codec : !RuntimeCodec, !WorkflowDocument D, !BoundaryClock C, !IdGenerator I,
          !TaskExecutor X, !WorkflowStore S D, !WorkflowStoreContract S D,
          !DocumentRoundtrip D}.

Abbreviation W := (World C I X S).
Abbreviation M := (st W RuntimeError).

Lemma sound_finish workflow_id task_id state reason pause :
  is_settled state = true → state ≠ Completed →
  sound (finish_section (C := C) (I := I) (X := X) workflow_id task_id state reason pause).
Proof.
  intros Hs Hc. apply sound_plans. intros r _ Hr. set (r1 := if pause then _ else r).
  assert (grows r r1) as Hg by (subst r1; destruct pause; [grows_plain|done]).
  apply plans_lift. intros t Ht. unfold task_of in Ht. inv_ok.
  case_plan; [apply plans_quiet; quiet|]. apply plans_guard. intros Hun.
  apply plans_bind; [quiet|intros ended_at].
  apply plans_save; [|intros; apply plans_quiet; quiet].
  trans r1; [done|]. eapply grows_set_task; [done|].
  assert (wf_ok r1) as Hr1 by by apply Hg.
  apply task_step_live; cbn; try done.
  - unfold unsettled. by rewrite Heqb.
  - apply start_same_refl.
  - right. split_and!; [done..|]. left. eapply no_result; [by eapply ok_tasks|].
    intros f Hf. rewrite Hf in Hun. cbn in Hun. by bool_prop.
Qed.

Lemma sound_uncertain workflow_id task_id reason :
  sound (mark_uncertain (C := C) (I := I) (X := X) workflow_id task_id reason).
Proof.
  apply sound_plans. intros r _ Hr. apply plans_lift. intros t Ht. unfold task_of in Ht. inv_ok.
  case_plan; [apply plans_quiet; quiet|]. apply plans_lift. intros f Hf. inv_ok.
  set (rest := λ f' : FrozenTaskStart, _ : M ()).
  assert (∀ f', start_same (Some f) (Some f') → plans r (rest f')) as Hrest; subst rest.
  { intros f' Hf'. cbn beta zeta. apply plans_bind; [quiet|intros at_ms].
    apply plans_lift. intros [r1 changed] Ha. apply plans_save; [|intros; apply plans_quiet; quiet].
    etrans; [|apply grows_duration_stop]. etrans; [|by eapply grows_accrue].
    eapply grows_set_task; [done|]. apply task_step_live; cbn; try done.
    - unfold unsettled. by rewrite Heqb.
    - by rewrite Hf.
    - right. split_and!; [done|by rewrite Hf|by right]. }
  cbn beta zeta in Hrest. destruct (fz_execution_duration f) as [d|] eqn:Hd.
  - apply plans_ret, Hrest. apply start_same_refl.
  - apply plans_assoc, plans_lift. intros started Hst. apply plans_ret, Hrest.
    split_and!; [|done..]. split; try done. exists (xd_entry_authorization (fz_dispatch f)). cbn. by destruct (fz_dispatch f).
Qed.

Lemma sound_defer workflow_id task_id dispatch reason :
  sound (defer_section (C := C) (I := I) (X := X) workflow_id task_id dispatch reason).
Proof.
  apply sound_plans. intros r _ Hr. apply plans_bind; [quiet|intros at_ms].
  apply plans_lift. intros [r1 changed] Ha. apply (plans_grow _ r1); [by eapply grows_accrue|].
  apply plans_ok. intros Hr1. apply plans_lift. intros t Ht. unfold task_of in Ht. inv_ok.
  case_plan; [apply plans_quiet; quiet|]. apply plans_lift. intros f Hf. inv_ok.
  apply plans_guard. intros Hown. bool_prop. case_plan; [apply plans_quiet; quiet|].
  apply plans_save; [|intros; apply plans_quiet; unfold release; quiet].
  eapply grows_set_task; [done|]. apply task_step_live; cbn; try done.
  - unfold unsettled. by rewrite Heqb.
  - apply start_same_refl.
  - right. split_and!; [done|by rewrite Hf|]. left. eapply running_no_result; [by eapply ok_tasks|].
    by apply dec_stable.
Qed.

Lemma sound_check workflow_id task_id dispatch :
  sound (check_section (C := C) (I := I) (X := X) workflow_id task_id dispatch).
Proof. apply sound_quiet. unfold check_section. quiet. Qed.

Lemma sound_continuation workflow_id task_id dispatch :
  sound (check_continuation (C := C) (I := I) (X := X) workflow_id task_id dispatch).
Proof.
  apply sound_plans. intros r _ Hr. apply plans_bind; [quiet|intros at_ms].
  apply plans_observe. intros r1 _. apply plans_quiet. quiet.
Qed.

Lemma owned_start_facts workflow id dispatch changed t f :
  owned_start workflow id dispatch changed = Ok (t, f) →
  wf_tasks workflow !! id = Some t ∧ tr_frozen t = Some f ∧ fz_dispatch f = dispatch
  ∧ fz_entered f = false ∧ tr_state t = Running.
Proof.
  unfold owned_start, task_of. intros H. inv_ok. bool_prop. simplify_eq.
  split_and!; try done; by apply dec_stable.
Qed.

Lemma with_entry_authorization_shape dispatch decision exact :
  with_entry_authorization dispatch decision = Ok exact →
  exact = dispatch <| xd_entry_authorization := decision |> ∧ is_allowed decision = true.
Proof.
  unfold with_entry_authorization, from_snapshot. intros H. inv_ok. bool_prop. simplify_eq.
  split; [|done]. by destruct dispatch.
Qed.

(** The record an entry commits: the evidence and the reservation together. *)
Definition entered_record (r : WorkflowRecord) (id : TaskId) (t : TaskRecord) (f : FrozenTaskStart)
    (exact : ExecutionDispatch) (at_ms maximum : N) (allowance : AuthorityBudget)
    (currency : option string) : WorkflowRecord :=
  set_task r id (t <| tr_frozen := Some (f <| fz_dispatch := exact |> <| fz_entered := true |>
      <| fz_execution_duration := Some (mkExecutionDuration at_ms at_ms maximum) |>) |>)
    <| wf_committed_allowance := allowance |> <| wf_spending_currency := currency |>.

Lemma grows_entered r id dispatch changed t f envelope allowance currency maximum decision exact at_ms :
  owned_start r id dispatch changed = Ok (t, f) →
  reserve_entry r dispatch envelope = Ok (allowance, currency, maximum) →
  with_entry_authorization dispatch decision = Ok exact →
  grows r (entered_record r id t f exact at_ms maximum allowance currency).
Proof.
  intros (Ht & Hf & <- & Hent & Hs)%owned_start_facts Hres [-> _]%with_entry_authorization_shape.
  unfold reserve_entry in Hres. apply bind_Ok in Hres as (m & _ & Hres).
  apply bind_Ok in Hres as ([b c] & Hres & [= <- <- <-]).
  match goal with |- grows _ (entered_record _ _ _ _ ?d _ _ _ _) =>
    trans (set_task r id (t <| tr_frozen := Some (f <| fz_dispatch := d |> <| fz_entered := true |>
      <| fz_execution_duration := Some (mkExecutionDuration at_ms at_ms m) |>) |>)) end.
  - eapply grows_set_task; [done|]. apply task_step_live; cbn; try done.
    + unfold unsettled. by rewrite Hs.
    + rewrite Hf. split_and!; [|done..]. split; cbn; try done; [by eexists|congruence].
    + by left.
  - apply grows_spent. intros [_ _ _ _ Hsp _]. exact (account_reserve_spent r _ _ _ _ _ Hres Hsp).
Qed.

Lemma sound_entry workflow_id task_id dispatch prepared :
  sound (entry_section (C := C) (I := I) (X := X) workflow_id task_id dispatch prepared).
Proof.
  apply sound_plans. intros r _ Hr. apply plans_bind; [quiet|intros at_ms].
  apply plans_observe. intros r1 _. case_plan; [apply plans_quiet; quiet|].
  case_plan; [apply plans_quiet; quiet|].
  destruct (reserve_entry r1 dispatch (px_envelope prepared)) as [[[allowance currency] maximum]|e] eqn:Hres;
    [|apply plans_quiet; quiet].
  apply plans_lift. intros [t f] Hown. case_plan; [apply plans_quiet; quiet|].
  apply plans_bind; [quiet|intros request]. apply plans_bind; [quiet|intros decision].
  case_plan; [apply plans_quiet; quiet|]. case_plan; [apply plans_quiet; quiet|].
  apply plans_lift. intros exact Hex. inv_ok.
  apply plans_save; [by eapply grows_entered|]. intros; apply plans_quiet; quiet.
Qed.

Lemma sound_record workflow_id task_id dispatch report :
  sound (record (C := C) (I := I) (X := X) workflow_id task_id dispatch report).
Proof.
  apply sound_guard. intros Hinv. bool_prop.
  apply sound_plans. intros r _ Hr. apply plans_bind; [quiet|intros at_ms].
  apply plans_lift. intros [r1 changed] Ha. apply (plans_grow _ r1); [by eapply grows_accrue|].
  apply plans_lift. intros t Ht. unfold task_of in Ht. inv_ok.
  apply plans_lift. intros f Hf. inv_ok. apply plans_guard. intros Hown. bool_prop.
  case_plan; [apply plans_quiet; quiet|]. apply plans_lift. intros [] Hv.
  apply plans_save; [|intros; apply plans_quiet; quiet].
  etrans; [|apply grows_duration_stop]. split_and!; [done..|].
  assert (fz_dispatch f = dispatch) as Hd by by apply dec_stable.
  apply improves_report; try done. rewrite Hd. by apply dec_stable.
Qed.

Lemma sound_recover id : sound (recover_section (C := C) (I := I) (X := X) id).
Proof.
  apply sound_plans. intros r _ Hr. apply plans_bind; [quiet|intros at_ms].
  apply plans_tail, plans_observe. intros r1 _. apply plans_quiet. quiet.
Qed.

Lemma sound_cancelled workflow_id id :
  sound (cancelled_section (C := C) (I := I) (X := X) workflow_id id).
Proof.
  apply sound_plans. intros r _ Hr. apply plans_lift. intros t Ht. unfold task_of in Ht. inv_ok.
  apply plans_save; [|intros; apply plans_quiet; quiet].
  eapply grows_set_task; [done|]. case_bool; by apply task_step_control.
Qed.
End sections.
