(* ===== verification/SchedulingLaws.v ===== *)
(** * Soundness of scheduling

    A tick keeps the durable facts evolving, through every start, deferral and failure
    it commits. *)
From S2P Require Import Prelude Effects Contracts Capability Blueprint Authority Model.
From S2P Require Import Workspace Persistence Dispatch Workflow Admission Runtime Commands.
From S2P Require Import Scheduling Execution Evolution RuntimeLaws ExecutionLaws.

Section scheduling.
Context {C I X S D : Type}.
Context `{codec : !RuntimeCodec, !WorkflowDocument D, !BoundaryClock C, !IdGenerator I,
          !TaskExecutor X, !WorkflowStore S D, !WorkflowStoreContract S D,
          !DocumentRoundtrip D}.
Context (page_fuel : nat).

Abbreviation W := (World C I X S).
Abbreviation M := (st W RuntimeError).

Lemma quiet_prepare workflow task inputs at_ms :
  quiet (prepare_dispatch (C := C) (I := I) (X := X) (S := S) workflow task inputs at_ms).
Proof. unfold prepare_dispatch. quiet. Qed.

Lemma quiet_count_page count items : quiet (count_page (C := C) (I := I) (X := X) count items).
Proof. unfold count_page. quiet. Qed.
Lemma quiet_count_pages fuel count cursor :
  quiet (count_pages (C := C) (I := I) (X := X) fuel count cursor).
Proof.
  revert count cursor. induction fuel as [|fuel IH]; intros count cursor; cbn [count_pages];
    (apply quiet_bind; [quiet|intros page]); (apply quiet_bind; [apply quiet_count_page|intros c]);
    destruct (wp_next page); quiet.
Qed.
Lemma quiet_active : quiet (active_task_count (C := C) (I := I) (X := X) page_fuel).
Proof.
  unfold active_task_count. apply quiet_bind; [quiet|]. intros [n|]; [quiet|].
  apply quiet_bind; [apply quiet_count_pages|]. quiet.
Qed.

(** What the step for one candidate does to the other tasks. *)
Definition others_kept (id : TaskId) (r r' : WorkflowRecord) : Prop :=
  ∀ id' t, id' ≠ id → wf_tasks r !! id' = Some t →
  ∃ t', wf_tasks r' !! id' = Some t' ∧ tr_state t' = tr_state t.

Lemma others_kept_trans id r s t : others_kept id r s → others_kept id s t → others_kept id r t.
Proof.
  intros H1 H2 id' x Hne Hx. destruct (H1 id' x Hne Hx) as (y & Hy & E).
  destruct (H2 id' y Hne Hy) as (z & Hz & ?). exists z. split; [done|congruence].
Qed.
Lemma others_kept_watched id r r' : watched r r' → others_kept id r r'.
Proof. intros Hw id' t _ Ht. destruct (watched_task _ _ _ _ Hw Ht) as (t' & ? & []). eauto. Qed.
Lemma others_kept_set id r t : others_kept id r (set_task r id t).
Proof. intros id' t' Hne Ht. exists t'. cbn. by rewrite lookup_insert_ne. Qed.

(** A continuation that goes on from the scan a step returns. *)
Definition goes_on {A} (id : TaskId) (r : WorkflowRecord) (k : TickScan → M A) : Prop :=
  ∀ scan, others_kept id r (sc_workflow scan) → plans (sc_workflow scan) (k scan).

Lemma goes_on_kept {A} id r r' (k : TickScan → M A) :
  others_kept id r r' → goes_on id r k → goes_on id r' k.
Proof. intros Hr Hk scan Hs. apply Hk. by eapply others_kept_trans. Qed.

Lemma plans_retain {A} scan r id t reason (k : TickScan → M A) :
  goes_on id r k → plans r (retain_reason scan r id t reason ≫= k).
Proof.
  intros Hk. unfold retain_reason. case_bool.
  { apply plans_ret. apply (Hk (mkScan r _ _)). intros ? t' _ ?. by exists t'. }
  apply plans_assoc, plans_lift. intros t' Ht'. inv_ok. apply plans_assoc, plans_save.
  - eapply grows_set_task; [done|]. by apply task_step_control.
  - intros r2 Hadv _. apply plans_ret. apply (Hk (mkScan r2 _ _)). cbn.
    eapply others_kept_trans; [apply others_kept_set|by apply others_kept_watched, advanced_watched].
Qed.

Lemma plans_commit_start {A} scan r id t dispatch (k : TickScan → M A) :
  grows r (set_task r id t) → goes_on id r k →
  plans r (commit_start scan (set_task r id t) dispatch ≫= k).
Proof.
  intros Hg Hk. unfold commit_start. apply plans_assoc, plans_start; [done|].
  intros r2 Hadv _. apply plans_assoc, plans_lift. intros active _. apply plans_ret.
  apply (Hk (mkScan r2 _ _)). cbn.
  eapply others_kept_trans; [apply others_kept_set|by apply others_kept_watched, advanced_watched].
Qed.

(** A queued task that has no start yet, as a later observation leaves it. *)
Lemma watched_unstarted r r1 id t :
  wf_tasks r !! id = Some t → tr_frozen t = None → watched r r1 →
  ∃ t1, wf_tasks r1 !! id = Some t1 ∧ tr_frozen t1 = None ∧ tr_state t1 = tr_state t
        ∧ tr_definition t1 = tr_definition t.
Proof.
  intros Ht Hf Hw. destruct (watched_task _ _ _ _ Hw Ht) as (t1 & Ht1 & [? ? _ Hs]).
  rewrite Hf in Hs. exists t1. by destruct (tr_frozen t1).
Qed.

(** A task that fails before it started. *)
Lemma plans_failed_task id t reason at_ms :
  unsettled t = true → tr_frozen t = None → task_step id t
    (t <| tr_state := Failed |> <| tr_reason := Some reason |> <| tr_ended_at := Some at_ms |>).
Proof.
  intros Hu Hf Hok. apply (task_step_live id t); cbn; try done; [apply start_same_refl|].
  right. split_and!; [done..|]. left. by apply (ok_unstarted _ _ Hok).
Qed.

Lemma plans_fresh {A} scan id t (k : TickScan * bool → M A) :
  wf_tasks (sc_workflow scan) !! id = Some t → tr_frozen t = None → tr_state t = Queued →
  goes_on id (sc_workflow scan) (λ scan', k (scan', true)) → (∀ scan', quiet (k (scan', false))) →
  plans (sc_workflow scan) (start_fresh page_fuel scan id t ≫= k).
Proof.
  intros Ht Hf Hs Hk Hq. unfold start_fresh.
  apply plans_assoc, plans_bind; [apply quiet_active|intros count].
  apply plans_assoc, plans_bind; [quiet|intros maximum].
  case_bool; [by apply plans_ret, plans_quiet|].
  destruct (resolve_inputs (sc_workflow scan) t) as [inputs|reason].
  2: { apply plans_assoc, plans_retain. intros scan' ?. by apply plans_ret, Hk. }
  apply plans_assoc, plans_bind; [quiet|intros at_ms]. apply plans_assoc, plans_observe. intros r1 Hw.
  case_bool; [by apply plans_ret, plans_quiet|].
  apply plans_assoc, plans_bind; [apply quiet_attempt, quiet_prepare|intros prepared].
  destruct (watched_unstarted _ _ _ _ Ht Hf Hw) as (t1 & Ht1 & Hf1 & Hs1 & Hd1).
  assert (unsettled t1 = true) as Hu1 by (unfold unsettled; by rewrite Hs1, Hs).
  assert (goes_on id r1 (λ scan', k (scan', true))) as Hk1
    by by eapply goes_on_kept; [apply others_kept_watched|].
  apply plans_assoc. destruct prepared as [dispatch|e].
  - apply plans_assoc, plans_lift. intros t1' Ht1'. inv_ok. rewrite Ht1 in Ht1'. injection Ht1' as <-.
    apply plans_assoc, plans_lift. intros accepted _. apply plans_commit_start.
    + eapply grows_set_task; [done|]. by eapply task_step_freeze.
    + intros scan' ?. by apply plans_ret, Hk1.
  - assert (∀ scan1 reason, goes_on id r1 (λ scan', k (scan', true)) →
      plans r1 ((selected ← lift (ok_or (wf_tasks r1 !! id) (Scheduling.scheduling "task disappeared"));
        record ← advance_save (set_task r1 id (selected <| tr_state := Failed |>
          <| tr_reason := Some reason |> <| tr_ended_at := Some at_ms |>));
        mret (mkScan record (sc_active scan1) (sc_dispatches scan1)))
       ≫= λ scan', mret (scan', true) ≫= k)) as Hfail.
    { intros scan1 reason _. apply plans_assoc, plans_lift. intros t1' Ht1'. inv_ok.
      rewrite Ht1 in Ht1'. injection Ht1' as <-. apply plans_assoc, plans_save.
      - eapply grows_set_task; [done|]. apply plans_failed_task; done.
      - intros r2 Hadv _. apply plans_ret, plans_ret. apply (Hk1 (mkScan r2 _ _)). cbn.
        eapply others_kept_trans; [apply others_kept_set|by apply others_kept_watched, advanced_watched]. }
    destruct e as [| | | | | | | |error]; try by apply Hfail. destruct error; try by apply Hfail.
    all: apply plans_retain; intros scan' ?; by apply plans_ret, Hk1.
Qed.

Lemma plans_candidate {A} maximum scan id t (k : TickScan * bool → M A) :
  wf_tasks (sc_workflow scan) !! id = Some t → tr_state t = Queued →
  goes_on id (sc_workflow scan) (λ scan', k (scan', true)) → (∀ scan', quiet (k (scan', false))) →
  plans (sc_workflow scan) (start_candidate page_fuel maximum scan id ≫= k).
Proof.
  intros Ht Hs Hk Hq. unfold start_candidate. case_bool; [by apply plans_ret, plans_quiet|].
  apply plans_assoc, plans_lift. intros t' Ht'. inv_ok. rewrite Ht in Ht'. injection Ht' as <-.
  apply plans_ok. intros Hr. destruct (tr_frozen t) as [f|] eqn:Hf; [|by apply plans_fresh].
  case_bool; [|apply plans_ret, Hk; intros ? t' _ ?; by exists t'].
  bool_prop. apply plans_assoc, plans_commit_start.
  - eapply grows_set_task; [done|]. apply task_step_live; cbn; try done.
    + unfold unsettled. by rewrite Hs.
    + apply start_same_refl.
    + right. split_and!; [done|by rewrite Hf|]. left.
      eapply no_result; [by eapply ok_tasks|]. intros f' Hf'. congruence.
  - intros scan' ?. by apply plans_ret, Hk.
Qed.

Lemma plans_candidates maximum candidates : ∀ scan,
  NoDup candidates →
  (∀ id, id ∈ candidates → ∃ t, wf_tasks (sc_workflow scan) !! id = Some t ∧ tr_state t = Queued) →
  ∀ {A} (k : TickScan → M A), (∀ scan', quiet (k scan')) →
  plans (sc_workflow scan) (start_candidates page_fuel maximum scan candidates ≫= k).
Proof.
  induction candidates as [|id candidates IH]; intros scan Hnd Hq A k Hk; cbn [start_candidates].
  { by apply plans_ret, plans_quiet. }
  apply NoDup_cons in Hnd as [Hid Hnd]. destruct (Hq id) as (t & Ht & Hs); [left|].
  apply plans_assoc. eapply plans_candidate; [done..| |].
  - intros scan' Hkept. apply IH; [done| |done]. intros id' Hin.
    destruct (Hq id') as (t' & Ht' & Hs'); [by right|].
    destruct (Hkept id' t') as (t2 & Ht2 & E); [by intros ->|done|]. exists t2. split; [done|congruence].
  - intros scan'. apply quiet_bind; [quiet|done].
Qed.

Lemma elem_of_queued r id :
  id ∈ queued r → ∃ t, wf_tasks r !! id = Some t ∧ tr_state t = Queued.
Proof.
  unfold queued. intros ([id' t] & -> & Hin)%list_elem_of_fmap. exists t.
  apply list_elem_of_In, filter_In in Hin as [Hin Hs]. apply list_elem_of_In, elem_of_entries in Hin.
  cbn in *. by bool_prop.
Qed.
Lemma NoDup_queued r : NoDup (queued r).
Proof.
  unfold queued. pose proof (NoDup_keys (wf_tasks r)) as Hnd. unfold keys in Hnd.
  induction (entries (wf_tasks r)) as [|[id t] l IH]; cbn in *; [apply NoDup_nil_2|].
  apply NoDup_cons in Hnd as [Hid Hnd]. case_bool; cbn; [|by apply IH]. apply NoDup_cons. split; [|by apply IH].
  intros ([id' t'] & -> & Hin)%list_elem_of_fmap. apply Hid. apply list_elem_of_fmap. exists (id', t').
  split; [done|]. apply list_elem_of_In, filter_In in Hin as [Hin _]. by apply list_elem_of_In.
Qed.

Lemma sound_tick_workflow maximum dispatches snapshot :
  sound (tick_workflow (C := C) (I := I) (X := X) page_fuel maximum dispatches snapshot).
Proof.
  apply sound_plans. intros r _ Hr. apply plans_bind; [quiet|intros at_ms].
  apply plans_observe. intros r1 _. apply plans_lift. intros [r2 stopped] Hstop.
  apply (plans_grow _ r2); [by eapply grows_policy_stop|].
  assert (∀ r3, plans r3 (if is_some (wf_wait_question r3) then mret dispatches else
    scan ← start_candidates page_fuel maximum (mkScan r3 (occupied r3) dispatches) (queued r3);
    mret (sc_dispatches scan))) as Hrest.
  { intros r3. case_bool; [apply plans_quiet; quiet|].
    apply (plans_candidates maximum (queued r3) (mkScan r3 _ _)); [apply NoDup_queued|apply elem_of_queued|].
    intros; quiet. }
  destruct stopped; [apply plans_save; [done|intros; apply Hrest]|apply plans_ret, Hrest].
Qed.

Lemma sound_tick maximum : sound (tick (C := C) (I := I) (X := X) page_fuel maximum).
Proof.
  unfold tick. apply sound_guard. intros _.
  apply sound_bind; [apply sound_quiet; quiet|intros closed]. destruct closed; [apply sound_quiet; quiet|].
  apply sound_bind; [apply sound_quiet; quiet|intros cursor].
  apply sound_bind; [apply sound_quiet; quiet|intros page].
  apply sound_bind; [apply sound_quiet; quiet|intros _].
  apply sound_fold. intros. apply sound_tick_workflow.
Qed.
End scheduling.
