(* ===== verification/CommandLaws.v ===== *)
(** * Soundness of commands

    Creating and editing workflows, and deciding on the batches models propose, keep
    the durable facts evolving; a request already accepted is answered from its
    receipt and changes nothing. *)
From S2P Require Import Prelude Effects Contracts Capability Blueprint Authority Model.
From S2P Require Import Workspace Persistence Dispatch Workflow Admission Runtime Commands.
From S2P Require Import Evolution RuntimeLaws.

(** ** Identities for new tasks *)

Section aliases.
Context {C I X S : Type} `{!IdGenerator I}.
Abbreviation M := (st (World C I X S) RuntimeError).

(** The task a change adds. *)
Definition added (aliases : gmap TaskId TaskId) (change : TaskChange) : option TaskId :=
  match change with Add alias _ => aliases !! alias | _ => None end.
(** The identities allocated for a prefix of the changes: fresh, one per added task. *)
Record allocated (r : WorkflowRecord) (changes : list TaskChange) (aliases : gmap TaskId TaskId)
    : Prop := {
  al_fresh : ∀ a id, aliases !! a = Some id → wf_tasks r !! id = None;
  al_named : ∀ a d, Add a d ∈ changes → is_Some (aliases !! a);
  al_once : NoDup (omap (added aliases) changes)
}.

Lemma returns_unused r aliases :
  returns (unused_task_id (C := C) (X := X) (S := S) r aliases)
    (λ id, wf_tasks r !! id = None ∧ ∀ a, aliases !! a ≠ Some id).
Proof.
  unfold unused_task_id. generalize 4097. intros tries.
  induction tries as [|tries IH]; [apply returns_fail|].
  cbn [unused_task_id_from]. eapply returns_bind; [apply returns_any|intros text _].
  eapply returns_bind; [apply returns_any|intros id _].
  case_bool; [|done]. apply returns_ret. bool_prop. split; [done|]. intros a Ha.
  rename select (existsb _ _ = false) into He. rewrite <-not_true_iff_false, existsb_exists in He.
  apply He. exists id. split; [|by apply bool_decide_eq_true]. apply list_elem_of_In, elem_of_values. eauto.
Qed.

Lemma omap_added_insert aliases alias id (changes : list TaskChange) :
  (∀ d, Add alias d ∉ changes) →
  omap (added (<[alias := id]> aliases)) changes = omap (added aliases) changes.
Proof.
  intros Hno. induction changes as [|c changes IH]; [done|]. cbn. rewrite IH.
  - destruct c; cbn; try done. rewrite lookup_insert_ne; [done|]. intros <-. eapply Hno. left.
  - intros d Hd. eapply Hno. by right.
Qed.

Lemma returns_allocate r changes :
  returns (allocate_aliases (C := C) (X := X) (S := S) r changes) (allocated r changes).
Proof.
  apply (returns_fold _ (λ before, allocated r before)).
  { split; [by intros|by intros ? ? ?%not_elem_of_nil|constructor]. }
  intros before c after aliases _ [Hfresh Hnamed Honce].
  assert (added aliases c = None → (∀ a d, c ≠ Add a d) → allocated r (before ++ [c]) aliases) as Hother.
  { intros Hc Hne. split; [done| |].
    - intros a d [Hin|Hin%list_elem_of_singleton]%elem_of_app; [eauto|by destruct (Hne a d)].
    - rewrite omap_app. cbn. by rewrite Hc, app_nil_r. }
  destruct c as [|alias d| | | | | | | | |]; try by apply returns_ret, Hother.
  eapply returns_bind; [apply returns_unused|intros id [Hid Hval]].
  apply returns_guard. intros Hg. bool_prop. destruct (aliases !! alias) eqn:Hal; [done|].
  apply returns_ret. split.
  - intros a i. rewrite lookup_insert_Some. intros [[_ <-]|[_ ?]]; eauto.
  - intros a d' [Hin|Hin%list_elem_of_singleton]%elem_of_app.
    + destruct (Hnamed a d' Hin) as [i Hi]. exists i. rewrite lookup_insert_ne; [done|congruence].
    + injection Hin as <- <-. rewrite lookup_insert_eq. eauto.
  - rewrite omap_app. cbn. rewrite lookup_insert_eq, omap_added_insert.
    2: { intros d' Hd'. destruct (Hnamed _ _ Hd'). congruence. }
    apply NoDup_app. split_and!; [done| |apply NoDup_singleton].
    intros i (c & Hc & Ha)%list_elem_of_omap ->%list_elem_of_singleton.
    destruct c; try done. by apply (Hval alias0).
Qed.
End aliases.

(** ** The changes of a batch *)

(** What an edit that is no policy decision leaves in place. *)
Record kept (r r' : WorkflowRecord) : Prop := {
  kp_limits : wf_limits r' = wf_limits r;
  kp_batches : wf_admitted_model_batches r' = wf_admitted_model_batches r;
  kp_admissions : wf_admissions r' = wf_admissions r
}.
#[global] Instance kept_refl : Reflexive kept.
Proof. by intros r. Qed.
#[global] Instance kept_trans : Transitive kept.
Proof. intros r s t [] []. split; congruence. Qed.

Definition is_policy (change : TaskChange) : bool :=
  match change with SetLimits _ | DismissAdmission _ => true | _ => false end.

Definition same_tasks (r r' : WorkflowRecord) : Prop := dom (wf_tasks r') = dom (wf_tasks r).
Lemma same_tasks_set r id t t' : wf_tasks r !! id = Some t → same_tasks r (set_task r id t').
Proof. intros Ht. unfold same_tasks, set_task. cbn. rewrite dom_insert_L. apply elem_of_dom_2 in Ht. set_solver. Qed.

Record edited (aliases : gmap TaskId TaskId) (change : TaskChange) (r r' : WorkflowRecord) : Prop := {
  ed_grows : grows r r';
  ed_tasks : ∀ id, wf_tasks r !! id = None → added aliases change ≠ Some id → wf_tasks r' !! id = None;
  ed_kept : is_policy change = false → kept r r'
}.

(** A change that adds no task. *)
Lemma edited_same aliases change r r' :
  grows r r' → same_tasks r r' → (is_policy change = false → kept r r') → edited aliases change r r'.
Proof.
  intros ? Hdom ?. split; [done| |done]. intros id Hid _. apply not_elem_of_dom.
  rewrite Hdom. by apply not_elem_of_dom.
Qed.
Lemma edited_set aliases change r id t t' :
  wf_tasks r !! id = Some t → task_step id t t' → edited aliases change r (set_task r id t').
Proof.
  intros Ht Hstep. apply edited_same; [by eapply grows_set_task|by eapply same_tasks_set|done].
Qed.

(** Adoption changes tasks in place. *)
Lemma redirect_keeps original correction declarations outs outs' acc redirect acc' r :
  redirect_input original correction declarations outs outs' acc redirect = Ok acc' →
  kept r (ad_record acc) ∧ same_tasks r (ad_record acc) →
  kept r (ad_record acc') ∧ same_tasks r (ad_record acc').
Proof.
  unfold redirect_input. intros H [Hk Hd]. inv_ok. apply future_task_facts in H1 as (Hc & _ & _).
  destruct (td_inputs _ !! _) as [[| |task output optional|]|]; try done. inv_ok. subst acc'. cbn.
  split; [by trans (ad_record acc)|]. unfold same_tasks. rewrite <-Hd. by eapply same_tasks_set.
Qed.
Lemma settle_keeps original r1 id r2 r :
  settle_redirected original r1 id = Ok r2 → kept r r1 ∧ same_tasks r r1 → kept r r2 ∧ same_tasks r r2.
Proof.
  unfold settle_redirected. intros H [Hk Hd]. inv_ok. subst r2. split; [by trans r1|].
  unfold same_tasks. rewrite <-Hd. by eapply same_tasks_set.
Qed.
Lemma adopt_keeps r original correction redirects r' :
  adopt_correction r original correction redirects = Ok r' → kept r r' ∧ same_tasks r r'.
Proof.
  unfold adopt_correction. intros H. inv_ok. destruct (output_contract_failure _ _); [done|].
  inv_ok. subst r'.
  rename select (try_fold (redirect_input _ _ _ _ _) _ _ = _) into Hf.
  rename select (try_fold (settle_redirected _) _ _ = Ok _) into Hs.
  apply (try_fold_ind (λ acc, kept r (ad_record acc) ∧ same_tasks r (ad_record acc))) in Hf; [|by eauto using redirect_keeps|done].
  apply (try_fold_ind (λ r1, kept r r1 ∧ same_tasks r r1)) in Hs; [|by eauto using settle_keeps|done].
  destruct Hs as [Hk Hd]. rename select (wf_tasks _ !! original = Some _) into Ho.
  match goal with |- kept r (set_task ?x _ _) ∧ _ => split; [by trans x|] end.
  unfold same_tasks. rewrite <-Hd. by eapply same_tasks_set.
Qed.

Section commands.
Context {C I X S D : Type}.
Context `{codec : !RuntimeCodec, !WorkflowDocument D, !BoundaryClock C, !IdGenerator I,
          !TaskExecutor X, !WorkflowStore S D, !WorkflowStoreContract S D,
          !DocumentRoundtrip D}.
Abbreviation W := (World C I X S).
Abbreviation M := (st W RuntimeError).

Lemma quiet_validate record definition :
  quiet (validate_future_definition (C := C) (I := I) (X := X) (S := S) record definition).
Proof. unfold validate_future_definition. quiet. Qed.
Lemma quiet_replay actor key request : quiet (replay (C := C) (I := I) (X := X) actor key request).
Proof. unfold replay. quiet. Qed.
Lemma quiet_unused record aliases :
  quiet (unused_task_id (C := C) (I := I) (X := X) (S := S) record aliases).
Proof.
  unfold unused_task_id. generalize 4097. intros tries. induction tries as [|tries IH]; cbn [unused_task_id_from]; [quiet|].
  do 2 (apply quiet_bind; [quiet|intros ?]). destruct (_ && _); [quiet|done].
Qed.
Lemma quiet_allocate record changes :
  quiet (allocate_aliases (C := C) (I := I) (X := X) (S := S) record changes).
Proof.
  apply quiet_fold. intros aliases [| | | | | | | | | |]; try apply quiet_ret.
  apply quiet_bind; [apply quiet_unused|]. quiet.
Qed.
Lemma quiet_apply aliases at_ms record change :
  quiet (apply_change (C := C) (I := I) (X := X) (S := S) aliases at_ms record change).
Proof. destruct change; cbn [apply_change]; try (apply quiet_bind; [apply quiet_validate|]); quiet. Qed.

Lemma grows_wait r source : grows r (clear_owned_wait r source).
Proof. unfold clear_owned_wait. case_bool; [grows_plain|done]. Qed.

(** An unstarted task revised or removed by an edit, and a task asked to stop. *)
Lemma task_step_revise id t definition version :
  tr_frozen t = None → tr_state t = Queued → (128 <=? vlen (tr_previous_definitions t))%N = false →
  (tr_version t ≤ version)%N →
  task_step id t (t <| tr_previous_definitions := tr_previous_definitions t ++ [tr_definition t] |>
    <| tr_definition := definition |> <| tr_version := version |> <| tr_reason := None |>).
Proof.
  intros Hf Hs Hlen ?. apply task_step_edit; cbn; try done; [by unfold unsettled; rewrite Hs|by eexists|].
  intros _. bool_prop. unfold vlen in *. rewrite length_app. cbn. lia.
Qed.
Lemma task_step_dropped id t t' :
  tr_frozen t = None → unsettled t = true →
  t' = t <| tr_removed := tr_removed t' |> <| tr_stop_requested := tr_stop_requested t' |>
    <| tr_state := Stopped |> <| tr_ended_at := tr_ended_at t' |> <| tr_reason := tr_reason t' |> →
  (tr_removed t = true → tr_removed t' = true) →
  (tr_stop_requested t = true → tr_stop_requested t' = true) → task_step id t t'.
Proof.
  intros Hf Hu E Hr Hs Hok. rewrite E in *. cbn in *.
  apply (task_step_live id t); cbn; try done; [apply start_same_refl|].
  right. split_and!; [done..|]. left. by apply (ok_unstarted _ _ Hok).
Qed.

Lemma returns_change aliases at_ms r c :
  (∀ id, added aliases c = Some id → wf_tasks r !! id = None) →
  returns (apply_change (C := C) (I := I) (X := X) (S := S) aliases at_ms r c) (edited aliases c r).
Proof.
  intros Hadd. destruct c; cbn [apply_change];
    try (eapply returns_bind; [apply returns_any|intros _ _]); try apply returns_lift; try apply returns_ret.
  - intros r' H. inv_ok. bool_prop. subst r'. apply edited_same; [|by unfold clear_owned_wait; case_bool|done].
    etrans; [|apply grows_wait]. eapply grows_admission; [done|]. split; [done..|]. right; right. eauto.
  - intros r' H. inv_ok. subst r'. rename select (aliases !! _ = Some _) into Ha.
    split; [|intros id Hid Hne; cbn; rewrite lookup_insert_ne; [done|by intros ->; apply Hne]|done].
    apply grows_add; [by apply Hadd|done|by bool_prop].
  - intros r' H. inv_ok. subst r'. rename select (future_task _ _ _ = _) into Hft.
    apply future_task_facts in Hft as (Ht & Hf & Hq). eapply edited_set; [done|].
    bool_prop. apply task_step_revise; [done..|by apply N.leb_gt|lia].
  - intros r' H. inv_ok. subst r'. rename select (future_task _ _ _ = _) into Hft.
    apply future_task_facts in Hft as (Ht & Hf & Hq). eapply edited_set; [done|].
    apply task_step_dropped; [done|by unfold unsettled; rewrite Hq|done..].
  - intros r' H. inv_ok. subst r'. apply edited_same; [grows_plain|done|done].
  - intros r' H. inv_ok. subst r'. destruct (is_settled _) eqn:Hs; [by apply edited_same|].
    eapply edited_set; [done|]. cbn. destruct (tr_frozen x) eqn:Hf; cbn; [by apply task_step_control|].
    apply task_step_dropped; [done|by unfold unsettled; rewrite Hs|by cbn; rewrite Hf|done..].
  - intros r' H. destruct (adopt_keeps _ _ _ _ _ H) as [? ?]. apply edited_same; [by eapply grows_adopt|done..].
  - intros r' H. unfold change_limits in H. inv_ok. subst r'. bool_prop.
    apply edited_same; [by apply grows_limits|done|done].
  - intros r' H. unfold resume in H. inv_ok. case_match; inv_ok. subst r'.
    apply edited_same; [grows_plain|done|done].
  - intros r' H. inv_ok. subst r'. apply edited_same; [grows_plain|done|done].
  - intros r' [= <-]. apply edited_same; [grows_plain|done|done].
Qed.

(** The whole batch. *)
Lemma returns_changes aliases at_ms r changes :
  allocated r changes aliases →
  returns (fold_st (apply_change (C := C) (I := I) (X := X) (S := S) aliases at_ms) r changes)
    (λ r', grows r r' ∧ (existsb is_policy changes = false → kept r r')).
Proof.
  intros [Hfresh _ Honce].
  eapply returns_conseq.
  { apply (returns_fold _ (λ before r', grows r r' ∧ (existsb is_policy before = false → kept r r')
      ∧ ∀ id, wf_tasks r !! id = None → id ∉ omap (added aliases) before → wf_tasks r' !! id = None));
      [by split_and!|].
    intros before c after r1 -> (Hg & Hk & Hnew).
    rewrite omap_app in Honce. cbn in Honce. apply NoDup_app in Honce as (_ & Hdisj & _).
    eapply returns_conseq; [apply returns_change|].
    - intros id Hid. assert (∃ a, aliases !! a = Some id) as [a Ha] by (destruct c; cbn in Hid; eauto; done).
      apply Hnew; [by eapply Hfresh|]. intros Hin. apply (Hdisj id Hin). rewrite Hid. left.
    - intros r2 [Hg2 Ht2 Hk2]. split_and!; [by trans r1| |].
      + rewrite existsb_app. cbn. rewrite orb_false_r. intros [? ?]%orb_false_iff. trans r1; auto.
      + intros id Hid. rewrite omap_app, not_elem_of_app. cbn. intros [Hb Hc]. apply Ht2; [by apply Hnew|].
        intros E. rewrite E in Hc. apply Hc. left. }
  by intros r' (? & ? & _).
Qed.

(** Accepting a model's batch. *)
Lemma check_admission_facts r source batch repair :
  check_admission r source batch repair = Ok tt →
  existsb is_policy (tb_changes batch) = false
  ∧ (wf_admitted_model_batches r < wl_model_batches (wf_limits r))%N
  ∧ ∃ a, wf_admissions r !! source = Some a ∧ ma_status a = if repair then AdmRejected else AdmPending.
Proof.
  unfold check_admission. intros H. inv_ok. bool_prop. split_and!; [done..|].
  eexists. split; [done|]. destruct repair; inv_ok; by bool_prop.
Qed.

Lemma grows_accept r0 r source batch repair key aliases r' :
  check_admission r0 source batch repair = Ok tt → kept r0 r →
  accept_admission r source key aliases repair = Ok r' → grows r r'.
Proof.
  intros (_ & Hlt & a & Ha0 & Hs)%check_admission_facts [Hl Hb Ha] H.
  unfold accept_admission in H. apply bind_Ok in H as (batches & Hadd & H). inv_ok. bool_prop. cbn in *.
  rewrite Ha, Ha0 in *. rename select (Some a = Some _) into E. injection E as <-.
  set (a' := a <| ma_status := if repair then AdmRepaired else AdmAccepted |>
    <| ma_receipt_key := Some key |> <| ma_aliases := aliases |>).
  assert (admission_evolves a a') as Hev.
  { split; [done..|]. unfold status_evolves. rewrite Hs. destruct repair; cbn; auto. }
  set (r1 := r <| wf_admitted_model_batches := batches |>
    <| wf_admissions := <[source := a']> (wf_admissions r) |>).
  assert (grows r r1) as Hg.
  { trans (r <| wf_admissions := <[source := a']> (wf_admissions r) |>);
      [apply (grows_admission r source a a'); congruence|].
    refine (grows_batches (r <| wf_admissions := <[source := a']> (wf_admissions r) |>) batches _ _);
      cbn; [lia|]. rewrite Hl. lia. }
  trans r1; [done|]. rewrite <-Ha in H. fold a' r1 in H.
  destruct repair; [injection H as <-; apply grows_wait|].
  case_match; [injection H as <-; grows_plain|]. case_match; [|by injection H as <-]. inv_ok. subst r'.
  case_match; grows_plain.
Qed.

(** ** Edits *)

Lemma sound_edit actor key id batch transport source :
  sound (edit_request (C := C) (I := I) (X := X) actor key id batch transport source).
Proof.
  unfold edit_request. apply sound_lift. intros canonical _.
  apply sound_bind; [apply sound_quiet, quiet_replay|]. intros [rc|]; [apply sound_quiet; quiet|].
  apply sound_bind; [apply sound_quiet; quiet|intros closed]. apply sound_guard. intros _.
  apply sound_plans. intros r _ _. apply plans_lift. intros [] Hcheck.
  apply plans_guard. intros _. eapply plans_returns; [apply quiet_allocate|apply returns_allocate|].
  intros aliases Hal. apply plans_bind; [quiet|intros at_ms].
  eapply plans_returns; [apply quiet_fold; intros; apply quiet_apply|by apply returns_changes|].
  intros r1 [Hg Hk]. do 2 (apply plans_lift; intros [] _). apply plans_lift. intros r2 Hacc r0 Hr0 Hg0.
  apply (holding_command r0 r2 (λ r3, mkAcceptance actor key _ canonical
    (acceptance_result id (wf_generation r3) aliases))).
  trans r; [done|]. trans r1; [done|].
  destruct source as [[src repair]|]; [|by injection Hacc as <-].
  apply (grows_accept r r1 src batch repair key aliases r2); [done| |done].
  apply Hk. by apply check_admission_facts in Hcheck as [? _].
Qed.

Lemma sound_admit actor id source batch repair :
  sound (admit_model_batch (C := C) (I := I) (X := X) actor id source batch repair).
Proof. apply sound_edit. Qed.

(** A decision on a model's batch short of accepting it. *)
Lemma grows_decision r source a a' r' :
  wf_admissions r !! source = Some a → admission_evolves a a' →
  same_frame (r <| wf_admissions := <[source := a']> (wf_admissions r) |>) r' →
  wf_generation r' = wf_generation r → wf_tasks r' = wf_tasks r → grows r r'.
Proof.
  intros Ha Hev Hf Hg Ht. trans (r <| wf_admissions := <[source := a']> (wf_admissions r) |>);
    [by eapply grows_admission|by apply grows_plain].
Qed.

Lemma sound_reject id source reason repair_allowed :
  sound (reject_model_batch (C := C) (I := I) (X := X) id source reason repair_allowed).
Proof.
  apply sound_plans. intros r _ _. apply plans_lift. intros a Ha. inv_ok.
  case_bool; [apply plans_quiet; quiet|]. apply plans_lift. intros rejected _. cbv zeta. bool_prop.
  apply plans_save; [|intros; apply plans_quiet; quiet].
  eapply grows_decision; [done| |case_bool; same_frame|by case_bool|by case_bool].
  split; [done..|]. unfold status_evolves. auto.
Qed.

Lemma sound_refuse id source reason :
  sound (refuse_model_repair (C := C) (I := I) (X := X) id source reason).
Proof.
  apply sound_plans. intros r _ _. apply plans_lift. intros a Ha. inv_ok.
  case_bool; [apply plans_quiet; quiet|]. cbv zeta. bool_prop.
  apply plans_save; [|intros; apply plans_quiet; quiet].
  eapply grows_decision; [done| |case_bool; same_frame|by case_bool|by case_bool].
  split; [done..|]. by left.
Qed.

(** ** Creation *)

(** The task map of a new workflow. *)
Definition initial_tasks (tasks : gmap TaskId TaskRecord) : Prop :=
  ∀ id t, tasks !! id = Some t → ∃ definition at_ms, t = new_task id definition at_ms.

Lemma initial_definitions tasks : initial_tasks tasks → size (definitions tasks) = size tasks.
Proof.
  intros Hi. unfold definitions. rewrite map_size_fmap. f_equal. apply map_filter_id.
  intros id t Ht. by destruct (Hi id t Ht) as (? & ? & ->).
Qed.

Lemma validated_capacity tasks published limits :
  validate_tasks tasks published limits = Ok tt →
  (N.of_nat (size (definitions tasks)) ≤ wl_tasks limits)%N.
Proof. unfold validate_tasks, validate_task_set, or_invalid. intros H. inv_ok. by bool_prop. Qed.

Lemma wf_ok_initial r :
  initial_tasks (wf_tasks r) → (N.of_nat (size (wf_tasks r)) ≤ wf_admitted_tasks r)%N →
  (wf_admitted_tasks r ≤ wl_tasks (wf_limits r))%N → wf_admitted_model_batches r = 0%N →
  wf_committed_allowance r = AuthorityBudget_default → wf_admissions r = ∅ → wf_ok r.
Proof.
  intros Hi ? ? Hb Hs Ha. split; rewrite ?Hb, ?Hs, ?Ha; [|done|done|lia|by split|by intros].
  intros id t Ht. destruct (Hi id t Ht) as (? & ? & ->). apply task_ok_new.
Qed.

(** The first commit of a workflow. *)
Lemma sound_first record command :
  wf_ok record →
  sound (outcome ← save (C := C) (I := I) (X := X) record None command; lift (receipt outcome)).
Proof.
  intros Hwf d0 w Hw. unfold mbind, st_bind.
  pose proof (save_spec d0 record None command w Hw Hwf) as Hs.
  destruct (save record None command w) as [w' [o|e]]; [|by apply Hs].
  assert (base d0 w') by (destruct o; apply Hs; done). unfold lift. by destruct (receipt o).
Qed.

Lemma sound_create actor key request decision transport :
  sound (create_request (C := C) (I := I) (X := X) actor key request decision transport).
Proof.
  unfold create_request. apply sound_lift. intros canonical _.
  apply sound_bind; [apply sound_quiet, quiet_replay|]. intros [rc|]; [apply sound_quiet; quiet|].
  apply sound_bind; [apply sound_quiet; quiet|intros closed]. do 3 (apply sound_guard; intros _).
  do 4 (apply sound_lift; intros ? _). apply sound_bind; [apply sound_quiet; quiet|intros at_ms].
  apply sound_bind; [apply sound_quiet; quiet|intros aliases]. apply sound_guard. intros _.
  apply sound_lift. intros tasks Htasks. apply sound_lift. intros [] Hvalid.
  do 2 (apply sound_lift; intros [] _). apply sound_lift. intros admitted Hadm. cbv zeta.
  set (record := mkWorkflow _ _ _ _ _ _ _ _ _ _ _ _ _ _ _ _ _ _ _ _ _ _ _ _ _).
  apply sound_bind; [apply sound_quiet, quiet_each; intros; apply quiet_validate|intros _].
  assert (wf_ok record) as Hwf.
  { assert (initial_tasks tasks) as Hi.
    { apply (try_fold_ind initial_tasks) in Htasks; [done| |by intros ? ? ?].
      intros m x m' _ Hm Hx id t Ht. inv_ok. subst m'.
      apply lookup_insert_Some in Ht as [[<- <-]|[_ ?]]; eauto. }
    inv_ok. bool_prop. subst. apply wf_ok_initial; try done.
    cbn. apply validated_capacity in Hvalid. by rewrite initial_definitions in Hvalid. }
  by apply sound_first.
Qed.

(** ** Answers *)

(** The durable answer to a request. *)
Definition accepted (actor key canonical : string) (rc : WorkflowCommandReceipt) (w : W) : Prop :=
  du_receipts (facts w) !! (actor, key) = Some rc
  ∧ wca_canonical_request (wcr_acceptance rc) = canonical.

Lemma answers_replay actor key canonical (m : M WorkflowCommandReceipt) :
  answers m (accepted actor key canonical) →
  answers (replayed ← replay actor key canonical;
           match replayed with Some rc => mret rc | None => m end) (accepted actor key canonical).
Proof.
  intros Hm w w' rc Hok. unfold replay, mbind, st_bind, on_store.
  destruct (store_receipt _ _ _) as [s res] eqn:E.
  destruct (store_receipt_law _ _ _ _ _ Hok E) as (Hok' & Hd & Hres).
  destruct res as [[rc'|]|e]; cbn; [|by apply Hm|done].
  unfold guard_if, lift. cbn. destruct (bool_decide _) eqn:Hb; cbn; [done|]. intros [= <- <-]. bool_prop.
  split; [unfold facts; cbn; rewrite Hd; by rewrite <-(Hres _ eq_refl)|]. by apply dec_stable.
Qed.

Lemma answers_commit record expected c :
  answers (save (C := C) (I := I) (X := X) record expected (Some c))
    (λ o w, ∀ rc, receipt o = Ok rc → accepted (wca_actor c) (wca_key c) (wca_canonical_request c) rc w).
Proof.
  unfold save. do 5 (apply answers_bind; [quiet|intros ?]).
  apply answers_bind; [apply quiet_next_active|intros next]. apply answers_bind; [quiet|intros capacity].
  intros w w' o Hok. unfold mbind, st_bind, on_store. destruct (store_commit _ _) as [s res] eqn:E.
  destruct (store_commit_law _ _ _ _ Hok E) as [_ Hlaw]. destruct res as [[rc|rc]|e]; cbn; [| |done].
  - intros [= <- <-] rc' Hrc. destruct Hlaw as (_ & Hd & ->). cbn in Hrc. injection Hrc as <-.
    split; [|done]. unfold facts. cbn. rewrite Hd. cbn. by rewrite lookup_insert_eq.
  - intros [= <- <-] rc' [= <-]. destruct Hlaw as (Hd & c' & [= <-] & Hrc & ?).
    split; [|done]. unfold facts. cbn. by rewrite Hd.
Qed.
Lemma answers_save record expected c :
  answers (outcome ← save (C := C) (I := I) (X := X) record expected (Some c); lift (receipt outcome))
    (accepted (wca_actor c) (wca_key c) (wca_canonical_request c)).
Proof.
  intros w w' rc Hok. unfold mbind, st_bind. destruct (save record expected (Some c) w) as [w1 [o|e]] eqn:E; [|done].
  unfold lift. intros [= <- Hrc]. by eapply answers_commit.
Qed.

Lemma answers_create actor key request decision transport canonical :
  request_identity None transport request = Ok canonical →
  answers (create_request (C := C) (I := I) (X := X) actor key request decision transport)
    (accepted actor key canonical).
Proof.
  intros Hid. unfold create_request. apply answers_lift. intros ? Hid'. rewrite Hid in Hid'. injection Hid' as <-.
  apply answers_replay. apply answers_bind; [quiet|intros closed].
  do 3 (apply answers_bind; [quiet|intros _]). do 4 (apply answers_bind; [quiet|intros ?]).
  do 2 (apply answers_bind; [quiet|intros ?]). apply answers_bind; [quiet|intros _].
  apply answers_bind; [quiet|intros tasks]. do 3 (apply answers_bind; [quiet|intros _]).
  apply answers_bind; [quiet|intros admitted]. cbv zeta.
  apply answers_bind; [apply quiet_each; intros; apply quiet_validate|intros _].
  exact (answers_save _ None (mkAcceptance actor key None canonical _)).
Qed.

Lemma answers_edit actor key id batch transport source canonical :
  request_identity (Some id) transport batch = Ok canonical →
  answers (edit_request (C := C) (I := I) (X := X) actor key id batch transport source)
    (accepted actor key canonical).
Proof.
  intros Hid. unfold edit_request. apply answers_lift. intros ? Hid'. rewrite Hid in Hid'. injection Hid' as <-.
  apply answers_replay. apply answers_bind; [quiet|intros closed]. apply answers_bind; [quiet|intros _].
  apply answers_bind; [quiet|intros r]. do 2 (apply answers_bind; [quiet|intros _]). cbv zeta.
  apply answers_bind; [apply quiet_allocate|intros aliases]. apply answers_bind; [quiet|intros at_ms].
  apply answers_bind; [apply quiet_fold; intros; apply quiet_apply|intros r1].
  do 2 (apply answers_bind; [quiet|intros _]). apply answers_bind; [quiet|intros r2].
  apply answers_bind; [apply quiet_advance|intros [r3 expected]].
  exact (answers_save _ (Some expected) (mkAcceptance actor key _ canonical _)).
Qed.
End commands.
