(* ===== verification/Samples.v ===== *)
(** * Sample boundaries

    Concrete instances of what the runtime takes as a parameter, small enough to
    evaluate: encoders, a clock that stands still, counting identities, an executor,
    an authority that allows, and a store in memory that keeps its promise. *)
From S2P Require Import Prelude Effects Contracts Capability Blueprint Authority.
From S2P Require Import AuthorityLaws Model Workspace Persistence Dispatch Workflow Admission.
From S2P Require Import Runtime Commands Scheduling Execution Evolution RuntimeLaws.

Definition sample_runtime_codec : RuntimeCodec := {|
  rcodec_blake3 := sample_blake3; rcodec_value := sample_serialize; rcodec_text := sample_serialize;
  rcodec_input := sample_serialize; rcodec_tool := sample_serialize;
  rcodec_definition := sample_serialize; rcodec_grant := sample_serialize;
  rcodec_decision := sample_serialize; rcodec_basis := sample_serialize;
  rcodec_payload := sample_serialize; rcodec_extensions := sample_serialize;
  rcodec_batch := sample_serialize; rcodec_create := sample_serialize;
  rcodec_dispatch := sample_serialize; rcodec_event := sample_serialize;
  rcodec_events := sample_serialize; rcodec_actor_key := sample_serialize;
  rcodec_limits := sample_serialize; rcodec_outputs := sample_serialize;
  rcodec_terminal := sample_serialize; rcodec_reference := sample_serialize;
  rcodec_model_task := sample_serialize; from_slice := λ _, Ok JNull;
  display_contract := λ _, EmptyString; display_authority := λ _, EmptyString;
  display_executor := λ _, EmptyString; display_runtime := λ _, EmptyString;
  display_persistence := λ _, EmptyString; display_model := λ _, EmptyString;
  debug_failure := λ _, EmptyString |}.

(** A document is the record itself. *)
Definition sample_document : WorkflowDocument WorkflowRecord := {|
  document_of := λ r, Ok r; record_of := λ r, Ok r; document_bytes := λ _, Ok 0%N;
  document_result := sample_serialize |}.
Lemma sample_roundtrip : @DocumentRoundtrip WorkflowRecord sample_document.
Proof. by intros r d [= <-]. Qed.

Definition sample_clock : BoundaryClock N := λ now, (now, Ok now).
Definition sample_ids : IdGenerator N := λ n kind, ((n + 1)%N, Ok (kind +:+ "-" +:+ show_N n)).

(** ** A store in memory *)

Definition memory_admissible (s : Durable WorkflowRecord) (c : WorkflowCommit WorkflowRecord) : bool :=
  let old := du_workflows s !! sn_workflow (cm_snapshot c) in
  bool_decide (sn_generation <$> old = cm_expected_generation c)
  && bool_decide (sn_generation (cm_snapshot c) = (default 0 (cm_expected_generation c) + 1)%N)
  && is_none_or (λ old, bool_decide (sn_owner_actor old = sn_owner_actor (cm_snapshot c))
       && forallb (λ i, bool_decide (i ∈ sn_entered_invocations (cm_snapshot c)))
            (sn_entered_invocations old)) old.
Definition memory_apply (s : Durable WorkflowRecord) (c : WorkflowCommit WorkflowRecord)
    : Durable WorkflowRecord * result PersistenceError WorkflowCommitOutcome :=
  if memory_admissible s c then (durable_commit s c, Ok (CommitApplied (receipt_of c)))
  else (s, Err (PeInvalidDocument "refused")).
Definition memory_commit (s : Durable WorkflowRecord) (c : WorkflowCommit WorkflowRecord)
    : Durable WorkflowRecord * result PersistenceError WorkflowCommitOutcome :=
  match cm_command c with
  | None => memory_apply s c
  | Some command =>
      match du_receipts s !! (wca_actor command, wca_key command) with
      | None => memory_apply s c
      | Some rc =>
          if bool_decide (wca_canonical_request (wcr_acceptance rc) = wca_canonical_request command)
          then (s, Ok (CommitReplay rc))
          else (s, Err (PeWorkflowIdempotencyConflict (wca_actor command) (wca_key command)))
      end
  end.

Definition memory_after (after : option string) (id : string) : bool :=
  is_none_or (λ a, bool_decide (str_lt a id)) after.
Definition memory_store : WorkflowStore (Durable WorkflowRecord) WorkflowRecord := {|
  store_workflow := λ s id, (s, Ok (du_workflows s !! id));
  store_workflows := λ s after _, (s, Ok (mkPage
    (List.filter (λ x, memory_after after (sn_workflow x)) (values (du_workflows s))) None));
  store_receipt := λ s actor key, (s, Ok (du_receipts s !! (actor, key)));
  store_commit := memory_commit |}.

Definition memory_ok (s : Durable WorkflowRecord) : Prop :=
  ∀ id x, du_workflows s !! id = Some x → sn_workflow x = id.

Definition fresh_command (s : Durable WorkflowRecord) (c : WorkflowCommit WorkflowRecord) : Prop :=
  ∀ command, cm_command c = Some command → du_receipts s !! (wca_actor command, wca_key command) = None.

Lemma memory_admissible_spec s c :
  fresh_command s c → memory_admissible s c = true → commit_admissible s c.
Proof.
  unfold memory_admissible. intros Hfresh H. bool_prop. rename select (is_none_or _ _ = true) into Ho.
  split; try done; intros old; [|intros i]; intros E; rewrite E in Ho; cbn in Ho; bool_prop; [done|].
  intros Hi. rename select (forallb _ _ = true) into Hent. rewrite forallb_forall in Hent.
  specialize (Hent i). rewrite bool_decide_eq_true in Hent. apply Hent. by apply list_elem_of_In.
Qed.

Lemma memory_commit_spec s c s' r :
  memory_ok s → memory_commit s c = (s', r) →
  memory_ok s' ∧
  match r with
  | Ok (CommitApplied receipt) =>
      commit_admissible s c ∧ s' = durable_commit s c ∧ receipt = receipt_of c
  | Ok (CommitReplay receipt) =>
      s' = s ∧ ∃ command, cm_command c = Some command
      ∧ du_receipts s !! (wca_actor command, wca_key command) = Some receipt
      ∧ wca_canonical_request (wcr_acceptance receipt) = wca_canonical_request command
  | Err _ => s' = s ∨ commit_admissible s c ∧ s' = durable_commit s c
  end.
Proof.
  intros Hok H.
  assert (fresh_command s c ∧ memory_apply s c = (s', r) ∨
    s' = s ∧ ∃ command rc, cm_command c = Some command
      ∧ du_receipts s !! (wca_actor command, wca_key command) = Some rc
      ∧ (r = Ok (CommitReplay rc) ∧ wca_canonical_request (wcr_acceptance rc) = wca_canonical_request command
         ∨ ∃ e, r = Err e)) as [[Hf Ha]|(-> & command & rc & Hc & Hrc & Hr)].
  { unfold memory_commit in H. unfold fresh_command.
    destruct (cm_command c) as [command|]; [|by left; split; [intros ? [=]|]].
    destruct (du_receipts s !! _) as [rc|] eqn:Hrc; [|by left; split; [intros ? [= <-]|]].
    right. case_bool_decide; injection H as <- <-; split; [done|exists command, rc; eauto|done|exists command, rc; eauto 10]. }
  - unfold memory_apply in Ha. destruct (memory_admissible s c) eqn:Had; injection Ha as <- <-; [|by split; [|left]].
    split; [|by split_and!; [apply memory_admissible_spec|..]].
    intros id x. cbn. rewrite lookup_insert_Some. intros [[<- <-]|[_ ?]]; [done|by apply Hok].
  - split; [done|]. destruct Hr as [[-> ?]|[e ->]]; eauto 10.
Qed.

Lemma memory_page s after :
  memory_ok s → page_of s after (mkPage
    (List.filter (λ x, memory_after after (sn_workflow x)) (values (du_workflows s))) None).
Proof.
  intros Hok. assert (∀ x, x ∈ List.filter (λ x, memory_after after (sn_workflow x)) (values (du_workflows s)) ↔
    du_workflows s !! sn_workflow x = Some x ∧ memory_after after (sn_workflow x) = true) as Hin.
  { intros x. rewrite list_elem_of_In, filter_In, <-list_elem_of_In, elem_of_values.
    split; [|intros [? ?]; split; [by eexists|done]]. intros [[id Hx] ?]. pose proof (Hok _ _ Hx) as E; by subst id. }
  split; cbn.
  - intros x [? _]%Hin. done.
  - pose proof (entries_sorted (du_workflows s)) as Hs. unfold values.
    assert (∀ kv, kv ∈ entries (du_workflows s) → sn_workflow kv.2 = kv.1) as Hkey.
    { intros [k v] Hkv%elem_of_entries. by apply Hok. }
    pose proof (NoDup_keys (du_workflows s)) as Hnd. unfold keys in Hnd.
    induction Hs as [|kv l Hs IH Hall]; cbn; [constructor|]. apply NoDup_cons in Hnd as [Hnin Hnd].
    assert (StronglySorted (λ x y, str_lt (sn_workflow x) (sn_workflow y))
      (List.filter (λ x, memory_after after (sn_workflow x)) l.*2)) as IH'.
    { apply IH; [intros; apply Hkey; by right|done]. }
    case_bool; [|done]. constructor; [done|]. apply Forall_forall. intros y Hy.
    apply list_elem_of_In, filter_In in Hy as [Hy%list_elem_of_In _]. apply list_elem_of_fmap in Hy as ([k y'] & -> & Hky).
    rewrite Forall_forall in Hall. specialize (Hall _ Hky). unfold key_le in Hall. cbn in *.
    rewrite (Hkey kv (list_elem_of_here _ _)), (Hkey (k, y') (list_elem_of_further _ _ _ Hky) : sn_workflow y' = k).
    split; [done|].
    intros E. apply Hnin. rewrite E. apply list_elem_of_fmap. by exists (k, y').
  - intros x a [_ Ha]%Hin ->. by apply bool_decide_eq_true in Ha.
  - done.
  - intros _ id x Hx Hafter. apply Hin. rewrite (Hok _ _ Hx). split; [done|].
    destruct after as [a|]; [|done]. cbn. apply bool_decide_eq_true. by apply Hafter.
Qed.

Definition memory_contract : @WorkflowStoreContract (Durable WorkflowRecord) WorkflowRecord memory_store.
Proof.
  refine {| store_ok := memory_ok; durable := λ s, s |}.
  - by intros s id x Hok ?%Hok.
  - by intros s id s' r Hok [= <- <-]; split_and!; [| |intros o [= <-]].
  - intros s after limit s' r Hok [= <- <-]. split_and!; [done..|]. intros page [= <-]. by apply memory_page.
  - by intros s actor key s' r Hok [= <- <-]; split_and!; [| |intros o [= <-]].
  - intros s c s' r. apply memory_commit_spec.
Defined.

(** ** A workflow with one accepted start *)

Definition sample_allow (request : AuthorityRequest) : AuthorityDecisionSnapshot :=
  mkDecision 3 "policy" 1 request Allow [] AuthorityBudget_default SideReadOnly EmptyString.
Definition sample_authority : Evaluator := λ request, Ok (sample_allow request).

Definition sample_invocation : InvocationRequest :=
  mkInvocationRequest "invocation" (rs_capability sample_snapshot) (rs_operation sample_snapshot)
    (rs_provider_profile sample_snapshot) None [] ∅.
Definition sample_dispatch : ExecutionDispatch :=
  mkDispatch true None [] [] 0 "wf" "rev" "task" "execution" "attempt" "lease" 1000 sample_snapshot
    sample_basis (sample_allow sample_request) (sample_allow sample_request) sample_invocation.
Definition sample_envelope : InvocationAdmissionEnvelope :=
  mkEnvelope None UnitUnknown NotApplicable NotApplicable NotApplicable NotApplicable (Bounded 60000%N).
Definition sample_prepared : PreparedExecution :=
  mkPrepared sample_dispatch sample_envelope (λ _, AdapterReturn (Ok tt)).

Definition sample_start : FrozenTaskStart := mkFrozen 1 sample_definition ∅ sample_dispatch false None [].
Definition sample_task : TaskRecord :=
  mkTaskRecord "task" 1 sample_definition [] false Running None 10 (Some 10%N) None false false
    (Some sample_start) None None.
Definition sample_allowance : AuthorityBudget :=
  mkBudget None (Some 3600000%N) (Some 8%N) (Some 1000000000%N) None (Some 4%N).
Definition sample_workflow : WorkflowRecord :=
  mkWorkflow 2 ∅ 0 0 SCHEMA_VERSION "wf" "title" EmptyString 2 "alice" 10 10 WfRunning ∅
    WorkflowLimits_default false None None {["task" := sample_task]} sample_basis 1 0
    sample_allowance AuthorityBudget_default None.

Definition sample_stored (r : WorkflowRecord) : WorkflowSnapshot WorkflowRecord :=
  mkWorkflowSnapshot (wf_id r) (wf_generation r) (wf_title r) (wf_description r) (wf_owner_actor r)
    (wf_updated_at r) r (entered_invocations r) (managed_executions r) 0 0 0.
Definition sample_durable (r : WorkflowRecord) : Durable WorkflowRecord :=
  mkDurable {[wf_id r := sample_stored r]} ∅.
