(* ===== verification/Concurrency.v ===== *)
(** * The daemon over time

    Threads of the runtime interleave at their critical sections, the environment
    changes the clock, the identity source, the executor host and the authority at
    any moment, and the process may die and restart. A process that dies inside a
    section is a store that answers nothing from then on, which the promise of the
    store allows at every call. *)
From S2P Require Import Prelude Effects Contracts Capability Blueprint Authority Model.
From S2P Require Import Workspace Persistence Dispatch Workflow Admission Runtime Commands.
From S2P Require Import Scheduling Execution Evolution RuntimeLaws ExecutionLaws.
From S2P Require Import SchedulingLaws CommandLaws.

(** ** Threads whose sections are sound *)

Section threads.
Context {C I X S D : Type}.
Context `{codec : !RuntimeCodec, !WorkflowDocument D, !BoundaryClock C, !IdGenerator I,
          !TaskExecutor X, !WorkflowStore S D, !WorkflowStoreContract S D,
          !DocumentRoundtrip D}.

Abbreviation W := (World C I X S).
Abbreviation M := (st W RuntimeError).
Abbreviation T := (thread W RuntimeError).

(** Every section keeps the durable facts evolving wherever it runs; [P] holds of what
    the thread returns. *)
Fixpoint tsound {A} (t : T A) (P : A → Prop) : Prop :=
  match t with
  | TDone (Ok a) => P a
  | TDone (Err _) => True
  | TStep section => ∀ d0 w, base d0 w →
      let '(w', t') := section w in base d0 w' ∧ tsound t' P
  end.

Definition any {A} (_ : A) : Prop := True.

Lemma tsound_mono {A} (t : T A) (P Q : A → Prop) : tsound t P → (∀ a, P a → Q a) → tsound t Q.
Proof.
  intros Ht HPQ. induction t as [[a|e]|section IH] using thread_sections; cbn in *; auto.
  intros d0 w Hw. specialize (Ht d0 w Hw). specialize (IH w). destruct (section w) as [w' t'].
  destruct Ht. split; auto.
Qed.

Lemma tsound_bind {A B} (t : T A) (f : A → T B) P Q :
  tsound t P → (∀ a, P a → tsound (f a) Q) → tsound (t ≫= f) Q.
Proof.
  intros Ht Hf. change (t ≫= f) with (thread_bind (λ r, match r with Ok a => f a | Err e => TDone (Err e) end) t).
  induction t as [[a|e]|section IH] using thread_sections; cbn in *; auto.
  intros d0 w Hw. specialize (Ht d0 w Hw). specialize (IH w). destruct (section w) as [w' t'].
  destruct Ht. split; auto.
Qed.
Lemma tsound_ret {A} (a : A) (P : A → Prop) : P a → tsound (mret a) P.
Proof. done. Qed.
Lemma tsound_lift {A} (r : result RuntimeError A) (P : A → Prop) :
  (∀ a, r = Ok a → P a) → tsound (thread_lift r) P.
Proof. intros HP. destruct r; cbn; auto. Qed.
Lemma tsound_atomic {A} (m : M A) (P : A → Prop) : sound m → returns m P → tsound (atomic m) P.
Proof.
  intros Hm HP d0 w Hw. specialize (Hm d0 w Hw). destruct (m w) as [w' [a|e]] eqn:E; [|by split].
  split; [done|]. by eapply HP.
Qed.
Lemma tsound_section {A} (m : M A) : sound m → tsound (atomic m) any.
Proof. intros. by apply tsound_atomic. Qed.
Lemma tsound_outcome {A} (t : T A) (P : A → Prop) :
  tsound t P → tsound (outcome t) (λ r, ∀ a, r = Ok a → P a).
Proof.
  intros Ht. unfold outcome. induction t as [[a|e]|section IH] using thread_sections;
    cbn in *; [by intros a' [= <-]|done|].
  intros d0 w Hw. specialize (Ht d0 w Hw). specialize (IH w). destruct (section w) as [w' t'].
  destruct Ht. split; auto.
Qed.
Lemma tsound_fold {A B} (f : B → A → T B) acc xs :
  (∀ b a, tsound (f b a) any) → tsound (fold_thread f acc xs) any.
Proof.
  intros Hf. revert acc. induction xs as [|x xs IH]; intros acc; cbn [fold_thread]; [by apply tsound_ret|].
  eapply tsound_bind; [apply Hf|]. intros; apply IH.
Qed.
Lemma tsound_each {A} (f : A → T ()) xs : (∀ a, tsound (f a) any) → tsound (each_thread f xs) any.
Proof. intros Hf. by apply tsound_fold. Qed.
End threads.

Ltac tsection := apply tsound_section.
Ltac tbind := eapply tsound_bind; [|intros ? ?].

(** ** The runtime's threads *)

Section runtime_threads.
Context {C I X S D : Type}.
Context `{codec : !RuntimeCodec, !WorkflowDocument D, !BoundaryClock C, !IdGenerator I,
          !TaskExecutor X, !WorkflowStore S D, !WorkflowStoreContract S D,
          !DocumentRoundtrip D}.
Context (page_fuel : nat).

Abbreviation W := (World C I X S).
Abbreviation M := (st W RuntimeError).
Abbreviation T := (thread W RuntimeError).

Lemma sound_settle dispatch : sound (settle (C := C) (I := I) (X := X) dispatch).
Proof. apply sound_quiet. quiet. Qed.

Lemma tsound_finish workflow_id task_id state reason pause :
  is_settled state = true → state ≠ Completed →
  tsound (finish_without_entry_policy (C := C) (I := I) (X := X) workflow_id task_id state reason pause) any.
Proof.
  intros. tbind; [tsection; by apply sound_finish|]. case_match; [tsection; apply sound_settle|done].
Qed.

Lemma tsound_defer workflow_id task_id dispatch reason :
  tsound (defer_before_entry (C := C) (I := I) (X := X) workflow_id task_id dispatch reason) any.
Proof.
  tbind; [tsection; apply sound_defer|]. case_match; [| |done].
  - tbind; [tsection; apply sound_settle|done].
  - tbind; [by apply tsound_finish|done].
Qed.

Lemma returns_entry workflow_id task_id dispatch prepared :
  returns (entry_section (C := C) (I := I) (X := X) workflow_id task_id dispatch prepared)
    (λ entry, match entry with
              | EntryRefused state _ _ => is_settled state = true ∧ state ≠ Completed
              | _ => True
              end).
Proof.
  unfold entry_section. do 3 (eapply returns_bind; [apply returns_any|intros ? _]).
  destruct (is_some_and _ _); [by apply returns_ret|].
  destruct (wf_wait_question _); [by apply returns_ret|].
  destruct (reserve_entry _ _ _) as [[[allowance currency] maximum]|e]; [|by apply returns_ret].
  eapply returns_bind; [apply returns_any|intros [task frozen] _].
  destruct (tr_stop_requested _); [by apply returns_ret|].
  do 2 (eapply returns_bind; [apply returns_any|intros ? _]).
  destruct (negb _); [by apply returns_ret|]. destruct (_ <=? _)%N; [by apply returns_ret|].
  do 2 (eapply returns_bind; [apply returns_any|intros ? _]). by apply returns_ret.
Qed.

Lemma tsound_adapter workflow_id task_id dispatch adapter :
  tsound (run_adapter (C := C) (I := I) (X := X) workflow_id task_id dispatch adapter) any.
Proof.
  induction adapter as [r|report continue IH|continue IH]; cbn [run_adapter]; [done|..];
    (tbind; [apply (tsound_outcome _ any); tsection|apply IH]);
    [apply sound_record|apply sound_continuation].
Qed.

Lemma tsound_after workflow_id task_id dispatch returned :
  tsound (after_entry (C := C) (I := I) (X := X) workflow_id task_id dispatch returned) any.
Proof.
  tbind; [tsection; apply sound_quiet; quiet|]. tbind; [by apply (tsound_lift _ any)|].
  repeat case_bool; [tsection; apply sound_settle|done|tsection; apply sound_uncertain].
Qed.

Lemma tsound_enter workflow_id task_id dispatch prepared :
  tsound (enter_prepared (C := C) (I := I) (X := X) workflow_id task_id dispatch prepared) any.
Proof.
  eapply tsound_bind; [apply tsound_atomic; [apply sound_entry|apply returns_entry]|].
  intros [|state reason pause|exact] Hentry.
  - tsection; apply sound_settle.
  - destruct Hentry. by apply tsound_finish.
  - tbind; [apply tsound_adapter|apply tsound_after].
Qed.

Lemma tsound_claimed dispatch :
  tsound (execute_claimed (C := C) (I := I) (X := X) dispatch) any.
Proof.
  do 2 (tbind; [by apply (tsound_lift _ any)|]). tbind; [tsection; apply sound_check|].
  case_bool; [tbind; [by apply tsound_finish|done]|].
  tbind; [tsection; apply sound_quiet; quiet|].
  case_match; [tbind; [apply tsound_enter|done]|].
  assert (∀ reason, tsound (atomic (mark_uncertain (C := C) (I := I) (X := X) a a0 reason) ;; mret false) any)
    by (intros; tbind; [tsection; apply sound_uncertain|done]).
  assert (∀ reason, tsound (finish_without_entry (C := C) (I := I) (X := X) a a0 Failed reason ;; mret false) any)
    by (intros; tbind; [by apply tsound_finish|done]).
  case_match; try apply tsound_defer; by case_bool.
Qed.

Lemma tsound_execute dispatch : tsound (execute (C := C) (I := I) (X := X) dispatch) any.
Proof.
  assert (∀ i, sound (release (C := C) (I := I) (X := X) (S := S) i)) by (intros; apply sound_quiet; unfold release; quiet).
  tbind; [tsection; apply sound_quiet; unfold claim_execution; quiet|].
  tbind; [apply (tsound_outcome _ any), tsound_claimed|].
  case_match; [case_bool; [done|by tsection]|]. tbind; [by tsection|by apply (tsound_lift _ any)].
Qed.

Lemma tsound_cancel_task dispatch workflow entry :
  tsound (cancel_task (C := C) (I := I) (X := X) dispatch workflow entry) any.
Proof.
  destruct entry as [id task]. unfold cancel_task. case_bool; [done|].
  case_match; [|done]. case_bool; [done|]. case_bool; [by apply tsound_finish|].
  tbind; [by apply (tsound_lift _ any)|]. tbind; [tsection; apply sound_quiet; quiet|].
  case_match; [case_bool|]; tsection; (apply sound_cancelled || apply sound_uncertain).
Qed.

Lemma tsound_cancellation dispatch :
  tsound (execute_cancellation (C := C) (I := I) (X := X) dispatch) any.
Proof.
  tbind; [by apply (tsound_lift _ any)|]. tbind; [tsection; apply sound_quiet; quiet|].
  apply tsound_each. intros. apply tsound_cancel_task.
Qed.

Lemma tsound_actions maximum :
  tsound (cancellation_actions (C := C) (I := I) (X := X) maximum) any.
Proof.
  tbind; [tsection; apply sound_quiet; unfold cancellation_page; quiet|]. rename a into items.
  generalize (@nil EffectAction) as actions. induction items as [|x items IH]; intros actions; cbn [collect_page]; [done|].
  tbind; [tsection; apply sound_quiet; quiet|]. tbind; [by apply (tsound_lift _ any)|].
  case_match. case_bool; [done|by apply IH].
Qed.
End runtime_threads.

(** ** Recovery, alone

    Until recovery has finished no other thread of the runtime exists: only the
    environment moves, and the process may die between two sections. *)

Section recovery.
Context {C I X S D : Type}.
Context `{codec : !RuntimeCodec, !WorkflowDocument D, !BoundaryClock C, !IdGenerator I,
          !TaskExecutor X, !WorkflowStore S D, !WorkflowStoreContract S D,
          !DocumentRoundtrip D}.
Context (page_fuel : nat).

Abbreviation W := (World C I X S).
Abbreviation M := (st W RuntimeError).
Abbreviation T := (thread W RuntimeError).

(** The thread alone from stores satisfying [P]: every section keeps the durable facts
    evolving, and [Q] holds of the store it leaves with its result. *)
Fixpoint alone {A} (P : S → Prop) (t : T A) (Q : A → S → Prop) : Prop :=
  match t with
  | TDone (Ok a) => ∀ s, P s → Q a s
  | TDone (Err _) => True
  | TStep section => ∀ d0 w, base d0 w → P (w_store w) →
      let '(w', t') := section w in base d0 w' ∧ alone (eq (w_store w')) t' Q
  end.

Lemma alone_conseq {A} P P' (t : T A) (Q Q' : A → S → Prop) :
  alone P t Q → (∀ s, P' s → P s) → (∀ a s, Q a s → Q' a s) → alone P' t Q'.
Proof.
  intros Ht HP HQ. revert P P' Ht HP.
  induction t as [[a|e]|section IH] using thread_sections; intros P P' Ht HP; cbn in *; auto.
  intros d0 w Hb Hw. specialize (Ht d0 w Hb (HP _ Hw)). specialize (IH w). destruct (section w) as [w' t'].
  destruct Ht as [? Ht]. split; [done|]. by eapply IH.
Qed.

Lemma alone_bind {A B} P (t : T A) (f : A → T B) Q R :
  alone P t Q → (∀ a, alone (Q a) (f a) R) → alone P (t ≫= f) R.
Proof.
  intros Ht Hf. change (t ≫= f) with (thread_bind (λ r, match r with Ok a => f a | Err e => TDone (Err e) end) t).
  revert P Ht. induction t as [[a|e]|section IH] using thread_sections; intros P Ht; cbn in *; [|done|].
  - by eapply alone_conseq.
  - intros d0 w Hb Hw. specialize (Ht d0 w Hb Hw). specialize (IH w). destruct (section w) as [w' t'].
    destruct Ht as [? Ht]. split; [done|]. by apply IH.
Qed.
Lemma alone_ret {A} P (a : A) (Q : A → S → Prop) : (∀ s, P s → Q a s) → alone P (mret a) Q.
Proof. done. Qed.
Lemma alone_atomic {A} P (m : M A) (Q : A → S → Prop) :
  (∀ d0, triple (λ w, base d0 w ∧ P (w_store w)) m (λ a w, base d0 w ∧ Q a (w_store w)) (base d0)) →
  alone P (atomic m) Q.
Proof.
  intros Hm d0 w Hb Hw. specialize (Hm d0 w (conj Hb Hw)). destruct (m w) as [w' [a|e]]; [|by split].
  destruct Hm. split; [done|]. by intros s <-.
Qed.
Lemma alone_fold {A B} (Inv : list A → S → Prop) (f : B → A → T B) xs acc Q :
  (∀ x rest acc, alone (Inv (x :: rest)) (f acc x) (λ _, Inv rest)) →
  (∀ b s, Inv [] s → Q b s) → alone (Inv xs) (fold_thread f acc xs) Q.
Proof.
  intros Hf HQ. revert acc. induction xs as [|x xs IH]; intros acc; cbn [fold_thread].
  - apply alone_ret. intros s Hs. by apply HQ.
  - eapply alone_bind; [apply Hf|]. intros acc'. apply IH.
Qed.

(** The tasks of a snapshot still to be recovered are as the snapshot has them. *)
Definition unchanged (id : WorkflowId) (rest : list (TaskId * TaskRecord)) (s : S) : Prop :=
  ∃ r, stored (durable s) r ∧ wf_id r = id ∧ NoDup (fst <$> rest) ∧
  ∀ task t, (task, t) ∈ rest → ∃ t', wf_tasks r !! task = Some t' ∧ tr_state t' = tr_state t.

(** Both depend on the store alone. *)
Lemma base_store d0 (w w' : W) : w_store w' = w_store w → base d0 w → base d0 w'.
Proof. intros E [Hok ? ?]. unfold facts in *. split; unfold facts; by rewrite E. Qed.
Lemma held_store d0 r (w w' : W) : w_store w' = w_store w → held d0 r w → held d0 r w'.
Proof. intros E [Hb ?]. unfold facts in *. split; [by eapply base_store|]. unfold facts. by rewrite E. Qed.

Lemma require_returns d0 id (w w' : W) r :
  base d0 w → require_workflow id w = (w', Ok r) → wf_id r = id ∧ wf_ok r ∧ held d0 r w'.
Proof.
  intros Hw H. apply st_bind_Ok in H as (w1 & o & Ho & [-> Hr]%st_lift_Ok). inv_ok. subst o.
  by apply (workflow_reads _ _ _ _ _ Hw Ho).
Qed.
Lemma require_held d0 r (w w' : W) r' :
  held d0 r w → require_workflow (wf_id r) w = (w', Ok r') → r' = r ∧ held d0 r w'.
Proof.
  intros Hw H. destruct (require_returns _ _ _ _ _ (proj1 Hw) H) as (Hid & _ & Hheld).
  destruct (quiet_require _ _ _ _ H (b_ok _ _ (proj1 Hw))) as [_ Heq].
  assert (r' = r) as -> by (apply (stored_unique (facts w')); [apply Hheld|rewrite Heq; apply Hw|done]).
  done.
Qed.

Lemma now_quiet (w w' : W) res : now w = (w', res) → w_store w' = w_store w.
Proof. unfold now. destruct (clock_now _). by intros [= <- <-]. Qed.

(** The snapshot recovery takes of a workflow. *)
Lemma recover_section_returns d0 id :
  triple (base d0) (recover_section (C := C) (I := I) (X := X) id)
    (λ r w, base d0 w ∧ unchanged id (entries (wf_tasks r)) (w_store w) ∧ wf_id r = id) (base d0).
Proof.
  intros w Hw. pose proof (sound_recover id d0 w Hw) as Hs.
  destruct (recover_section id w) as [w' [r|e]] eqn:H; [|done]. split; [done|].
  apply st_bind_Ok in H as (w1 & r0 & H0 & H). destruct (require_returns _ _ _ _ _ Hw H0) as (Hid & Hr0 & Hh).
  apply st_bind_Ok in H as (w2 & at_ms & Hn & H). apply now_quiet in Hn.
  assert (held d0 r0 w2) as Hh2 by by eapply held_store.
  assert (∃ r1, watched r1 r ∧ wf_id r1 = id ∧ stored (facts w') r1) as (r1 & Hwat & Hid1 & Hst1).
  { unfold observe_duration in H. apply st_bind_Ok in H as (w3 & [r1 changed] & [-> Ha]%st_lift_Ok & H).
    destruct (observe_plan _ _ _ _ Ha) as [_ Hwat].
    destruct (duration_request_limit_stop r1) as [r2 stopped]. cbn in Hwat.
    destruct (stopped || changed).
    - apply advance_save_stores in H as (Hadv & Hst & _); [|apply Hh2]. exists r. split_and!; [done| |done].
      destruct Hadv as [[-> _ _ _ _ _ _ _ _ _ _ _ _] _ _]. destruct Hwat as [-> _]. done.
    - injection H as <- <-. exists r0. split_and!; [done..|apply Hh2]. }
  split; [|destruct Hwat; congruence]. exists r1. split_and!; [done|done|apply NoDup_keys|].
  intros task t Ht%elem_of_entries. destruct Hwat as [_ Hwat]. specialize (Hwat task). rewrite Ht in Hwat.
  destruct (wf_tasks r1 !! task) as [t'|]; [|done]. exists t'. split; [done|]. by destruct Hwat.
Qed.

(** A section that settles the next task leaves the rest as they are. *)
Lemma unchanged_next id task t rest r r' (w' : W) :
  NoDup (fst <$> (task, t) :: rest) →
  (∀ task' t', (task', t') ∈ rest → ∃ t'', wf_tasks r !! task' = Some t'' ∧ tr_state t'' = tr_state t') →
  wf_id r' = id → others_kept task r r' → stored (facts w') r' → unchanged id rest (w_store w').
Proof.
  cbn. intros [Hnin Hnd]%NoDup_cons Hrest Hid Hk Hh. exists r'. split_and!; [done..|].
  intros task' t' Hin. destruct (Hrest task' t' Hin) as (t2 & Ht2 & E2).
  destruct (Hk task' t2) as (t3 & Ht3 & E3); [|done|exists t3; split; [done|congruence]].
  intros ->. apply Hnin. apply list_elem_of_fmap. by exists (task, t').
Qed.

(** An interrupted execution becomes uncertain. *)
Lemma recover_uncertain d0 id task t rest reason :
  triple (λ w, base d0 w ∧ unchanged id ((task, t) :: rest) (w_store w))
    (mark_uncertain (C := C) (I := I) (X := X) id task reason)
    (λ _ w, base d0 w ∧ unchanged id rest (w_store w)) (base d0).
Proof.
  intros w (Hb & r & Hst0 & <- & Hnd & Hrest).
  assert (held d0 r w) as Hh by done.
  pose proof (sound_uncertain (wf_id r) task reason d0 w (proj1 Hh)) as Hs.
  destruct (mark_uncertain (wf_id r) task reason w) as [w' [[]|e]] eqn:H; [|done]. split; [done|].
  assert (∃ r', wf_id r' = wf_id r ∧ others_kept task r r' ∧ stored (facts w') r') as (r' & ? & ? & ?).
  2: { eapply unchanged_next; [done| |done..]. intros. apply Hrest. by right. }
  unfold mark_uncertain in H.
  apply st_bind_Ok in H as (w1 & r1 & H1 & H). destruct (require_held _ _ _ _ _ Hh H1) as [-> Hh1].
  apply st_bind_Ok in H as (w2 & t1 & [-> Ht1]%st_lift_Ok & H). unfold task_of in Ht1. inv_ok.
  destruct (is_settled (tr_state t1)); [injection H as <-; exists r; split_and!; [done|by apply others_kept_watched|apply Hh1]|].
  apply st_bind_Ok in H as (w2 & f & [-> Hf]%st_lift_Ok & H).
  apply st_bind_Ok in H as (w2 & f' & Hf' & H).
  assert (w2 = w1) as ->.
  { destruct (fz_execution_duration f); [by injection Hf' as <-|].
    apply st_bind_Ok in Hf' as (w3 & s & [-> _]%st_lift_Ok & [= <- _]). done. }
  apply st_bind_Ok in H as (w2 & at_ms & Hn%now_quiet & H).
  apply st_bind_Ok in H as (w3 & [r2 changed] & [-> Ha]%st_lift_Ok & H).
  apply st_bind_Ok in H as (w3 & r3 & Hs3 & [= <-]).
  apply advance_save_stores in Hs3 as (Hadv & Hst & _); [|rewrite Hn; apply Hh1].
  exists r3. pose proof (advanced_watched _ _ Hadv) as Hw3. destruct (observe_plan _ _ _ _ Ha) as [_ Hw2].
  split_and!; [|eapply others_kept_trans; [apply others_kept_set|]; apply others_kept_watched; by etrans|done].
  destruct Hw3 as [-> _], Hw2 as [-> _]. done.
Qed.

(** An accepted start beyond the bounded startup set goes back to the queue. *)
Lemma recover_requeue d0 id task t f rest :
  tr_state t = Running → tr_frozen t = Some f →
  triple (λ w, base d0 w ∧ unchanged id ((task, t) :: rest) (w_store w))
    (requeue_section (C := C) (I := I) (X := X) id task)
    (λ _ w, base d0 w ∧ unchanged id rest (w_store w)) (base d0).
Proof.
  intros Hrun Hf w (Hb & r & Hst0 & <- & Hnd & Hrest).
  assert (held d0 r w) as Hh by done.
  destruct (Hrest task t) as (t1 & Ht1 & Hs1); [left|].
  assert (holding r (requeue_section (C := C) (I := I) (X := X) (wf_id r) task)) as Hs.
  { apply holding_require. intros Hr. apply plans_holding; [done|]. apply plans_lift. intros t2 Ht2.
    unfold task_of in Ht2. inv_ok. rewrite Ht1 in Ht2. injection Ht2 as <-.
    apply plans_save; [|intros; apply plans_quiet; quiet]. eapply grows_set_task; [done|].
    pose proof (ok_tasks _ Hr _ _ Ht1) as Hok.
    apply task_step_live; cbn; try done; [unfold unsettled; by rewrite Hs1, Hrun|apply start_same_refl|].
    right. split_and!; [done| |left; eapply running_no_result; [done|congruence]].
    intros Hno. destruct (ok_unstarted _ _ Hok Hno) as [_ Hst]. rewrite Hs1, Hrun in Hst. naive_solver. }
  specialize (Hs d0 w Hh). destruct (requeue_section (wf_id r) task w) as [w' [[]|e]] eqn:H; [|done].
  split; [done|]. unfold requeue_section in H.
  apply st_bind_Ok in H as (w1 & r1 & H1 & H). destruct (require_held _ _ _ _ _ Hh H1) as [-> Hh1].
  apply st_bind_Ok in H as (w2 & t2 & [-> Ht2]%st_lift_Ok & H).
  apply st_bind_Ok in H as (w3 & r3 & Hs3 & [= <-]).
  apply advance_save_stores in Hs3 as (Hadv & Hst & _); [|apply Hh1].
  pose proof (advanced_watched _ _ Hadv) as Hw3.
  apply (unchanged_next (wf_id r) task t rest r r3); [done| |by destruct Hw3 as [-> _]| |done].
  - intros. apply Hrest. by right.
  - eapply others_kept_trans; [apply others_kept_set|by apply others_kept_watched].
Qed.

Lemma unchanged_rest id x rest s : unchanged id (x :: rest) s → unchanged id rest s.
Proof.
  intros (r & ? & ? & [_ ?]%NoDup_cons & Hr). exists r. split_and!; [done..|]. intros. apply Hr. by right.
Qed.

Lemma alone_task workflow ready entry rest :
  alone (unchanged (wf_id workflow) (entry :: rest))
    (recover_task (C := C) (I := I) (X := X) workflow ready entry)
    (λ _, unchanged (wf_id workflow) rest).
Proof.
  destruct entry as [task t]. unfold recover_task.
  assert (∀ l : list ExecutionDispatch, alone (A := list ExecutionDispatch)
    (unchanged (wf_id workflow) ((task, t) :: rest)) (mret l)
    (λ _, unchanged (wf_id workflow) rest)) as Hret.
  { intros l. apply alone_ret. intros s. apply unchanged_rest. }
  destruct (is_settled (tr_state t)).
  { eapply (alone_bind _ _ _ (λ _, unchanged (wf_id workflow) ((task, t) :: rest))); [|intros _; apply Hret].
    destruct (tr_frozen t) as [f|]; [|by apply alone_ret]. apply alone_atomic. intros d0 w [Hb Hw].
    unfold settle, mbind, st_bind, on_executor. destruct (executor_settle _ _) as [x [[]|e]]; cbn;
      [split; [|done]|]; by apply (base_store d0 w). }
  case_bool; [apply Hret|]. bool_prop.
  assert (tr_state t = Running) as Hrun by by apply dec_stable.
  destruct (tr_frozen t) as [f|] eqn:Hf; [|done]. cbn.
  change (alone (unchanged (wf_id workflow) ((task, t) :: rest))
    (if fz_entered f then atomic (mark_uncertain (wf_id workflow) task
        "daemon restarted after durable external entry; no terminal evidence is available") ;; mret ready
     else if (MAX_RECOVERED <=? vlen ready)%N then atomic (requeue_section (wf_id workflow) task) ;; mret ready
     else mret (if negb (tr_stop_requested t) && negb (is_some (wf_wait_question workflow))
                then ready ++ [fz_dispatch f] else ready)) (λ _, unchanged (wf_id workflow) rest)).
  destruct (fz_entered f); [|case_bool; [|apply Hret]].
  all: apply (alone_bind _ _ _ (λ _, unchanged (wf_id workflow) rest));
    [apply alone_atomic; intros d0|by intros; apply alone_ret].
  - exact (recover_uncertain d0 (wf_id workflow) task t rest _).
  - by eapply recover_requeue.
Qed.

Lemma alone_read cursor :
  alone any (atomic (on_store (C := C) (I := I) (X := X) (λ s, store_workflows s cursor 200)))
    (λ _, any).
Proof.
  apply alone_atomic. intros d0 w [Hw _]. pose proof (triple_quiet _ d0 (quiet_workflows cursor 200) w Hw) as Hq.
  destruct (on_store _ w) as [w' [page|e]]; done.
Qed.

Lemma alone_workflow ready snapshot :
  alone any (recover_workflow (C := C) (I := I) (X := X) ready snapshot) (λ _, any).
Proof.
  unfold recover_workflow.
  apply (alone_bind _ _ _ (λ r s, unchanged (wf_id r) (entries (wf_tasks r)) s)).
  - apply alone_atomic. intros d0 w [Hw _]. pose proof (recover_section_returns d0 (sn_workflow snapshot) w Hw) as Hr.
    destruct (recover_section _ w) as [w' [r|e]]; [|done]. destruct Hr as (? & ? & ->). done.
  - intros r. apply alone_fold; [intros; apply alone_task|]. done.
Qed.

Lemma alone_pages fuel : ∀ ready cursor,
  alone any (recover_pages (C := C) (I := I) (X := X) fuel ready cursor) (λ _, any).
Proof.
  induction fuel as [|fuel IH]; intros ready cursor; cbn [recover_pages];
    apply (alone_bind _ _ _ (λ _, any)); try by apply alone_read.
  all: intros page; apply (alone_bind _ _ _ (λ _, any));
    [by apply (alone_fold (λ _, any)); [intros; apply alone_workflow|]|intros ready'].
  all: destruct (wp_next page); first [done|by apply IH|by apply alone_ret].
Qed.

(** Recovery keeps the durable facts evolving, also when it is interrupted. *)
Lemma alone_recover :
  alone any (recover (C := C) (I := I) (X := X) page_fuel) (λ _, any).
Proof. apply alone_pages. Qed.
End recovery.
