(* ===== verification/System.v ===== *)
(** * The running system

    The daemon's task runtime as a transition system: calls of its public operations
    interleave section by section, the environment moves, and the process restarts at
    any moment and recovers before it serves. *)
From S2P Require Import Prelude Effects Contracts Capability Blueprint Authority Model.
From S2P Require Import Workspace Persistence Dispatch Workflow Admission Runtime Commands.
From S2P Require Import Scheduling Execution Evolution RuntimeLaws ExecutionLaws.
From S2P Require Import SchedulingLaws CommandLaws Concurrency.

(** The operations other parts of the daemon call. *)
Inductive Call :=
| CallCreate (actor key : string) (request : WorkflowCreate) (decision : AuthorityDecisionSnapshot)
    (transport : option string)
| CallEdit (actor key : string) (workflow : WorkflowId) (batch : TaskBatch) (transport : option string)
| CallAdmit (actor : string) (workflow : WorkflowId) (source : TaskId) (batch : TaskBatch) (repair : bool)
| CallReject (workflow : WorkflowId) (source : TaskId) (reason : string) (repair_allowed : bool)
| CallRefuse (workflow : WorkflowId) (source : TaskId) (reason : string)
| CallTick (maximum : N)
| CallExecute (dispatch : ExecutionDispatch)
| CallCancel (dispatch : CancellationDispatch)
| CallActions (maximum : N)
| CallShutdown.

Section system.
Context {C I X S D : Type}.
Context `{codec : !RuntimeCodec, !WorkflowDocument D, !BoundaryClock C, !IdGenerator I,
          !TaskExecutor X, !WorkflowStore S D, !WorkflowStoreContract S D}.
Context (page_fuel : nat).

Abbreviation W := (World C I X S).
Abbreviation T := (thread W RuntimeError).

Definition discard {A} (t : T A) : T () := t ≫= λ _, mret tt.

Definition thread_of (call : Call) : T () :=
  match call with
  | CallCreate actor key request decision transport =>
      discard (atomic (create_request actor key request decision transport))
  | CallEdit actor key workflow batch transport =>
      discard (atomic (edit_request actor key workflow batch transport None))
  | CallAdmit actor workflow source batch repair =>
      discard (atomic (admit_model_batch actor workflow source batch repair))
  | CallReject workflow source reason repair_allowed =>
      atomic (reject_model_batch workflow source reason repair_allowed)
  | CallRefuse workflow source reason => atomic (refuse_model_repair workflow source reason)
  | CallTick maximum => discard (atomic (tick page_fuel maximum))
  | CallExecute dispatch => execute dispatch
  | CallCancel dispatch => execute_cancellation dispatch
  | CallActions maximum => discard (cancellation_actions maximum)
  | CallShutdown => atomic begin_shutdown
  end.

(** A process recovers alone and then serves any number of calls. *)
Inductive Phase :=
| Recovering (recovery : T (list ExecutionDispatch))
| Serving (pool : list (T ())).
Record System := mkSystem { sy_world : W; sy_phase : Phase }.

(** The clock, the identity source, the executor host and the authority are not the
    runtime's. *)
Definition environment (w : W) (x : X) (a : Evaluator) (c : C) (i : I) : W :=
  w <| w_executor := x |> <| w_authority := a |> <| w_clock := c |> <| w_ids := i |>.

Inductive sstep : System → System → Prop :=
| step_call w pool call :
    sstep (mkSystem w (Serving pool)) (mkSystem w (Serving (pool ++ [thread_of call])))
| step_section w w' pool i section t :
    pool !! i = Some (TStep section) → section w = (w', t) →
    sstep (mkSystem w (Serving pool)) (mkSystem w' (Serving (<[i := t]> pool)))
| step_recover w w' section t :
    section w = (w', t) →
    sstep (mkSystem w (Recovering (TStep section))) (mkSystem w' (Recovering t))
| step_ready w ready :
    sstep (mkSystem w (Recovering (TDone (Ok ready)))) (mkSystem w (Serving []))
| step_environment w phase x a c i :
    sstep (mkSystem w phase) (mkSystem (environment w x a c i) phase)
| step_restart w phase s x a c i maximum w' :
    store_ok s → durable s = durable (w_store w) →
    with_maximum_active_tasks (runtime_new s x a c i) maximum = Ok w' →
    sstep (mkSystem w phase) (mkSystem w' (Recovering (recover page_fuel))).

(** The durable facts of a system. *)
Definition system_facts (y : System) : Durable D := facts (sy_world y).

(** A process that starts on a store in order. *)
Definition starts (y : System) : Prop :=
  store_ok (w_store (sy_world y)) ∧ good (system_facts y) ∧ sy_phase y = Recovering (recover page_fuel).

Context `{!DocumentRoundtrip D}.

Definition orderly (phase : Phase) (s : S) : Prop :=
  match phase with
  | Recovering recovery => alone (eq s) recovery (λ _, any)
  | Serving pool => ∀ t, t ∈ pool → tsound t any
  end.
Record invariant (d0 : Durable D) (y : System) : Prop := {
  in_base : base d0 (sy_world y);
  in_orderly : orderly (sy_phase y) (w_store (sy_world y))
}.

Lemma tsound_discard {A} (t : T A) : tsound t any → tsound (discard t) any.
Proof. intros. by tbind. Qed.

Lemma tsound_call call : tsound (thread_of call) any.
Proof.
  destruct call; cbn [thread_of]; try apply tsound_discard; try tsection.
  - apply sound_create.
  - apply sound_edit.
  - apply sound_admit.
  - apply sound_reject.
  - apply sound_refuse.
  - apply sound_tick.
  - apply tsound_execute.
  - apply tsound_cancellation.
  - apply tsound_actions.
  - apply sound_quiet. unfold begin_shutdown. quiet.
Qed.

Lemma with_maximum_store (w w' : W) maximum :
  with_maximum_active_tasks w maximum = Ok w' → w_store w' = w_store w.
Proof. unfold with_maximum_active_tasks. intros H. inv_ok. by subst. Qed.

Lemma invariant_step d0 y y' : sstep y y' → invariant d0 y → invariant d0 y'.
Proof.
  intros Hs [Hb Ho]. destruct Hs as [w pool call|w w' pool i section t Hi Hw|w w' section t Hw|w ready
    |w phase x a c i|w phase s x a c i maximum w' Hok Hd Hm]; cbn in *.
  - split; [done|]. intros t [Hin| ->%list_elem_of_singleton]%elem_of_app; [by apply Ho|apply tsound_call].
  - pose proof (Ho _ (list_elem_of_lookup_2 _ _ _ Hi) d0 w Hb) as Hsec. rewrite Hw in Hsec.
    destruct Hsec as [? Ht]. split; [done|]. cbn. intros u [j Hj]%list_elem_of_lookup.
    destruct (decide (i = j)) as [<-|Hne].
    + rewrite list_lookup_insert_eq in Hj by by eapply lookup_lt_Some. by injection Hj as <-.
    + rewrite list_lookup_insert_ne in Hj by done. apply Ho. by eapply list_elem_of_lookup_2.
  - specialize (Ho d0 w Hb eq_refl). rewrite Hw in Ho. by destruct Ho.
  - split; [done|]. by intros t ?%not_elem_of_nil.
  - split; [by apply (base_store d0 w)|]. by destruct phase.
  - apply with_maximum_store in Hm. cbn in Hm. split.
    + destruct Hb. unfold facts in *. split; cbn; unfold facts; rewrite ?Hm, ?Hd; done.
    + cbn. eapply alone_conseq; [apply (alone_recover page_fuel)|done..].
Qed.

Lemma invariant_steps d0 y y' : rtc sstep y y' → invariant d0 y → invariant d0 y'.
Proof. induction 1; eauto using invariant_step. Qed.

Lemma invariant_start y : starts y → invariant (system_facts y) y.
Proof.
  intros (? & ? & Hp). split; [by split|]. rewrite Hp. cbn.
  eapply alone_conseq; [apply (alone_recover page_fuel)|done..].
Qed.
(** Any later state is a beginning for what follows. *)
Lemma invariant_now d0 y : invariant d0 y → invariant (system_facts y) y.
Proof. intros [[] ?]. split; [by split|done]. Qed.
Lemma invariant_reach y y' : starts y → rtc sstep y y' → invariant (system_facts y') y'.
Proof. intros Hy Hs. eapply invariant_now, invariant_steps; [done|by apply invariant_start]. Qed.
Lemma steps_durable y y1 y2 :
  starts y → rtc sstep y y1 → rtc sstep y1 y2 → rtc dstep (system_facts y1) (system_facts y2).
Proof.
  intros Hy H1 H2. assert (invariant (system_facts y1) y2) as [[] _]; [|done].
  eapply invariant_steps; [done|]. by eapply invariant_reach.
Qed.
End system.
