(* ===== verification/SystemLaws.v ===== *)
(** * What the running system guarantees

    Consequences of the soundness of every section for whole executions: across
    interleavings, failures of the store, process deaths and restarts. *)
From S2P Require Import Prelude Effects Contracts Capability Blueprint Authority.
From S2P Require Import AuthorityLaws Model Workspace Persistence Dispatch Workflow Admission.
From S2P Require Import Runtime Commands Scheduling Execution Evolution RuntimeLaws.
From S2P Require Import ExecutionLaws SchedulingLaws CommandLaws Samples Concurrency.
From S2P Require Import System.

Section entries.
Context {C I X S D : Type}.
Context `{codec : !RuntimeCodec, !WorkflowDocument D, !BoundaryClock C, !IdGenerator I,
          !TaskExecutor X, !WorkflowStore S D, !WorkflowStoreContract S D, !DocumentRoundtrip D}.

Abbreviation W := (World C I X S).

(** The stored start of a task. *)
Definition stored_start (d : Durable D) (workflow : WorkflowId) (task : TaskId)
    (r : WorkflowRecord) (f : FrozenTaskStart) : Prop :=
  stored d r ∧ wf_id r = workflow
  ∧ ∃ t, wf_tasks r !! task = Some t ∧ tr_frozen t = Some f.

(** What observing the clock at the start of a section returns. *)
Lemma observe_returns d0 r at_ms (w w' : W) r' :
  held d0 r w → observe_duration r at_ms w = (w', Ok r') → store_ok (w_store w') ∧ watched r r'.
Proof.
  intros Hh H. unfold observe_duration in H.
  apply st_bind_Ok in H as (w1 & [r1 changed] & [-> Ha]%st_lift_Ok & H).
  destruct (observe_plan _ _ _ _ Ha) as [Hg Hwat].
  destruct (duration_request_limit_stop r1) as [r2 stopped]. cbn in *.
  destruct (stopped || changed).
  - apply advance_save_stores in H as (Hadv & _ & Hok); [|apply Hh].
    split; [done|]. trans r2; [done|by apply advanced_watched].
  - injection H as <- <-. split; [apply Hh|done].
Qed.

Lemma owned_watched r r' id dispatch changed t f :
  watched r r' → owned_start r' id dispatch changed = Ok (t, f) →
  ∃ t0 f0, wf_tasks r !! id = Some t0 ∧ tr_frozen t0 = Some f0 ∧ fz_entered f0 = false
           ∧ fz_dispatch f0 = dispatch.
Proof.
  intros [_ Hw] (Ht & Hf & Hd & He & _)%owned_start_facts. specialize (Hw id). rewrite Ht in Hw.
  destruct (wf_tasks r !! id) as [t0|]; [|done]. destruct Hw as [_ _ _ Hfz]. rewrite Hf in Hfz.
  destruct (tr_frozen t0) as [f0|] eqn:Hf0; [|done]. destruct Hfz as [du ->]. by exists t0, f0.
Qed.

(** A committed entry: the start was not entered before, and it is durably entered,
    under an allowing decision, when the section returns. *)
Lemma entry_committed d0 workflow task dispatch prepared (w w' : W) exact :
  base d0 w → entry_section workflow task dispatch prepared w = (w', Ok (EntryCommitted exact)) →
  (∃ r f, stored_start (facts w) workflow task r f ∧ fz_entered f = false ∧ fz_dispatch f = dispatch)
  ∧ (∃ r f, stored_start (facts w') workflow task r f ∧ fz_entered f = true ∧ fz_dispatch f = exact)
  ∧ is_allowed (xd_entry_authorization exact) = true
  ∧ exact = dispatch <| xd_entry_authorization := xd_entry_authorization exact |>.
Proof.
  intros Hw H. unfold entry_section in H.
  apply st_bind_Ok in H as (w1 & r & Hr & H). destruct (require_returns _ _ _ _ _ Hw Hr) as (Hid & Hok & Hh).
  destruct (quiet_require _ _ _ _ Hr (b_ok _ _ Hw)) as [_ Heq1].
  apply st_bind_Ok in H as (w2 & at_ms & Hn%now_quiet & H).
  assert (held d0 r w2) as Hh2 by by eapply held_store.
  apply st_bind_Ok in H as (w3 & r1 & Hob & H). destruct (observe_returns _ _ _ _ _ _ Hh2 Hob) as [Hok3 Hwat].
  destruct (is_some_and _ _); [done|]. destruct (wf_wait_question r1); [done|].
  destruct (reserve_entry r1 dispatch _) as [[[allowance currency] maximum]|e]; [|done].
  apply st_bind_Ok in H as (w4 & [t f] & [-> Hown]%st_lift_Ok & H).
  destruct (tr_stop_requested t); [done|].
  apply st_bind_Ok in H as (w4 & request & [-> _]%st_lift_Ok & H).
  apply st_bind_Ok in H as (w4 & decision & Hdec & H). injection Hdec as -> _.
  destruct (negb _); [done|]. destruct (_ <=? _)%N; [done|].
  apply st_bind_Ok in H as (w5 & exact' & [-> Hex]%st_lift_Ok & H). inv_ok.
  apply st_bind_Ok in H as (w5 & r2 & Hsave & [= <- <-]).
  apply advance_save_stores in Hsave as (Hadv & Hst & _); [|done].
  destruct (owned_watched _ _ _ _ _ _ _ Hwat Hown) as (t0 & f0 & ? & ? & ? & ?).
  destruct (with_entry_authorization_shape _ _ _ Hex) as [-> Hall].
  pose proof (advanced_watched _ _ Hadv) as [Hid2 Hw2]. specialize (Hw2 task). cbn in Hw2.
  rewrite lookup_insert_eq in Hw2. destruct (wf_tasks r2 !! task) as [t2|] eqn:Ht2; [|done].
  destruct Hw2 as [_ _ _ Hf2]. cbn in Hf2. destruct (tr_frozen t2) as [f2|] eqn:Hfz2; [|done].
  destruct Hf2 as [du ->]. split_and!; [| |done|done].
  - exists r, f0. split; [|done]. split_and!; [rewrite <-Heq1; apply Hh|done|by exists t0].
  - eexists r2, _. split; [split_and!; [done| |by exists t2]|done].
    rewrite Hid2. cbn. destruct Hwat as [-> _]. done.
Qed.
End entries.

(** ** Commands under an idempotency key *)

Inductive Command :=
| CommandCreate (request : WorkflowCreate) (decision : AuthorityDecisionSnapshot) (transport : option string)
| CommandEdit (workflow : WorkflowId) (batch : TaskBatch) (transport : option string)
    (model_source : option (TaskId * bool)).

Section commands.
Context {C I X S D : Type}.
Context `{codec : !RuntimeCodec, !WorkflowDocument D, !BoundaryClock C, !IdGenerator I,
          !TaskExecutor X, !WorkflowStore S D, !WorkflowStoreContract S D}.

Abbreviation W := (World C I X S).

Definition submit (actor key : string) (command : Command) : st W RuntimeError WorkflowCommandReceipt :=
  match command with
  | CommandCreate request decision transport => create_request actor key request decision transport
  | CommandEdit workflow batch transport source => edit_request actor key workflow batch transport source
  end.
(** The canonical bytes a receipt is compared by. *)
Definition command_identity (command : Command) : result RuntimeError string :=
  match command with
  | CommandCreate request _ transport => request_identity None transport request
  | CommandEdit workflow batch transport _ => request_identity (Some workflow) transport batch
  end.

Lemma replay_spec actor key canonical (w : W) s o rc :
  store_ok (w_store w) → store_receipt (w_store w) actor key = (s, Ok o) →
  du_receipts (facts w) !! (actor, key) = Some rc →
  durable s = facts w ∧ replay actor key canonical w = (w <| w_store := s |>,
    if bool_decide (wca_canonical_request (wcr_acceptance rc) = canonical) then Ok (Some rc)
    else Err (RtPersistence (PeWorkflowIdempotencyConflict actor key))).
Proof.
  intros Hok Hs Hrc. destruct (store_receipt_law _ _ _ _ _ Hok Hs) as (_ & Hd & Ho).
  split; [done|]. unfold replay, mbind, st_bind, on_store. rewrite Hs.
  rewrite (Ho _ eq_refl). unfold facts in Hrc. rewrite Hrc. cbn. unfold guard_if, lift.
  destruct (decide (wca_canonical_request (wcr_acceptance rc) = canonical)) as [E|E].
  - rewrite (bool_decide_eq_true_2 _ E), bool_decide_eq_false_2 by auto. done.
  - by rewrite (bool_decide_eq_false_2 _ E), bool_decide_eq_true_2 by done.
Qed.

(** A command under a key that has a receipt: the receipt, or a conflict. *)
Lemma submit_replays actor key command canonical (w : W) s o rc :
  store_ok (w_store w) → store_receipt (w_store w) actor key = (s, Ok o) →
  command_identity command = Ok canonical → du_receipts (facts w) !! (actor, key) = Some rc →
  durable s = facts w ∧ submit actor key command w = (w <| w_store := s |>,
    if bool_decide (wca_canonical_request (wcr_acceptance rc) = canonical) then Ok rc
    else Err (RtPersistence (PeWorkflowIdempotencyConflict actor key))).
Proof.
  intros Hok Hs Hid Hrc. destruct (replay_spec actor key canonical w s o rc Hok Hs Hrc) as [Hd Hre].
  split; [done|]. destruct command as [request decision transport|workflow batch transport source];
    cbn [submit command_identity] in *; unfold create_request, edit_request;
    rewrite Hid; unfold mbind at 1, st_bind at 1, lift at 1; unfold mbind at 1, st_bind at 1;
    rewrite Hre; by case_bool_decide.
Qed.

Lemma submit_answers actor key command (w w' : W) rc :
  store_ok (w_store w) → submit actor key command w = (w', Ok rc) →
  ∃ canonical, command_identity command = Ok canonical ∧ accepted actor key canonical rc w'.
Proof.
  intros Hok H. destruct command as [request decision transport|workflow batch transport source]; cbn in *.
  - destruct (request_identity None transport request) as [canonical|e] eqn:Hid.
    + exists canonical. split; [done|]. by eapply answers_create.
    + unfold create_request, mbind at 1, st_bind at 1, lift at 1 in H. rewrite Hid in H. done.
  - destruct (request_identity (Some workflow) transport batch) as [canonical|e] eqn:Hid.
    + exists canonical. split; [done|]. by eapply answers_edit.
    + unfold edit_request, mbind at 1, st_bind at 1, lift at 1 in H. rewrite Hid in H. done.
Qed.
End commands.

Section guarantees.
Context {C I X S D : Type}.
Context `{codec : !RuntimeCodec, !WorkflowDocument D, !BoundaryClock C, !IdGenerator I,
          !TaskExecutor X, !WorkflowStore S D, !WorkflowStoreContract S D, !DocumentRoundtrip D}.
Context (page_fuel : nat).

Abbreviation System := (System (C := C) (I := I) (X := X) (S := S)).
Abbreviation sstep := (sstep (C := C) (I := I) (X := X) (S := S) page_fuel).

(** A start keeps its entry evidence along any number of commits. *)
Lemma started_evolves d d' workflow task r f :
  rtc dstep d d' → stored_start d workflow task r f →
  ∃ r' f', stored_start d' workflow task r' f' ∧ start_evolves f f'.
Proof.
  intros Hs (Hst & <- & t & Ht & Hf). destruct (dsteps_evolve _ _ _ Hs Hst) as (r' & Hst' & Hid & Hev).
  destruct (ev_tasks _ _ Hev _ _ Ht) as (t' & Ht' & Hte).
  destruct (te_frozen _ _ Hte f Hf) as (_ & f' & Hf' & ?). exists r', f'. split; [|done].
  split_and!; [done..|]. by exists t'.
Qed.
Lemma stored_start_unique d workflow task r f r' f' :
  stored_start d workflow task r f → stored_start d workflow task r' f' → f = f'.
Proof.
  intros (H1 & E1 & t & Ht & Hf) (H2 & E2 & t' & Ht' & Hf').
  rewrite (stored_unique _ _ _ H1 H2) in Ht by congruence. congruence.
Qed.

(** C1: In every state the daemon reaches, through any interleaving of calls, failures
    of the store and the environment, process deaths and restarts, every stored
    document decodes to a record under its own identity and generation that satisfies
    every invariant of a workflow: numbered reports ended by a terminal one, results
    that are the recorded outputs, completion only with a satisfied output contract,
    and task, batch and spending accounts within their limits. *)
Theorem reachable_records_ok (y y' : System) id x :
  starts page_fuel y → rtc sstep y y' → du_workflows (system_facts y') !! id = Some x →
  ∃ r, record_of (sn_document x) = Ok r ∧ wf_id r = id ∧ wf_generation r = sn_generation x ∧ wf_ok r.
Proof.
  intros Hy Hs Hx. destruct (invariant_reach _ _ _ Hy Hs) as [[_ Hgood _] _]. by apply Hgood.
Qed.

(** C14: Nothing a stored workflow says is ever taken back: between any two moments of
    an execution, across restarts, the workflow is still stored and its record evolved:
    identity, owner, authority and allowance are the same, every task is still there,
    settled tasks are unchanged, accepted starts keep their dispatch, entry evidence
    and recorded reports, results stay, and spending never shrinks. *)
Theorem reachable_records_evolve (y y1 y2 : System) r :
  starts page_fuel y → rtc sstep y y1 → rtc sstep y1 y2 → stored (system_facts y1) r →
  ∃ r', stored (system_facts y2) r' ∧ wf_id r' = wf_id r ∧ evolves r r'.
Proof. intros Hy H1 H2. apply dsteps_evolve. by eapply steps_durable. Qed.

(** C15: A settled task is final: its state, start, definition, end time and result are
    the same in every later state, whatever reports, edits, stops, crashes and
    recoveries happen. *)
Theorem settled_tasks_final (y y1 y2 : System) r id t :
  starts page_fuel y → rtc sstep y y1 → rtc sstep y1 y2 → stored (system_facts y1) r →
  wf_tasks r !! id = Some t → is_settled (tr_state t) = true →
  ∃ r' t', stored (system_facts y2) r' ∧ wf_id r' = wf_id r ∧ wf_tasks r' !! id = Some t'
    ∧ tr_state t' = tr_state t ∧ tr_frozen t' = tr_frozen t ∧ tr_definition t' = tr_definition t
    ∧ tr_ended_at t' = tr_ended_at t ∧ tr_result t' = tr_result t.
Proof.
  intros Hy H1 H2 Hr Ht Hs. destruct (dsteps_evolve _ _ r (steps_durable _ _ _ _ Hy H1 H2) Hr) as (r' & ? & ? & Hev).
  destruct (ev_tasks _ _ Hev _ _ Ht) as (t' & ? & Hte). exists r', t'.
  destruct (te_settled _ _ Hte Hs) as (? & ? & ? & ? & ?). by split_and!.
Qed.

(** C2: External entry is exactly once, durable and authorized: when a section decides
    to enter, the start had not been entered, the entry evidence with the exact
    dispatch and an allowing authority decision is durable before the adapter runs,
    and in no later state, also after crashes and recovery, does any section decide to
    enter that task again. *)
Theorem entry_exactly_once (y y1 y1' y2 : System) workflow task dispatch prepared exact :
  starts page_fuel y → rtc sstep y y1 →
  entry_section workflow task dispatch prepared (sy_world y1) = (sy_world y1', Ok (EntryCommitted exact)) →
  rtc sstep y y1' → rtc sstep y1' y2 →
  (∃ r f, stored_start (system_facts y1) workflow task r f ∧ fz_entered f = false ∧ fz_dispatch f = dispatch)
  ∧ (∃ r f, stored_start (system_facts y1') workflow task r f ∧ fz_entered f = true ∧ fz_dispatch f = exact
       ∧ is_allowed (xd_entry_authorization exact) = true)
  ∧ ∀ dispatch' prepared' exact' w,
      entry_section workflow task dispatch' prepared' (sy_world y2) ≠ (w, Ok (EntryCommitted exact')).
Proof.
  intros Hy H1 He H1' H2. destruct (invariant_reach _ _ _ Hy H1) as [Hb1 _].
  destruct (entry_committed _ _ _ _ _ _ _ _ Hb1 He) as (Hpre & (r & f & Hf & Hent & Hd) & Hall & _).
  split_and!; [done|by exists r, f|]. intros dispatch' prepared' exact' w He'.
  destruct (invariant_reach _ _ _ Hy (transitivity H1' H2)) as [Hb2 _].
  destruct (entry_committed _ _ _ _ _ _ _ _ Hb2 He') as ((r2 & f2 & Hf2 & Hent2 & _) & _).
  destruct (started_evolves _ _ _ _ _ _ (steps_durable _ _ _ _ Hy H1' H2) Hf) as (r3 & f3 & Hf3 & Hev).
  rewrite (stored_start_unique _ _ _ _ _ _ _ Hf2 Hf3) in Hent2.
  destruct (se_entered _ _ Hev Hent). congruence.
Qed.

(** C3: Commands are exactly once: when a creation or edit succeeded, the same command
    under the same key later returns the same receipt and changes nothing, in every
    later state, also after restarts, as long as the store answers the lookup; another
    command under that key is refused as a conflict and changes nothing. *)
Theorem commands_exactly_once (y y1 y1' y2 : System) actor key command rc command' canonical' s o :
  starts page_fuel y → rtc sstep y y1 →
  submit actor key command (sy_world y1) = (sy_world y1', Ok rc) →
  rtc sstep y y1' → rtc sstep y1' y2 →
  store_receipt (w_store (sy_world y2)) actor key = (s, Ok o) →
  command_identity command' = Ok canonical' →
  durable s = system_facts y2 ∧ ∃ canonical, command_identity command = Ok canonical
  ∧ submit actor key command' (sy_world y2) = (sy_world y2 <| w_store := s |>,
      if bool_decide (canonical = canonical') then Ok rc
      else Err (RtPersistence (PeWorkflowIdempotencyConflict actor key))).
Proof.
  intros Hy H1 Hsub H1' H2 Hst Hid'. destruct (invariant_reach _ _ _ Hy H1) as [Hb1 _].
  destruct (submit_answers _ _ _ _ _ _ (b_ok _ _ Hb1) Hsub) as (canonical & Hid & Hrc & Hcan).
  destruct (invariant_reach _ _ _ Hy (transitivity H1' H2)) as [Hb2 _].
  pose proof (dsteps_receipts _ _ _ _ (steps_durable _ _ _ _ Hy H1' H2) Hrc) as Hrc2.
  destruct (submit_replays _ _ _ _ _ _ _ _ (b_ok _ _ Hb2) Hst Hid' Hrc2) as [Hd ->].
  split; [done|]. exists canonical. split; [done|]. by rewrite Hcan.
Qed.
End guarantees.

(** ** A sample execution

    A process starts on a store that holds one accepted start, recovers, serves, and
    executes the start up to its entry. *)

Definition sample_executor : TaskExecutor () := {|
  executor_resolve := λ x _ _ _ _, (x, Err (ExUnavailable "none"));
  executor_prepare := λ x _, (x, Ok sample_prepared);
  executor_cancel := λ x _, (x, Err ExAdmissionClosed);
  executor_settle := λ x _, (x, Ok tt) |}.

Section sample_execution.
#[local] Existing Instances sample_runtime_codec sample_document sample_clock sample_ids
  memory_store memory_contract sample_executor sample_roundtrip.

Abbreviation SampleSystem := (System (C := N) (I := N) (X := ()) (S := Durable WorkflowRecord)).
Abbreviation sample_step := (sstep (C := N) (I := N) (X := ()) (S := Durable WorkflowRecord) 1).

(** The next section of the only thread. *)
Definition drive (y : SampleSystem) : SampleSystem :=
  match sy_phase y with
  | Recovering (TStep section) => let '(w, t) := section (sy_world y) in mkSystem w (Recovering t)
  | Recovering (TDone (Ok _)) => mkSystem (sy_world y) (Serving [])
  | Serving [TStep section] => let '(w, t) := section (sy_world y) in mkSystem w (Serving [t])
  | _ => y
  end.
Lemma drive_step y : rtc sample_step y (drive y).
Proof.
  destruct y as [w [[[ready|e]|section]|[|[r|section] [|]]]]; unfold drive; cbn; try done.
  - apply rtc_once. apply step_ready.
  - destruct (section w) as [w' t] eqn:E. by apply rtc_once, (step_recover _ w w' section t).
  - destruct (section w) as [w' t] eqn:E. apply rtc_once. by apply (step_section _ w w' [_] 0 section).
Qed.
Lemma drive_steps n y : rtc sample_step y (Nat.iter n drive y).
Proof. induction n; [done|]. cbn. etrans; [done|]. apply drive_step. Qed.

Definition sample_world : World N N () (Durable WorkflowRecord) :=
  runtime_new (sample_durable sample_workflow) () sample_authority 20%N 0%N.
Definition sample_begin : SampleSystem := mkSystem sample_world (Recovering (recover 1)).
Definition sample_serving : SampleSystem := Nat.iter 3 drive sample_begin.
Definition sample_called : SampleSystem :=
  mkSystem (sy_world sample_serving) (Serving [thread_of 1 (CallExecute sample_dispatch)]).
Definition sample_before : SampleSystem := Nat.iter 3 drive sample_called.
Definition sample_entered : SampleSystem := drive sample_before.
Definition sample_ended : SampleSystem := Nat.iter 4 drive sample_entered.

Lemma sample_workflow_ok : wf_ok sample_workflow.
Proof.
  split; [|vm_compute; discriminate|vm_compute; discriminate|vm_compute; discriminate|by split|by intros].
  cbn. intros id t [<- <-]%lookup_singleton_Some. split; cbn; try done.
  intros f [= <-]. split_and!; try done; [|by intros _ e ?%not_elem_of_nil].
  split; cbn; try done; [by intros e ?%not_elem_of_nil|constructor].
Qed.
Lemma sample_starts : starts 1 sample_begin.
Proof.
  split_and!; [| |done].
  - intros id x. cbn. by intros [<- <-]%lookup_singleton_Some.
  - intros id x. cbn. intros [<- <-]%lookup_singleton_Some. exists sample_workflow.
    split_and!; [done..|apply sample_workflow_ok].
Qed.
Lemma sample_reaches_before : rtc sample_step sample_begin sample_before.
Proof.
  trans sample_serving; [apply drive_steps|]. trans sample_called; [|apply drive_steps].
  assert (sample_serving = mkSystem (sy_world sample_serving) (Serving [])) as E by (vm_compute; reflexivity).
  rewrite E at 1. apply rtc_once. apply (step_call 1 (sy_world sample_serving) [] (CallExecute sample_dispatch)).
Qed.
Lemma sample_reaches_entered : rtc sample_step sample_begin sample_entered.
Proof. etrans; [apply sample_reaches_before|apply drive_step]. Qed.
Lemma sample_reaches_ended : rtc sample_step sample_entered sample_ended.
Proof. apply drive_steps. Qed.

Definition sample_exact : ExecutionDispatch :=
  match (entry_section "wf" "task" sample_dispatch sample_prepared (sy_world sample_before)).2 with
  | Ok (EntryCommitted exact) => exact
  | _ => sample_dispatch
  end.

Lemma entry_exactly_once_witness :
  (∃ r f, stored_start (system_facts sample_before) "wf" "task" r f ∧ fz_entered f = false
     ∧ fz_dispatch f = sample_dispatch)
  ∧ (∃ r f, stored_start (system_facts sample_entered) "wf" "task" r f ∧ fz_entered f = true
       ∧ fz_dispatch f = sample_exact ∧ is_allowed (xd_entry_authorization sample_exact) = true)
  ∧ ∀ dispatch prepared exact w,
      entry_section "wf" "task" dispatch prepared (sy_world sample_ended) ≠ (w, Ok (EntryCommitted exact)).
Proof.
  apply (entry_exactly_once 1 sample_begin sample_before sample_entered sample_ended
    "wf" "task" sample_dispatch sample_prepared sample_exact sample_starts sample_reaches_before).
  - vm_compute. reflexivity.
  - apply sample_reaches_entered.
  - apply sample_reaches_ended.
Defined.

Definition sample_final : WorkflowSnapshot WorkflowRecord :=
  default (sample_stored sample_workflow) (du_workflows (system_facts sample_ended) !! "wf").
Lemma reachable_records_ok_witness :
  ∃ r, record_of (sn_document sample_final) = Ok r ∧ wf_id r = "wf"
    ∧ wf_generation r = sn_generation sample_final ∧ wf_ok r.
Proof.
  apply (reachable_records_ok 1 sample_begin sample_ended "wf" sample_final sample_starts).
  - etrans; [apply sample_reaches_entered|apply sample_reaches_ended].
  - vm_compute. reflexivity.
Defined.

Lemma sample_stored_begin : stored (system_facts sample_begin) sample_workflow.
Proof. by exists (sample_stored sample_workflow). Qed.
Lemma reachable_records_evolve_witness :
  ∃ r, stored (system_facts sample_ended) r ∧ wf_id r = "wf" ∧ evolves sample_workflow r.
Proof.
  apply (reachable_records_evolve 1 sample_begin sample_begin sample_ended sample_workflow sample_starts).
  - done.
  - etrans; [apply sample_reaches_entered|apply sample_reaches_ended].
  - apply sample_stored_begin.
Defined.

(** A store with one settled task. *)
Definition failed_task : TaskRecord := sample_task <| tr_state := Failed |> <| tr_frozen := None |>.
Definition sample_failed : WorkflowRecord := sample_workflow <| wf_tasks := {["task" := failed_task]} |>.
Definition settled_begin : SampleSystem :=
  mkSystem (sample_world <| w_store := sample_durable sample_failed |>) (Recovering (recover 1)).
Lemma settled_starts : starts 1 settled_begin.
Proof.
  split_and!; [| |done].
  - intros id x. cbn. by intros [<- <-]%lookup_singleton_Some.
  - intros id x. cbn. intros [<- <-]%lookup_singleton_Some. exists sample_failed.
    split_and!; [done..|]. split; [|vm_compute; discriminate|vm_compute; discriminate|vm_compute; discriminate|by split|by intros].
    cbn. intros id t [<- <-]%lookup_singleton_Some. split; cbn; try done. by auto.
Qed.
Lemma settled_tasks_final_witness :
  ∃ r t, stored (system_facts (Nat.iter 4 drive settled_begin)) r ∧ wf_id r = wf_id sample_failed
    ∧ wf_tasks r !! "task" = Some t ∧ tr_state t = tr_state failed_task
    ∧ tr_frozen t = tr_frozen failed_task ∧ tr_definition t = tr_definition failed_task
    ∧ tr_ended_at t = tr_ended_at failed_task ∧ tr_result t = tr_result failed_task.
Proof.
  apply (settled_tasks_final 1 settled_begin settled_begin (Nat.iter 4 drive settled_begin) sample_failed
    "task" failed_task settled_starts).
  - done.
  - apply drive_steps.
  - by exists (sample_stored sample_failed).
  - vm_compute. reflexivity.
  - reflexivity.
Defined.

(** An edit of a workflow without tasks, repeated later. *)
Definition sample_idle : WorkflowRecord := sample_workflow <| wf_tasks := ∅ |>.
Definition idle_begin : SampleSystem :=
  mkSystem (sample_world <| w_store := sample_durable sample_idle |>) (Recovering (recover 1)).
Lemma idle_starts : starts 1 idle_begin.
Proof.
  split_and!; [| |done].
  - intros id x. cbn. by intros [<- <-]%lookup_singleton_Some.
  - intros id x. cbn. intros [<- <-]%lookup_singleton_Some. exists sample_idle.
    split_and!; [done..|]. by split; [|vm_compute; discriminate|vm_compute; discriminate|vm_compute; discriminate|split|].
Qed.
Definition idle_serving : SampleSystem := Nat.iter 3 drive idle_begin.
Definition sample_batch : TaskBatch := mkBatch 2 [Wait "which branch?"].
Definition idle_called : SampleSystem :=
  mkSystem (sy_world idle_serving) (Serving [thread_of 1 (CallEdit "alice" "key" "wf" sample_batch None)]).
Definition idle_edited : SampleSystem := drive idle_called.
Definition sample_command : Command := CommandEdit "wf" sample_batch None None.
Definition sample_receipt : WorkflowCommandReceipt :=
  match (submit "alice" "key" sample_command (sy_world idle_serving)).2 with
  | Ok rc => rc
  | Err _ => mkReceipt EmptyString 0 (mkAcceptance EmptyString EmptyString None EmptyString JNull)
  end.
Lemma idle_reaches_serving : rtc sample_step idle_begin idle_serving.
Proof. apply drive_steps. Qed.
Lemma idle_reaches_edited : rtc sample_step idle_begin idle_edited.
Proof.
  trans idle_serving; [apply drive_steps|]. trans idle_called; [|apply drive_step].
  assert (idle_serving = mkSystem (sy_world idle_serving) (Serving [])) as E by (vm_compute; reflexivity).
  rewrite E at 1. apply rtc_once.
  apply (step_call 1 (sy_world idle_serving) [] (CallEdit "alice" "key" "wf" sample_batch None)).
Qed.
Lemma commands_exactly_once_witness :
  (submit "alice" "key" sample_command (sy_world idle_edited)).2 = Ok sample_receipt.
Proof.
  destruct (commands_exactly_once 1 idle_begin idle_serving idle_edited idle_edited "alice" "key"
    sample_command sample_receipt sample_command
    (match command_identity sample_command with Ok c => c | Err _ => EmptyString end)
    (w_store (sy_world idle_edited))
    (du_receipts (w_store (sy_world idle_edited)) !! ("alice", "key")) idle_starts idle_reaches_serving)
    as (_ & canonical & Hc & ->).
  - vm_compute. reflexivity.
  - apply idle_reaches_edited.
  - done.
  - reflexivity.
  - vm_compute. reflexivity.
  - cbn [snd]. rewrite Hc. by rewrite bool_decide_eq_true_2.
Defined.
End sample_execution.
