(* ===== verification/TaskLaws.v ===== *)
(** * Reports, lineages and scheduling bounds

    Facts about single operations of the task runtime: a terminal report always finds
    its reserved place, reports replay exactly, the corrective lineage walk ends, and
    ticks and recovery return bounded sets of starts. *)
From S2P Require Import Prelude Effects Contracts Capability Blueprint Authority.
From S2P Require Import AuthorityLaws Model Workspace Persistence Dispatch Workflow Admission.
From S2P Require Import Runtime Commands Scheduling Execution Evolution RuntimeLaws.
From S2P Require Import ExecutionLaws SchedulingLaws CommandLaws Samples Concurrency.
From S2P Require Import System SystemLaws.

(** ** Corrective lineages *)

Lemma lineage_walk_ends fuel tasks : ∀ visited current,
  (∀ id, id ∈ visited → is_Some (tasks !! id)) → (size tasks ≤ fuel + size visited)%nat →
  is_Some (lineage_walk fuel tasks visited current).
Proof.
  induction fuel as [|fuel IH]; intros visited current Hvis Hsize; cbn;
    (destruct (decide (current ∈ visited)) as [|Hnew]; [by eexists|]);
    destruct (tasks !! current) as [task|] eqn:Ht; try by eexists.
  - exfalso. assert ({[current]} ∪ visited ⊆ dom tasks) as Hsub.
    { intros id [->%elem_of_singleton|Hid]%elem_of_union; apply elem_of_dom; [by eexists|by apply Hvis]. }
    apply subseteq_size in Hsub. rewrite size_dom, size_union, size_singleton in Hsub by set_solver. lia.
  - destruct (td_corrective_of _) as [parent|]; [|by eexists]. apply IH.
    + intros id [->%elem_of_singleton|Hid]%elem_of_union; [by eexists|by apply Hvis].
    + rewrite size_union, size_singleton by set_solver. lia.
Qed.

(** C20: The walk to the root of a corrective lineage always ends within as many steps
    as there are tasks, also on cyclic or dangling lineages, which it reports. *)
Theorem lineage_root_ends workflow task :
  ∃ outcome, lineage_walk (size (wf_tasks workflow)) (wf_tasks workflow) ∅ task = Some outcome
    ∧ lineage_root workflow task = outcome.
Proof.
  destruct (lineage_walk_ends (size (wf_tasks workflow)) (wf_tasks workflow) ∅ task) as [outcome Ho].
  - by intros id ?%not_elem_of_empty.
  - rewrite size_empty. lia.
  - exists outcome. split; [done|]. unfold lineage_root. by rewrite Ho.
Qed.

(** ** Reports *)

Section reports.
Context {C I X S D : Type}.
Context `{codec : !RuntimeCodec, !WorkflowDocument D, !BoundaryClock C, !IdGenerator I,
          !TaskExecutor X, !WorkflowStore S D, !WorkflowStoreContract S D, !DocumentRoundtrip D}.
Context (page_fuel : nat).

Abbreviation W := (World C I X S).
Abbreviation System := (System (C := C) (I := I) (X := X) (S := S)).
Abbreviation sstep := (sstep (C := C) (I := I) (X := X) (S := S) page_fuel).

Lemma terminal_fits id t f e bytes terminal :
  task_ok id t → tr_frozen t = Some f → unsettled t = true → tr_result t = None →
  event_terminal e = Some terminal → ev_sequence e = (vlen (fz_reports f) + 1)%N →
  encoded_bytes e = Ok bytes → (bytes ≤ 131072)%N → validate_next t f e = Ok tt.
Proof.
  intros Hok Hf Hu Hr Ht Hseq Hb Hle. destruct (ok_started _ _ Hok f Hf) as (_ & _ & Hro & Hopen).
  pose proof (ro_reserved _ _ Hro (Hopen Hr)) as Hroom. unfold MAX_TASK_REPORTS in *.
  assert (event_output e = None) as Hout by (unfold event_terminal, event_output in *; by destruct (ev_kind e)).
  assert (checked_add (vlen (fz_reports f)) 1 = Some (vlen (fz_reports f) + 1)%N) as Hadd.
  { apply checked_add_Some. split; [done|]. unfold u64_max. lia. }
  unfold unsettled in Hu. apply negb_true_iff in Hu.
  unfold validate_next, validate_report. rewrite Hu, Hr, Hout, Ht. cbn [orb is_some negb andb].
  replace (MAX_REPORTS_PER_DISPATCH <=? vlen (fz_reports f))%N with false
    by (symmetry; apply N.leb_gt; unfold MAX_REPORTS_PER_DISPATCH; lia).
  rewrite Hadd. cbn. rewrite Hseq, bool_decide_eq_false_2 by auto. cbn.
  replace (MAX_TASK_REPORTS <=? vlen (fz_reports f))%N with false
    by (symmetry; apply N.leb_gt; unfold MAX_TASK_REPORTS; lia).
  rewrite Hb. cbn. by replace (131072 <? bytes)%N with false by (symmetry; apply N.ltb_ge; lia).
Qed.


(** A bind that starts with code that leaves the durable facts alone. *)
Lemma quiet_step {A B} (m : st W RuntimeError A) (f : A → st W RuntimeError B) d (w w' : W) res :
  quiet m → store_ok (w_store w) → facts w = d → (m ≫= f) w = (w', res) →
  (facts w' = d ∧ ∃ e, res = Err e) ∨
  ∃ w1 a, m w = (w1, Ok a) ∧ f a w1 = (w', res) ∧ store_ok (w_store w1) ∧ facts w1 = d.
Proof.
  intros Hq Hok <- [(e & Hm & ->)|(w1 & a & Hm & Hf)]%st_bind_cases;
    destruct (Hq _ _ _ Hm Hok); [left; eauto|right; eauto 10].
Qed.

(** The run goes on after such code, or it failed there. *)
Tactic Notation "after_quiet" constr(d) hyp(H) "as" simple_intropattern(p) :=
  apply (quiet_step _ _ d) in H; [|quiet|done|done]; destruct H as [[? [? ->]]|p]; [by split|].

Lemma find_report invocation reports existing e :
  reports_ok invocation reports → existing ∈ reports → ev_sequence existing = ev_sequence e →
  List.find (λ prior, ev_sequence prior =? ev_sequence e)%N reports = Some existing.
Proof.
  intros Hro Hin Hseq. destruct (List.find _ reports) as [found|] eqn:Hfind.
  - apply List.find_some in Hfind as [Hf Hs]. apply N.eqb_eq in Hs. f_equal.
    apply list_elem_of_In, list_elem_of_lookup in Hf as [i Hi]. apply list_elem_of_lookup in Hin as [j Hj].
    pose proof (ro_sequence _ _ Hro _ _ Hi). pose proof (ro_sequence _ _ Hro _ _ Hj).
    assert (i = j) as -> by lia. congruence.
  - apply list_elem_of_In in Hin. apply (List.find_none _ _ Hfind) in Hin. apply N.eqb_neq in Hin. congruence.
Qed.

Lemma accrued_start r at_ms r1 changed id t1 f1 t f :
  accrue r at_ms = Ok (r1, changed) → wf_tasks r1 !! id = Some t1 → tr_frozen t1 = Some f1 →
  wf_tasks r !! id = Some t → tr_frozen t = Some f → fz_reports f1 = fz_reports f.
Proof.
  intros [_ Hw]%watched_accrue Ht1 Hf1 Ht Hf. specialize (Hw id). rewrite Ht, Ht1 in Hw.
  destruct Hw as [_ _ _ Hs]. rewrite Hf, Hf1 in Hs. by destruct Hs as [du ->].
Qed.

(** C17: Reports are idempotent: a report whose sequence number was already recorded
    never changes anything durable, and is acknowledged, as a replay, only when it is
    the recorded one. *)
Theorem report_replays_exactly (y y' : System) workflow task r f existing dispatch report w' res :
  starts page_fuel y → rtc sstep y y' → stored_start (system_facts y') workflow task r f →
  existing ∈ fz_reports f → ev_sequence existing = ev_sequence report →
  record workflow task dispatch report (sy_world y') = (w', res) →
  facts w' = system_facts y' ∧ ∀ disposition, res = Ok disposition →
    disposition = ObsReplayed ∧ report = existing.
Proof.
  intros Hy Hs (Hst & <- & t & Ht & Hf) Hin Hseq H.
  destruct (invariant_reach _ _ _ Hy Hs) as [Hb _]. pose proof (b_ok _ _ Hb) as Hok.
  pose proof (ok_started _ _ (ok_tasks _ (good_stored _ _ (b_good _ _ Hb) Hst) _ _ Ht) f Hf) as (_ & _ & Hro & _).
  unfold record in H. unfold system_facts in *. set (d := facts (sy_world y')) in *.
  assert (facts (sy_world y') = d) as E by done.
  after_quiet d H as (w1 & [] & _ & H & Hok1 & E1).
  after_quiet d H as (w2 & r0 & Hr0 & H & Hok2 & E2).
  assert (r0 = r) as ->.
  { assert (base d w1) as Hb1 by by eapply base_quiet. destruct (require_returns _ _ _ _ _ Hb1 Hr0) as (Hid & _ & Hh).
    apply (stored_unique (facts w2)); [apply Hh|by rewrite E2|done]. }
  after_quiet d H as (w3 & at_ms & _ & H & Hok3 & E3).
  after_quiet d H as (w4 & [r1 changed] & [_ Ha]%st_lift_Ok & H & Hok4 & E4).
  after_quiet d H as (w5 & t1 & [_ Ht1]%st_lift_Ok & H & Hok5 & E5).
  after_quiet d H as (w6 & f1 & [_ Hf1]%st_lift_Ok & H & Hok6 & E6).
  after_quiet d H as (w7 & [] & _ & H & Hok7 & E7).
  unfold task_of in Ht1. inv_ok. rewrite (accrued_start _ _ _ _ _ _ _ _ _ Ha Ht1 Hf1 Ht Hf) in H.
  rewrite (find_report _ _ _ _ Hro Hin Hseq) in H.
  after_quiet d H as (w8 & [] & [_ Hg]%st_lift_Ok & [= <- <-] & Hok8 & E8).
  inv_ok. bool_prop. split; [done|]. intros ? [= <-]. split; [done|]. symmetry. by apply dec_stable.
Qed.
End reports.

(** ** Bounds of a tick and of recovery *)

Section bounds.
Context {C I X S D : Type}.
Context `{codec : !RuntimeCodec, !WorkflowDocument D, !BoundaryClock C, !IdGenerator I,
          !TaskExecutor X, !WorkflowStore S D}.
Context (page_fuel : nat).

Abbreviation W := (World C I X S).
Abbreviation M := (st W RuntimeError).
Abbreviation T := (thread W RuntimeError).

(** One candidate starts at most one task, and none once the bound is reached. *)
Definition starts_within (maximum : N) (ds : list ExecutionDispatch) : Prop := (vlen ds ≤ maximum)%N.

Lemma returns_commit_start maximum scan record dispatch :
  (vlen (sc_dispatches scan) < maximum)%N →
  returns (commit_start (C := C) (I := I) (X := X) scan record dispatch)
    (λ scan', starts_within maximum (sc_dispatches scan')).
Proof.
  intros Hlt. unfold commit_start. do 2 (eapply returns_bind; [apply returns_any|intros ? _]).
  apply returns_ret. unfold starts_within, vlen in *. cbn. rewrite length_app. cbn. lia.
Qed.
Lemma returns_retain maximum scan workflow id task reason :
  starts_within maximum (sc_dispatches scan) →
  returns (retain_reason (C := C) (I := I) (X := X) scan workflow id task reason)
    (λ scan', starts_within maximum (sc_dispatches scan')).
Proof.
  intros Hle. unfold retain_reason. case_bool; [by apply returns_ret|].
  do 2 (eapply returns_bind; [apply returns_any|intros ? _]). by apply returns_ret.
Qed.

Lemma returns_fresh maximum scan id task :
  (vlen (sc_dispatches scan) < maximum)%N →
  returns (start_fresh (C := C) (I := I) (X := X) page_fuel scan id task)
    (λ p, starts_within maximum (sc_dispatches p.1)).
Proof.
  intros Hlt. assert (starts_within maximum (sc_dispatches scan)) as Hle by (unfold starts_within; lia).
  unfold start_fresh. do 2 (eapply returns_bind; [apply returns_any|intros ? _]).
  case_bool; [by apply returns_ret|]. destruct (resolve_inputs _ _).
  2: { eapply returns_bind; [by apply (returns_retain maximum)|]. intros. by apply returns_ret. }
  do 2 (eapply returns_bind; [apply returns_any|intros ? _]). case_bool; [by apply returns_ret|].
  eapply returns_bind; [apply returns_any|intros prepared _].
  apply (returns_bind _ _ (λ scan', starts_within maximum (sc_dispatches scan'))); [|intros; by apply returns_ret].
  destruct prepared as [dispatch|e].
  - do 2 (eapply returns_bind; [apply returns_any|intros ? _]). by apply returns_commit_start.
  - destruct e as [| | | | | | | |error]; try destruct error; try by apply returns_retain.
    all: do 2 (eapply returns_bind; [apply returns_any|intros ? _]); by apply returns_ret.
Qed.

Lemma returns_candidate maximum scan id :
  starts_within maximum (sc_dispatches scan) →
  returns (start_candidate (C := C) (I := I) (X := X) page_fuel maximum scan id)
    (λ p, starts_within maximum (sc_dispatches p.1)).
Proof.
  intros Hle. unfold start_candidate. case_bool; [by apply returns_ret|]. bool_prop.
  eapply returns_bind; [apply returns_any|intros task _]. destruct (tr_frozen task) as [f|]; [|by apply returns_fresh].
  case_bool; [|by apply returns_ret].
  eapply returns_bind; [by apply (returns_commit_start maximum)|]. intros. by apply returns_ret.
Qed.
Lemma returns_candidates maximum candidates : ∀ scan,
  starts_within maximum (sc_dispatches scan) →
  returns (start_candidates (C := C) (I := I) (X := X) page_fuel maximum scan candidates)
    (λ scan', starts_within maximum (sc_dispatches scan')).
Proof.
  induction candidates as [|id candidates IH]; intros scan Hle; cbn [start_candidates]; [by apply returns_ret|].
  eapply returns_bind; [by apply returns_candidate|]. intros [scan' more] Hle'.
  destruct more; [by apply IH|by apply returns_ret].
Qed.


(** What a thread returns, whatever runs between its sections. *)
Fixpoint treturns {A} (t : T A) (P : A → Prop) : Prop :=
  match t with
  | TDone (Ok a) => P a
  | TDone (Err _) => True
  | TStep section => ∀ w, treturns (section w).2 P
  end.
Lemma treturns_bind {A B} (t : T A) (f : A → T B) P Q :
  treturns t P → (∀ a, P a → treturns (f a) Q) → treturns (t ≫= f) Q.
Proof.
  intros Ht Hf. change (t ≫= f) with (thread_bind (λ r, match r with Ok a => f a | Err e => TDone (Err e) end) t).
  induction t as [[a|e]|section IH] using thread_sections; cbn in *; auto.
  intros w. specialize (Ht w). specialize (IH w). destruct (section w) as [w' t']. by apply IH.
Qed.
Lemma treturns_ret {A} (a : A) (P : A → Prop) : P a → treturns (mret a) P.
Proof. done. Qed.
Lemma treturns_any {A} (m : M A) : treturns (atomic m) (λ _, True).
Proof. intros w. cbn. by destruct (m w) as [w' [a|e]]. Qed.
Lemma treturns_fold {A B} (f : B → A → T B) (P : B → Prop) acc xs :
  P acc → (∀ b a, P b → treturns (f b a) P) → treturns (fold_thread f acc xs) P.
Proof.
  intros Hacc Hf. revert acc Hacc. induction xs as [|x xs IH]; intros acc Hacc; cbn [fold_thread]; [done|].
  eapply treturns_bind; [by apply Hf|]. intros. by apply IH.
Qed.

Lemma returns_recover_task workflow ready entry :
  starts_within MAX_RECOVERED ready →
  treturns (recover_task (C := C) (I := I) (X := X) workflow ready entry) (starts_within MAX_RECOVERED).
Proof.
  intros Hle. destruct entry as [id t]. unfold recover_task. case_bool.
  { eapply treturns_bind; [|by intros _ _]. by destruct (tr_frozen t); [apply treturns_any|]. }
  case_bool; [done|]. destruct (tr_frozen t) as [f|]; [|done].
  apply (treturns_bind _ _ (λ f', f' = f)); [done|intros ? ->].
  destruct (fz_entered f); [by eapply treturns_bind; [apply treturns_any|intros _ _]|].
  destruct (MAX_RECOVERED <=? vlen ready)%N eqn:Hm; [by eapply treturns_bind; [apply treturns_any|intros _ _]|].
  bool_prop. apply treturns_ret. case_bool; [|done]. unfold starts_within, vlen in *. rewrite length_app. cbn. lia.
Qed.

(** C19: Recovery hands at most two hundred accepted starts to the workers, however
    many a crash left behind; the rest go back to the queue. *)
Theorem recovery_bounded :
  treturns (recover (C := C) (I := I) (X := X) page_fuel) (λ ready, (vlen ready ≤ MAX_RECOVERED)%N).
Proof.
  unfold recover. assert (starts_within MAX_RECOVERED []) as Hle by (unfold starts_within, vlen; cbn; lia).
  revert Hle. generalize (@nil ExecutionDispatch) as ready. generalize (@None string) as cursor.
  induction page_fuel as [|fuel IH]; intros cursor ready Hle; cbn [recover_pages];
    (eapply treturns_bind; [apply treturns_any|intros page _]);
    (eapply treturns_bind; [apply (treturns_fold _ (starts_within MAX_RECOVERED)); [done|]|]).
  all: try by intros ready' Hle'; destruct (wp_next page); first [done|by apply IH].
  all: intros acc snapshot Hacc; unfold recover_workflow; eapply treturns_bind; [apply treturns_any|intros r _];
    apply (treturns_fold _ (starts_within MAX_RECOVERED)); [done|]; intros acc' [id t] Hacc'; by apply returns_recover_task.
Qed.
End bounds.

(** ** A started execution with one report *)

Section sample_reports.
#[local] Existing Instances sample_runtime_codec sample_document sample_clock sample_ids
  memory_store memory_contract sample_executor sample_roundtrip.

Definition sample_progress : InvocationEvent := mkEvent "invocation" 1 (EvProgress "half" None None).
Definition sample_terminal : InvocationTerminal := mkTerminal TsSuccess [] None None SideReadOnly.
Definition entered_start : FrozenTaskStart :=
  mkFrozen 1 sample_definition ∅ sample_dispatch true (Some (mkExecutionDuration 10 10 60000)) [sample_progress].
Definition entered_task : TaskRecord := sample_task <| tr_frozen := Some entered_start |>.
Definition entered_workflow : WorkflowRecord := sample_workflow <| wf_tasks := {["task" := entered_task]} |>.
Definition entered_begin : (System (C := N) (I := N) (X := ()) (S := Durable WorkflowRecord)) :=
  mkSystem (sample_world <| w_store := sample_durable entered_workflow |>) (Recovering (recover 1)).

Lemma entered_reports_ok : reports_ok "invocation" [sample_progress].
Proof.
  split.
  - by intros [|i] e [= <-].
  - by intros e ->%list_elem_of_singleton.
  - vm_compute. discriminate.
  - constructor.
  - by intros [|i] e [= <-].
  - intros _. vm_compute. reflexivity.
Qed.
Lemma entered_starts : starts 1 entered_begin.
Proof.
  split_and!; [| |done].
  - intros id x. cbn. by intros [<- <-]%lookup_singleton_Some.
  - intros id x. cbn. intros [<- <-]%lookup_singleton_Some. exists entered_workflow.
    split_and!; [done..|]. split; [|vm_compute; discriminate|vm_compute; discriminate|vm_compute; discriminate|by split|by intros].
    cbn. intros id t [<- <-]%lookup_singleton_Some. split; cbn; try done.
    intros f [= <-]. split_and!; [done|done|apply entered_reports_ok|].
    by intros _ e ->%list_elem_of_singleton.
Qed.
Lemma entered_stored : stored (system_facts entered_begin) entered_workflow.
Proof. by exists (sample_stored entered_workflow). Qed.


Lemma report_replays_exactly_witness :
  facts (record "wf" "task" sample_dispatch sample_progress (sy_world entered_begin)).1
    = system_facts entered_begin
  ∧ (record "wf" "task" sample_dispatch sample_progress (sy_world entered_begin)).2 = Ok ObsReplayed.
Proof.
  split; [|vm_compute; reflexivity].
  refine (proj1 (report_replays_exactly 1 entered_begin entered_begin "wf" "task" entered_workflow
    entered_start sample_progress sample_dispatch sample_progress _ _ entered_starts _ _ _ _ _)).
  - done.
  - split_and!; [apply entered_stored|reflexivity|]. by exists entered_task.
  - left.
  - reflexivity.
  - apply surjective_pairing.
Defined.
End sample_reports.

(** ** A lineage no validation sees

    While the response allowance is exhausted, a batch may revise a task into the
    correction of a task that does not exist and remove it: removed tasks are outside
    the validated task set, and an exhausted allowance stops the workflow before its
    lineages are read. From then on raising the allowance is refused. *)

Section dangling.
#[local] Existing Instances sample_runtime_codec sample_document sample_clock sample_ids
  memory_store memory_contract sample_roundtrip.

Definition resolving_executor : TaskExecutor () := {|
  executor_resolve := λ x _ _ _ _, (x, Ok (mkResolvedCapability sample_descriptor sample_snapshot None));
  executor_prepare := λ x _, (x, Ok sample_prepared);
  executor_cancel := λ x _, (x, Err ExAdmissionClosed);
  executor_settle := λ x _, (x, Ok tt) |}.
#[local] Existing Instance resolving_executor.

Definition plain_definition : TaskDefinition :=
  mkDefinition None "check" "" "Run the checks." (CapabilityRequirement_new "process.run")
    ∅ ∅ ∅ true None [] [].
Definition exhausted_workflow : WorkflowRecord :=
  sample_workflow <| wf_tasks := {["task" := new_task "task" plain_definition 10]} |>
    <| wf_rejected_responses := 3%N |>.
Definition exhausted_world : World N N () (Durable WorkflowRecord) :=
  runtime_new (sample_durable exhausted_workflow) () sample_authority 20%N 0%N.
Definition dangling_batch : TaskBatch := mkBatch 2
  [Revise "task" 1 (plain_definition <| td_corrective_of := Some "absent" |>); Remove "task" 2].
Definition raised_limits : WorkflowLimits := mkLimits 64 4 32 10 3 3600000 16.
Definition raise_batch : TaskBatch := mkBatch 3 [SetLimits raised_limits].

Definition dangling_world : World N N () (Durable WorkflowRecord) :=
  (edit_request "alice" "first" "wf" dangling_batch None None exhausted_world).1.


(** ** A tick that fails late

    A failing workflow behind one with a ready start: the start is committed, and the
    tick returns an error instead of it. *)

Definition ready_workflow : WorkflowRecord :=
  sample_workflow <| wf_id := "wa" |> <| wf_tasks := {["task" := sample_task <| tr_state := Queued |>]} |>.
Definition failing_workflow : WorkflowRecord :=
  sample_workflow <| wf_id := "wb" |> <| wf_tasks := {["task" := new_task "task"
    (plain_definition <| td_corrective_of := Some "absent" |>) 10]} |>.
Definition late_world : World N N () (Durable WorkflowRecord) :=
  runtime_new (mkDurable {["wa" := sample_stored ready_workflow; "wb" := sample_stored failing_workflow]} ∅)
    () sample_authority 20%N 0%N.

Definition task_state (w : World N N () (Durable WorkflowRecord)) (workflow : WorkflowId) (task : TaskId)
    : option TaskState :=
  x ← du_workflows (w_store w) !! workflow; t ← wf_tasks (sn_document x) !! task; Some (tr_state t).

End dangling.
