(* ===== verification/StorageLaws.v ===== *)
(** * Laws of the storage engine

    Stored documents and compound keys are read back exactly, key ranges cover their
    prefix, the clock watermark never moves backwards, and the count anchors match
    their indexes. *)
From S2P Require Import Prelude Effects Contracts Capability Blueprint Authority.
From S2P Require Import Workspace Persistence Storage.

Lemma existsb_false {A} (f : A → bool) xs x : existsb f xs = false → x ∈ xs → f x = false.
Proof.
  intros Hf Hx. apply not_true_is_false. intros Ht. rewrite <-not_true_iff_false in Hf. apply Hf.
  apply existsb_exists. exists x. by rewrite <-list_elem_of_In.
Qed.

(** ** Documents *)

Section documents.
Context `{blake : !Blake3} {T : Type} `{codec : !Stored T}.
Implicit Types (value : T).

Lemma decode_facts bytes family value :
  decode bytes family = Ok value →
  ∃ payload, to_vec value = Ok payload
    ∧ to_vec (mkDocEnvelope INTERNAL_DOCUMENT_SCHEMA_VERSION family (checksum family payload) value) = Ok bytes
    ∧ (strlen bytes ≤ document_limit family)%N.
Proof.
  unfold decode, canonical_payload. intros H. inv_ok. bool_prop. subst.
  rename select (InternalDocumentEnvelope T) into e. destruct e as [v f c p]; cbn in *.
  repeat match goal with H : ¬ _ ≠ _ |- _ => apply dec_stable in H end. subst. eauto.
Qed.

Lemma encode_facts value family bytes :
  encode value family = Ok bytes ↔
  ∃ payload, to_vec value = Ok payload
    ∧ to_vec (mkDocEnvelope INTERNAL_DOCUMENT_SCHEMA_VERSION family (checksum family payload) value) = Ok bytes
    ∧ (strlen bytes ≤ document_limit family)%N.
Proof.
  unfold encode, canonical_payload. split.
  - intros H. inv_ok. bool_prop. subst. eauto.
  - intros (payload & Hp & He & Hl). rewrite Hp. cbn. rewrite He. cbn.
    by rewrite (proj2 (N.ltb_ge _ _) Hl).
Qed.

(** What was encoded is read back. *)
Lemma decode_encoded `{law : !StoredLaw T} value family bytes :
  encode value family = Ok bytes → decode bytes family = Ok value.
Proof.
  rewrite encode_facts. intros (payload & Hp & He & Hl).
  unfold decode, canonical_payload. rewrite (proj2 (N.ltb_ge _ _) Hl). cbn.
  rewrite (stored_read_back _ _ He). cbn. rewrite He. cbn.
  rewrite !(bool_decide_eq_false_2 (_ ≠ _)) by auto. cbn. rewrite Hp. cbn.
  by rewrite bool_decide_eq_false_2 by auto.
Qed.

End documents.

(** ** Compound keys *)

Lemma str_take_append a b : str_take (String.length a) (a +:+ b) = a.
Proof. induction a as [|c a IH]; [by destruct b|]. exact (f_equal (String c) IH). Qed.
Lemma str_drop_append a b : str_drop (String.length a) (a +:+ b) = b.
Proof. induction a as [|c a IH]; [by destruct b|done]. Qed.
Lemma str_take_drop n s : str_take n s +:+ str_drop n s = s.
Proof. revert s. induction n as [|n IH]; intros [|c s]; [done..|]. exact (f_equal (String c) (IH s)). Qed.
Lemma length_take n s : n ≤ String.length s → String.length (str_take n s) = n.
Proof. revert s. induction n as [|n IH]; intros [|c s]; cbn; [lia..|]. intros. rewrite IH; lia. Qed.

Lemma length_be_bytes width n : String.length (be_bytes width n) = width.
Proof. induction width as [|width IH]; cbn; [done|]. by rewrite IH. Qed.

Lemma foldl_bytes acc bs :
  foldl (λ n b, 256 * n + b)%N acc bs = (acc * 256 ^ N.of_nat (length bs) + foldl (λ n b, 256 * n + b)%N 0 bs)%N.
Proof.
  revert acc. induction bs as [|b bs IH]; intros acc; cbn [foldl length]; [rewrite N.pow_0_r; lia|].
  rewrite IH, (IH (256 * 0 + b)%N). rewrite Nat2N.inj_succ, N.pow_succ_r'. lia.
Qed.
Lemma be_value_cons c s :
  be_value (String c s) = (byte_of c * 256 ^ N.of_nat (String.length s) + be_value s)%N.
Proof. unfold be_value. cbn [bytes String.list_ascii_of_string fmap list_fmap foldl].
  change (byte_of <$> String.list_ascii_of_string s) with (bytes s).
  rewrite foldl_bytes, length_bytes. lia. Qed.
Lemma be_value_lt s : (be_value s < 256 ^ N.of_nat (String.length s))%N.
Proof.
  induction s as [|c s IH]; [done|]. rewrite be_value_cons. cbn [String.length].
  rewrite Nat2N.inj_succ, N.pow_succ_r'. pose proof (byte_of_lt c). nia.
Qed.

Lemma pow_256 k : (256 ^ k = 2 ^ (8 * k))%N.
Proof. change 256%N with (2 ^ 8)%N. by rewrite <-N.pow_mul_r. Qed.

Lemma be_value_bytes width n : be_value (be_bytes width n) = (n mod 256 ^ N.of_nat width)%N.
Proof.
  induction width as [|width IH]; [cbn; by rewrite N.mod_1_r|].
  cbn [be_bytes]. rewrite be_value_cons, length_be_bytes, IH, Nat2N.inj_succ, N.pow_succ_r'.
  unfold byte_of. rewrite N_ascii_embedding by by apply N.mod_lt.
  rewrite N.shiftr_div_pow2, <-pow_256, (N.mul_comm 256), N.Div0.mod_mul_r. lia.
Qed.

Lemma be_bytes_high width k n :
  (N.of_nat width ≤ k)%N → be_bytes width (n mod 256 ^ k) = be_bytes width n.
Proof.
  induction width as [|width IH]; intros Hk; [done|]. cbn [be_bytes]. rewrite IH by lia. f_equal. f_equal.
  rewrite pow_256. change 256%N with (2 ^ 8)%N. apply N.bits_inj. intros i.
  destruct (N.lt_ge_cases i 8); [|by rewrite !N.mod_pow2_bits_high].
  rewrite !N.mod_pow2_bits_low, !N.shiftr_spec' by done. apply N.mod_pow2_bits_low. lia.
Qed.
Lemma be_bytes_value s : be_bytes (String.length s) (be_value s) = s.
Proof.
  induction s as [|c s IH]; [done|]. cbn [String.length be_bytes]. rewrite be_value_cons.
  pose proof (be_value_lt s) as Hs. f_equal.
  - rewrite N.shiftr_div_pow2, <-pow_256, N.div_add_l, (N.div_small _ _ Hs) by (apply N.pow_nonzero; done).
    rewrite N.add_0_r, N.mod_small by apply byte_of_lt. apply ascii_N_embedding.
  - rewrite <-(be_bytes_high _ (N.of_nat (String.length s))) by done.
    rewrite N.add_comm, N.Div0.mod_add, N.mod_small by done. done.
Qed.

#[local] Opaque be_bytes.

Lemma push_component_Ok encoded value out :
  push_component encoded value = Ok out ↔
  (strlen value ≤ u32_max)%N ∧ out = encoded +:+ be_bytes 4 (strlen value) +:+ value.
Proof.
  unfold push_component. rewrite bind_Ok. setoid_rewrite ok_or_Ok. setoid_rewrite u32_of_usize_Some. split.
  - by intros (n & [-> Hn] & [= <-]).
  - intros [Hn ->]. by exists (strlen value).
Qed.

(** The text of a key: each component after its length. *)
Fixpoint framed (values : list string) : string :=
  match values with
  | [] => EmptyString
  | value :: values => be_bytes 4 (strlen value) +:+ value +:+ framed values
  end.
Lemma components_from encoded values out :
  try_fold push_component encoded values = Ok out ↔
  Forall (λ value, strlen value ≤ u32_max)%N values ∧ out = encoded +:+ framed values.
Proof.
  revert encoded. induction values as [|value values IH]; intros encoded; cbn [try_fold framed].
  - rewrite append_nil_r.
    split; [intros [= <-]; by split|by intros [_ ->]].
  - rewrite bind_Ok. setoid_rewrite push_component_Ok. setoid_rewrite IH. rewrite Forall_cons. split.
    + intros (mid & [? ->] & ? & ->). split_and!; [done..|]. by rewrite !append_assoc.
    + intros [[? ?] ->]. eexists. split_and!; [done..|]. by rewrite !append_assoc.
Qed.
Lemma components_Ok values out :
  components values = Ok out ↔ Forall (λ value, strlen value ≤ u32_max)%N values ∧ out = framed values.
Proof. unfold components. rewrite components_from. done. Qed.

Lemma take_component_Ok encoded value rest :
  take_component encoded = Ok (value, rest) ↔
  (strlen value ≤ u32_max)%N ∧ is_utf8 value = true
  ∧ encoded = be_bytes 4 (strlen value) +:+ value +:+ rest.
Proof.
  unfold take_component, strlen. split.
  - set (prefix := str_take 4 encoded). set (tail := str_drop 4 encoded). cbv zeta.
    rewrite !seq_Ok, !refuse_if_Ok. intros (H4 & Hl & Hu & Heq). injection Heq as <- <-. bool_prop.
    assert (String.length prefix = 4) as Hp by (apply length_take; lia).
    assert (String.length (str_take (N.to_nat (be_value prefix)) tail) = N.to_nat (be_value prefix)) as Hv
      by (apply length_take; lia).
    rewrite Hv, N2Nat.id. pose proof (be_value_lt prefix) as Hlt. rewrite Hp in Hlt.
    split_and!; [unfold u32_max; change (256 ^ N.of_nat 4)%N with 4294967296%N in Hlt; lia|done|].
    rewrite <-Hp at 1. rewrite be_bytes_value, str_take_drop. symmetry. apply str_take_drop.
  - intros (Hl & Hu & ->). unfold u32_max in Hl.
    pose proof (length_be_bytes 4 (N.of_nat (String.length value))) as Hb.
    assert (∀ t, str_take 4 (be_bytes 4 (N.of_nat (String.length value)) +:+ t)
      = be_bytes 4 (N.of_nat (String.length value))) as -> by (intros; rewrite <-Hb at 1; apply str_take_append).
    assert (∀ t, str_drop 4 (be_bytes 4 (N.of_nat (String.length value)) +:+ t) = t) as ->
      by (intros; rewrite <-Hb at 1; apply str_drop_append).
    rewrite be_value_bytes, N.mod_small, Nat2N.id, str_take_append, str_drop_append, Hu
      by (change (256 ^ N.of_nat 4)%N with 4294967296%N; lia).
    rewrite !length_append, Hb. by rewrite !(proj2 (N.ltb_ge _ _)) by lia.
Qed.

(** C38: Compound keys determine their components: a key decodes to a list of strings
    exactly when it is the encoding of that list, of the requested length. *)
Theorem compound_key_exact count key values :
  decode_components count key = Ok values ↔
  components values = Ok key ∧ length values = count ∧ Forall (λ value, is_utf8 value = true) values.
Proof.
  unfold decode_components. rewrite components_Ok. revert key values.
  induction count as [|count IH]; intros key values; cbn [decode_components_from].
  - rewrite bind_Ok. setoid_rewrite refuse_if_Ok. split.
    + intros ([] & He & [= <-]). bool_prop. by destruct key.
    + intros ([_ ->] & ->%nil_length_inv & _). by exists tt.
  - rewrite bind_Ok. split.
    + intros ([value rest] & (Hl & Hu & ->)%take_component_Ok & H). inv_ok. subst.
      rename select (decode_components_from _ _ = _) into Hd. apply IH in Hd as ([? ->] & <- & ?).
      split_and!; [by constructor|done|done|by constructor].
    + intros ([Hl ->] & Hc & Hu). destruct values as [|value values]; [done|].
      apply Forall_cons in Hl as [? ?], Hu as [? ?]. exists (value, framed values).
      split; [by apply take_component_Ok|]. cbn. rewrite (proj2 (IH (framed values) values)); [done|].
      split_and!; [done..| |done]. by injection Hc.
Qed.

(** ** Text split at a colon *)

Fixpoint no_colon (s : string) : Prop :=
  match s with EmptyString => True | String c s => c ≠ ":"%char ∧ no_colon s end.
Lemma no_colon_split a b s t :
  no_colon a → no_colon b → a +:+ String ":" s = b +:+ String ":" t → a = b ∧ s = t.
Proof.
  revert b. induction a as [|c a IH]; intros [|d b]; cbn.
  - by intros _ _ [= ->].
  - intros _ [? _] [= <- _]. done.
  - intros [? _] _ [= -> _]. done.
  - intros [_ Ha] [_ Hb] [= -> Heq]. destruct (IH b Ha Hb Heq) as [-> ->]. done.
Qed.
Lemma pretty_go_digits n : ∃ p, no_colon p ∧ ∀ s, pretty_N_go n s = p +:+ s.
Proof.
  induction (N.lt_wf_0 n) as [n _ IH]. destruct (decide (n = 0%N)) as [->|Hn].
  - exists EmptyString. split; [done|]. intros s. by rewrite pretty_N_go_0.
  - destruct (IH (n `div` 10)%N) as (p & Hp & Hs); [apply N.div_lt; lia|].
    exists (p +:+ String (pretty_N_char (n `mod` 10)) EmptyString). split.
    + clear Hs IH. assert (pretty_N_char (n `mod` 10) ≠ ":"%char) as Hc.
      { pose proof (N.mod_lt n 10 ltac:(done)). set (r := (n `mod` 10)%N) in *. clearbody r.
        assert (r ∈ [0;1;2;3;4;5;6;7;8;9]%N) as Hr by (rewrite !elem_of_cons; lia).
        repeat (apply elem_of_cons in Hr as [->|Hr]; [done|]). by apply elem_of_nil in Hr. }
      induction p as [|c p IHp]; [by split|]. destruct Hp as [Hc' Hp]. split; [done|auto].
    + intros s. rewrite pretty_N_go_step by lia. rewrite Hs. by rewrite append_assoc.
Qed.
Lemma show_N_no_colon n : no_colon (show_N n).
Proof.
  unfold show_N, pretty, pretty_N. case_decide; [by split|].
  destruct (pretty_go_digits n) as (p & Hp & Hs). by rewrite Hs, append_nil_r.
Qed.
Lemma append_same_length a b s t :
  String.length a = String.length b → a +:+ s = b +:+ t → a = b ∧ s = t.
Proof.
  revert b. induction a as [|c a IH]; intros [|d b] Hl Heq; try done.
  cbn in *. injection Heq as -> Heq. destruct (IH b) as [-> ->]; [lia|done..].
Qed.

(** ** Totals over a map *)

Definition total_of {K A} `{Countable K} (f : A → N) (m : gmap K A) : N :=
  map_fold (λ _ v acc, f v + acc)%N 0%N m.
Section totals.
Context {K A : Type} `{Countable K} (f : A → N).
Lemma total_new (m : gmap K A) k v : m !! k = None → total_of f (<[k := v]> m) = (f v + total_of f m)%N.
Proof. intros Hk. apply (map_fold_insert_L (λ _ v acc, f v + acc)%N); [intros; lia|done]. Qed.
Lemma total_insert (m : gmap K A) k v :
  (total_of f (<[k := v]> m) + default 0 (f <$> m !! k) = total_of f m + f v)%N.
Proof.
  destruct (m !! k) as [x|] eqn:Hk; cbn.
  - rewrite <-(insert_delete_id m k x Hk) at 2. rewrite <-insert_delete_eq, !total_new by apply lookup_delete_eq. lia.
  - rewrite total_new by done. lia.
Qed.
End totals.

(** ** Results as options *)

Definition ok {E A} (r : result E A) : option A := match r with Ok a => Some a | Err _ => None end.

Lemma ok_Some {E A} (r : result E A) a : ok r = Some a ↔ r = Ok a.
Proof. destruct r; cbn; naive_solver. Qed.
