(* ===== verification/Transactions.v ===== *)
(** * Reasoning about storage transactions

    Symbolic execution of a transaction from its durable tables and its view, whatever
    the engine, the clock and the fault hook do; and frames, the parts of the view a
    computation never writes. *)
From S2P Require Import Prelude Effects Contracts Persistence Storage.

Section runs.
Context {O : Type} `{!Engine O}.
Abbreviation txn := (st (Redb O) PersistenceError).
Implicit Types D V : Tables.

(** From durable tables [D] and view [V], [m] ends in [Q] when it succeeds; when it
    fails, the transaction is dropped and [R] holds of the durable tables. *)
Definition runs {A} D V (m : txn A) (Q : A → Tables → Tables → Prop) (R : Tables → Prop) : Prop :=
  triple (λ s, rd_durable s = D ∧ rd_view s = V) m
    (λ a s, Q a (rd_durable s) (rd_view s)) (λ s, R (rd_durable s)).

Lemma runs_run {A} (m : txn A) Q R s s' r :
  runs (rd_durable s) (rd_view s) m Q R → m s = (s', r) →
  match r with Ok a => Q a (rd_durable s') (rd_view s') | Err _ => R (rd_durable s') end.
Proof. intros Hm Hs. specialize (Hm s (conj eq_refl eq_refl)). rewrite Hs in Hm. by destruct r. Qed.
Lemma runs_conseq {A} D V (m : txn A) (Q Q' : A → Tables → Tables → Prop) (R R' : Tables → Prop) :
  runs D V m Q' R' → (∀ a D' V', Q' a D' V' → Q a D' V') → (∀ D', R' D' → R D') → runs D V m Q R.
Proof. intros Hm HQ HR. eapply triple_conseq; [exact Hm|done|..]; cbn; eauto. Qed.

Lemma runs_and {A} D V (m : txn A) (Q Q' : A → Tables → Tables → Prop) (R R' : Tables → Prop) :
  runs D V m Q R → runs D V m Q' R' →
  runs D V m (λ a D' V', Q a D' V' ∧ Q' a D' V') (λ D', R D' ∧ R' D').
Proof. intros H1 H2 s Hs. specialize (H1 s Hs). specialize (H2 s Hs). by destruct (m s) as [s' []]. Qed.

Lemma runs_ret {A} D V (a : A) Q R : Q a D V → runs D V (mret a) Q R.
Proof. by intros ? s [<- <-]. Qed.
Lemma runs_bind {A B} D V (m : txn A) (f : A → txn B) Q R :
  runs D V m (λ a D' V', runs D' V' (f a) Q R) R → runs D V (m ≫= f) Q R.
Proof. intros Hm. eapply triple_bind; [exact Hm|]. intros a s Hs. by apply Hs. Qed.
Lemma runs_lift {A} D V (r : result PersistenceError A) Q (R : Tables → Prop) :
  (∀ a, r = Ok a → Q a D V) → R D → runs D V (lift r) Q R.
Proof. intros HQ HR s [<- <-]. unfold lift. destruct r; auto. Qed.
Lemma runs_fail {A} D V e (Q : A → Tables → Tables → Prop) (R : Tables → Prop) :
  R D → runs D V (fail e) Q R.
Proof. by intros ? s [<- <-]. Qed.
Lemma runs_guard D V (c : bool) e Q (R : Tables → Prop) :
  (c = false → Q tt D V) → R D → runs D V (guard_if c e) Q R.
Proof. intros HQ HR. apply runs_lift; [|done]. intros [] Hc. apply HQ. by destruct c. Qed.
Lemma runs_gets {A} D V (f : Redb O → A) Q R :
  (∀ s, rd_durable s = D → rd_view s = V → Q (f s) D V) → runs D V (gets f) Q R.
Proof. intros HQ s [HD HV]. cbn. rewrite HD, HV. auto. Qed.

Lemma runs_call D V Q (R : Tables → Prop) : Q tt D V → R D → runs D V call Q R.
Proof. intros HQ HR s [<- <-]. unfold call. by destruct (engine_call _) as [o [e|]]. Qed.
Lemma runs_open {X} (t : Table X) D V Q (R : Tables → Prop) :
  Q tt D V → R D → runs D V (open_table t) Q R.
Proof. apply runs_call. Qed.
Lemma runs_begin_write D V Q (R : Tables → Prop) : Q tt D D → R D → runs D V begin_write Q R.
Proof. intros HQ HR. apply runs_bind, runs_call; [|done]. by intros s [<- <-]. Qed.
Lemma runs_begin_read D V Q (R : Tables → Prop) : Q tt D D → R D → runs D V begin_read Q R.
Proof. apply runs_begin_write. Qed.
Lemma runs_get {X} (t : Table X) k D V Q (R : Tables → Prop) :
  Q (tb_rows t V !! k) D V → R D → runs D V (get t k) Q R.
Proof.
  intros HQ HR. apply runs_bind, runs_call; [|done]. apply runs_gets. intros s <- <-. exact HQ.
Qed.
Lemma runs_write {A X} (t : Table X) D V (f : gmap string X → A) (g : gmap string X → gmap string X)
    Q (R : Tables → Prop) :
  Q (f (tb_rows t V)) D (tb_put t (g (tb_rows t V)) V) → R D →
  runs D V (call ;; previous ← gets (λ s, f (rows t s));
            modify (λ s, s <| rd_view := tb_put t (g (rows t s)) (rd_view s) |>) ;; mret previous) Q R.
Proof.
  intros HQ HR. apply runs_bind, runs_call; [|done]. apply runs_bind, runs_gets.
  intros s HD HV s' [<- <-]. unfold rows in *. cbn. by rewrite HV.
Qed.
Lemma runs_insert {X} (t : Table X) k v D V Q (R : Tables → Prop) :
  Q (tb_rows t V !! k) D (tb_put t (<[k := v]> (tb_rows t V)) V) → R D →
  runs D V (insert_row t k v) Q R.
Proof. apply (runs_write t D V (λ m, m !! k) (λ m, <[k := v]> m)). Qed.
Lemma runs_remove {X} (t : Table X) k D V Q (R : Tables → Prop) :
  Q (tb_rows t V !! k) D (tb_put t (delete k (tb_rows t V)) V) → R D →
  runs D V (remove_row t k) Q R.
Proof. apply (runs_write t D V (λ m, m !! k) (λ m, delete k m)). Qed.
Lemma runs_len {X} (t : Table X) D V Q (R : Tables → Prop) :
  Q (N.of_nat (size (tb_rows t V))) D V → R D → runs D V (table_len t) Q R.
Proof. intros HQ HR. apply runs_bind, runs_call; [|done]. apply runs_gets. intros s <- <-. exact HQ. Qed.
Lemma runs_row_list {X} (t : Table X) D V Q (R : Tables → Prop) :
  Q (entries (tb_rows t V)) D V → R D → runs D V (row_list t) Q R.
Proof. intros HQ HR. apply runs_bind, runs_call; [|done]. apply runs_gets. intros s <- <-. exact HQ. Qed.
Lemma runs_row_range {X} (t : Table X) start D V Q (R : Tables → Prop) :
  Q (List.filter (λ kv, bool_decide (String.le start kv.1)) (entries (tb_rows t V))) D V → R D →
  runs D V (row_range t start) Q R.
Proof. intros HQ HR. apply runs_bind, runs_call; [|done]. apply runs_gets. intros s <- <-. exact HQ. Qed.
(** A failed commit may have become durable. *)
Lemma runs_commit D V Q (R : Tables → Prop) : Q tt V V → R V → R D → runs D V commit Q R.
Proof.
  intros HQ HRV HRD s [<- <-]. unfold commit. destruct (engine_commit _) as [o [|[] e]]; done.
Qed.
Lemma runs_clock_now D V Q (R : Tables → Prop) :
  (∀ now, Q now D V) → R D → runs D V clock_now Q R.
Proof. intros HQ HR s [<- <-]. unfold clock_now. destruct (store_now _) as [o [now|e]]; cbn; auto. Qed.
Lemma runs_check_fault point D V Q (R : Tables → Prop) :
  Q tt D V → R D → runs D V (check_fault point) Q R.
Proof. intros HQ HR s [<- <-]. unfold check_fault. by destruct (fault_check _ _) as [o [[]|e]]. Qed.
Lemma runs_fold {A B} (f : B → A → txn B) (I : list A → B → Tables → Tables → Prop) (R : Tables → Prop)
    xs acc D V :
  I [] acc D V →
  (∀ before x after acc D V, xs = before ++ x :: after → I before acc D V →
    runs D V (f acc x) (I (before ++ [x])) R) →
  runs D V (fold_st f acc xs) (I xs) R.
Proof.
  intros H0 Hf. cut (∀ after before acc D V, xs = before ++ after → I before acc D V →
    runs D V (fold_st f acc after) (I xs) R); [intros H; by apply (H xs [])|].
  clear acc D V H0. induction after as [|x after IH]; intros before acc D V Heq HI; cbn [fold_st].
  - apply runs_ret. rewrite app_nil_r in Heq. by subst.
  - apply runs_bind. eapply runs_conseq; [by eapply Hf| |done]. intros acc' D' V' HI'.
    apply (IH (before ++ [x])); [|done]. by rewrite <-app_assoc.
Qed.

(** ** Frames *)

(** [m] opens no transaction, commits nothing and keeps the part [p] of the view. *)
Definition local {X A} (p : Tables → X) (m : txn A) : Prop :=
  ∀ D V, runs D V m (λ _ D' V', D' = D ∧ p V' = p V) (λ D', D' = D).

Lemma runs_local {X A} (p : Tables → X) (m : txn A) D V Q (R : Tables → Prop) :
  local p m → (∀ a V', p V' = p V → Q a D V') → R D → runs D V m Q R.
Proof. intros Hm HQ HR. eapply runs_conseq; [apply Hm| |by intros D' ->]. intros a D' V' [-> ?]. auto. Qed.

Section local.
Context {X : Type} (p : Tables → X).
Lemma local_ret {A} (a : A) : local p (mret a).
Proof. intros D V. by apply runs_ret. Qed.
Lemma local_bind {A B} (m : txn A) (f : A → txn B) :
  local p m → (∀ a, local p (f a)) → local p (m ≫= f).
Proof.
  intros Hm Hf D V. apply runs_bind. eapply runs_local; [exact Hm| |done]. intros a V' HV.
  eapply runs_conseq; [apply Hf| |done]. intros ??? [-> ?]. split; [done|congruence].
Qed.
Lemma local_lift {A} (r : result PersistenceError A) : local p (lift r).
Proof. intros D V. by apply runs_lift. Qed.
Lemma local_fail {A} e : local p (fail (A := A) e).
Proof. intros D V. by apply runs_fail. Qed.
Lemma local_guard c e : local p (guard_if c e).
Proof. apply local_lift. Qed.
Lemma local_call : local p call.
Proof. intros D V. by apply runs_call. Qed.
Lemma local_get {Y} (t : Table Y) k : local p (get t k).
Proof. intros D V. by apply runs_get. Qed.
Lemma local_len {Y} (t : Table Y) : local p (table_len t).
Proof. intros D V. by apply runs_len. Qed.
Lemma local_row_list {Y} (t : Table Y) : local p (row_list t).
Proof. intros D V. by apply runs_row_list. Qed.
Lemma local_row_range {Y} (t : Table Y) k : local p (row_range t k).
Proof. intros D V. by apply runs_row_range. Qed.
Lemma local_clock_now : local p clock_now.
Proof. intros D V. by apply runs_clock_now. Qed.
Lemma local_fault point : local p (check_fault point).
Proof. intros D V. by apply runs_check_fault. Qed.
(** Writes to a table outside the part. *)
Lemma local_insert {Y} (t : Table Y) k v : (∀ x V, p (tb_put t x V) = p V) → local p (insert_row t k v).
Proof. intros Hp D V. by apply runs_insert. Qed.
Lemma local_remove {Y} (t : Table Y) k : (∀ x V, p (tb_put t x V) = p V) → local p (remove_row t k).
Proof. intros Hp D V. by apply runs_remove. Qed.
Lemma local_fold {A B} (f : B → A → txn B) xs acc :
  (∀ acc x, local p (f acc x)) → local p (fold_st f acc xs).
Proof.
  intros Hf. revert acc. induction xs as [|x xs IH]; intros acc; cbn [fold_st]; [apply local_ret|].
  by apply local_bind.
Qed.
End local.

(** ** Invariants *)

(** Any part of a transaction keeps [P] of the durable tables and of the view. *)
Definition keeps_inv {A} (P : Tables → Prop) (m : txn A) : Prop :=
  ∀ D V, P D → P V → runs D V m (λ _ D' V', P D' ∧ P V') P.
(** A whole operation, which begins its own transaction, keeps [P] of the durable tables. *)
Definition sound {A} (P : Tables → Prop) (m : txn A) : Prop :=
  ∀ D V, P D → runs D V m (λ _ D' _, P D') P.

Section invariants.
Context (P : Tables → Prop).
Lemma keeps_inv_bind {A B} (m : txn A) (f : A → txn B) :
  keeps_inv P m → (∀ a, keeps_inv P (f a)) → keeps_inv P (m ≫= f).
Proof.
  intros Hm Hf D V HD HV. apply runs_bind. eapply runs_conseq; [by apply Hm| |done].
  intros a D' V' [??]. by apply Hf.
Qed.
Lemma keeps_inv_local {X A} (p : Tables → X) (m : txn A) :
  (∀ V V', p V' = p V → P V → P V') → local p m → keeps_inv P m.
Proof. intros Hp Hm D V HD HV. apply (runs_local p); [done| |done]. eauto. Qed.
Lemma keeps_inv_read {A} (m : txn A) : local id m → keeps_inv P m.
Proof. apply keeps_inv_local. intros V V' HV. by change (V' = V) in HV; subst. Qed.
Lemma keeps_inv_fold {A B} (f : B → A → txn B) xs acc :
  (∀ acc x, keeps_inv P (f acc x)) → keeps_inv P (fold_st f acc xs).
Proof.
  intros Hf. revert acc. induction xs as [|x xs IH]; intros acc; cbn [fold_st];
    [apply keeps_inv_read, local_ret|by apply keeps_inv_bind].
Qed.
Lemma keeps_inv_begin_write : keeps_inv P begin_write.
Proof. intros D V HD HV. by apply runs_begin_write. Qed.
Lemma keeps_inv_commit : keeps_inv P commit.
Proof. intros D V HD HV. by apply runs_commit. Qed.
Lemma keeps_inv_insert {Y} (t : Table Y) k v :
  (∀ V, P V → P (tb_put t (<[k := v]> (tb_rows t V)) V)) → keeps_inv P (insert_row t k v).
Proof. intros Hp D V HD HV. apply runs_insert; auto. Qed.
Lemma keeps_inv_remove {Y} (t : Table Y) k :
  (∀ V, P V → P (tb_put t (delete k (tb_rows t V)) V)) → keeps_inv P (remove_row t k).
Proof. intros Hp D V HD HV. apply runs_remove; auto. Qed.

Lemma sound_keeps {A} (m : txn A) : keeps_inv P m → sound P (begin_write ;; m).
Proof.
  intros Hm D V HD. apply runs_bind, runs_begin_write; [|done].
  eapply runs_conseq; [by apply Hm| |done]. by intros ??? [? _].
Qed.
Lemma sound_checked {A B} (r : result PersistenceError A) (f : A → txn B) :
  (∀ a, r = Ok a → sound P (f a)) → sound P (lift r ≫= f).
Proof. intros Hf D V HD. apply runs_bind, runs_lift; [|done]. intros a Ha. by apply Hf. Qed.
Lemma sound_guarded {B} (c : bool) e (m : txn B) : sound P m → sound P (guard_if c e ;; m).
Proof. intros Hm. by apply sound_checked. Qed.
Lemma sound_fail {A} e : sound P (fail (A := A) e).
Proof. intros D V HD. by apply runs_fail. Qed.
Lemma sound_then {A B} (m : txn A) (f : A → txn B) :
  sound P m → (∀ a, local id (f a)) → sound P (m ≫= f).
Proof.
  intros Hm Hf D V HD. apply runs_bind. eapply runs_conseq; [by apply Hm| |done].
  intros a D' V' HD'. by apply (runs_local id).
Qed.
Lemma sound_run {A} (m : txn A) s s' r :
  sound P m → P (rd_durable s) → m s = (s', r) → P (rd_durable s').
Proof. intros Hm HD Hs. apply (runs_run _ _ _ _ _ _ (Hm _ _ HD)) in Hs. by destruct r. Qed.
End invariants.
End runs.

Create HintDb local discriminated.
#[export] Hint Constants Opaque : local.
#[export] Hint Resolve local_ret local_lift local_fail local_guard local_call local_get local_len
  local_row_list local_row_range
  local_clock_now local_fault local_fold : local.
#[export] Hint Extern 1 (local _ (insert_row _ _ _)) => apply local_insert; reflexivity : local.
#[export] Hint Extern 1 (local _ (remove_row _ _)) => apply local_remove; reflexivity : local.
#[export] Hint Extern 1 (local _ (open_table _)) => apply local_call : local.

(** Frames of a computation, following its structure. *)
Ltac solve_local :=
  repeat first
    [ progress intros
    | solve [eauto with local nocore]
    | match goal with
      | |- local _ (mbind _ _) => apply local_bind
      | |- local _ (fold_st _ _ _) => apply local_fold
      | |- local _ (match ?x with _ => _ end) => destruct x
      | |- local _ (let '(_, _) := ?x in _) => destruct x
      end ].

Create HintDb keeps_inv discriminated.
#[export] Hint Constants Opaque : keeps_inv.
#[export] Hint Resolve keeps_inv_begin_write keeps_inv_commit : keeps_inv.
(** Invariants of a computation, following its structure; the writes it cannot see to be
    outside the invariant remain. *)
Ltac solve_keeps :=
  repeat first
    [ progress intros
    | solve [eauto with keeps_inv nocore]
    | apply keeps_inv_read; solve [solve_local]
    | match goal with
      | |- keeps_inv _ (mbind _ _) => apply keeps_inv_bind
      | |- keeps_inv _ (fold_st _ _ _) => apply keeps_inv_fold
      | |- keeps_inv _ (insert_row _ _ _) => apply keeps_inv_insert; solve [let H := fresh in intros ? H; exact H]
      | |- keeps_inv _ (remove_row _ _) => apply keeps_inv_remove; solve [let H := fresh in intros ? H; exact H]
      | |- keeps_inv _ (match ?x with _ => _ end) => destruct x
      | |- keeps_inv _ (let '(_, _) := ?x in _) => destruct x
      end ].

(** A whole operation: its checks before the transaction, then the transaction. *)
Ltac solve_sound :=
  repeat first
    [ progress intros
    | match goal with
      | |- sound _ (begin_write ;; _) => apply sound_keeps
      | |- sound _ (guard_if _ _ ;; _) => apply sound_guarded
      | |- sound _ (lift _ ≫= _) => apply sound_checked
      | |- sound _ (fail _) => apply sound_fail
      | |- sound _ (match ?x with _ => _ end) => destruct x
      | |- sound _ (let '(_, _) := ?x in _) => destruct x
      end ]; solve_keeps.

(** One step of symbolic execution; failures leave the goal on the durable tables. *)
Ltac run_step :=
  lazymatch goal with
  | |- runs _ _ (mret _) _ _ => apply runs_ret
  | |- runs _ _ (_ ≫= _) _ _ => apply runs_bind
  | |- runs _ _ (lift _) _ _ => apply runs_lift; [intros ? ?|]
  | |- runs _ _ (fail _) _ _ => apply runs_fail
  | |- runs _ _ (guard_if _ _) _ _ => apply runs_guard; [intros ?|]
  | |- runs _ _ call _ _ => apply runs_call
  | |- runs _ _ (open_table _) _ _ => apply runs_open
  | |- runs _ _ begin_write _ _ => apply runs_begin_write
  | |- runs _ _ begin_read _ _ => apply runs_begin_read
  | |- runs _ _ (get _ _) _ _ => apply runs_get
  | |- runs _ _ (insert_row _ _ _) _ _ => apply runs_insert
  | |- runs _ _ (remove_row _ _) _ _ => apply runs_remove
  | |- runs _ _ (table_len _) _ _ => apply runs_len
  | |- runs _ _ (row_list _) _ _ => apply runs_row_list
  | |- runs _ _ (row_range _ _) _ _ => apply runs_row_range
  | |- runs _ _ commit _ _ => apply runs_commit
  | |- runs _ _ clock_now _ _ => apply runs_clock_now; [intros ?|]
  | |- runs _ _ (check_fault _) _ _ => apply runs_check_fault
  end; cbv beta.
