(* ===== verification/PeerState.v ===== *)
(** * The serving state the peer tables describe

    The executions a serving installation knows, hot or archived, as one map, and what it
    means for the primary rows, the indexes, the histories and the counters to describe
    it; the effect of replacing one execution on all of them. *)
From S2P Require Import Prelude Effects Contracts Capability Blueprint Authority.
From S2P Require Import Model Workspace Persistence Dispatch Managed PeerProtocol Storage ManagedStore PeerStore.
From S2P Require Import StorageLaws Transactions.

(** ** Keys *)

(** The text of an ordered key. *)
Definition ordered_text (number : N) (identity : string) : string :=
  be_bytes 8 number +:+ be_bytes 4 (strlen identity) +:+ identity.
#[local] Opaque be_bytes.
Definition fits (identity : string) : Prop := (strlen identity ≤ u32_max)%N.
Lemma ordered_key_Ok number identity k :
  ordered_key number identity = Ok k ↔ fits identity ∧ k = ordered_text number identity.
Proof.
  unfold ordered_key. rewrite bind_Ok. setoid_rewrite push_component_Ok. split.
  - by intros (c & [? ->] & [= <-]).
  - intros [? ->]. by eexists.
Qed.
Lemma ordered_text_inj n n' e e' :
  ordered_text n e = ordered_text n' e' → (n mod 2 ^ 64 = n' mod 2 ^ 64)%N ∧ e = e'.
Proof.
  unfold ordered_text. intros [Hn H]%append_same_length; [|by rewrite !length_be_bytes].
  apply append_same_length in H as [_ ->]; [|by rewrite !length_be_bytes]. split; [|done].
  apply (f_equal be_value) in Hn. by rewrite !be_value_bytes in Hn.
Qed.
(** The text of a request key. *)
Definition request_text (caller : ServingCaller) (request : PeerRequestId) : string :=
  be_bytes 4 (strlen (storage_key caller)) +:+ storage_key caller
    +:+ be_bytes 4 (strlen request) +:+ request.
Lemma request_key_Ok caller request k :
  request_key caller request = Ok k ↔
  fits (storage_key caller) ∧ fits request ∧ k = request_text caller request.
Proof.
  unfold request_key, pair. rewrite bind_Ok. setoid_rewrite push_component_Ok.
  unfold request_text, fits. split.
  - intros (? & [? ->] & [? ->]). split_and!; [done..|]. cbn [String.app]. by rewrite ?append_assoc.
  - intros (? & ? & ->). eexists. split; [done|]. split; [done|]. cbn [String.app]. by rewrite ?append_assoc.
Qed.
Definition principal_text (principal : ServingPrincipal) : string :=
  match principal with
  | PrincipalClient actor => String ":" ("client:" +:+ actor)
  | PrincipalPeer peer => String ":" ("peer:" +:+ peer)
  end.
Lemma storage_key_text caller :
  storage_key caller = show_N (strlen (sc_host caller))
    +:+ String ":" (sc_host caller +:+ principal_text (sc_principal caller)).
Proof. unfold storage_key. by destruct (sc_principal caller). Qed.
Lemma storage_key_inj caller caller' : storage_key caller = storage_key caller' → caller = caller'.
Proof.
  rewrite !storage_key_text. destruct caller as [host p], caller' as [host' p']. cbn [sc_host sc_principal].
  intros [Hl H]%no_colon_split; [|apply show_N_no_colon..].
  unfold show_N in Hl. apply (inj pretty) in Hl. unfold strlen in Hl.
  apply append_same_length in H as [-> H]; [|lia]. destruct p, p'; cbn in H; simplify_eq; done.
Qed.
Lemma storage_key_global caller : storage_key caller ≠ PEER_EXECUTION_GLOBAL_ACCOUNTING_KEY.
Proof.
  rewrite storage_key_text. generalize (sc_host caller +:+ principal_text (sc_principal caller)).
  pose proof (show_N_no_colon (strlen (sc_host caller))) as Hn. revert Hn. generalize (show_N (strlen (sc_host caller))).
  intros [|c1 [|c2 [|c3 [|c4 [|c5 [|c6 s]]]]]]; cbn; intros ? ? Heq; simplify_eq; injection Heq as ??????; by destruct s.
Qed.
Lemma request_text_inj caller caller' request request' :
  (strlen (storage_key caller) ≤ u32_max)%N → (strlen (storage_key caller') ≤ u32_max)%N →
  request_text caller request = request_text caller' request' → caller = caller' ∧ request = request'.
Proof.
  unfold request_text. intros H1 H2 H.
  apply append_same_length in H as [Hl H]; [|by rewrite !length_be_bytes].
  apply (f_equal be_value) in Hl. rewrite !be_value_bytes, !N.mod_small in Hl
    by (change (256 ^ N.of_nat 4)%N with (u32_max + 1)%N; lia).
  unfold strlen in Hl. apply append_same_length in H as [->%storage_key_inj H]; [|lia].
  apply append_same_length in H as [_ ->]; [done|by rewrite !length_be_bytes].
Qed.

(** ** Indexes *)

Section indexes.
Context {A : Type}.
Implicit Types (S : gmap string A) (I : gmap string string) (f : A → option string).
(** The rows of [I] are the keys [f] gives the values of [S]. *)
Definition indexed f I S : Prop := ∀ k e, I !! k = Some e ↔ ∃ a, S !! e = Some a ∧ f a = Some k.
(** One value lost the key [old] and took the key [new]. *)
Definition moved (old new : option string) (e : string) I I' : Prop :=
  ∀ k, I' !! k = if decide (new = Some k) then Some e else if decide (old = Some k) then None else I !! k.
(** No other value has the key [new]. *)
Definition unshared f S e (new : option string) : Prop :=
  ∀ k e' a, new = Some k → S !! e' = Some a → f a = Some k → e' = e.

Lemma indexed_moved f I I' S e a :
  indexed f I S → moved (S !! e ≫= f) (f a) e I I' → unshared f S e (f a) →
  indexed f I' (<[e := a]> S).
Proof.
  intros HI Hm Hu k e'. rewrite Hm. clear Hm I'. case_decide as Hn.
  - split; [intros [= <-]; exists a; by rewrite lookup_insert_eq|].
    intros (a' & [[<- _]|[Hne Ha]]%lookup_insert_Some & Hk); [done|]. by destruct Hne; erewrite <-(Hu k).
  - assert ((∃ a', <[e := a]> S !! e' = Some a' ∧ f a' = Some k) ↔
      e' ≠ e ∧ ∃ a', S !! e' = Some a' ∧ f a' = Some k) as ->.
    { split.
      - intros (a' & [[<- <-]|[Hne Ha]]%lookup_insert_Some & Hk); [done|]. naive_solver.
      - intros (Hne & a' & Ha & Hk). exists a'. by rewrite lookup_insert_ne. }
    rewrite <-(HI k e'). case_decide as Ho; [|destruct (decide (e' = e)) as [->|]; [|naive_solver]].
    + split; [done|]. intros [Hne HIk]. exfalso.
      destruct (S !! e) as [a0|] eqn:Ha0; [|done]. cbn in Ho.
      assert (I !! k = Some e) by (apply HI; eauto). congruence.
    + split; [|by intros []]. intros HIk. apply HI in HIk as (a' & Ha' & Hk). exfalso.
      apply Ho. by rewrite Ha'.
Qed.
Lemma moved_same f I S e : indexed f I S → moved (S !! e ≫= f) (S !! e ≫= f) e I I.
Proof.
  intros HI k. case_decide as H; [|done]. destruct (S !! e) as [a|] eqn:Ha; [|done].
  apply HI. eauto.
Qed.
Lemma moved_none e I : moved None None e I I.
Proof. intros k. by rewrite !decide_False by done. Qed.
Lemma moved_insert e I k : moved None (Some k) e I (<[k := e]> I).
Proof.
  intros k'. destruct (decide (k = k')) as [->|Hne].
  - by rewrite lookup_insert_eq, decide_True.
  - by rewrite lookup_insert_ne, !decide_False by (done || congruence).
Qed.
Lemma moved_delete e I k : moved (Some k) None e I (delete k I).
Proof.
  intros k'. rewrite decide_False by done. destruct (decide (k = k')) as [->|Hne].
  - by rewrite lookup_delete_eq, decide_True.
  - by rewrite lookup_delete_ne, decide_False by (done || congruence).
Qed.
Lemma moved_replace e I k k' : moved (Some k) (Some k') e I (<[k' := e]> (delete k I)).
Proof.
  intros k''. destruct (decide (k' = k'')) as [->|Hne].
  - by rewrite lookup_insert_eq, decide_True.
  - rewrite lookup_insert_ne by done. rewrite (decide_False (P := Some k' = _)) by congruence.
    destruct (decide (k = k'')) as [->|?].
    + by rewrite lookup_delete_eq, decide_True.
    + by rewrite lookup_delete_ne, decide_False by (done || congruence).
Qed.
(** An index has as many rows as values with a key. *)
Lemma indexed_size f I S : indexed f I S → size I = size (omap f S).
Proof.
  assert (∀ I (m : gmap string string), (∀ k e, I !! k = Some e ↔ m !! e = Some k) → size I = size m) as Hinv.
  { clear. intros I m. revert I. induction m as [|e k m Hm IH] using map_ind; intros I Hi.
    - apply map_size_empty_iff. apply map_eq. intros k. rewrite lookup_empty.
      destruct (I !! k) as [e|] eqn:Hk; [|done]. by apply Hi in Hk.
    - assert (I !! k = Some e) as Hk by (apply Hi, lookup_insert_eq).
      rewrite map_size_insert_None by done. rewrite <-(IH (delete k I)).
      + rewrite <-(insert_delete_id I k e Hk) at 1. by rewrite map_size_insert_None by apply lookup_delete_eq.
      + intros k' e'. rewrite lookup_delete_Some, Hi, lookup_insert_Some. split; [naive_solver|].
        intros Hm'. split; [|right; split; [congruence|done]]. intros <-.
        assert (I !! k = Some e') by (apply Hi; rewrite lookup_insert_ne; congruence). congruence. }
  intros HI. apply Hinv. intros k e. rewrite (HI k e), lookup_omap.
  destruct (S !! e) as [a|]; cbn; naive_solver.
Qed.
End indexes.

(** ** Executions *)

Definition hot_of (s : PeerExecutionSnapshot) : option PeerExecutionRecord :=
  match s with SnapshotHot r => Some r | SnapshotArchived _ => None end.
Definition ps_acceptance (s : PeerExecutionSnapshot) : N :=
  match s with SnapshotHot r => px_acceptance_sequence r | SnapshotArchived t => tm_acceptance_sequence t end.
(** The phases a worker may still claim. *)
Definition dispatchable (phase : PeerExecutionPhase) : bool :=
  match phase with PhAvailable _ | PhCancellation None None => true | _ => false end.
Definition finished_at (phase : PeerExecutionPhase) : option N :=
  match phase with PhTerminal _ at_ | PhUncertain at_ _ => Some at_ | _ => None end.
(** Active without an entry: what the dispatch count counts. *)
Definition unentered (phase : PeerExecutionPhase) : bool :=
  phase_is_active phase && negb (is_some (entry_evidence phase)).
(** Entered work always has its claim. *)
Definition phase_ok (phase : PeerExecutionPhase) : Prop :=
  match phase with PhCancellation None (Some _) => False | _ => True end.

Definition request_of (s : PeerExecutionSnapshot) : option string :=
  Some (request_text (ps_caller s) (ps_request_id s)).
Definition available_of (s : PeerExecutionSnapshot) : option string :=
  r ← hot_of s;
  if dispatchable (px_phase r) then Some (ordered_text (px_acceptance_sequence r) (px_execution r)) else None.
Definition claim_of (s : PeerExecutionSnapshot) : option string :=
  r ← hot_of s; claim ← phase_claim (px_phase r);
  Some (ordered_text (dc_lease_expires_at_unix_ms claim) (px_execution r)).
Definition terminal_of (s : PeerExecutionSnapshot) : option string :=
  r ← hot_of s; at_ ← finished_at (px_phase r); Some (ordered_text at_ (px_execution r)).

Abbreviation serving := (gmap string PeerExecutionSnapshot).
(** How many hot records satisfy [P]. *)
Definition weight (P : PeerExecutionRecord → bool) (s : PeerExecutionSnapshot) : N :=
  match s with SnapshotHot r => if P r then 1 else 0 | SnapshotArchived _ => 0 end.
Definition archived_weight (s : PeerExecutionSnapshot) : N :=
  match s with SnapshotHot _ => 0 | SnapshotArchived _ => 1 end.
Definition tally (P : PeerExecutionRecord → bool) (S : serving) : N := total_of (weight P) S.
Definition is_active (r : PeerExecutionRecord) : bool := phase_is_active (px_phase r).
Definition is_queued (r : PeerExecutionRecord) : bool := unentered (px_phase r).
Definition is_done (r : PeerExecutionRecord) : bool := negb (phase_is_active (px_phase r)).
Definition active_for (caller : ServingCaller) (r : PeerExecutionRecord) : bool :=
  is_active r && bool_decide (px_caller r = caller).

(** [m.insert(k, v)] of a summed map. *)
Lemma tally_insert P S e s :
  (tally P (<[e := s]> S) + default 0 (weight P <$> S !! e) = tally P S + weight P s)%N.
Proof. apply total_insert. Qed.

Section state.
Context `{managed : !ManagedCodec, codec : !PeerCodec}.
Implicit Types (S : serving) (p : PeerTables) (G : GlobalPeerAccounting).

(** The primary rows of one execution. *)
Definition stored p (e : string) (s : option PeerExecutionSnapshot) : Prop :=
  match s with
  | None => t_peer_executions p !! e = None ∧ t_peer_execution_tombstones p !! e = None
      ∧ t_peer_execution_locations p !! e = None
  | Some (SnapshotHot r) => (∃ b, t_peer_executions p !! e = Some b ∧ decode_peer_record b = Ok r)
      ∧ t_peer_execution_tombstones p !! e = None ∧ t_peer_execution_locations p !! e = Some LOCATION_HOT
  | Some (SnapshotArchived t) => t_peer_executions p !! e = None
      ∧ (∃ b, t_peer_execution_tombstones p !! e = Some b ∧ decode_tombstone b = Ok t)
      ∧ t_peer_execution_locations p !! e = Some LOCATION_ARCHIVED
  end.
Record snapshot_ok (e : string) (s : PeerExecutionSnapshot) : Prop := {
  so_execution : ps_execution s = e;
  so_identity : parse_execution_id e = Ok e;
  so_fits : fits e;
  so_caller : fits (storage_key (ps_caller s));
  so_request : fits (ps_request_id s);
  so_phase : ∀ r, s = SnapshotHot r → phase_ok (px_phase r) ∧ (px_last_observation_sequence r ≤ u32_max)%N
}.
Record rows_ok p S : Prop := {
  ro_stored : ∀ e, stored p e (S !! e);
  ro_snapshots : ∀ e s, S !! e = Some s → snapshot_ok e s
}.
Record indexes_ok p S : Prop := {
  io_requests : indexed request_of (t_peer_executions_by_request p) S;
  io_available : indexed available_of (t_peer_dispatch_available p) S;
  io_claims : indexed claim_of (t_peer_active_claims p) S;
  io_terminal : indexed terminal_of (t_peer_terminal_index p) S
}.
(** The row of a caller's accounting. *)
Definition peer_row S (k : string) (b : Bytes) : Prop :=
  ∃ v, decode b "peer relationship accounting" = Ok v ∧ storage_key (pr_peer v) = k
    ∧ pr_schema_version v = PEER_ACCOUNTING_SCHEMA_VERSION
    ∧ pr_active v = tally (active_for (pr_peer v)) S.
Record counters_ok p S G : Prop := {
  co_row : ∃ b, t_peer_execution_accounting p !! PEER_EXECUTION_GLOBAL_ACCOUNTING_KEY = Some b
    ∧ decode b "peer global accounting" = Ok G;
  co_valid : validate_global_accounting G = Ok G;
  co_bound : (gp_active G ≤ u32_max)%N;
  co_active : gp_active G = tally is_active S;
  co_queued : gp_dispatch_queued G = tally is_queued S;
  co_terminal : gp_hot_terminal G = tally is_done S;
  co_tombstones : gp_tombstones G = total_of archived_weight S;
  co_peers : ∀ k b, k ≠ PEER_EXECUTION_GLOBAL_ACCOUNTING_KEY →
    t_peer_execution_accounting p !! k = Some b → peer_row S k b;
  co_known : ∀ e r, S !! e = Some (SnapshotHot r) → is_active r = true →
    is_Some (t_peer_execution_accounting p !! storage_key (px_caller r));
  co_sequence : ∀ e s, S !! e = Some s → (ps_acceptance s < gp_next_acceptance_sequence G)%N;
  co_distinct : ∀ e e' s s', S !! e = Some s → S !! e' = Some s' → ps_acceptance s = ps_acceptance s' → e = e'
}.
(** The installation and its callers. *)
Record config_ok p S : Prop := {
  fo_host : ∀ k h, t_serving_host_identity p !! k = Some h →
    k = "host" ∧ capability_identity "PeerId" 128 h = Ok h;
  fo_callers : ∀ k b, t_peer_relationships p !! k = Some b →
    ∃ v, decode b "peer relationship" = Ok v ∧ validate_relationship v = Ok tt
      ∧ k = storage_key (cr_caller v) ∧ t_serving_host_identity p !! "host" = Some (sc_host (cr_caller v));
  fo_catalogs : ∀ k b, t_peer_catalogs p !! k = Some b →
    ∃ v, decode b "peer catalog" = Ok v ∧ validate_catalog v = Ok tt ∧ k = storage_key (cg_caller v)
      ∧ t_serving_host_identity p !! "host" = Some (sc_host (cg_caller v))
      ∧ is_Some (t_peer_relationships p !! k);
  fo_executions : ∀ e s, S !! e = Some s → t_serving_host_identity p !! "host" = Some (sc_host (ps_caller s))
}.

(** One retained observation and its artifact. *)
Definition observed p (e : string) (i : N) (b : Bytes) (o : PeerObservation) : Prop :=
  t_peer_observations p !! ordered_text i e = Some b ∧ decode b "peer observation" = Ok o
  ∧ ob_execution o = e ∧ ob_sequence o = i
  ∧ match ob_output o with
    | None => t_peer_observation_artifacts p !! ordered_text i e = None
    | Some (_, reference) => ∃ b', t_peer_observation_artifacts p !! ordered_text i e = Some b'
        ∧ decode b' "peer observation artifact" = Ok reference
    end.
Definition output_count (os : list PeerObservation) : N := vlen (List.filter (λ o, is_some (ob_output o)) os).
(** The rows of a history, chained by its digest. *)
Record history p (e : string) (last : N) (digest : string) (outputs : N)
    (rows : list (Bytes * PeerObservation)) : Prop := {
  ho_length : last = vlen rows;
  ho_rows : ∀ i row, rows !! i = Some row → observed p e (N.of_nat i + 1) row.1 row.2;
  ho_digest : try_fold observation_link_digest observation_genesis_digest rows.*1 = Ok digest;
  ho_outputs : outputs = output_count rows.*2
}.
Definition record_history p (r : PeerExecutionRecord) : list (Bytes * PeerObservation) → Prop :=
  history p (px_execution r) (px_last_observation_sequence r) (px_observation_digest r)
    (pa_outputs (px_accounting r)).
Record histories_ok p S : Prop := {
  hs_history : ∀ e r, S !! e = Some (SnapshotHot r) → ∃ rows, record_history p r rows;
  hs_owned : ∀ k b, t_peer_observations p !! k = Some b → ∃ e r i,
    S !! e = Some (SnapshotHot r) ∧ (1 ≤ i ≤ px_last_observation_sequence r)%N ∧ k = ordered_text i e;
  hs_artifacts : ∀ k b, t_peer_observation_artifacts p !! k = Some b → is_Some (t_peer_observations p !! k)
}.

(** The peer tables describe the executions [S] and the counters [G]. *)
Record serves p S G : Prop := {
  sv_rows : rows_ok p S;
  sv_indexes : indexes_ok p S;
  sv_counters : counters_ok p S G;
  sv_config : config_ok p S;
  sv_histories : histories_ok p S
}.
Definition serving_ok (V : Tables) : Prop := ∃ S G, serves (t_peers V) S G.

(** ** Replacing one execution *)

Definition primary p (e : string) : option Bytes * option Bytes * option N :=
  (t_peer_executions p !! e, t_peer_execution_tombstones p !! e, t_peer_execution_locations p !! e).
Lemma stored_frame p p' e s : primary p' e = primary p e → stored p e s → stored p' e s.
Proof. intros [= E1 E2 E3]. unfold stored. by rewrite E1, E2, E3. Qed.
Lemma rows_insert p p' S e s :
  rows_ok p S → stored p' e (Some s) → snapshot_ok e s → (∀ e', e' ≠ e → primary p' e' = primary p e') →
  rows_ok p' (<[e := s]> S).
Proof.
  intros [Hr Hs] Hst Hok Hf. split.
  - intros e'. destruct (decide (e' = e)) as [->|Hne]; [by rewrite lookup_insert_eq|].
    rewrite lookup_insert_ne by done. apply (stored_frame p); [by apply Hf|apply Hr].
  - intros e' s' [[<- <-]|[_ H]]%lookup_insert_Some; [done|by apply Hs].
Qed.

Lemma available_text s k : available_of s = Some k → ∃ n, k = ordered_text n (ps_execution s).
Proof. destruct s as [r|t]; [|done]. cbn. case_match; [|done]. intros [= <-]. eauto. Qed.
Lemma claim_text s k : claim_of s = Some k → ∃ n, k = ordered_text n (ps_execution s).
Proof. destruct s as [r|t]; [|done]. cbn. destruct (phase_claim _); [|done]. intros [= <-]. eauto. Qed.
Lemma terminal_text s k : terminal_of s = Some k → ∃ n, k = ordered_text n (ps_execution s).
Proof. destruct s as [r|t]; [|done]. cbn. destruct (finished_at _); [|done]. intros [= <-]. eauto. Qed.
Lemma unshared_text f p S e s :
  (∀ s k, f s = Some k → ∃ n, k = ordered_text n (ps_execution s)) →
  rows_ok p S → ps_execution s = e → unshared f S e (f s).
Proof.
  intros Hf [_ Hs] <- k e' s' Hk He' Hk'.
  destruct (Hf _ _ Hk) as [n ->], (Hf _ _ Hk') as [n' [_ ->]%ordered_text_inj].
  symmetry. apply (Hs _ _ He').
Qed.
(** The rows of the three queues follow the phase. *)
Lemma indexes_insert p p' S e s :
  rows_ok p S → indexes_ok p S → ps_execution s = e →
  indexed request_of (t_peer_executions_by_request p') (<[e := s]> S) →
  moved (S !! e ≫= available_of) (available_of s) e (t_peer_dispatch_available p) (t_peer_dispatch_available p') →
  moved (S !! e ≫= claim_of) (claim_of s) e (t_peer_active_claims p) (t_peer_active_claims p') →
  moved (S !! e ≫= terminal_of) (terminal_of s) e (t_peer_terminal_index p) (t_peer_terminal_index p') →
  indexes_ok p' (<[e := s]> S).
Proof.
  intros Hr [] He Hq Ha Hc Ht. split; [done|..];
    (eapply indexed_moved; [eassumption..|]); eapply unshared_text; eauto using available_text, claim_text, terminal_text.
Qed.
Lemma requests_same p S e s s' :
  indexed request_of (t_peer_executions_by_request p) S → S !! e = Some s →
  request_of s' = request_of s → indexed request_of (t_peer_executions_by_request p) (<[e := s']> S).
Proof.
  intros HI Hs Heq. eapply indexed_moved; [done|..].
  - rewrite Heq. replace (request_of s) with (S !! e ≫= request_of) by by rewrite Hs. by apply moved_same.
  - rewrite Heq. intros k e' s'' Hk He' Hk'.
    assert (t_peer_executions_by_request p !! k = Some e) by (apply HI; eauto).
    assert (t_peer_executions_by_request p !! k = Some e') by (apply HI; eauto). congruence.
Qed.

(** The four counts of [G] follow one replacement. *)
Definition recounted S G G' e s : Prop :=
  gp_active G' = tally is_active (<[e := s]> S) ∧ gp_dispatch_queued G' = tally is_queued (<[e := s]> S)
  ∧ gp_hot_terminal G' = tally is_done (<[e := s]> S)
  ∧ gp_tombstones G' = total_of archived_weight (<[e := s]> S)
  ∧ (gp_next_acceptance_sequence G ≤ gp_next_acceptance_sequence G')%N
  ∧ (gp_active G' ≤ u32_max)%N ∧ validate_global_accounting G' = Ok G'.
(** The acceptance of the new snapshot: the one it had, or the next one. *)
Definition sequenced S G G' e s : Prop :=
  match S !! e with
  | Some old => ps_acceptance s = ps_acceptance old
  | None => ps_acceptance s = gp_next_acceptance_sequence G
      ∧ (gp_next_acceptance_sequence G < gp_next_acceptance_sequence G')%N
  end.
Lemma sequence_insert p S G G' e s :
  counters_ok p S G → (gp_next_acceptance_sequence G ≤ gp_next_acceptance_sequence G')%N →
  sequenced S G G' e s →
  (∀ e1 s1, <[e := s]> S !! e1 = Some s1 → (ps_acceptance s1 < gp_next_acceptance_sequence G')%N) ∧
  (∀ e1 e2 s1 s2, <[e := s]> S !! e1 = Some s1 → <[e := s]> S !! e2 = Some s2 →
     ps_acceptance s1 = ps_acceptance s2 → e1 = e2).
Proof.
  intros [] Hn Hq.
  assert (∀ e' s', S !! e' = Some s' → ps_acceptance s = ps_acceptance s' → e' = e) as Hd.
  { intros e' s' Hs' Heq. unfold sequenced in Hq. destruct (S !! e) as [old|] eqn:He.
    - eapply co_distinct0; [exact Hs'|exact He|congruence].
    - pose proof (co_sequence0 _ _ Hs'). lia. }
  split.
  - intros e' s' [[_ <-]|[Hne Hs]]%lookup_insert_Some.
    + unfold sequenced in Hq. destruct (S !! e) as [old|] eqn:He; [|lia].
      pose proof (co_sequence0 _ _ He). lia.
    + pose proof (co_sequence0 _ _ Hs). lia.
  - intros e1 e2 s1 s2 [[<- <-]|[Hn1 H1]]%lookup_insert_Some [[<- <-]|[Hn2 H2]]%lookup_insert_Some Heq; [done| | |].
    + symmetry. by eapply Hd.
    + by eapply Hd.
    + by eapply co_distinct0.
Qed.
(** Only the global row changes. *)
Lemma counters_global p p' S G G' e s :
  counters_ok p S G → recounted S G G' e s → sequenced S G G' e s →
  (∀ caller, tally (active_for caller) (<[e := s]> S) = tally (active_for caller) S) →
  (∀ r, s = SnapshotHot r → is_active r = true →
     is_Some (t_peer_execution_accounting p !! storage_key (px_caller r))) →
  (∃ b, t_peer_execution_accounting p' !! PEER_EXECUTION_GLOBAL_ACCOUNTING_KEY = Some b
     ∧ decode b "peer global accounting" = Ok G') →
  (∀ k, k ≠ PEER_EXECUTION_GLOBAL_ACCOUNTING_KEY →
     t_peer_execution_accounting p' !! k = t_peer_execution_accounting p !! k) →
  counters_ok p' (<[e := s]> S) G'.
Proof.
  intros HC (Ha & Hq & Ht & Hm & Hn & Hu & Hv) Hs Hcount Hknown Hrow Hk.
  destruct (sequence_insert _ _ _ _ _ _ HC Hn Hs). destruct HC. split; try done.
  - intros k b Hne Hb. rewrite Hk in Hb by done. destruct (co_peers0 k b Hne Hb) as (v & ? & ? & ? & ?).
    exists v. by rewrite Hcount.
  - intros e' r Hr Hact. rewrite Hk by apply storage_key_global.
    apply lookup_insert_Some in Hr as [[<- ->]|[_ Hr]]; eauto.
Qed.
(** The global row and the row of one caller change. *)
Lemma counters_peer p p' S G G' e s v :
  counters_ok p S G → recounted S G G' e s → sequenced S G G' e s →
  (∀ caller, caller ≠ pr_peer v → tally (active_for caller) (<[e := s]> S) = tally (active_for caller) S) →
  pr_active v = tally (active_for (pr_peer v)) (<[e := s]> S) →
  pr_schema_version v = PEER_ACCOUNTING_SCHEMA_VERSION →
  (∀ r, s = SnapshotHot r → px_caller r = pr_peer v) →
  (∃ b, t_peer_execution_accounting p' !! PEER_EXECUTION_GLOBAL_ACCOUNTING_KEY = Some b
     ∧ decode b "peer global accounting" = Ok G') →
  (∃ b, t_peer_execution_accounting p' !! storage_key (pr_peer v) = Some b
     ∧ decode b "peer relationship accounting" = Ok v) →
  (∀ k, k ≠ PEER_EXECUTION_GLOBAL_ACCOUNTING_KEY → k ≠ storage_key (pr_peer v) →
     t_peer_execution_accounting p' !! k = t_peer_execution_accounting p !! k) →
  counters_ok p' (<[e := s]> S) G'.
Proof.
  intros HC (Ha & Hq & Ht & Hm & Hn & Hu & Hv) Hs Hother Hact Hschema Hcaller Hrow (bv & Hbv & Hdv) Hk.
  destruct (sequence_insert _ _ _ _ _ _ HC Hn Hs). destruct HC. split; try done.
  - intros k b Hne Hb. destruct (decide (k = storage_key (pr_peer v))) as [->|Hnv].
    { exists v. split_and!; [|done..]. congruence. }
    rewrite Hk in Hb by done. destruct (co_peers0 k b Hne Hb) as (v' & ? & Hkey & ? & ?).
    exists v'. rewrite Hother by congruence. done.
  - intros e' r Hr Hactive. destruct (decide (px_caller r = pr_peer v)) as [Heq|Hnv]; [by rewrite Heq, Hbv|].
    assert (storage_key (px_caller r) ≠ storage_key (pr_peer v)) by (by intros ?%storage_key_inj).
    rewrite Hk by (done || apply storage_key_global).
    apply lookup_insert_Some in Hr as [[<- ->]|[_ Hr]]; [by destruct Hnv; apply Hcaller|eauto].
Qed.

Lemma config_insert p S e s :
  config_ok p S → t_serving_host_identity p !! "host" = Some (sc_host (ps_caller s)) →
  config_ok p (<[e := s]> S).
Proof. intros [] Hh. split; try done. intros e' s' [[<- <-]|[_ H]]%lookup_insert_Some; eauto. Qed.
Definition configuration p := (t_serving_host_identity p, t_peer_relationships p, t_peer_catalogs p).
Lemma config_frame p p' S : configuration p' = configuration p → config_ok p S → config_ok p' S.
Proof. intros [= E1 E2 E3] []. split; rewrite ?E1, ?E2, ?E3; done. Qed.

(** ** Histories *)

Definition observations_of p := (t_peer_observations p, t_peer_observation_artifacts p).
Lemma observed_frame p p' e i b o :
  t_peer_observations p' !! ordered_text i e = t_peer_observations p !! ordered_text i e →
  t_peer_observation_artifacts p' !! ordered_text i e = t_peer_observation_artifacts p !! ordered_text i e →
  observed p e i b o → observed p' e i b o.
Proof. unfold observed. by intros -> ->. Qed.
Lemma histories_frame p p' S : observations_of p' = observations_of p → histories_ok p S → histories_ok p' S.
Proof.
  intros [= E1 E2] [Hh Ho Ha]. split; [|by rewrite E1|by rewrite E1, E2].
  intros e r Hr. destruct (Hh _ _ Hr) as [rows [H1 H2 H3 H4]]. exists rows. split; [done| |done..].
  intros i row Hi. apply (observed_frame p); [by rewrite E1|by rewrite E2|]. exact (H2 _ _ Hi).
Qed.
(** What a history depends on. *)
Definition recorded (r : PeerExecutionRecord) :=
  (px_execution r, px_last_observation_sequence r, px_observation_digest r, pa_outputs (px_accounting r)).
Lemma histories_same p p' S e r r' :
  histories_ok p S → observations_of p' = observations_of p → S !! e = Some (SnapshotHot r) →
  recorded r' = recorded r → histories_ok p' (<[e := SnapshotHot r']> S).
Proof.
  intros [Hh Ho Ha] [= E1 E2] Hr Heq.
  assert (∀ e i b o, observed p e i b o → observed p' e i b o) as Hobs
    by (intros e' i b o; apply observed_frame; by rewrite ?E1, ?E2).
  split.
  - intros e' r0 Hr0. assert (∃ r1, S !! e' = Some (SnapshotHot r1) ∧ recorded r0 = recorded r1) as (r1 & Hr1 & Hrec)
      by (apply lookup_insert_Some in Hr0 as [[<- [= <-]]|[_ ?]]; eauto).
    destruct (Hh _ _ Hr1) as [rows [H1 H2 H3 H4]]. exists rows. unfold record_history.
    injection Hrec as -> -> -> ->. split; [done| |done..]. intros i row Hi. by apply Hobs, H2.
  - intros k b Hk. rewrite E1 in Hk. destruct (Ho k b Hk) as (e' & r0 & i & Hr0 & Hi & ->).
    destruct (decide (e' = e)) as [->|Hne].
    + exists e, r', i. rewrite lookup_insert_eq. injection Heq as _ -> _ _. simplify_eq. done.
    + exists e', r0, i. by rewrite lookup_insert_ne.
  - intros k b Hk. rewrite E1. rewrite E2 in Hk. by eapply Ha.
Qed.
Lemma ordered_text_small i j e e' :
  (i ≤ u32_max)%N → (j ≤ u32_max)%N → ordered_text i e = ordered_text j e' → i = j ∧ e = e'.
Proof.
  intros Hi Hj [H ->]%ordered_text_inj. split; [|done].
  rewrite !N.mod_small in H; [done|..]; (eapply N.le_lt_trans; [eassumption|done]).
Qed.
(** One more row at the head of a history. *)
Record appended p p' (e : string) (i : N) (b : Bytes) (o : PeerObservation) : Prop := {
  ap_free : t_peer_observations p !! ordered_text i e = None;
  ap_row : t_peer_observations p' = <[ordered_text i e := b]> (t_peer_observations p);
  ap_decode : decode b "peer observation" = Ok o;
  ap_execution : ob_execution o = e;
  ap_sequence : ob_sequence o = i;
  ap_artifact : match ob_output o with
    | None => t_peer_observation_artifacts p' = t_peer_observation_artifacts p
    | Some (_, reference) => ∃ b', decode b' "peer observation artifact" = Ok reference
        ∧ t_peer_observation_artifacts p' = <[ordered_text i e := b']> (t_peer_observation_artifacts p)
    end
}.
Lemma appended_other p p' e i b o k :
  appended p p' e i b o → k ≠ ordered_text i e →
  t_peer_observations p' !! k = t_peer_observations p !! k
  ∧ t_peer_observation_artifacts p' !! k = t_peer_observation_artifacts p !! k.
Proof.
  intros [] Hk. rewrite ap_row0, lookup_insert_ne by done. split; [done|].
  destruct (ob_output o) as [[? ?]|]; [|congruence]. destruct ap_artifact0 as (b' & _ & ->).
  by rewrite lookup_insert_ne.
Qed.
Lemma appended_observed p p' S e i b o :
  histories_ok p S → appended p p' e i b o → observed p' e i b o.
Proof.
  intros [_ _ Ha] [Hf Hr Hd He Hs Hart]. unfold observed. rewrite Hr, lookup_insert_eq. split_and!; try done.
  destruct (ob_output o) as [[? ?]|].
  - destruct Hart as (b' & Hb' & ->). exists b'. by rewrite lookup_insert_eq.
  - rewrite Hart. destruct (t_peer_observation_artifacts p !! ordered_text i e) eqn:Hk; [|done].
    apply Ha in Hk as [? ?]. congruence.
Qed.
(** The counts of a history after one more row. *)
Definition extended (r r' : PeerExecutionRecord) (b : Bytes) (o : PeerObservation) : Prop :=
  px_execution r' = px_execution r
  ∧ px_last_observation_sequence r' = (px_last_observation_sequence r + 1)%N
  ∧ observation_link_digest (px_observation_digest r) b = Ok (px_observation_digest r')
  ∧ pa_outputs (px_accounting r')
    = (pa_outputs (px_accounting r) + if is_some (ob_output o) then 1 else 0)%N.
Lemma history_append p p' S r r' b o rows :
  histories_ok p S → (px_last_observation_sequence r + 1 ≤ u32_max)%N →
  appended p p' (px_execution r) (px_last_observation_sequence r + 1) b o → extended r r' b o →
  record_history p r rows → record_history p' r' (rows ++ [(b, o)]).
Proof.
  intros Hh Hb Hap (Ee & El & Ed & Eo) [Hl Hr Hd Hc]. unfold record_history. rewrite Ee. split.
  - rewrite El, Hl. unfold vlen. rewrite length_app. cbn. lia.
  - intros i [b' o'] Hi. apply lookup_app_Some in Hi as [Hi|[Hge Hi]].
    + pose proof (lookup_lt_Some _ _ _ Hi) as Hlt.
      assert (ordered_text (N.of_nat i + 1) (px_execution r)
        ≠ ordered_text (px_last_observation_sequence r + 1) (px_execution r)) as Hne.
      { intros [Heq _]%ordered_text_small; unfold vlen in *; lia. }
      destruct (appended_other _ _ _ _ _ _ _ Hap Hne) as [E1 E2].
      apply (observed_frame p); [done..|]. exact (Hr _ _ Hi).
    + apply list_lookup_singleton_Some in Hi as [Hi [= <- <-]]. cbn.
      replace (N.of_nat i + 1)%N with (px_last_observation_sequence r + 1)%N by (unfold vlen in *; lia).
      by eapply appended_observed.
  - rewrite fmap_app, try_fold_app, Hd. cbn. by rewrite Ed.
  - rewrite Eo, Hc, fmap_app. unfold output_count, vlen. rewrite List.filter_app, length_app. cbn.
    destruct (is_some (ob_output o)); cbn; lia.
Qed.
Lemma histories_append p p' S r r' b o :
  histories_ok p S → S !! px_execution r = Some (SnapshotHot r) →
  (∀ e r, S !! e = Some (SnapshotHot r) → px_execution r = e ∧ (px_last_observation_sequence r ≤ u32_max)%N) →
  (px_last_observation_sequence r + 1 ≤ u32_max)%N →
  appended p p' (px_execution r) (px_last_observation_sequence r + 1) b o → extended r r' b o →
  histories_ok p' (<[px_execution r := SnapshotHot r']> S).
Proof.
  intros Hh Hr Hids Hb Hap Hex. pose proof Hh as [Hhist Hown Hart]. pose proof Hex as (Ee & El & _). split.
  - intros e' r0 [[<- [= <-]]|[Hne Hr0]]%lookup_insert_Some.
    + destruct (Hhist _ _ Hr) as [rows Hrows]. eauto using history_append.
    + destruct (Hhist _ _ Hr0) as [rows [Hl Hrow Hd Hc]]. exists rows. split; [done| |done..].
      intros i row Hi. destruct (Hids _ _ Hr0) as [He' Hu]. apply lookup_lt_Some in Hi as Hlt.
      assert (ordered_text (N.of_nat i + 1) (px_execution r0)
        ≠ ordered_text (px_last_observation_sequence r + 1) (px_execution r)) as Hk.
      { intros [_ Heq]%ordered_text_inj. congruence. }
      destruct (appended_other _ _ _ _ _ _ _ Hap Hk) as [E1 E2].
      apply (observed_frame p); [done..|]. exact (Hrow _ _ Hi).
  - intros k b' Hk. destruct (decide (k = ordered_text (px_last_observation_sequence r + 1) (px_execution r))) as [->|Hne].
    + exists (px_execution r), r', (px_last_observation_sequence r + 1)%N. rewrite lookup_insert_eq, El.
      split_and!; [done|lia..|done].
    + destruct (appended_other _ _ _ _ _ _ _ Hap Hne) as [E1 _]. rewrite E1 in Hk.
      destruct (Hown _ _ Hk) as (e' & r0 & i & Hr0 & Hi & ->). destruct (decide (e' = px_execution r)) as [->|Hne'].
      * exists (px_execution r), r', i. rewrite lookup_insert_eq, El. simplify_eq. split_and!; [done|lia..|done].
      * exists e', r0, i. by rewrite lookup_insert_ne.
  - intros k b' Hk. destruct (decide (k = ordered_text (px_last_observation_sequence r + 1) (px_execution r))) as [->|Hne].
    + rewrite (ap_row _ _ _ _ _ _ Hap), lookup_insert_eq. eauto.
    + destruct (appended_other _ _ _ _ _ _ _ Hap Hne) as [E1 E2]. rewrite E1. rewrite E2 in Hk. by eapply Hart.
Qed.

Lemma counters_frame p p' S G :
  t_peer_execution_accounting p' = t_peer_execution_accounting p → counters_ok p S G → counters_ok p' S G.
Proof. intros E []. split; rewrite ?E; done. Qed.
Lemma rows_frame p p' S : (∀ e, primary p' e = primary p e) → rows_ok p S → rows_ok p' S.
Proof. intros E []. split; [|done]. intros e. eapply stored_frame; eauto. Qed.
Lemma tally_same P S e s s' :
  S !! e = Some s → weight P s' = weight P s → tally P (<[e := s']> S) = tally P S.
Proof. intros Hs Hw. pose proof (tally_insert P S e s') as H. rewrite Hs in H. cbn in H. lia. Qed.
Lemma tombstones_insert S e s :
  (total_of archived_weight (<[e := s]> S) + default 0 (archived_weight <$> S !! e)
   = total_of archived_weight S + archived_weight s)%N.
Proof. apply total_insert. Qed.

(** The identity of a record: what no operation changes. *)
Definition identity r :=
  (px_caller r, px_relationship_generation r, px_request r, px_authority r, px_execution r,
   px_acceptance_sequence r, px_accepted_at_unix_ms r).
(** A record replaced by one with the same identity. *)
Lemma serves_replace p p' S G G' e r r' :
  serves p S G → S !! e = Some (SnapshotHot r) →
  identity r' = identity r → phase_ok (px_phase r') → (px_last_observation_sequence r' ≤ u32_max)%N →
  (∃ b, t_peer_executions p' = <[e := b]> (t_peer_executions p) ∧ decode_peer_record b = Ok r') →
  (t_peer_execution_tombstones p', t_peer_execution_locations p', t_peer_executions_by_request p')
    = (t_peer_execution_tombstones p, t_peer_execution_locations p, t_peer_executions_by_request p) →
  configuration p' = configuration p →
  moved (available_of (SnapshotHot r)) (available_of (SnapshotHot r')) e
    (t_peer_dispatch_available p) (t_peer_dispatch_available p') →
  moved (claim_of (SnapshotHot r)) (claim_of (SnapshotHot r')) e
    (t_peer_active_claims p) (t_peer_active_claims p') →
  moved (terminal_of (SnapshotHot r)) (terminal_of (SnapshotHot r')) e
    (t_peer_terminal_index p) (t_peer_terminal_index p') →
  counters_ok p' (<[e := SnapshotHot r']> S) G' →
  histories_ok p' (<[e := SnapshotHot r']> S) →
  serves p' (<[e := SnapshotHot r']> S) G'.
Proof.
  intros [Hr Hi _ Hf _] He Hid Hp Hlast (b & Hb & Hd) [= Et El Eq] Hconf Ha Hc Ht Hcount Hhist.
  pose proof (ro_snapshots _ _ Hr _ _ He) as [H1 H2 H3 H4 H5 H6].
  injection Hid as Icall Igen Ireq Iauth Iexec Iseq Iat.
  pose proof (ro_stored _ _ Hr e) as Hst. rewrite He in Hst. destruct Hst as (_ & Htomb & Hloc). cbn in *.
  split; [..|done| |done].
  - apply (rows_insert p); [done|..].
    + cbn. split_and!; [|by rewrite Et|by rewrite El]. exists b. by rewrite Hb, lookup_insert_eq.
    + split; cbn; try done; [congruence..|]. intros ? [= <-]. done.
    + intros e' Hne. unfold primary. by rewrite Et, El, Hb, lookup_insert_ne.
  - apply (indexes_insert p); rewrite ?He; try done; [cbn; congruence|]. rewrite Eq.
    eapply requests_same; [apply Hi|done|]. unfold request_of. cbn. congruence.
  - apply (config_frame p); [done|]. apply config_insert; [done|]. cbn. rewrite Icall.
    exact (fo_executions _ _ Hf e _ He).
Qed.
(** Phases that count alike leave the counters alone. *)
Lemma counters_same p p' S G e r r' :
  counters_ok p S G → S !! e = Some (SnapshotHot r) → identity r' = identity r →
  t_peer_execution_accounting p' = t_peer_execution_accounting p →
  is_active r' = is_active r → is_queued r' = is_queued r →
  counters_ok p' (<[e := SnapshotHot r']> S) G.
Proof.
  intros HC He Hid Eacc Hact Hq. injection Hid as Icall _ _ _ _ Iseq _.
  assert (∀ P, P r' = P r → tally P (<[e := SnapshotHot r']> S) = tally P S) as Hsame.
  { intros P HP. eapply tally_same; [done|]. cbn. by rewrite HP. }
  eapply counters_global; [done|..].
  - destruct HC. unfold recounted. rewrite !Hsame by (done || unfold is_done, is_active in *; by rewrite Hact).
    pose proof (tombstones_insert S e (SnapshotHot r')) as Ht. rewrite He in Ht. cbn in Ht.
    split_and!; [done..|lia|lia|done|done].
  - unfold sequenced. by rewrite He.
  - intros caller. apply Hsame. unfold active_for. by rewrite Hact, Icall.
  - intros ? [= <-] H. rewrite Icall. eapply co_known; [done..|]. by rewrite <-Hact.
  - rewrite Eacc. apply HC.
  - by rewrite Eacc.
Qed.
Lemma valid_global G G' :
  gp_schema_version G' = gp_schema_version G → (gp_next_acceptance_sequence G ≤ gp_next_acceptance_sequence G')%N →
  gp_archive_generation G' = gp_archive_generation G →
  gp_last_archived_at_unix_ms G' = gp_last_archived_at_unix_ms G →
  validate_global_accounting G = Ok G → validate_global_accounting G' = Ok G'.
Proof.
  unfold validate_global_accounting. intros -> Hn -> -> H. apply bind_Ok in H as ([] & H & _).
  apply refuse_if_Ok in H. apply orb_false_iff in H as [[H1 H2]%orb_false_iff H3]. rewrite H1, H3.
  apply N.eqb_neq in H2. by rewrite (proj2 (N.eqb_neq _ _)) by lia.
Qed.
(** Entry takes one execution out of the dispatch count. *)
Lemma counters_entered p p' S G e r r' b n :
  counters_ok p S G → S !! e = Some (SnapshotHot r) → identity r' = identity r →
  is_active r' = is_active r → is_queued r = true → is_queued r' = false →
  checked_sub (gp_dispatch_queued G) 1 = Some n →
  t_peer_execution_accounting p' = <[PEER_EXECUTION_GLOBAL_ACCOUNTING_KEY := b]> (t_peer_execution_accounting p) →
  decode b "peer global accounting" = Ok (G <| gp_dispatch_queued := n |>) →
  counters_ok p' (<[e := SnapshotHot r']> S) (G <| gp_dispatch_queued := n |>).
Proof.
  intros HC He Hid Hact Hq Hq' Hn Eacc Hb. injection Hid as Icall _ _ _ _ Iseq _.
  apply checked_sub_Some in Hn as [-> Hn].
  assert (∀ P, P r' = P r → tally P (<[e := SnapshotHot r']> S) = tally P S) as Hsame.
  { intros P HP. eapply tally_same; [done|]. cbn. by rewrite HP. }
  pose proof (tombstones_insert S e (SnapshotHot r')) as Ht. rewrite He in Ht. cbn in Ht.
  pose proof (tally_insert is_queued S e (SnapshotHot r')) as Hqueue. rewrite He in Hqueue. cbn in Hqueue.
  rewrite Hq, Hq' in Hqueue.
  eapply counters_global; [done|..].
  - destruct HC. unfold recounted. cbn.
    rewrite !(Hsame is_active), (Hsame is_done) by (done || unfold is_done, is_active in *; by rewrite Hact).
    split_and!; [done|lia|done|lia|done|done|]. by apply (valid_global G).
  - unfold sequenced. by rewrite He.
  - intros caller. apply Hsame. unfold active_for. by rewrite Hact, Icall.
  - intros ? [= <-] H. rewrite Icall. eapply co_known; [done..|]. by rewrite <-Hact.
  - rewrite Eacc. eexists. by rewrite lookup_insert_eq.
  - intros k Hk. by rewrite Eacc, lookup_insert_ne.
Qed.
(** A finished execution leaves the active counts and joins the finished ones. *)
Lemma counters_released p p' S G G' e r r' v b bv :
  counters_ok p S G → S !! e = Some (SnapshotHot r) → identity r' = identity r →
  is_active r = true → is_active r' = false → released_global G (is_queued r) = Ok G' →
  pr_peer v = px_caller r → pr_schema_version v = PEER_ACCOUNTING_SCHEMA_VERSION →
  (pr_active v + 1)%N = tally (active_for (px_caller r)) S →
  t_peer_execution_accounting p' = <[storage_key (pr_peer v) := bv]>
    (<[PEER_EXECUTION_GLOBAL_ACCOUNTING_KEY := b]> (t_peer_execution_accounting p)) →
  decode b "peer global accounting" = Ok G' → decode bv "peer relationship accounting" = Ok v →
  counters_ok p' (<[e := SnapshotHot r']> S) G'.
Proof.
  intros HC He Hid Hact Hact' Hrel Hcaller Hschema Hv Eacc Hb Hbv. injection Hid as Icall _ _ _ _ Iseq _.
  pose proof (tombstones_insert S e (SnapshotHot r')) as Ht. rewrite He in Ht. cbn in Ht.
  pose proof (λ P, tally_insert P S e (SnapshotHot r')) as Hins. rewrite He in Hins. cbn in Hins.
  eapply (counters_peer p p' S G G' e _ v); [done|..]; try done.
  - pose proof (Hins is_active) as H1. pose proof (Hins is_queued) as H2. pose proof (Hins is_done) as H3.
    assert (is_queued r' = false) as Hq' by (unfold is_queued, unentered, is_active in *; by rewrite Hact').
    assert (is_done r = false ∧ is_done r' = true) as [Hd Hd'] by (unfold is_done, is_active in *; by rewrite Hact, Hact').
    rewrite Hact, Hact' in H1. rewrite Hq' in H2. rewrite Hd, Hd' in H3.
    destruct HC. unfold released_global in Hrel. unfold recounted.
    destruct (is_queued r); inv_ok; simplify_eq;
      repeat match goal with
      | H : ok_or _ _ = Ok _ |- _ => apply ok_or_Ok in H
      | H : checked_sub _ _ = Some _ |- _ => apply checked_sub_Some in H as [-> ?]
      | H : checked_add _ _ = Some _ |- _ => apply checked_add_Some in H as [-> ?]
      end; cbn; (split_and!; [lia..|]); by apply (valid_global G).
  - unfold sequenced. by rewrite He.
  - intros caller Hne. specialize (Hins (active_for caller)). unfold active_for at 2 4 in Hins.
    rewrite Icall, !(bool_decide_eq_false_2 (_ = caller)), !andb_false_r in Hins by congruence. lia.
  - specialize (Hins (active_for (pr_peer v))). unfold active_for at 2 4 in Hins.
    rewrite Icall, !(bool_decide_eq_true_2 (_ = pr_peer v)), Hact, Hact' in Hins by congruence. cbn in Hins.
    rewrite Hcaller in *. lia.
  - intros ? [= <-]. congruence.
  - rewrite Eacc. exists b. rewrite lookup_insert_ne by apply storage_key_global. by rewrite lookup_insert_eq.
  - rewrite Eacc. exists bv. by rewrite lookup_insert_eq.
  - intros k H1 H2. by rewrite Eacc, !lookup_insert_ne.
Qed.
(** The global row replaced by one that counts the same. *)
Lemma counters_reset p p' S G G' b :
  counters_ok p S G →
  (gp_active G', gp_dispatch_queued G', gp_hot_terminal G', gp_tombstones G', gp_next_acceptance_sequence G')
    = (gp_active G, gp_dispatch_queued G, gp_hot_terminal G, gp_tombstones G, gp_next_acceptance_sequence G) →
  validate_global_accounting G' = Ok G' → decode b "peer global accounting" = Ok G' →
  t_peer_execution_accounting p' = <[PEER_EXECUTION_GLOBAL_ACCOUNTING_KEY := b]> (t_peer_execution_accounting p) →
  counters_ok p' S G'.
Proof.
  intros [] [= E1 E2 E3 E4 E5] Hv Hb Eacc. split; rewrite ?E1, ?E2, ?E3, ?E4, ?E5; try done.
  - exists b. by rewrite Eacc, lookup_insert_eq.
  - intros k bk Hk. rewrite Eacc, lookup_insert_ne by done. by apply co_peers0.
  - intros e r Hr Ha. rewrite Eacc, lookup_insert_ne by (symmetry; apply storage_key_global). by eapply co_known0.
Qed.
(** A finished execution leaves the hot counts for the tombstones. *)
Lemma counters_archived p p' S G G' e r t b :
  counters_ok p S G → S !! e = Some (SnapshotHot r) → is_active r = false →
  tm_acceptance_sequence t = px_acceptance_sequence r → archived_global G = Ok G' →
  t_peer_execution_accounting p' = <[PEER_EXECUTION_GLOBAL_ACCOUNTING_KEY := b]> (t_peer_execution_accounting p) →
  decode b "peer global accounting" = Ok G' →
  counters_ok p' (<[e := SnapshotArchived t]> S) G'.
Proof.
  intros HC He Ha Hseq Hg Eacc Hb.
  pose proof (tombstones_insert S e (SnapshotArchived t)) as Ht. rewrite He in Ht. cbn in Ht.
  pose proof (λ P, tally_insert P S e (SnapshotArchived t)) as Hins. rewrite He in Hins. cbn in Hins.
  eapply counters_global; [done|..].
  - pose proof (Hins is_active) as H1. pose proof (Hins is_queued) as H2. pose proof (Hins is_done) as H3.
    assert (is_queued r = false) as Hq by (unfold is_queued, unentered, is_active in *; by rewrite Ha).
    assert (is_done r = true) as Hd by (unfold is_done, is_active in *; by rewrite Ha).
    rewrite Ha in H1. rewrite Hq in H2. rewrite Hd in H3. destruct HC. unfold archived_global in Hg. unfold recounted.
    inv_ok. simplify_eq.
    repeat match goal with
    | H : ok_or _ _ = Ok _ |- _ => apply ok_or_Ok in H
    | H : checked_sub _ _ = Some _ |- _ => apply checked_sub_Some in H as [-> ?]
    | H : checked_add _ _ = Some _ |- _ => apply checked_add_Some in H as [-> ?]
    end; cbn; (split_and!; [lia..|]); by apply (valid_global G).
  - unfold sequenced. by rewrite He.
  - intros caller. specialize (Hins (active_for caller)). unfold active_for at 2 in Hins. rewrite Ha in Hins. cbn in Hins. lia.
  - done.
  - rewrite Eacc. exists b. by rewrite lookup_insert_eq.
  - intros k Hk. by rewrite Eacc, lookup_insert_ne.
Qed.
(** The rows of one history are gone. *)
Definition compacted p p' (e : string) (last : N) : Prop :=
  ∀ k, ((∃ i, (1 ≤ i ≤ last)%N ∧ k = ordered_text i e) ∧
          t_peer_observations p' !! k = None ∧ t_peer_observation_artifacts p' !! k = None)
       ∨ ((∀ i, (1 ≤ i ≤ last)%N → k ≠ ordered_text i e) ∧
          t_peer_observations p' !! k = t_peer_observations p !! k
          ∧ t_peer_observation_artifacts p' !! k = t_peer_observation_artifacts p !! k).
Lemma histories_archive p p' S r t :
  histories_ok p S → S !! px_execution r = Some (SnapshotHot r) →
  (∀ e r, S !! e = Some (SnapshotHot r) → px_execution r = e) →
  compacted p p' (px_execution r) (px_last_observation_sequence r) →
  histories_ok p' (<[px_execution r := SnapshotArchived t]> S).
Proof.
  intros [Hh Hown Ha] Hr Hids Hc. split.
  - intros e' r0 [[<- [=]]|[Hne Hr0]]%lookup_insert_Some.
    destruct (Hh _ _ Hr0) as [rows [H1 H2 H3 H4]]. exists rows. split; [done| |done..].
    intros i row Hi. destruct (Hc (ordered_text (N.of_nat i + 1) (px_execution r0))) as [[(j & _ & Heq) _]|(_ & E1 & E2)].
    + apply ordered_text_inj in Heq as [_ Heq]. by rewrite (Hids _ _ Hr0) in Heq.
    + apply (observed_frame p); [done..|]. exact (H2 _ _ Hi).
  - intros k b Hk. destruct (Hc k) as [(_ & Hn & _)|(Hno & E1 & _)]; [congruence|]. rewrite E1 in Hk.
    destruct (Hown _ _ Hk) as (e' & r0 & i & Hr0 & Hi & ->). exists e', r0, i.
    rewrite lookup_insert_ne; [done|]. intros <-. simplify_eq. by apply (Hno i).
  - intros k b Hk. destruct (Hc k) as [(_ & _ & Hn)|(_ & E1 & E2)]; [congruence|].
    rewrite E1. rewrite E2 in Hk. by eapply Ha.
Qed.
(** A new execution has no history. *)
Lemma histories_new p p' S r :
  histories_ok p S → observations_of p' = observations_of p → S !! px_execution r = None →
  px_last_observation_sequence r = 0%N → px_observation_digest r = observation_genesis_digest →
  pa_outputs (px_accounting r) = 0%N → histories_ok p' (<[px_execution r := SnapshotHot r]> S).
Proof.
  intros Hh E Hr H0 Hd Ho. apply (histories_frame _ p') in Hh; [|done]. destruct Hh as [Hh Hown Ha]. split; [|..|done].
  - intros e r0 [[<- [= <-]]|[_ Hr0]]%lookup_insert_Some; [|eauto]. exists []. unfold record_history.
    rewrite H0, Hd, Ho. by split.
  - intros k b Hk. destruct (Hown _ _ Hk) as (e & r0 & i & Hr0 & Hi & ->). exists e, r0, i.
    rewrite lookup_insert_ne; [done|]. congruence.
Qed.
(** An admission takes the next sequence and one place in each count. *)
Lemma counters_admitted p p' S G G' r v v' b bv :
  counters_ok p S G → S !! px_execution r = None → px_phase r = PhAvailable (px_accepted_at_unix_ms r) →
  px_acceptance_sequence r = gp_next_acceptance_sequence G → admitted_global G = Ok G' →
  pr_peer v = px_caller r → pr_schema_version v = PEER_ACCOUNTING_SCHEMA_VERSION →
  pr_active v = tally (active_for (px_caller r)) S → admitted_peer v = Ok v' →
  t_peer_execution_accounting p' = <[storage_key (pr_peer v') := bv]>
    (<[PEER_EXECUTION_GLOBAL_ACCOUNTING_KEY := b]> (t_peer_execution_accounting p)) →
  decode b "peer global accounting" = Ok G' → decode bv "peer relationship accounting" = Ok v' →
  counters_ok p' (<[px_execution r := SnapshotHot r]> S) G'.
Proof.
  intros HC He Hp Hseq Hg Hcaller Hschema Hv Hv' Eacc Hb Hbv.
  pose proof (tombstones_insert S (px_execution r) (SnapshotHot r)) as Ht. rewrite He in Ht. cbn in Ht.
  pose proof (λ P, tally_insert P S (px_execution r) (SnapshotHot r)) as Hins. rewrite He in Hins. cbn in Hins.
  assert (is_active r = true ∧ is_queued r = true ∧ is_done r = false) as (Ha & Hq & Hd)
    by (unfold is_active, is_queued, is_done; by rewrite Hp).
  unfold admitted_global in Hg. unfold admitted_peer in Hv'. inv_ok. inv_ok. simplify_eq.
  repeat match goal with
  | H : ok_or _ _ = Ok _ |- _ => apply ok_or_Ok in H
  | H : checked_add_u32 _ _ = Some _ |- _ => apply checked_add_u32_Some in H as [-> ?]
  | H : checked_add _ _ = Some _ |- _ => apply checked_add_Some in H as [-> ?]
  end.
  eapply (counters_peer p p' S G _ _ _ (v <| pr_active := (pr_active v + 1)%N |> <| pr_revision := (pr_revision v + 1)%N |>));
    cbn in *; try done.
  - pose proof (Hins is_active) as H1'. pose proof (Hins is_queued) as H2'. pose proof (Hins is_done) as H3'.
    rewrite Ha in H1'. rewrite Hq in H2'. rewrite Hd in H3'. destruct HC. unfold recounted. cbn.
    split_and!; [lia..|]. apply (valid_global G); cbn; done || lia.
  - unfold sequenced. rewrite He. cbn. split; [done|lia].
  - intros caller Hne. specialize (Hins (active_for caller)). unfold active_for at 3 in Hins.
    rewrite (bool_decide_eq_false_2 (_ = caller)), andb_false_r in Hins by congruence. lia.
  - specialize (Hins (active_for (pr_peer v))). unfold active_for at 3 in Hins.
    rewrite (bool_decide_eq_true_2 (_ = pr_peer v)), Ha in Hins by congruence. cbn in Hins.
    rewrite Hcaller in *. lia.
  - intros ? [= <-]. done.
  - rewrite Eacc. exists b. rewrite lookup_insert_ne by apply storage_key_global. by rewrite lookup_insert_eq.
  - rewrite Eacc. exists bv. by rewrite lookup_insert_eq.
  - intros k Hk1 Hk2. by rewrite Eacc, !lookup_insert_ne.
Qed.

(** ** Evolution *)

(** Not entered, entered, of uncertain outcome, terminal. *)
Definition stage (phase : PeerExecutionPhase) : N :=
  match phase with
  | PhAvailable _ | PhClaimed _ | PhCancellation _ None => 0
  | PhEntered _ _ | PhCancellation _ (Some _) => 1
  | PhUncertain _ _ => 2
  | PhTerminal _ _ => 3
  end.
Record record_evolves r r' : Prop := {
  re_identity : identity r' = identity r;
  re_stage : (stage (px_phase r) ≤ stage (px_phase r'))%N;
  re_entered : stage (px_phase r) = 1%N → stage (px_phase r') = 1%N →
    entry_evidence (px_phase r') = entry_evidence (px_phase r);
  re_finished : (2 ≤ stage (px_phase r))%N → stage (px_phase r') = stage (px_phase r) →
    px_phase r' = px_phase r;
  re_revision : (px_revision r ≤ px_revision r')%N;
  re_history : ∃ documents,
    try_fold observation_link_digest (px_observation_digest r) documents = Ok (px_observation_digest r')
    ∧ px_last_observation_sequence r' = (px_last_observation_sequence r + vlen documents)%N;
  re_cancellation : ∀ c, px_cancellation r = Some c → ∃ c', px_cancellation r' = Some c'
    ∧ xr_request c' = xr_request c ∧ xr_requested_at_unix_ms c' = xr_requested_at_unix_ms c
    ∧ (is_Some (xr_acknowledgement c) → c' = c)
}.
#[global] Instance record_evolves_preorder : PreOrder record_evolves.
Proof.
  split.
  - intros r. split; try done; [exists []; split; [done|unfold vlen; cbn; lia]|]. intros c Hc. by exists c.
  - intros r1 r2 r3 [I1 S1 E1 F1 R1 (d1 & D1 & L1) C1] [I2 S2 E2 F2 R2 (d2 & D2 & L2) C2].
    split; [congruence|lia| | |lia| |].
    + intros H1 H3. rewrite E2, E1 by lia. done.
    + intros H1 H3. rewrite F2, F1 by lia. done.
    + exists (d1 ++ d2). rewrite try_fold_app, D1. split; [done|]. unfold vlen in *. rewrite length_app. lia.
    + intros c Hc. destruct (C1 c Hc) as (c' & Hc' & Hq & Ha & Hk), (C2 c' Hc') as (c'' & Hc'' & Hq' & Ha' & Hk').
      exists c''. split_and!; [done|congruence..|]. intros Hack. assert (c' = c) as -> by auto. auto.
Qed.
(** What a tombstone keeps of the record it replaces. *)
Definition tombstone_of r (t : PeerExecutionTombstone) : Prop :=
  ∃ disposition outputs archived_at, t = make_tombstone r disposition outputs archived_at
  ∧ match disposition with
    | DispositionTerminal _ => stage (px_phase r) = 3%N
    | DispositionUncertain at_ reason => px_phase r = PhUncertain at_ reason
    end.
Definition snapshot_evolves (s s' : PeerExecutionSnapshot) : Prop :=
  match s, s' with
  | SnapshotHot r, SnapshotHot r' => record_evolves r r'
  | SnapshotHot r, SnapshotArchived t => ∃ r', record_evolves r r' ∧ tombstone_of r' t
  | SnapshotArchived t, SnapshotArchived t' => t' = t
  | SnapshotArchived _, SnapshotHot _ => False
  end.
#[global] Instance snapshot_evolves_preorder : PreOrder snapshot_evolves.
Proof.
  split.
  - intros [r|t]; cbn; done.
  - intros [r1|t1] [r2|t2] [r3|t3]; cbn; try done.
    + apply transitivity.
    + intros H1 (r' & H2 & Ht). exists r'. split; [by etrans|done].
    + by intros H ->.
    + by intros -> ->.
Qed.
Lemma snapshot_evolves_request s s' :
  snapshot_evolves s s' → ps_caller s' = ps_caller s ∧ ps_request_id s' = ps_request_id s.
Proof.
  assert (∀ r r', identity r' = identity r → px_caller r' = px_caller r ∧ px_request r' = px_request r) as Hid
    by by intros r r' [= -> _ -> _ _ _ _].
  destruct s as [r|t], s' as [r'|t']; cbn; try done.
  - intros [[-> ->]%Hid _ _ _ _ _ _]. done.
  - intros (r' & [[<- <-]%Hid _ _ _ _ _ _] & d & outputs & at_ & -> & _). done.
  - by intros ->.
Qed.
(** Executions are never forgotten. *)
Definition evolves S S' : Prop :=
  ∀ e s, S !! e = Some s → ∃ s', S' !! e = Some s' ∧ snapshot_evolves s s'.
#[global] Instance evolves_preorder : PreOrder evolves.
Proof.
  split.
  - intros S e s Hs. by exists s.
  - intros S1 S2 S3 H1 H2 e s Hs. destruct (H1 e s Hs) as (s' & Hs' & ?), (H2 e s' Hs') as (s'' & ? & ?).
    exists s''. split; [done|]. by etrans.
Qed.
Lemma evolves_insert S e s :
  (∀ old, S !! e = Some old → snapshot_evolves old s) → evolves S (<[e := s]> S).
Proof.
  intros H e' s' Hs'. destruct (decide (e' = e)) as [->|Hne].
  - exists s. rewrite lookup_insert_eq. auto.
  - exists s'. by rewrite lookup_insert_ne.
Qed.
(** The tables describe executions that evolved from [S0]. *)
Definition grown S0 (V : Tables) : Prop := ∃ S G, serves (t_peers V) S G ∧ evolves S0 S.
Lemma grown_intro S0 V S S' G' :
  evolves S0 S → serves (t_peers V) S' G' → evolves S S' → grown S0 V.
Proof. intros. exists S', G'. split; [done|by etrans]. Qed.
End state.
