(* ===== verification/PeerLaws.v ===== *)
(** * The serving executions stay consistent

    Every operation of [PeerStore] keeps the primary rows, the indexes, the histories and
    the counters describing one set of executions, whatever the engine does. *)
From S2P Require Import Prelude Effects Contracts Capability Blueprint Authority.
From S2P Require Import Model Workspace Persistence Dispatch Managed PeerProtocol Storage ManagedStore PeerStore.
From S2P Require Import StorageLaws Transactions PeerState.

(** The derived readers read back what the derived writers wrote. *)
Class PeerCodecLaw `{codec : !PeerCodec} : Prop := {
  pl_relationship :: StoredLaw ServingCallerState;
  pl_catalog :: StoredLaw ServingCatalogState;
  pl_execution :: StoredLaw PeerExecutionRecord;
  pl_tombstone :: StoredLaw PeerExecutionTombstone;
  pl_observation :: StoredLaw PeerObservation;
  pl_artifact :: StoredLaw ArtifactReference;
  pl_global :: StoredLaw GlobalPeerAccounting;
  pl_per_peer :: StoredLaw PerPeerAccounting
}.

(** Steps while nothing is to be decided. *)
Ltac steps := repeat (run_step; try assumption).
Ltac unwrap := repeat match goal with H : ok_or _ _ = Ok _ |- _ => apply ok_or_Ok in H; simplify_eq end.

Ltac stable := bool_prop; repeat match goal with H : ¬ (_ ≠ _) |- _ => apply dec_stable in H end.


Section laws.
Context {O : Type} `{engine : !Engine O, managed : !ManagedCodec, codec : !PeerCodec, laws : !PeerCodecLaw}.
Abbreviation txn := (st (Redb O) PersistenceError).
Implicit Types (S : serving) (T V : Tables) (G : GlobalPeerAccounting) (r : PeerExecutionRecord).

(** ** Reads *)

Lemma runs_relationship T V S caller Q (R : Tables → Prop) :
  config_ok (t_peers V) S →
  (∀ o, (∀ v, o = Some v → cr_caller v = caller
       ∧ t_peer_relationships (t_peers V) !! storage_key caller ≠ None
       ∧ t_serving_host_identity (t_peers V) !! "host" = Some (sc_host caller)) →
     (o = None → t_peer_relationships (t_peers V) !! storage_key caller = None) → Q o T V) →
  R T → runs (O := O) T V (relationship_in_transaction caller) Q R.
Proof.
  intros [_ Hc _ _] HQ HR. unfold relationship_in_transaction. do 2 (run_step; run_step; [|done]).
  cbn [tb_rows PEER_RELATIONSHIPS peer_table]. run_step; [|done].
  destruct (t_peer_relationships (t_peers V) !! storage_key caller) as [b|] eqn:Hb; cbn in *; inv_ok; subst.
  - destruct (Hc _ _ Hb) as (v & Hv & _ & Hk%storage_key_inj & Hh).
    match goal with H : decode b _ = Ok ?x |- _ => assert (x = v) as -> by congruence end.
    apply HQ; [|done]. intros ? [= <-]. subst caller. done.
  - by apply HQ.
Qed.
Lemma runs_execution T V S e Q (R : Tables → Prop) :
  rows_ok (t_peers V) S → Q (S !! e ≫= hot_of) T V → R T →
  runs (O := O) T V (execution_optional_in_transaction e) Q R.
Proof.
  intros [Hs _] HQ HR. specialize (Hs e). unfold execution_optional_in_transaction, execution_location_in_transaction.
  do 2 (run_step; run_step; [|done]). cbn [tb_rows PEER_EXECUTIONS peer_table].
  destruct (S !! e) as [[r|t]|]; cbn in *.
  - destruct Hs as ((b & -> & Hb) & _ & Hl). steps. congruence.
  - destruct Hs as (-> & _). by run_step.
  - destruct Hs as (-> & _). by run_step.
Qed.
Lemma runs_owned T V S owner e Q (R : Tables → Prop) :
  rows_ok (t_peers V) S →
  (∀ r, S !! e = Some (SnapshotHot r) → px_caller r = owner → Q r T V) → R T →
  runs (O := O) T V (owned_execution_in_transaction owner e) Q R.
Proof.
  intros Hrows HQ HR. unfold owned_execution_in_transaction. run_step.
  apply (runs_execution _ _ S); [done| |done]. destruct (S !! e) as [[r|t]|] eqn:He; (run_step; [|done]); unwrap; cbn in *; try done.
  case_bool_decide; [|done]. simplify_eq. by apply HQ.
Qed.
Lemma parse_id e id : parse_execution_id e = Ok id → id = e.
Proof. unfold parse_execution_id, PeerExecutionId_new. intros H. apply map_err_Ok in H. by inv_ok. Qed.
Lemma runs_execution_text T V S e Q (R : Tables → Prop) :
  rows_ok (t_peers V) S → (∀ r, S !! e = Some (SnapshotHot r) → Q r T V) → R T →
  runs (O := O) T V (execution_in_transaction_text e) Q R.
Proof.
  intros Hrows HQ HR. unfold execution_in_transaction_text. run_step. run_step; [|done].
  match goal with H : parse_execution_id _ = _ |- _ => apply parse_id in H as -> end.
  run_step. apply (runs_execution _ _ S); [done| |done].
  destruct (S !! e) as [[r|t]|]; (run_step; [|done]); unwrap; cbn in *; simplify_eq; by apply HQ.
Qed.
Lemma runs_snapshot T V S e Q (R : Tables → Prop) :
  rows_ok (t_peers V) S → Q (S !! e) T V → R T → runs (O := O) T V (read_snapshot e) Q R.
Proof.
  intros [Hs _] HQ HR. specialize (Hs e). unfold read_snapshot.
  do 4 (run_step; run_step; [|done]). cbn [tb_rows PEER_EXECUTION_LOCATIONS peer_table].
  destruct (S !! e) as [[r|t]|]; cbn in Hs.
  - destruct Hs as ((b & He & Hb) & _ & ->). cbn. run_step. run_step; [|done]. cbn. rewrite He.
    steps. unwrap. congruence.
  - destruct Hs as (_ & (b & He & Hb) & ->). cbn. run_step. run_step; [|done]. cbn. rewrite He.
    steps. unwrap. congruence.
  - destruct Hs as (? & ? & ->). do 2 (run_step; run_step; [|done]). run_step. run_step; [|done]. by run_step.
Qed.
Lemma runs_snapshot_text T V S e Q (R : Tables → Prop) :
  rows_ok (t_peers V) S → (∀ s, S !! e = Some s → Q s T V) → R T →
  runs (O := O) T V (snapshot_in_transaction_text e) Q R.
Proof.
  intros Hrows HQ HR. unfold snapshot_in_transaction_text. run_step. run_step; [|done].
  match goal with H : parse_execution_id _ = _ |- _ => apply parse_id in H as -> end.
  run_step. apply (runs_snapshot _ _ S); [done| |done]. run_step; [|done].
  match goal with H : ok_or _ _ = Ok _ |- _ => apply ok_or_Ok in H end. by apply HQ.
Qed.
Lemma runs_global T V S G Q (R : Tables → Prop) :
  counters_ok (t_peers V) S G → Q G T V → R T → runs (O := O) T V global_accounting Q R.
Proof.
  intros [(b & Hb & Hd) Hv] HQ HR. unfold global_accounting. do 2 (run_step; run_step; [|done]). cbn. rewrite Hb.
  steps. unwrap. congruence.
Qed.
(** The accounting a caller has: its row, or nothing yet. *)
Definition accounted (p : PeerTables) (caller : ServingCaller) (v : PerPeerAccounting) : Prop :=
  match t_peer_execution_accounting p !! storage_key caller with
  | None => v = PerPeerAccounting_empty caller
  | Some b => decode b "peer relationship accounting" = Ok v
  end.
Lemma accounted_active p S G caller v :
  counters_ok p S G → accounted p caller v →
  pr_peer v = caller ∧ pr_schema_version v = PEER_ACCOUNTING_SCHEMA_VERSION
  ∧ pr_active v = tally (active_for caller) S.
Proof.
  intros HC Hv. unfold accounted in Hv.
  destruct (t_peer_execution_accounting p !! storage_key caller) as [b|] eqn:Hb.
  - destruct (co_peers _ _ _ HC _ _ (storage_key_global _) Hb) as (v' & Hv' & Hk%storage_key_inj & ? & ?). subst caller.
    assert (v' = v) as -> by congruence. done.
  - subst v. split_and!; [done..|]. cbn. symmetry. unfold tally.
    cut (∀ e s, S !! e = Some s → weight (active_for caller) s = 0%N).
    { clear. intros H. induction S as [|e s S He IH] using map_ind; [done|].
      rewrite total_new by done. rewrite IH.
      - rewrite (H e s); [done|]. apply lookup_insert_eq.
      - intros e' s' Hs'. apply (H e'). rewrite lookup_insert_ne; [done|congruence]. }
    intros e [r|t] Hr; [|done]. cbn. unfold active_for. destruct (is_active r) eqn:Ha; [|done]. cbn.
    case_bool_decide; [|done]. subst. by destruct (co_known _ _ _ HC _ _ Hr Ha) as [? ?]; congruence.
Qed.
Lemma runs_peer_accounting T V caller Q (R : Tables → Prop) :
  (∀ v, accounted (t_peers V) caller v → Q v T V) → R T → runs (O := O) T V (peer_accounting caller) Q R.
Proof.
  intros HQ HR. unfold peer_accounting. do 2 (run_step; run_step; [|done]). cbn.
  run_step. run_step; [|done]. run_step. run_step; [|done]. run_step. apply HQ. unfold accounted.
  destruct (t_peer_execution_accounting (t_peers V) !! storage_key caller) as [b|] eqn:Hb; cbn in *; inv_ok; subst; done.
Qed.

(** ** Writes *)

Lemma decode_record_put r b :
  validate_record r = Ok tt → encode r "peer execution" = Ok b → decode_peer_record b = Ok r.
Proof. intros Hv He%decode_encoded. unfold decode_peer_record. rewrite He. cbn. by rewrite Hv. Qed.
Lemma runs_put_execution T V r Q (R : Tables → Prop) :
  (∀ b, decode_peer_record b = Ok r →
     Q tt T (tb_put PEER_EXECUTIONS (<[px_execution r := b]> (tb_rows PEER_EXECUTIONS V)) V)) →
  R T → runs (O := O) T V (put_execution r) Q R.
Proof.
  intros HQ HR. unfold put_execution. steps. destruct a. apply HQ. by apply decode_record_put.
Qed.
(** A row taken out of a queue must have been the one of the execution. *)
Lemma runs_remove_claim T V e claim Q (R : Tables → Prop) :
  (let k := ordered_text (dc_lease_expires_at_unix_ms claim) e in
   t_peer_active_claims (t_peers V) !! k = Some e →
   Q tt T (tb_put PEER_ACTIVE_CLAIMS (delete k (tb_rows PEER_ACTIVE_CLAIMS V)) V)) →
  R T → runs (O := O) T V (remove_claim_index e claim) Q R.
Proof.
  intros HQ HR. unfold remove_claim_index. steps. stable.
  match goal with H : claim_key _ _ = _ |- _ => apply ordered_key_Ok in H as [_ ->] end. by apply HQ.
Qed.
Lemma runs_remove_terminal T V e at_ Q (R : Tables → Prop) :
  (let k := ordered_text at_ e in
   t_peer_terminal_index (t_peers V) !! k = Some e →
   Q tt T (tb_put PEER_TERMINAL_INDEX (delete k (tb_rows PEER_TERMINAL_INDEX V)) V)) →
  R T → runs (O := O) T V (remove_terminal_index e at_) Q R.
Proof.
  intros HQ HR. unfold remove_terminal_index. steps. stable.
  match goal with H : ordered_key _ _ = _ |- _ => apply ordered_key_Ok in H as [_ ->] end. by apply HQ.
Qed.
Lemma runs_insert_terminal T V r at_ Q (R : Tables → Prop) :
  (let k := ordered_text at_ (px_execution r) in
   Q tt T (tb_put PEER_TERMINAL_INDEX (<[k := px_execution r]> (tb_rows PEER_TERMINAL_INDEX V)) V)) →
  R T → runs (O := O) T V (insert_terminal_index r at_) Q R.
Proof.
  intros HQ HR. unfold insert_terminal_index. steps.
  match goal with H : ordered_key _ _ = _ |- _ => apply ordered_key_Ok in H as [_ ->] end. done.
Qed.
Lemma runs_insert_available T V r Q (R : Tables → Prop) :
  (let k := ordered_text (px_acceptance_sequence r) (px_execution r) in
   Q tt T (tb_put PEER_DISPATCH_AVAILABLE (<[k := px_execution r]> (tb_rows PEER_DISPATCH_AVAILABLE V)) V)) →
  R T → runs (O := O) T V (insert_available r) Q R.
Proof.
  intros HQ HR. unfold insert_available. steps.
  match goal with H : available_key _ = _ |- _ => apply ordered_key_Ok in H as [_ ->] end. done.
Qed.
Lemma runs_put_global T V G Q (R : Tables → Prop) :
  (∀ b, decode b "peer global accounting" = Ok G →
     Q tt T (tb_put PEER_EXECUTION_ACCOUNTING (<[PEER_EXECUTION_GLOBAL_ACCOUNTING_KEY := b]>
       (tb_rows PEER_EXECUTION_ACCOUNTING V)) V)) →
  R T → runs (O := O) T V (put_global_accounting G) Q R.
Proof. intros HQ HR. unfold put_global_accounting. steps. apply HQ. by apply decode_encoded. Qed.
Lemma runs_put_peer T V v Q (R : Tables → Prop) :
  (∀ b, decode b "peer relationship accounting" = Ok v →
     Q tt T (tb_put PEER_EXECUTION_ACCOUNTING (<[storage_key (pr_peer v) := b]>
       (tb_rows PEER_EXECUTION_ACCOUNTING V)) V)) →
  R T → runs (O := O) T V (put_peer_accounting v) Q R.
Proof. intros HQ HR. unfold put_peer_accounting. steps. apply HQ. by apply decode_encoded. Qed.
Lemma bump_record_Ok r r' : bump_record r = Ok r' → r' = r <| px_revision := (px_revision r + 1)%N |>.
Proof.
  unfold bump_record. intros H. inv_ok. unwrap. by match goal with H : checked_add _ _ = Some _ |- _ => apply checked_add_Some in H as [-> _] end.
Qed.
Lemma runs_release T V S G caller queued Q (R : Tables → Prop) :
  counters_ok (t_peers V) S G →
  (∀ G' v b bv, released_global G queued = Ok G' → pr_peer v = caller →
     pr_schema_version v = PEER_ACCOUNTING_SCHEMA_VERSION →
     (pr_active v + 1)%N = tally (active_for caller) S →
     decode b "peer global accounting" = Ok G' → decode bv "peer relationship accounting" = Ok v →
     Q tt T (tb_put PEER_EXECUTION_ACCOUNTING (<[storage_key (pr_peer v) := bv]>
       (<[PEER_EXECUTION_GLOBAL_ACCOUNTING_KEY := b]> (t_peer_execution_accounting (t_peers V))))
       (tb_put PEER_EXECUTION_ACCOUNTING (<[PEER_EXECUTION_GLOBAL_ACCOUNTING_KEY := b]>
         (t_peer_execution_accounting (t_peers V))) V))) →
  R T → runs (O := O) T V (release_active_accounting caller queued) Q R.
Proof.
  intros HC HQ HR. unfold release_active_accounting. run_step. apply (runs_global _ _ S G); [done| |done].
  run_step. apply runs_peer_accounting; [|done]. intros v (Hv & Hs & Ha)%(accounted_active _ S G); [|done]. steps. unwrap.
  apply runs_put_global; [|done]. intros b Hb. apply runs_put_peer; [|done]. intros bv Hbv.
  match goal with H : checked_sub (pr_active v) 1 = Some _ |- _ => apply checked_sub_Some in H as [-> ?] end.
  eapply (HQ _ (v <| pr_active := _ |> <| pr_revision := _ |>)); cbn; try done. lia.
Qed.

(** ** Frames: managed resources leave the serving tables alone *)

Lemma peers_membership index count_key id active :
  (∀ x V, t_peers (tb_put index x V) = t_peers V) →
  local (O := O) t_peers (set_membership index count_key id active).
Proof.
  intros Hi. unfold set_membership, capacity_count.
  solve_local; first [by apply local_insert|by apply local_remove].
Qed.
Lemma peers_put_record i : local (O := O) t_peers (put_record i).
Proof. unfold put_record. solve_local. by apply peers_membership. Qed.
Lemma peers_read_record name : local (O := O) t_peers (read_record name).
Proof. unfold read_record. solve_local. Qed.
#[local] Hint Resolve peers_put_record peers_read_record : local.
Lemma peers_locate id : local (O := O) t_peers (locate id).
Proof. unfold locate. solve_local. Qed.
#[local] Hint Resolve peers_locate : local.
Lemma peers_accept r : local (O := O) t_peers (accept_serving_resources r).
Proof. unfold accept_serving_resources, acquire. solve_local. Qed.
Lemma peers_enter r : local (O := O) t_peers (enter_serving_resources r).
Proof. unfold enter_serving_resources, entry. solve_local. Qed.
Lemma peers_terminal r : local (O := O) t_peers (terminal_serving_resources r).
Proof. unfold terminal_serving_resources, terminal. solve_local. Qed.

(** What a commit makes durable is established once. *)
Lemma runs_committed T V Q (R : Tables → Prop) :
  R V → (R V → Q tt V V) → R T → runs (O := O) T V commit Q R.
Proof. intros HV HQ HT. apply runs_commit; auto. Qed.
End laws.

(** Symbolic execution with the operations of the store. *)
Ltac serving_step :=
  lazymatch goal with
  | |- runs _ _ (put_execution _) _ _ => apply runs_put_execution; [intros ? ?|]
  | |- runs _ _ (remove_claim_index _ _) _ _ => apply runs_remove_claim; [cbv zeta; intros ?|]
  | |- runs _ _ (remove_terminal_index _ _) _ _ => apply runs_remove_terminal; [cbv zeta; intros ?|]
  | |- runs _ _ (insert_terminal_index _ _) _ _ => apply runs_insert_terminal; [cbv zeta|]
  | |- runs _ _ (insert_available _) _ _ => apply runs_insert_available; [cbv zeta|]
  | |- runs _ _ (put_global_accounting _) _ _ => apply runs_put_global; [intros ? ?|]
  | |- runs _ _ (put_peer_accounting _) _ _ => apply runs_put_peer; [intros ? ?|]
  | |- runs _ _ commit _ _ => apply runs_committed; [|intros ?|]
  | |- runs _ _ (lift (bump_record _)) _ _ =>
      let H := fresh in apply runs_lift; [intros ? H; apply bump_record_Ok in H|]
  | |- _ => run_step
  end; cbv beta.
Ltac serve := repeat (serving_step; try assumption).
