(* ===== verification/PeerSteps.v ===== *)
(** * Every operation on serving executions keeps them consistent

    Each operation of [PeerStore] takes tables that describe one set of executions to
    tables that describe what those executions evolved into. *)
From S2P Require Import Prelude Effects Contracts Capability Blueprint Authority.
From S2P Require Import Model Workspace Persistence Dispatch Managed PeerProtocol Storage ManagedStore PeerStore.
From S2P Require Import StorageLaws Transactions PeerState PeerLaws.

Section steps.
Context {O : Type} `{engine : !Engine O, managed : !ManagedCodec, codec : !PeerCodec, laws : !PeerCodecLaw}.
Abbreviation txn := (st (Redb O) PersistenceError).
Implicit Types (S : serving) (T V : Tables) (G : GlobalPeerAccounting) (r : PeerExecutionRecord).
Variable S0 : serving.

Lemma grown_self S V G : serves (t_peers V) S G → evolves S0 S → grown S0 V.
Proof. intros. by exists S, G. Qed.
(** What a phase may become, and a cancellation. *)
Definition phase_step (phase phase' : PeerExecutionPhase) : Prop :=
  (stage phase ≤ stage phase')%N
  ∧ (stage phase = 1%N → stage phase' = 1%N → entry_evidence phase' = entry_evidence phase)
  ∧ ((2 ≤ stage phase)%N → stage phase' = stage phase → phase' = phase).
Definition cancellation_step (c c' : option PeerCancellationRecord) : Prop :=
  ∀ x, c = Some x → ∃ x', c' = Some x' ∧ xr_request x' = xr_request x
    ∧ xr_requested_at_unix_ms x' = xr_requested_at_unix_ms x ∧ (is_Some (xr_acknowledgement x) → x' = x).
Lemma cancellation_same c : cancellation_step c c.
Proof. intros x ->. by exists x. Qed.
(** The next revision of a record, in another phase. *)
Definition revised r (phase : PeerExecutionPhase) (cancellation : option PeerCancellationRecord) :=
  r <| px_phase := phase |> <| px_cancellation := cancellation |> <| px_revision := (px_revision r + 1)%N |>.
Lemma revised_evolves r phase cancellation :
  phase_step (px_phase r) phase → cancellation_step (px_cancellation r) cancellation →
  record_evolves r (revised r phase cancellation).
Proof.
  intros (? & ? & ?) Hc. split; try done; [cbn; lia|]. exists []. cbn. split; [done|]. unfold vlen. cbn. lia.
Qed.
(** The keys a phase has in the queues. *)
Definition available_in r (phase : PeerExecutionPhase) : option string :=
  if dispatchable phase then Some (ordered_text (px_acceptance_sequence r) (px_execution r)) else None.
Definition claim_in r (phase : PeerExecutionPhase) : option string :=
  (λ claim, ordered_text (dc_lease_expires_at_unix_ms claim) (px_execution r)) <$> phase_claim phase.
Definition terminal_in r (phase : PeerExecutionPhase) : option string :=
  (λ at_, ordered_text at_ (px_execution r)) <$> finished_at phase.

(** The tables after a record was replaced, but for the counters and the histories. *)
Record replaced V V' r r' : Prop := {
  rc_row : ∃ b, t_peer_executions (t_peers V') = <[px_execution r := b]> (t_peer_executions (t_peers V))
    ∧ decode_peer_record b = Ok r';
  rc_tombstones : t_peer_execution_tombstones (t_peers V') = t_peer_execution_tombstones (t_peers V);
  rc_locations : t_peer_execution_locations (t_peers V') = t_peer_execution_locations (t_peers V);
  rc_requests : t_peer_executions_by_request (t_peers V') = t_peer_executions_by_request (t_peers V);
  rc_config : configuration (t_peers V') = configuration (t_peers V);
  rc_available : moved (available_in r (px_phase r)) (available_in r (px_phase r')) (px_execution r)
    (t_peer_dispatch_available (t_peers V)) (t_peer_dispatch_available (t_peers V'));
  rc_claims : moved (claim_in r (px_phase r)) (claim_in r (px_phase r')) (px_execution r)
    (t_peer_active_claims (t_peers V)) (t_peer_active_claims (t_peers V'));
  rc_terminal : moved (terminal_in r (px_phase r)) (terminal_in r (px_phase r')) (px_execution r)
    (t_peer_terminal_index (t_peers V)) (t_peer_terminal_index (t_peers V'))
}.
Lemma grown_replaced V V' S G G' r r' :
  serves (t_peers V) S G → evolves S0 S → S !! px_execution r = Some (SnapshotHot r) →
  record_evolves r r' → phase_ok (px_phase r') → (px_last_observation_sequence r' ≤ u32_max)%N →
  replaced V V' r r' → counters_ok (t_peers V') (<[px_execution r := SnapshotHot r']> S) G' →
  histories_ok (t_peers V') (<[px_execution r := SnapshotHot r']> S) → grown S0 V'.
Proof.
  intros HS Hev He Hr Hok Hlast [] Hcount Hhist.
  apply (grown_intro S0 V' S (<[px_execution r := SnapshotHot r']> S) G'); [done| |].
  2: { apply evolves_insert. intros old Hold. simplify_eq. exact Hr. }
  pose proof (re_identity _ _ Hr) as Hid. injection Hid as _ _ _ _ Ie Is _.
  eapply (serves_replace (t_peers V)); try done; [apply Hr|congruence|..];
    unfold available_of, claim_of, terminal_of; cbn; rewrite Ie, ?Is; done.
Qed.
(** The tables after a record took its next revision, but for the counters. *)
Record rephased V V' r phase cancellation : Prop := {
  rp_replaced : replaced V V' r (revised r phase cancellation);
  rp_observations : observations_of (t_peers V') = observations_of (t_peers V)
}.
Lemma grown_rephased V V' S G G' r phase cancellation :
  serves (t_peers V) S G → evolves S0 S → S !! px_execution r = Some (SnapshotHot r) →
  phase_step (px_phase r) phase → cancellation_step (px_cancellation r) cancellation → phase_ok phase →
  rephased V V' r phase cancellation →
  counters_ok (t_peers V') (<[px_execution r := SnapshotHot (revised r phase cancellation)]> S) G' → grown S0 V'.
Proof.
  intros HS Hev He Hp Hc Hok [Hre Ho] Hcount. eapply (grown_replaced V _ S G _ r (revised r phase cancellation)); try done; [by apply revised_evolves|..].
  - exact (proj2 (so_phase _ _ (ro_snapshots _ _ (sv_rows _ _ _ HS) _ _ He) _ eq_refl)).
  - eapply histories_same; [apply HS|done..].
Qed.
(** The same where the counters keep. *)
Lemma grown_requeued V V' S G r phase cancellation :
  serves (t_peers V) S G → evolves S0 S → S !! px_execution r = Some (SnapshotHot r) →
  phase_step (px_phase r) phase → cancellation_step (px_cancellation r) cancellation → phase_ok phase →
  phase_is_active phase = phase_is_active (px_phase r) → unentered phase = unentered (px_phase r) →
  t_peer_execution_accounting (t_peers V') = t_peer_execution_accounting (t_peers V) →
  rephased V V' r phase cancellation → grown S0 V'.
Proof.
  intros HS Hev He Hp Hc Hok Ha Hu Hacc Hre. eapply grown_rephased; [done..|].
  by eapply (counters_same (t_peers V)); [apply HS|..].
Qed.

#[local] Ltac keys := repeat match goal with
  | H : claim_key _ _ = Ok _ |- _ => apply ordered_key_Ok in H as [_ ->]
  | H : available_key _ = Ok _ |- _ => apply ordered_key_Ok in H as [_ ->]
  end.
(** The queues of a record that stays where it was. *)
Lemma available_kept V S G r :
  serves (t_peers V) S G → S !! px_execution r = Some (SnapshotHot r) →
  moved (available_in r (px_phase r)) (available_in r (px_phase r)) (px_execution r)
    (t_peer_dispatch_available (t_peers V)) (t_peer_dispatch_available (t_peers V)).
Proof. intros HS Hr. pose proof (moved_same _ _ _ (px_execution r) (io_available _ _ (sv_indexes _ _ _ HS))) as H. by rewrite Hr in H. Qed.
Lemma claim_kept V S G r :
  serves (t_peers V) S G → S !! px_execution r = Some (SnapshotHot r) →
  moved (claim_in r (px_phase r)) (claim_in r (px_phase r)) (px_execution r)
    (t_peer_active_claims (t_peers V)) (t_peer_active_claims (t_peers V)).
Proof. intros HS Hr. pose proof (moved_same _ _ _ (px_execution r) (io_claims _ _ (sv_indexes _ _ _ HS))) as H. by rewrite Hr in H. Qed.
Lemma terminal_kept V S G r :
  serves (t_peers V) S G → S !! px_execution r = Some (SnapshotHot r) →
  moved (terminal_in r (px_phase r)) (terminal_in r (px_phase r)) (px_execution r)
    (t_peer_terminal_index (t_peers V)) (t_peer_terminal_index (t_peers V)).
Proof. intros HS Hr. pose proof (moved_same _ _ _ (px_execution r) (io_terminal _ _ (sv_indexes _ _ _ HS))) as H. by rewrite Hr in H. Qed.
Lemma own_execution V S G e r :
  serves (t_peers V) S G → S !! e = Some (SnapshotHot r) → px_execution r = e.
Proof. intros HS Hr. apply (ro_snapshots _ _ (sv_rows _ _ _ HS) _ _ Hr). Qed.

(** Closes what is left of a requeue once the phases are known. *)
#[local] Ltac move_rows := cbn; first
  [ apply moved_none | apply moved_insert | apply moved_delete | apply moved_replace
  | eapply available_kept; eassumption | eapply claim_kept; eassumption | eapply terminal_kept; eassumption
  | match goal with
    | HS : serves _ _ _, Hr : _ !! px_execution ?r = Some (SnapshotHot ?r), Hp : px_phase ?r = _ |- _ =>
        let H := fresh in
        first [ pose proof (available_kept _ _ _ _ HS Hr) as H; rewrite Hp in H; exact H
              | pose proof (claim_kept _ _ _ _ HS Hr) as H; rewrite Hp in H; exact H
              | pose proof (terminal_kept _ _ _ _ HS Hr) as H; rewrite Hp in H; exact H ]
    end ].
(** Concludes a transaction that put the next revision of one record. *)
#[local] Ltac requeue := subst; match goal with
  | H : decode_peer_record _ = Ok (setter px_revision _ (setter px_phase (λ _, ?ph) ?r)),
    HS : serves (t_peers ?T) ?S ?G |- _ =>
      eapply (grown_requeued T _ S G r ph (px_cancellation r)); try done
  | H : decode_peer_record _ = Ok (setter px_revision _ (setter px_cancellation (λ _, ?c) (setter px_phase (λ _, ?ph) ?r))),
    HS : serves (t_peers ?T) ?S ?G |- _ => eapply (grown_requeued T _ S G r ph c); try done
  | H : decode_peer_record _ = Ok (setter px_revision _ (setter px_cancellation (λ _, ?c) ?r)),
    HS : serves (t_peers ?T) ?S ?G |- _ => eapply (grown_requeued T _ S G r (px_phase r) c); try done
  end.

Lemma first_row {X} (m : gmap string X) k v rest : entries m = (k, v) :: rest → m !! k = Some v.
Proof. intros H. apply elem_of_entries. rewrite H. left. Qed.
Lemma claim_grown request : sound (O := O) (grown S0) (claim_peer_dispatch request).
Proof.
  intros T V HT. assert (H := HT). destruct H as (S & G & HS & Hev). unfold claim_peer_dispatch. serve.
  destruct (entries _) as [|[k e] rest] eqn:Hrows; [by serving_step|].
  assert (t_peer_dispatch_available (t_peers T) !! k = Some e) as Hk by exact (first_row _ _ _ _ Hrows).
  serving_step. apply (runs_execution_text _ _ S); [apply HS| |done]. intros r Hr.
  pose proof (own_execution _ _ _ _ _ HS Hr) as <-. serve. stable. keys. subst k.
  requeue.
  all: destruct (px_phase r) as [at_|?|? ?|[?|] [?|]|? ?|? ?] eqn:Hp; try discriminate.
  all: try (split; [split; try done; [by eexists|rewrite Hp; move_rows..]|done]).
  all: try apply cancellation_same; try done.
Qed.

Lemma release_claim_grown owner e worker generation at_ :
  sound (O := O) (grown S0) (release_peer_claim owner e worker generation at_).
Proof.
  intros T V HT. assert (H := HT). destruct H as (S & G & HS & Hev). unfold release_peer_claim.
  serve. apply (runs_owned _ _ S); [apply HS| |done]. intros r Hr _.
  pose proof (own_execution _ _ _ _ _ HS Hr) as <-.
  unfold exact_claim. serve. unwrap. stable. keys.
  requeue.
  all: destruct (px_phase r) as [?|c|? ?|[c|] [?|]|? ?|? ?] eqn:Hp; try discriminate; cbn in *.
  all: repeat case_match; simplify_eq.
  all: try (split; [split; try done; [by eexists|rewrite Hp; move_rows..]|done]).
  all: try apply cancellation_same; try done.
Qed.

Lemma extend_claim_grown owner e worker generation at_ :
  sound (O := O) (grown S0) (extend_peer_claim owner e worker generation at_).
Proof.
  intros T V HT. assert (H := HT). destruct H as (S & G & HS & Hev). unfold extend_peer_claim.
  serve. apply (runs_owned _ _ S); [apply HS| |done]. intros r Hr _.
  pose proof (own_execution _ _ _ _ _ HS Hr) as <-.
  unfold exact_claim. serve. unwrap. stable. keys. requeue.
  all: destruct (px_phase r) as [?|c|c ?|[c|] [?|]|? ?|? ?] eqn:Hp; try discriminate; cbn in *.
  all: repeat case_match; simplify_eq.
  all: try (split; [split; try done; [by eexists|rewrite Hp; move_rows..]|done]).
  all: try apply cancellation_same; try done.
Qed.
Lemma acknowledge_grown owner acknowledgement at_ :
  sound (O := O) (grown S0) (acknowledge_peer_cancellation owner acknowledgement at_).
Proof.
  intros T V HT. assert (H := HT). destruct H as (S & G & HS & Hev). unfold acknowledge_peer_cancellation.
  serve. apply (runs_owned _ _ S); [apply HS| |done]. intros r Hr _.
  serve. unwrap. destruct (xr_acknowledgement _) eqn:Hack; serve.
  pose proof (own_execution _ _ _ _ _ HS Hr) as He. rewrite <-He in Hr. requeue.
  - intros x Hx. eexists. split; [done|]. simplify_eq. cbn. split_and!; [done..|]. by rewrite Hack; intros [].
  - apply (ro_snapshots _ _ (sv_rows _ _ _ HS) _ _ Hr). done.
  - split; [split; try done; [by eexists|move_rows..]|done].
Qed.

Lemma cancel_grown owner request at_ :
  sound (O := O) (grown S0) (request_peer_cancellation owner request at_).
Proof.
  intros T V HT. assert (H := HT). destruct H as (S & G & HS & Hev). unfold request_peer_cancellation, cancelled_phase.
  serve. apply (runs_owned _ _ S); [apply HS| |done]. intros r Hr _.
  pose proof (own_execution _ _ _ _ _ HS Hr) as He. rewrite <-He in Hr.
  destruct (px_cancellation r) eqn:Hc; serve.
  destruct (px_phase r) as [?|c|c ?|? ?|? ?|? ?] eqn:Hp; serve; requeue; rewrite ?Hp, ?Hc; try done.
  all: split; [split; try done; [by eexists|rewrite Hp; move_rows..]|done].
Qed.

(** Entered work whose outcome is lost. *)
Lemma grown_uncertain V V' S G G' r at_ reason v b bv :
  serves (t_peers V) S G → evolves S0 S → S !! px_execution r = Some (SnapshotHot r) →
  is_Some (entry_evidence (px_phase r)) → released_global G false = Ok G' →
  pr_peer v = px_caller r → pr_schema_version v = PEER_ACCOUNTING_SCHEMA_VERSION →
  (pr_active v + 1)%N = tally (active_for (px_caller r)) S →
  t_peer_execution_accounting (t_peers V') = <[storage_key (pr_peer v) := bv]>
    (<[PEER_EXECUTION_GLOBAL_ACCOUNTING_KEY := b]> (t_peer_execution_accounting (t_peers V))) →
  decode b "peer global accounting" = Ok G' → decode bv "peer relationship accounting" = Ok v →
  rephased V V' r (PhUncertain at_ reason) (px_cancellation r) → grown S0 V'.
Proof.
  intros HS Hev Hr [ev Hent] Hrel **.
  assert (is_active r = true ∧ is_queued r = false ∧ stage (px_phase r) = 1%N) as (Ha & Hq & Hst)
    by (unfold is_active, is_queued, unentered; destruct (px_phase r) as [| | |? [?|]| |]; try discriminate; done).
  eapply (grown_rephased V V' S G G' r (PhUncertain at_ reason) (px_cancellation r)); try done.
  - unfold phase_step. rewrite Hst. done.
  - apply cancellation_same.
  - eapply (counters_released (t_peers V)); try done; [apply HS|by rewrite Hq].
Qed.
Lemma uncertain_grown owner e worker generation at_ reason :
  sound (O := O) (grown S0) (mark_peer_uncertain owner e worker generation at_ reason).
Proof.
  intros T V HT. assert (H := HT). destruct H as (S & G & HS & Hev). unfold mark_peer_uncertain.
  serve. apply (runs_owned _ _ S); [apply HS| |done]. intros r Hr _.
  pose proof (own_execution _ _ _ _ _ HS Hr) as <-.
  unfold exact_claim. serve. subst.
  apply (runs_release _ _ S G); [by eapply counters_frame, (sv_counters _ _ _ HS)| |done]. intros G' v bg bv Hg Hv Hs Ha Hbg Hbv.
  serve. unwrap. stable. destruct (px_phase r) as [?|c|c ?|[c|] [?|]|? ?|? ?] eqn:Hp; try discriminate; cbn in *.
  all: repeat case_match; simplify_eq.
  all: eapply (grown_uncertain T _ S G _ r at_ reason); try done; rewrite ?Hp; try done.
  all: split; [split; try done; [by eexists|rewrite Hp; move_rows..]|done].
Qed.
Lemma exact_pre_entry r worker generation claim :
  exact_pre_entry_claim r worker generation = Ok claim → px_phase r = PhClaimed claim.
Proof. unfold exact_pre_entry_claim. repeat case_match; naive_solver. Qed.
Lemma enter_grown request : sound (O := O) (grown S0) (mark_peer_entered request).
Proof.
  intros T V HT. assert (H := HT). destruct H as (S & G & HS & Hev). unfold mark_peer_entered. serve.
  apply (runs_owned _ _ S); [apply HS| |done]. intros r Hr _.
  pose proof (own_execution _ _ _ _ _ HS Hr) as He. rewrite <-He in Hr. serve.
  match goal with H : exact_pre_entry_claim _ _ _ = Ok _ |- _ => apply exact_pre_entry in H as Hp end.
  apply (runs_global _ _ S G); [apply HS| |done]. destruct (gp_admission_open G); cbn [negb]; serve.
  apply (runs_relationship _ _ S); [apply HS| |done]. intros o _ _. destruct (is_none_or _ _); serve.
  apply (runs_local t_peers); [apply peers_enter| |done]. intros _ V' HV. serve. unwrap.
  rewrite <-HV in HS. match goal with H : decode_peer_record _ = Ok (setter px_revision _ (setter px_phase (λ _, ?ph) r)) |- _ =>
    eapply (grown_rephased V' _ S G _ r ph (px_cancellation r)); try done end.
  - by rewrite Hp.
  - apply cancellation_same.
  - split; [split; try done; [by eexists|rewrite Hp; move_rows..]|done].
  - by eapply (counters_entered (t_peers V') _ S G); try done; [apply HS|unfold is_active, is_queued; rewrite ?Hp..].
Qed.

Lemma recover_claim_grown at_ result row : keeps_inv (O := O) (grown S0) (recover_claim at_ result row).
Proof.
  intros T V HT HV. assert (H := HV). destruct H as (S & G & HS & Hev). unfold recover_claim. serve.
  apply (runs_execution_text _ _ S); [apply HS| |done]. intros r Hr.
  pose proof (own_execution _ _ _ _ _ HS Hr) as He. rewrite <-He in Hr. serve. unwrap. stable. keys.
  assert (phase_ok (px_phase r)) as Hok by by apply (ro_snapshots _ _ (sv_rows _ _ _ HS) _ _ Hr).
  match goal with H : phase_claim _ = Some ?c |- _ => rename H into Hc, c into claim end.
  destruct (px_phase r) as [?|c|c ?|[c|] [?|]|? ?|? ?] eqn:Hp; try discriminate; injection Hc as ->;
    cbn [entry_evidence is_claimed]; serve.
  - split; [done|]. requeue; rewrite ?Hp; try done; [apply cancellation_same|].
    split; [split; try done; [by eexists|rewrite Hp; move_rows..]|done].
  - apply (runs_release _ _ S G); [by eapply counters_frame, (sv_counters _ _ _ HS)| |done].
    intros G' v bg bv Hg Hv Hs Ha Hbg Hbv. serve. split; [done|]. subst.
    eapply (grown_uncertain V _ S G _ r at_ "serving daemon restarted after durable adapter entry"); try done; [by rewrite Hp|].
    split; [split; try done; [by eexists|rewrite Hp; move_rows..]|done].
  - apply (runs_release _ _ S G); [by eapply counters_frame, (sv_counters _ _ _ HS)| |done].
    intros G' v bg bv Hg Hv Hs Ha Hbg Hbv. serve. split; [done|]. subst.
    eapply (grown_uncertain V _ S G _ r at_ "serving daemon restarted after durable adapter entry"); try done; [by rewrite Hp|].
    split; [split; try done; [by eexists|rewrite Hp; move_rows..]|done].
  - split; [done|]. requeue; rewrite ?Hp; try done; [apply cancellation_same|].
    split; [split; try done; [by eexists|rewrite Hp; move_rows..]|done].
Qed.
Lemma take_rows_read {X} (t : Table X) n : local (O := O) id (take_rows t n).
Proof. unfold take_rows. solve_local. Qed.
Lemma recover_grown at_ limit : sound (O := O) (grown S0) (recover_peer_claims at_ limit).
Proof.
  unfold recover_peer_claims. solve_sound.
  - apply keeps_inv_read, take_rows_read.
  - apply recover_claim_grown.
Qed.

(** ** Observations *)

(** The tables a terminal observation leaves alone. *)
Definition settled_part (p : PeerTables) :=
  (t_peer_executions p, t_peer_execution_tombstones p, t_peer_execution_locations p,
   t_peer_executions_by_request p, configuration p, observations_of p).
(** What ending [r] does to the queues and the counters. *)
Record ended V V' S r (sequence at_ : N) : Prop := {
  en_part : settled_part (t_peers V') = settled_part (t_peers V);
  en_available : moved (available_in r (px_phase r)) None (px_execution r)
    (t_peer_dispatch_available (t_peers V)) (t_peer_dispatch_available (t_peers V'));
  en_claims : moved (claim_in r (px_phase r)) None (px_execution r)
    (t_peer_active_claims (t_peers V)) (t_peer_active_claims (t_peers V'));
  en_terminal : moved (terminal_in r (px_phase r)) (Some (ordered_text at_ (px_execution r))) (px_execution r)
    (t_peer_terminal_index (t_peers V)) (t_peer_terminal_index (t_peers V'));
  en_counters : ∃ G', ∀ V'' r', identity r' = identity r → px_phase r' = PhTerminal sequence at_ →
    t_peer_execution_accounting (t_peers V'') = t_peer_execution_accounting (t_peers V') →
    counters_ok (t_peers V'') (<[px_execution r := SnapshotHot r']> S) G'
}.
(** Leaving an active phase: its claim or its dispatch row, and its place in the counts. *)
Lemma released_counters V V' S G G' r b bv v :
  counters_ok (t_peers V) S G → S !! px_execution r = Some (SnapshotHot r) → is_active r = true →
  released_global G (is_queued r) = Ok G' → pr_peer v = px_caller r →
  pr_schema_version v = PEER_ACCOUNTING_SCHEMA_VERSION →
  (pr_active v + 1)%N = tally (active_for (px_caller r)) S →
  t_peer_execution_accounting (t_peers V') = <[storage_key (pr_peer v) := bv]>
    (<[PEER_EXECUTION_GLOBAL_ACCOUNTING_KEY := b]> (t_peer_execution_accounting (t_peers V))) →
  decode b "peer global accounting" = Ok G' → decode bv "peer relationship accounting" = Ok v →
  ∀ sequence at_, ∃ G', ∀ V'' r', identity r' = identity r → px_phase r' = PhTerminal sequence at_ →
    t_peer_execution_accounting (t_peers V'') = t_peer_execution_accounting (t_peers V') →
    counters_ok (t_peers V'') (<[px_execution r := SnapshotHot r']> S) G'.
Proof.
  intros HS Hr Ha Hg Hv Hs Hc Eacc Hb Hbv sequence at_. exists G'. intros V'' r' Hid Hp' E.
  eapply (counters_released (t_peers V)); try done; [|congruence].
  unfold is_active. by rewrite Hp'.
Qed.
Lemma runs_terminalize T V S G r r4 o Q (R : Tables → Prop) :
  counters_ok (t_peers V) S G → phase_ok (px_phase r) → S !! px_execution r = Some (SnapshotHot r) →
  identity r4 = identity r → px_phase r4 = px_phase r → phase_allows (px_phase r) true = true →
  ob_execution o = px_execution r →
  (∀ V', ended V V' S r (ob_sequence o) (ob_observed_at_unix_ms o) →
     Q (r4 <| px_phase := PhTerminal (ob_sequence o) (ob_observed_at_unix_ms o) |>) T V') →
  R T → runs (O := O) T V (terminalize r4 o) Q R.
Proof.
  intros HS Hok Hr Hid Hph Hallow Ho HQ HR. injection Hid as Ic _ _ _ Ie Is _.
  unfold terminalize. rewrite Hph, Ho. serve.
  apply (runs_local t_peers); [apply peers_terminal| |done]. intros _ V1 HV1. rewrite <-HV1 in HS.
  assert (∀ V', ended V1 V' S r (ob_sequence o) (ob_observed_at_unix_ms o) →
    ended V V' S r (ob_sequence o) (ob_observed_at_unix_ms o)) as Hback.
  { intros V' []. rewrite HV1 in *. by split. }
  destruct (px_phase r) as [?|c|c ev|[c|] [ev|]|? ?|u ?] eqn:Hp; try discriminate; try done;
    cbn [phase_claim entry_evidence is_some negb andb phase_is_active]; serve; stable; keys.
  6: { apply HQ, Hback. split; [done|rewrite ?Hp; cbn; rewrite ?Ie; move_rows..|].
    exists G. intros V'' r' Hid' Hp' E.
    by eapply (counters_same (t_peers V1)); try done; unfold is_active, is_queued; rewrite Hp, Hp'. }
  all: apply (runs_release _ _ S G); [by eapply counters_frame, HS| |done].
  all: intros G' v bg bv Hg Hv Hs Ha Hbg Hbv; cbn [px_caller] in *; serve; apply HQ, Hback.
  all: split; [done|rewrite ?Hp; cbn; rewrite ?Ie, ?Is; move_rows..|].
  all: cbn in Hv, Ha; rewrite Ic in Hv, Ha.
  all: eapply (released_counters V1); try done; unfold is_active, is_queued; by rewrite Hp.
Qed.

(** The accounting of a record, but for its sums of bytes and usage. *)
Definition charged r r' (outputs observations : N) : Prop :=
  ∃ a, r' = r <| px_accounting := a |> ∧ pa_outputs a = outputs ∧ pa_observations a = observations.
Lemma charged_same r : charged r r (pa_outputs (px_accounting r)) (pa_observations (px_accounting r)).
Proof. exists (px_accounting r). by destruct r. Qed.
Lemma charged_trans r r' r'' n m n' m' : charged r r' n m → charged r' r'' n' m' → charged r r'' n' m'.
Proof. intros (a & -> & _) (a' & -> & ? & ?). exists a'. done. Qed.
Definition outputs_after r (o : PeerObservation) : N :=
  (pa_outputs (px_accounting r) + if is_some (ob_output o) then 1 else 0)%N.
Lemma check_observation_Ok r o size :
  check_observation r o = Ok size →
  ob_sequence o = saturating_add (px_last_observation_sequence r) 1
  ∧ phase_allows (px_phase r) (is_some (ob_terminal o)) = true ∧ is_some size = is_some (ob_output o).
Proof.
  unfold check_observation. intros H. inv_ok. bool_prop. subst.
  repeat match goal with H : refuse_if _ _ = Ok _ |- _ => apply refuse_if_Ok in H end. bool_prop.
  split_and!; [done|done|]. destruct (ob_output o) as [[? ?]|]; inv_ok; subst; done.
Qed.
Lemma count_output_Ok r o size r' :
  count_output r size = Ok r' → is_some size = is_some (ob_output o) →
  charged r r' (outputs_after r o) (pa_observations (px_accounting r)).
Proof.
  unfold count_output, outputs_after. intros H E. rewrite E in H. destruct (is_some (ob_output o)).
  - inv_ok. unwrap. subst. eexists. split; [done|]. cbn. split; [|done].
    destruct (checked_add_u32 _ _) as [n|] eqn:Hn; [|done]. cbn in *. case_match; simplify_eq.
    by apply checked_add_u32_Some in Hn as [-> _].
  - injection H as ->. rewrite N.add_0_r. apply charged_same.
Qed.
Lemma charge_usage_Ok r o r' :
  charge_usage r o = Ok r' → charged r r' (pa_outputs (px_accounting r)) (pa_observations (px_accounting r)).
Proof.
  unfold charge_usage. intros H. destruct (ob_terminal o ≫= it_usage); inv_ok; subst; [by eexists|].
  apply charged_same.
Qed.
Lemma runs_append_output T V r o size Q (R : Tables → Prop) :
  let k := ordered_text (ob_sequence o) (ob_execution o) in
  (∀ r' V', charged r r' (pa_outputs (px_accounting r)) (pa_observations (px_accounting r)) →
     match ob_output o with
     | None => t_peers V' = t_peers V
     | Some (_, reference) => ∃ b', decode b' "peer observation artifact" = Ok reference
         ∧ t_peers V' = t_peers V <| t_peer_observation_artifacts :=
             <[k := b']> (t_peer_observation_artifacts (t_peers V)) |>
     end → Q r' T V') →
  R T → runs (O := O) T V (append_output r o k size) Q R.
Proof.
  intros k HQ HR. unfold append_output. destruct (ob_output o) as [[name reference]|] eqn:Ho.
  - serve. unwrap. apply HQ; [by eexists|]. eexists. split; [by eapply decode_encoded|done].
  - run_step. apply HQ; [apply charged_same|done].
Qed.
Lemma advance_history_Ok r o b r' :
  advance_history r o b = Ok r' →
  ∃ d n, r' = r <| px_last_observation_sequence := ob_sequence o |> <| px_observation_digest := d |>
      <| px_accounting ::= λ a, a <| pa_observations := n |> |>
    ∧ observation_link_digest (px_observation_digest r) b = Ok d
    ∧ n = (pa_observations (px_accounting r) + 1)%N ∧ (n ≤ u32_max)%N.
Proof.
  unfold advance_history. intros H. inv_ok. unwrap. subst. eexists _, _. split; [done|].
  match goal with H : checked_add_u32 _ _ = Some _ |- _ => apply checked_add_u32_Some in H as [-> ?] end. done.
Qed.

Lemma observation_key_text e i k : observation_key e i = Ok k → k = ordered_text i e.
Proof. unfold observation_key. intros H. inv_ok. by match goal with H : ordered_key _ _ = _ |- _ => apply ordered_key_Ok in H as [_ ->] end. Qed.
Lemma valid_observations r b :
  decode_peer_record b = Ok r → pa_observations (px_accounting r) = px_last_observation_sequence r.
Proof.
  unfold decode_peer_record, validate_record. intros H. inv_ok. subst.
  repeat match goal with H : refuse_if _ _ = Ok _ |- _ => apply refuse_if_Ok in H end. bool_prop. done.
Qed.
Lemma stored_record V S G r :
  serves (t_peers V) S G → S !! px_execution r = Some (SnapshotHot r) → ∃ b, decode_peer_record b = Ok r.
Proof.
  intros HS Hr. pose proof (ro_stored _ _ (sv_rows _ _ _ HS) (px_execution r)) as H. rewrite Hr in H.
  destruct H as ((b & _ & Hb) & _). eauto.
Qed.
(** A record whose history grew by one observation. *)
Record observes r r' (b : Bytes) (o : PeerObservation) : Prop := {
  os_identity : identity r' = identity r;
  os_extended : extended r r' b o;
  os_bound : (px_last_observation_sequence r' ≤ u32_max)%N;
  os_cancellation : px_cancellation r' = px_cancellation r;
  os_revision : (px_revision r ≤ px_revision r')%N
}.
Lemma observes_evolves r r' b o :
  observes r r' b o → phase_step (px_phase r) (px_phase r') → record_evolves r r'.
Proof.
  intros [Hi (_ & El & Ed & _) _ Hc Hv] (? & ? & ?). split; try done.
  - exists [b]. cbn. rewrite Ed. split; [done|]. by rewrite El.
  - rewrite Hc. apply cancellation_same.
Qed.
Lemma grown_observed V V' S G G' r r' b o :
  serves (t_peers V) S G → evolves S0 S → S !! px_execution r = Some (SnapshotHot r) →
  observes r r' b o → phase_step (px_phase r) (px_phase r') → phase_ok (px_phase r') →
  appended (t_peers V) (t_peers V') (px_execution r) (px_last_observation_sequence r + 1) b o →
  replaced V V' r r' → counters_ok (t_peers V') (<[px_execution r := SnapshotHot r']> S) G' → grown S0 V'.
Proof.
  intros HS Hev Hr Ho Hp Hok Hap Hre Hcount. pose proof Ho as [? Hex Hb ? ?]. pose proof Hex as (_ & El & _).
  eapply (grown_replaced V _ S G _ r r'); try done; [by eapply observes_evolves|].
  eapply histories_append; try done; [apply HS| |lia].
  intros e0 r0 Hr0. pose proof (ro_snapshots _ _ (sv_rows _ _ _ HS) _ _ Hr0) as [? _ _ _ _ Hph]. split; [done|by apply Hph].
Qed.
(** The tables an observation leaves alone until it ends the execution. *)
Definition quiet_part (p : PeerTables) :=
  (t_peer_executions p, t_peer_execution_tombstones p, t_peer_execution_locations p,
   t_peer_executions_by_request p, configuration p, t_peer_dispatch_available p,
   t_peer_active_claims p, t_peer_terminal_index p, t_peer_execution_accounting p).
Lemma append_view V V' e i b o :
  let k := ordered_text i e in
  t_peer_observations (t_peers V) !! k = None → decode b "peer observation" = Ok o →
  ob_execution o = e → ob_sequence o = i →
  (let p := t_peers V <| t_peer_observations := <[k := b]> (t_peer_observations (t_peers V)) |> in
   match ob_output o with
   | None => t_peers V' = p
   | Some (_, reference) => ∃ b', decode b' "peer observation artifact" = Ok reference
       ∧ t_peers V' = p <| t_peer_observation_artifacts := <[k := b']> (t_peer_observation_artifacts p) |>
   end) →
  appended (t_peers V) (t_peers V') e i b o ∧ quiet_part (t_peers V') = quiet_part (t_peers V).
Proof.
  intros k Hfree Hd He Hi HV. destruct (ob_output o) as [[name reference]|] eqn:Ho.
  - destruct HV as (b' & Hb' & ->). split; [|done]. split; try done. rewrite Ho. by exists b'.
  - rewrite HV. split; [|done]. split; try done. by rewrite Ho.
Qed.
Lemma appended_frame p p' p'' e i b o :
  observations_of p'' = observations_of p' → appended p p' e i b o → appended p p'' e i b o.
Proof. intros [= E1 E2] []. split; try done; [congruence|]. by rewrite E2. Qed.
Lemma phase_step_refl phase : phase_step phase phase.
Proof. by split_and!. Qed.
Lemma phase_step_terminal phase sequence at_ :
  phase_allows phase true = true → phase_step phase (PhTerminal sequence at_).
Proof. destruct phase; try done; intros _; unfold phase_step; cbn; split_and!; try done; by destruct evidence. Qed.
(** An observation that leaves the phase. *)
Lemma grown_progress V V1 V' S G r r' b o :
  serves (t_peers V) S G → evolves S0 S → S !! px_execution r = Some (SnapshotHot r) →
  observes r r' b o → px_phase r' = px_phase r →
  appended (t_peers V) (t_peers V1) (px_execution r) (px_last_observation_sequence r + 1) b o →
  quiet_part (t_peers V1) = quiet_part (t_peers V) →
  (∃ b, t_peers V' = t_peers V1 <| t_peer_executions := <[px_execution r := b]> (t_peer_executions (t_peers V1)) |>
     ∧ decode_peer_record b = Ok r') → grown S0 V'.
Proof.
  intros HS Hev Hr Ho Hp Hap Hq (br & HV' & Hbr). injection Hq as E1 E2 E3 E4 E5 E6 E7 E8 E9 E10 E11.
  eapply (grown_observed V V' S G G r r' b o); try done.
  - rewrite Hp. apply phase_step_refl.
  - rewrite Hp. by apply (ro_snapshots _ _ (sv_rows _ _ _ HS) _ _ Hr).
  - eapply appended_frame; [|done]. by rewrite HV'.
  - split; rewrite HV'; unfold configuration; cbn; try congruence.
    + exists br. by rewrite E1.
    + rewrite Hp. rewrite E8. eapply available_kept; eassumption.
    + rewrite Hp. rewrite E9. eapply claim_kept; eassumption.
    + rewrite Hp. rewrite E10. eapply terminal_kept; eassumption.
  - eapply (counters_same (t_peers V)); try done; [apply HS|apply Ho|by rewrite HV'|..];
      unfold is_active, is_queued; by rewrite Hp.
Qed.
(** An observation that ends the execution. *)
Lemma grown_terminal V V1 V2 V' S G r r' b o :
  serves (t_peers V) S G → evolves S0 S → S !! px_execution r = Some (SnapshotHot r) →
  observes r r' b o → px_phase r' = PhTerminal (ob_sequence o) (ob_observed_at_unix_ms o) →
  phase_allows (px_phase r) true = true →
  appended (t_peers V) (t_peers V1) (px_execution r) (px_last_observation_sequence r + 1) b o →
  quiet_part (t_peers V1) = quiet_part (t_peers V) →
  ended V1 V2 S r (ob_sequence o) (ob_observed_at_unix_ms o) →
  (∃ b, t_peers V' = t_peers V2 <| t_peer_executions := <[px_execution r := b]> (t_peer_executions (t_peers V2)) |>
     ∧ decode_peer_record b = Ok r') → grown S0 V'.
Proof.
  intros HS Hev Hr Ho Hp Hallow Hap Hq [Hpart Ma Mc Mt (G' & HG)] (br & HV' & Hbr).
  injection Hq as E1 E2 E3 E4 E5 E6 E7 E8 E9 E10 E11. injection Hpart as P1 P2 P3 P4 P5 P6 P7 P8 P9.
  eapply (grown_observed V V' S G G' r r' b o); try done.
  - rewrite Hp. by apply phase_step_terminal.
  - by rewrite Hp.
  - eapply appended_frame; [|done]. rewrite HV'. unfold observations_of. cbn. congruence.
  - split; rewrite HV'; unfold configuration; cbn; try congruence.
    + exists br. split; [congruence|done].
    + rewrite Hp, <-E8. exact Ma.
    + rewrite Hp, <-E9. exact Mc.
    + rewrite Hp, <-E10. exact Mt.
  - apply HG; [apply Ho|done|by rewrite HV'].
Qed.
Lemma append_grown owner e o : sound (O := O) (grown S0) (append_peer_observation owner e o).
Proof.
  intros T V HT. assert (H := HT). destruct H as (S & G & HS & Hev).
  unfold append_peer_observation, replay_observation, append_next. serve. stable. subst e.
  apply (runs_owned _ _ S); [apply HS| |done]. intros r Hr _.
  pose proof (own_execution _ _ _ _ _ HS Hr) as He. rewrite <-He in Hr.
  case_match; [by serve|]. serve.
  match goal with H : check_observation _ _ = _ |- _ => apply check_observation_Ok in H as (Hseq & Hallow & Hsize) end.
  match goal with H : count_output _ _ = _ |- _ => apply (count_output_Ok _ o) in H as (A1 & -> & HA1 & HB1); [|done] end.
  match goal with H : observation_key _ _ = _ |- _ => apply observation_key_text in H as -> end.
  match goal with H : encode _ _ = Ok ?b |- _ => apply decode_encoded in H as Hb; rename b into b0 end.
  match goal with H : is_some _ = false |- _ => rename H into Hfree end.
  apply runs_append_output; [|done]. intros r2 V2 (A2 & -> & HA2 & HB2) HV2. serve.
  match goal with H : charge_usage _ _ = _ |- _ => apply charge_usage_Ok in H as (A3 & -> & HA3 & HB3) end.
  match goal with H : advance_history _ _ _ = _ |- _ => apply advance_history_Ok in H as (d & n & -> & Hd & Hn & Hmax) end.
  cbn in HA1, HB1, HA2, HB2, HA3, HB3, Hd, Hn.
  destruct (stored_record _ _ _ _ HS Hr) as [b1 Hb1%valid_observations].
  assert (ob_sequence o = px_last_observation_sequence r + 1)%N as Hseq'.
  { rewrite Hseq. unfold saturating_add. apply N.min_l. transitivity u32_max; [lia|done]. }
  rewrite <-He in *. rewrite Hseq' in HV2, Hfree.
  destruct (append_view T V2 (px_execution r) (px_last_observation_sequence r + 1) b0 o) as [Hap Hq]; try done.
  { cbn in Hfree. by destruct (t_peer_observations (t_peers T) !! _). }
  match goal with |- context [mret ?x] => set (r4 := x) in * end.
  assert (∀ phase revision, (px_revision r ≤ revision)%N →
    observes r (r4 <| px_phase := phase |> <| px_revision := revision |>) b0 o) as Hobs.
  { intros phase revision Hrev. split; cbn; try done; [|lia]. split_and!; cbn; try done.
    rewrite HA3, HA2, HA1. unfold outputs_after. done. }
  destruct (is_some (ob_terminal o)) eqn:Hterm.
  - apply (runs_terminalize _ _ S G r r4 o); try done.
    + eapply counters_frame, (sv_counters _ _ _ HS). by injection Hq.
    + by apply (ro_snapshots _ _ (sv_rows _ _ _ HS) _ _ Hr).
    + intros V3 Hend. serve. subst.
      eapply (grown_terminal T V2 V3 _ S G r (r4 <| px_phase := PhTerminal (ob_sequence o)
        (ob_observed_at_unix_ms o) |> <| px_revision := (px_revision r + 1)%N |>) b0 o); try done; [apply Hobs; lia|].
      by eexists.
  - serve. subst. eapply (grown_progress T V2 _ S G r (r4 <| px_phase := px_phase r |>
      <| px_revision := (px_revision r + 1)%N |>) b0 o); try done; [apply Hobs; lia|]. by eexists.
Qed.
End steps.
