(* ===== verification/PeerIntake.v ===== *)
(** * Admission, retention and configuration keep the executions consistent

    The operations of [PeerStore] that add an execution, move finished ones into
    tombstones, or change what the installation accepts. *)
From S2P Require Import Prelude Effects Contracts Capability Blueprint Authority.
From S2P Require Import Model Workspace Persistence Dispatch Managed PeerProtocol Storage ManagedStore PeerStore.
From S2P Require Import StorageLaws Transactions PeerState PeerLaws.

Section intake.
Context {O : Type} `{engine : !Engine O, managed : !ManagedCodec, codec : !PeerCodec, laws : !PeerCodecLaw}.
Abbreviation txn := (st (Redb O) PersistenceError).
Implicit Types (S : serving) (T V : Tables) (G : GlobalPeerAccounting) (r : PeerExecutionRecord).
Variable S0 : serving.

(** ** Retention *)

Lemma runs_tombstone T V r at_ Q (R : Tables → Prop) :
  (∀ t, tombstone_of r t → validate_tombstone t = Ok tt → Q t T V) → R T →
  runs (O := O) T V (tombstone_from_record r at_) Q R.
Proof.
  intros HQ HR. unfold tombstone_from_record. run_step.
  apply (runs_conseq _ _ _ _ (λ d D' V', D' = T ∧ V' = V ∧ match d with
    | DispositionTerminal _ => stage (px_phase r) = 3%N
    | DispositionUncertain a reason => px_phase r = PhUncertain a reason end) _ (λ D', R D')); [|..|done].
  { unfold archived_disposition. destruct (px_phase r); serve; done. }
  intros d D' V' (-> & -> & Hd). run_step.
  apply (runs_local id); [unfold archived_outputs_of; solve_local| |done]. intros outputs V' HV. change (V' = V) in HV. subst V'.
  serve. destruct a. apply HQ; [|done]. by exists d, outputs, at_.
Qed.
Lemma runs_put_tombstone T V t Q (R : Tables → Prop) :
  (∀ b, decode_tombstone b = Ok t →
     Q tt T (tb_put PEER_EXECUTION_TOMBSTONES (<[tm_execution t := b]> (tb_rows PEER_EXECUTION_TOMBSTONES V)) V)) →
  R T → runs (O := O) T V (put_tombstone t) Q R.
Proof.
  intros HQ HR. unfold put_tombstone. serve. destruct a. apply HQ. unfold decode_tombstone.
  match goal with H : encode _ _ = Ok _ |- _ => apply decode_encoded in H as -> end. cbn.
  by match goal with H : validate_tombstone _ = Ok _ |- _ => rewrite H end.
Qed.
(** Everything but the observation rows. *)
Definition beside_observations (p : PeerTables) :=
  (t_peer_executions p, t_peer_execution_tombstones p, t_peer_execution_locations p,
   t_peer_executions_by_request p, configuration p, t_peer_dispatch_available p,
   t_peer_active_claims p, t_peer_terminal_index p, t_peer_execution_accounting p).
Lemma observation_text e i k : observation_key e i = Ok k → k = ordered_text i e.
Proof. unfold observation_key. intros H. inv_ok. by match goal with H : ordered_key _ _ = _ |- _ => apply ordered_key_Ok in H as [_ ->] end. Qed.
Lemma elem_of_sequences i last : i ∈ sequences last ↔ (1 ≤ i ≤ last)%N.
Proof.
  unfold sequences. rewrite list_elem_of_fmap. setoid_rewrite elem_of_seq. split.
  - intros (n & -> & Hn). lia.
  - intros Hi. exists (N.to_nat i). lia.
Qed.
(** The rows of some observations are gone. *)
Definition cleared V V' (ks : list string) : Prop :=
  beside_observations (t_peers V') = beside_observations (t_peers V) ∧
  ∀ k, (k ∈ ks → t_peer_observations (t_peers V') !! k = None
                 ∧ t_peer_observation_artifacts (t_peers V') !! k = None)
     ∧ (k ∉ ks → t_peer_observations (t_peers V') !! k = t_peer_observations (t_peers V) !! k
                 ∧ t_peer_observation_artifacts (t_peers V') !! k = t_peer_observation_artifacts (t_peers V) !! k).
Lemma runs_compact T V r Q (R : Tables → Prop) :
  (∀ V', beside_observations (t_peers V') = beside_observations (t_peers V) →
     compacted (t_peers V) (t_peers V') (px_execution r) (px_last_observation_sequence r) → Q tt T V') →
  R T → runs (O := O) T V (compact_observation_rows r) Q R.
Proof.
  intros HQ HR. unfold compact_observation_rows, each_st. serve.
  set (texts := λ is_ : list N, (λ i, ordered_text i (px_execution r)) <$> is_).
  eapply (runs_conseq _ _ _ _ (λ _ D' V', D' = T ∧ cleared V V' (texts (sequences (px_last_observation_sequence r))))
    _ (λ D', R D')); [|..|done].
  - apply (runs_fold _ (λ before _ D' V', D' = T ∧ cleared V V' (texts before)) R).
    + split; [done|]. split; [done|]. intros k. split; [|done]. by intros ?%elem_of_nil.
    + intros before i after _ D' V' _ (-> & Hq & Hk). serve.
      match goal with H : observation_key _ _ = _ |- _ => apply observation_text in H as -> end.
      split; [done|]. split; [exact Hq|]. intros k. cbn. unfold texts. rewrite fmap_app. cbn.
      rewrite elem_of_app, list_elem_of_singleton. destruct (Hk k) as [Hin Hout].
      destruct (decide (k = ordered_text i (px_execution r))) as [->|Hne].
      * rewrite !lookup_delete_eq. naive_solver.
      * rewrite !lookup_delete_ne by done. naive_solver.
  - intros [] D' V' (-> & Hq & Hk). apply HQ; [done|]. intros k. destruct (Hk k) as [Hin Hout].
    destruct (decide (k ∈ texts (sequences (px_last_observation_sequence r)))) as [Hy|Hn].
    + left. split; [|auto]. apply list_elem_of_fmap in Hy as (i & -> & Hi%elem_of_sequences). eauto.
    + right. split; [|auto]. intros i Hi ->. apply Hn, list_elem_of_fmap. exists i. by rewrite elem_of_sequences.
Qed.

(** A finished execution becomes its tombstone. *)
Lemma grown_archived V V' S G G' r t at_ b :
  serves (t_peers V) S G → evolves S0 S → S !! px_execution r = Some (SnapshotHot r) →
  is_active r = false → tombstone_of r t → decode_tombstone b = Ok t →
  t_peer_terminal_index (t_peers V) !! ordered_text at_ (px_execution r) = Some (px_execution r) →
  t_peer_executions (t_peers V') = delete (px_execution r) (t_peer_executions (t_peers V)) →
  t_peer_execution_tombstones (t_peers V') = <[px_execution r := b]> (t_peer_execution_tombstones (t_peers V)) →
  t_peer_execution_locations (t_peers V') = <[px_execution r := LOCATION_ARCHIVED]> (t_peer_execution_locations (t_peers V)) →
  t_peer_terminal_index (t_peers V') = delete (ordered_text at_ (px_execution r)) (t_peer_terminal_index (t_peers V)) →
  (t_peer_executions_by_request (t_peers V'), t_peer_dispatch_available (t_peers V'), t_peer_active_claims (t_peers V'),
   configuration (t_peers V'))
    = (t_peer_executions_by_request (t_peers V), t_peer_dispatch_available (t_peers V), t_peer_active_claims (t_peers V),
       configuration (t_peers V)) →
  compacted (t_peers V) (t_peers V') (px_execution r) (px_last_observation_sequence r) →
  counters_ok (t_peers V') (<[px_execution r := SnapshotArchived t]> S) G' → grown S0 V'.
Proof.
  intros HS Hev Hr Ha Ht Hb Hterm E1 E2 E3 E4 E5 Hcomp Hcount.
  injection E5 as Eq Ea Ec Eh Er Ecat.
  pose proof HS as [Hrows Hidx _ Hconf Hhist].
  pose proof (ro_snapshots _ _ Hrows _ _ Hr) as [H1 H2 H3 H4 H5 H6].
  assert (tm_execution t = px_execution r ∧ tm_caller t = px_caller r ∧ tm_request_id t = sq_request_id (px_request r))
    as (T1 & T2 & T3) by by destruct Ht as (d & outputs & a & -> & _).
  apply (io_terminal _ _ Hidx) in Hterm as (s & Hs & Hkey). rewrite Hr in Hs. injection Hs as <-.
  apply (grown_intro S0 V' S (<[px_execution r := SnapshotArchived t]> S) G'); [done| |].
  2: { apply evolves_insert. intros old Hold. simplify_eq. exists r. by split. }
  split; [..|done| |].
  - apply (rows_insert (t_peers V)); [done|..].
    + cbn. rewrite E1, E2, E3, lookup_delete_eq, !lookup_insert_eq. eauto.
    + split; cbn; rewrite ?T1, ?T2, ?T3; done.
    + intros e' Hne. unfold primary. by rewrite E1, E2, E3, lookup_delete_ne, !lookup_insert_ne.
  - assert (available_of (SnapshotHot r) = None ∧ claim_of (SnapshotHot r) = None) as [Hav Hcl]
      by (unfold is_active in Ha; cbn; destruct (px_phase r); done).
    apply (indexes_insert (t_peers V)); rewrite ?Hr; cbn; try done.
    + rewrite Eq. eapply requests_same; [apply Hidx|done|]. unfold request_of. cbn. congruence.
    + change (moved (available_of (SnapshotHot r)) None (px_execution r) (t_peer_dispatch_available (t_peers V))
        (t_peer_dispatch_available (t_peers V'))). rewrite Hav, Ea. apply moved_none.
    + change (moved (claim_of (SnapshotHot r)) None (px_execution r) (t_peer_active_claims (t_peers V))
        (t_peer_active_claims (t_peers V'))). rewrite Hcl, Ec. apply moved_none.
    + change (moved (terminal_of (SnapshotHot r)) None (px_execution r) (t_peer_terminal_index (t_peers V))
        (t_peer_terminal_index (t_peers V'))). rewrite Hkey, E4. apply moved_delete.
  - apply (config_frame (t_peers V)); [unfold configuration; congruence|]. apply config_insert; [done|]. cbn. rewrite T2.
    exact (fo_executions _ _ Hconf _ _ Hr).
  - eapply histories_archive; try done. intros e0 r0 Hr0. apply (ro_snapshots _ _ Hrows _ _ Hr0).
Qed.
Lemma archive_one_grown terminal_at archived_at e :
  keeps_inv (O := O) (grown S0) (archive_one terminal_at archived_at e).
Proof.
  intros T V HT HV. assert (H := HV). destruct H as (S & G & HS & Hev).
  unfold archive_one, execution_location_in_transaction. serve.
  match goal with H : parse_execution_id _ = _ |- _ => apply parse_id in H as -> end.
  apply (runs_local id); [unfold tombstone_optional_in_transaction; solve_local| |done].
  intros o V' HV'. change (V' = V) in HV'. subst V'. serve.
  apply (runs_execution _ _ S); [apply HS| |done]. serve. unwrap.
  match goal with H : (S !! e ≫= hot_of) = Some ?r0 |- _ => rename H into Hhot, r0 into r end.
  assert (S !! e = Some (SnapshotHot r)) as Hr by (destruct (S !! e) as [[]|]; naive_solver). clear Hhot.
  assert (px_execution r = e) as <- by apply (ro_snapshots _ _ (sv_rows _ _ _ HS) _ _ Hr).
  assert (is_active r = false) as Ha by (unfold is_active; stable; by destruct (px_phase r)).
  apply runs_tombstone; [|done]. intros t Ht Hvt. serve.
  apply runs_put_tombstone; [|done]. intros b Hb. serve.
  apply runs_compact; [|done]. intros V1 Hq Hcomp. serve.
  injection Hq as Q1 Q2 Q3 Q4 Q5 Q6 Q7 Q8 Q9 Q10 Q11.
  apply (runs_global _ _ S G); [by eapply counters_frame, (sv_counters _ _ _ HS)| |done]. serve.
  assert (tm_execution t = px_execution r ∧ tm_acceptance_sequence t = px_acceptance_sequence r) as [T1 T2]
    by by destruct Ht as (d & outputs & ? & -> & _).
  cbn in Q1, Q2, Q3, Q4, Q5, Q6, Q7, Q8, Q9, Q10, Q11. rewrite T1 in Q2.
  split; [done|]. eapply (grown_archived V _ S G _ r t terminal_at b); try done; cbn; try (unfold configuration; cbn; congruence).
  eapply (counters_archived (t_peers V)); try done; [apply HS|cbn; congruence].
Qed.
Lemma archive_loop_grown before archived_at limit archived candidates :
  keeps_inv (O := O) (grown S0) (archive_loop before archived_at limit archived candidates).
Proof.
  revert archived. induction candidates as [|[k e] candidates IH]; intros archived; cbn [archive_loop]; solve_keeps; auto using archive_one_grown.
Qed.
(** The global row rewritten without a change of its counts. *)
Lemma serves_reset V S G G' b :
  serves (t_peers V) S G →
  (gp_active G', gp_dispatch_queued G', gp_hot_terminal G', gp_tombstones G', gp_next_acceptance_sequence G')
    = (gp_active G, gp_dispatch_queued G, gp_hot_terminal G, gp_tombstones G, gp_next_acceptance_sequence G) →
  validate_global_accounting G' = Ok G' → decode b "peer global accounting" = Ok G' →
  serves (t_peers (tb_put PEER_EXECUTION_ACCOUNTING
    (<[PEER_EXECUTION_GLOBAL_ACCOUNTING_KEY := b]> (tb_rows PEER_EXECUTION_ACCOUNTING V)) V)) S G'.
Proof.
  intros [Hr [] Hc Hf Hh] He Hv Hb. split.
  - by apply (rows_frame (t_peers V)).
  - by split.
  - by eapply (counters_reset (t_peers V)).
  - by apply (config_frame (t_peers V)).
  - by apply (histories_frame (t_peers V)).
Qed.
Lemma valid_archived G n at_ :
  validate_global_accounting G = Ok G → n ≠ 0%N →
  let G' := G <| gp_archive_generation := n |> <| gp_last_archived_at_unix_ms := Some at_ |> in
  validate_global_accounting G' = Ok G'.
Proof.
  unfold validate_global_accounting. intros H Hn. apply bind_Ok in H as ([] & H & _). apply refuse_if_Ok in H.
  apply orb_false_iff in H as [H _]. cbn [gp_schema_version gp_next_acceptance_sequence gp_archive_generation
    gp_last_archived_at_unix_ms]. cbn. rewrite H, (proj2 (N.eqb_neq _ _) Hn). done.
Qed.
Lemma regenerated_grown at_ :
  keeps_inv (O := O) (grown S0) (
    global ← global_accounting;
    generation ← lift (ok_or (checked_add (gp_archive_generation global) 1)
      (peer_corruption "peer archive generation overflowed"));
    put_global_accounting (global <| gp_archive_generation := generation |>
      <| gp_last_archived_at_unix_ms := Some at_ |>)).
Proof.
  intros T V HT HV. assert (H := HV). destruct H as (S & G & HS & Hev). serve.
  apply (runs_global _ _ S G); [apply HS| |done]. serve. unwrap.
  split; [done|]. eexists S, _. split; [|done].
  eapply serves_reset; [exact HS| | |eassumption]; [done|]. apply valid_archived; [apply HS|].
  match goal with H : checked_add _ _ = Some _ |- _ => apply checked_add_Some in H as [-> _] end. lia.
Qed.
#[local] Hint Resolve regenerated_grown archive_loop_grown : keeps_inv.
Lemma archive_eligible_grown before archived_at limit :
  keeps_inv (O := O) (grown S0) (archive_eligible_in_transaction before archived_at limit).
Proof.
  unfold archive_eligible_in_transaction. solve_keeps.
  apply keeps_inv_read. unfold take_rows. solve_local.
Qed.
Lemma archive_grown before archived_at limit :
  sound (O := O) (grown S0) (archive_peer_executions before archived_at limit).
Proof. unfold archive_peer_executions. solve_sound. apply archive_eligible_grown. Qed.

(** ** Configuration *)

Lemma set_open_grown open : sound (O := O) (grown S0) (set_peer_admission_open open).
Proof.
  intros T V HT. assert (H := HT). destruct H as (S & G & HS & Hev). unfold set_peer_admission_open. serve.
  apply (runs_global _ _ S G); [apply HS| |done]. serve.
  eexists S, _. split; [|done]. eapply serves_reset; [exact HS| | |eassumption]; [done|].
  by apply (valid_global G); [done..|apply HS].
Qed.
(** Only the configuration changes. *)
Definition beside_config (p : PeerTables) :=
  (t_peer_executions p, t_peer_execution_tombstones p, t_peer_execution_locations p,
   t_peer_executions_by_request p, observations_of p, t_peer_dispatch_available p,
   t_peer_active_claims p, t_peer_terminal_index p, t_peer_execution_accounting p).
Lemma serves_config p p' S G :
  serves p S G → beside_config p' = beside_config p → config_ok p' S → serves p' S G.
Proof.
  intros [Hr [] Hc _ Hh] [= E1 E2 E3 E4 E5 E6 E7 E8 E9 E10] Hf. split; [..|done|].
  - apply (rows_frame p); [|done]. intros e. unfold primary. congruence.
  - split; rewrite ?E4, ?E7, ?E8, ?E9; done.
  - by apply (counters_frame p).
  - apply (histories_frame p); [unfold observations_of; congruence|done].
Qed.
Lemma runs_bind_host T V S G host Q (R : Tables → Prop) :
  serves (t_peers V) S G → capability_identity "PeerId" 128 host = Ok host →
  (∀ V', serves (t_peers V') S G → t_serving_host_identity (t_peers V') !! "host" = Some host → Q tt T V') →
  R T → runs (O := O) T V (bind_host_in_transaction host) Q R.
Proof.
  intros HS Hh HQ HR. unfold bind_host_in_transaction. serve. cbn.
  destruct (t_serving_host_identity (t_peers V) !! "host") as [h|] eqn:Hrow.
  - serve. stable. subst. by apply HQ.
  - serve. apply HQ; [|cbn; by rewrite lookup_insert_eq].
    eapply serves_config; [exact HS|done|]. destruct (sv_config _ _ _ HS) as [F1 F2 F3 F4]. split; cbn.
    + intros k h [[<- <-]|[_ Hk]]%lookup_insert_Some; [done|eauto].
    + intros k b Hb. destruct (F2 _ _ Hb) as (v & _ & _ & _ & ?). congruence.
    + intros k b Hb. destruct (F3 _ _ Hb) as (v & _ & _ & _ & ? & _). congruence.
    + intros e s Hs. apply F4 in Hs. congruence.
Qed.
Lemma bind_grown host :
  capability_identity "PeerId" 128 host = Ok host → sound (O := O) (grown S0) (bind_serving_host host).
Proof.
  intros Hh T V HT. assert (H := HT). destruct H as (S & G & HS & Hev). unfold bind_serving_host. serve.
  apply (runs_bind_host _ _ S G); [done..| |done]. intros V' HS' _. serve. by exists S, G.
Qed.
Lemma configure_grown relationship :
  capability_identity "PeerId" 128 (sc_host (cr_caller relationship)) = Ok (sc_host (cr_caller relationship)) →
  sound (O := O) (grown S0) (configure_peer_relationship relationship).
Proof.
  intros Hh T V HT. assert (H := HT). destruct H as (S & G & HS & Hev). unfold configure_peer_relationship. serve.
  destruct a. apply (runs_bind_host _ _ S G); [done..| |done]. intros V' HS' Hhost. serve.
  apply (runs_relationship _ _ S); [apply HS'| |done]. intros o _ _. case_match; serve.
  exists S, G. split; [|done]. eapply serves_config; [exact HS'|done|]. destruct (sv_config _ _ _ HS') as [F1 F2 F3 F4].
  match goal with H : encode _ _ = Ok _ |- _ => apply decode_encoded in H as Hd end.
  split; cbn; [done| | |done].
  - intros k b' [[<- <-]|[_ Hb']]%lookup_insert_Some; [|eauto]. by exists relationship.
  - intros k b' Hb'. destruct (F3 _ _ Hb') as (v & ? & ? & ? & ? & ?). exists v. split_and!; try done.
    by apply lookup_insert_is_Some'; right.
Qed.
Lemma publish_grown catalog : sound (O := O) (grown S0) (publish_peer_catalog catalog).
Proof.
  intros T V HT. assert (H := HT). destruct H as (S & G & HS & Hev). unfold publish_peer_catalog, catalog_in_transaction. serve.
  destruct a. apply (runs_relationship _ _ S); [apply HS| |done]. intros o Ho _. serve. unwrap.
  destruct (Ho _ eq_refl) as (_ & Hrel & Hhost). case_match; serve.
  exists S, G. split; [|done]. eapply serves_config; [exact HS|done|]. destruct (sv_config _ _ _ HS) as [F1 F2 F3 F4].
  match goal with H : encode _ _ = Ok _ |- _ => apply decode_encoded in H as Hd end.
  split; cbn; [done|done| |done].
  intros k b' [[<- <-]|[_ Hb']]%lookup_insert_Some; [|eauto]. exists catalog. split_and!; try done.
  by apply not_eq_None_Some.
Qed.

(** ** Admission *)

(** What retention leaves alone: the requests, the configuration, each caller's row. *)
Definition admission_part (caller : ServingCaller) (V : Tables) :=
  (t_peer_executions_by_request (t_peers V), configuration (t_peers V),
   t_peer_execution_accounting (t_peers V) !! storage_key caller).
Lemma local_put_global caller G : local (O := O) (admission_part caller) (put_global_accounting G).
Proof.
  unfold put_global_accounting. solve_local. intros D V. apply runs_insert; [|done]. split; [done|].
  unfold admission_part. cbn. by rewrite lookup_insert_ne by (symmetry; apply storage_key_global).
Qed.
#[local] Hint Resolve local_put_global : local.
Lemma local_archive_one caller terminal_at archived_at e :
  local (O := O) (admission_part caller) (archive_one terminal_at archived_at e).
Proof.
  unfold archive_one, execution_location_in_transaction, tombstone_optional_in_transaction,
    execution_optional_in_transaction, execution_location_in_transaction, tombstone_from_record, archived_disposition,
    archived_outputs_of, put_tombstone, compact_observation_rows, each_st, remove_terminal_index, global_accounting.
  solve_local.
Qed.
#[local] Hint Resolve local_archive_one : local.
Lemma local_archive_loop caller before archived_at limit archived candidates :
  local (O := O) (admission_part caller) (archive_loop before archived_at limit archived candidates).
Proof.
  revert archived. induction candidates as [|[k e] candidates IH]; intros archived; cbn [archive_loop]; solve_local; auto.
Qed.
#[local] Hint Resolve local_archive_loop : local.
Lemma local_archive caller before archived_at limit :
  local (O := O) (admission_part caller) (archive_eligible_in_transaction before archived_at limit).
Proof. unfold archive_eligible_in_transaction, take_rows, global_accounting. solve_local. Qed.

(** A new execution under a new request. *)
Lemma grown_admitted V V' S G G' r key b :
  serves (t_peers V) S G → evolves S0 S → S !! px_execution r = None →
  parse_execution_id (px_execution r) = Ok (px_execution r) → fits (px_execution r) →
  request_key (px_caller r) (sq_request_id (px_request r)) = Ok key →
  t_peer_executions_by_request (t_peers V) !! key = None →
  t_serving_host_identity (t_peers V) !! "host" = Some (sc_host (px_caller r)) →
  px_phase r = PhAvailable (px_accepted_at_unix_ms r) → px_last_observation_sequence r = 0%N →
  px_observation_digest r = observation_genesis_digest → pa_outputs (px_accounting r) = 0%N →
  decode_peer_record b = Ok r →
  t_peer_executions (t_peers V') = <[px_execution r := b]> (t_peer_executions (t_peers V)) →
  t_peer_execution_tombstones (t_peers V') = t_peer_execution_tombstones (t_peers V) →
  t_peer_execution_locations (t_peers V') = <[px_execution r := LOCATION_HOT]> (t_peer_execution_locations (t_peers V)) →
  t_peer_executions_by_request (t_peers V') = <[key := px_execution r]> (t_peer_executions_by_request (t_peers V)) →
  t_peer_dispatch_available (t_peers V') = <[ordered_text (px_acceptance_sequence r) (px_execution r) := px_execution r]>
    (t_peer_dispatch_available (t_peers V)) →
  (t_peer_active_claims (t_peers V'), t_peer_terminal_index (t_peers V'), configuration (t_peers V'), observations_of (t_peers V'))
    = (t_peer_active_claims (t_peers V), t_peer_terminal_index (t_peers V), configuration (t_peers V), observations_of (t_peers V)) →
  counters_ok (t_peers V') (<[px_execution r := SnapshotHot r]> S) G' → grown S0 V'.
Proof.
  intros HS Hev Hnew Hid Hfit Hkey Hfree Hhost Hp Hl Hd Ho Hb E1 E2 E3 E4 E5 E6 Hcount.
  injection E6 as Ec Et Eh Er Ecat Eo Ea. pose proof HS as [Hrows Hidx _ Hconf Hhist].
  apply request_key_Ok in Hkey as (Hf1 & Hf2 & ->).
  pose proof (ro_stored _ _ Hrows (px_execution r)) as Hst. rewrite Hnew in Hst. destruct Hst as (N1 & N2 & N3).
  apply (grown_intro S0 V' S (<[px_execution r := SnapshotHot r]> S) G'); [done| |].
  2: { apply evolves_insert. intros old Hold. congruence. }
  split; [..|done| |].
  - apply (rows_insert (t_peers V)); [done|..].
    + cbn. rewrite E1, E2, E3, !lookup_insert_eq. eauto.
    + split; cbn; try done. intros r0 [= <-]. by rewrite Hp, Hl.
    + intros e' Hne. unfold primary. by rewrite E1, E2, E3, !lookup_insert_ne.
  - apply (indexes_insert (t_peers V)); rewrite ?Hnew; cbn; try done.
    + rewrite E4. eapply indexed_moved; [apply Hidx|rewrite Hnew; apply moved_insert|].
      intros k e' s [= <-] Hs Hk. assert (t_peer_executions_by_request (t_peers V) !! request_text (px_caller r)
        (sq_request_id (px_request r)) = Some e') by (apply Hidx; eauto). congruence.
    + rewrite Hp, E5. apply moved_insert.
    + rewrite Hp, Ec. apply moved_none.
    + rewrite Hp, Et. apply moved_none.
  - apply (config_frame (t_peers V)); [unfold configuration; congruence|]. by apply config_insert.
  - eapply histories_new; try done. unfold observations_of. congruence.
Qed.
Lemma parse_fits e : parse_execution_id e = Ok e → fits e.
Proof.
  unfold parse_execution_id, PeerExecutionId_new, validate_peer_identity. intros H. apply map_err_Ok in H. inv_ok.
  bool_prop. unfold fits. transitivity 192%N; done.
Qed.
Lemma accept_grown T V S G admission key v :
  grown S0 T → serves (t_peers V) S G → evolves S0 S →
  parse_execution_id (ad_execution admission) = Ok (ad_execution admission) →
  request_key (ad_caller admission) (sq_request_id (ad_request admission)) = Ok key →
  t_peer_executions_by_request (t_peers V) !! key = None →
  t_serving_host_identity (t_peers V) !! "host" = Some (sc_host (ad_caller admission)) →
  accounted (t_peers V) (ad_caller admission) v →
  runs (O := O) T V (accept_execution admission key G v) (λ _ D' _, grown S0 D') (grown S0).
Proof.
  intros HT HS Hev Hid Hkey Hfree Hhost Hacc. unfold accept_execution. serve.
  apply (runs_snapshot _ _ S); [apply HS| |done]. serve.
  assert (S !! ad_execution admission = None) as Hnew by by destruct (S !! ad_execution admission).
  destruct (accounted_active _ _ _ _ _ (sv_counters _ _ _ HS) Hacc) as (P1 & P2 & P3).
  apply (runs_local t_peers); [apply peers_accept| |done]. intros _ V1 HV1. rewrite <-HV1 in *. serve.
  match goal with H : decode_peer_record ?b = Ok (accepted_record _ _ ?n) |- _ =>
    eapply (grown_admitted V1 _ S G _ (accepted_record admission (gp_next_acceptance_sequence G) n) key b); try done end.
  - by apply parse_fits.
  - eapply (counters_admitted (t_peers V1)); try done; apply HS.
Qed.
Lemma admit_room_grown T S G admission key v :
  serves (t_peers T) S G → evolves S0 S →
  parse_execution_id (ad_execution admission) = Ok (ad_execution admission) →
  request_key (ad_caller admission) (sq_request_id (ad_request admission)) = Ok key →
  t_peer_executions_by_request (t_peers T) !! key = None →
  t_serving_host_identity (t_peers T) !! "host" = Some (sc_host (ad_caller admission)) →
  accounted (t_peers T) (ad_caller admission) v →
  runs (O := O) T T (admit_with_room admission key G v) (λ _ D' _, grown S0 D') (grown S0).
Proof.
  intros HS Hev Hid Hkey Hfree Hhost Hacc. assert (grown S0 T) as HT by by exists S, G.
  unfold admit_with_room. serve. case_match.
  - serve. eapply runs_conseq.
    { exact (runs_and _ _ _ _ _ _ _ (archive_eligible_grown _ _ _ T T HT HT)
        (local_archive (ad_caller admission) _ _ _ T T)). }
    2: { by intros D' [? _]. }
    intros page D' V' [[_ HV] [-> Hpart]]. injection Hpart as E1 E2 E3 E4 E5.
    destruct HV as (S' & G' & HS' & Hev'). serve. apply (runs_global _ _ S' G'); [apply HS'| |done]. serve.
    case_match; serve. apply (accept_grown T V' S' G'); try done; [by rewrite E1|by rewrite E2|].
    unfold accounted. by rewrite E5.
  - serve. case_match; serve. by apply (accept_grown T T S G).
Qed.
Lemma admit_grown admission :
  parse_execution_id (ad_execution admission) = Ok (ad_execution admission) →
  sound (O := O) (grown S0) (admit_peer_execution admission).
Proof.
  intros Hid T V HT. assert (H := HT). destruct H as (S & G & HS & Hev). unfold admit_peer_execution. serve.
  case_match eqn:Hrow.
  { serve. apply (runs_snapshot_text _ _ S); [apply HS| |done]. intros ? _. serve. }
  unfold admit_new. serve. apply (runs_global _ _ S G); [apply HS| |done]. case_match; serve.
  apply (runs_relationship _ _ S); [apply HS| |done]. intros o Ho _. destruct o as [relationship|]; [|by serve].
  destruct (Ho _ eq_refl) as (Hc & _ & Hhost). case_match; serve.
  apply (runs_local id); [unfold catalog_in_transaction; solve_local| |done].
  intros catalog V' HV'. change (V' = T) in HV'. subst V'. case_match; serve.
  apply runs_peer_accounting; [|done]. intros v Hv. do 3 (case_match; serve).
  by apply (admit_room_grown T S G).
Qed.
End intake.
