(* ===== verification/PeerCalls.v ===== *)
(** * The calls on serving executions

    The calls of the store that write serving state, and the invariants they keep: the
    serving state itself, and everything beside it. *)
From S2P Require Import Prelude Effects Contracts Capability Blueprint Authority.
From S2P Require Import Model Workspace Persistence Dispatch Managed PeerProtocol Storage ManagedStore PeerStore.
From S2P Require Import StorageLaws Transactions PeerState PeerLaws PeerSteps PeerIntake.

Section calls.
Context {O : Type} `{engine : !Engine O, managed : !ManagedCodec, codec : !PeerCodec}.

(** The calls that write serving state, whatever they return.  Hosts and execution
    identities are values of their validated types. *)
Inductive peer_step (s s' : Redb O) : Prop :=
| peer_bind host r : capability_identity "PeerId" 128 host = Ok host →
    bind_serving_host host s = (s', r) → peer_step s s'
| peer_open open r : set_peer_admission_open open s = (s', r) → peer_step s s'
| peer_configure relationship r :
    capability_identity "PeerId" 128 (sc_host (cr_caller relationship)) = Ok (sc_host (cr_caller relationship)) →
    configure_peer_relationship relationship s = (s', r) → peer_step s s'
| peer_publish catalog r : publish_peer_catalog catalog s = (s', r) → peer_step s s'
| peer_admit admission r : parse_execution_id (ad_execution admission) = Ok (ad_execution admission) →
    admit_peer_execution admission s = (s', r) → peer_step s s'
| peer_claim request r : claim_peer_dispatch request s = (s', r) → peer_step s s'
| peer_enter request r : mark_peer_entered request s = (s', r) → peer_step s s'
| peer_release owner e worker generation at_ r :
    release_peer_claim owner e worker generation at_ s = (s', r) → peer_step s s'
| peer_extend owner e worker generation at_ r :
    extend_peer_claim owner e worker generation at_ s = (s', r) → peer_step s s'
| peer_uncertain owner e worker generation at_ reason r :
    mark_peer_uncertain owner e worker generation at_ reason s = (s', r) → peer_step s s'
| peer_recover at_ limit r : recover_peer_claims at_ limit s = (s', r) → peer_step s s'
| peer_append owner e o r : append_peer_observation owner e o s = (s', r) → peer_step s s'
| peer_cancel owner request at_ r : request_peer_cancellation owner request at_ s = (s', r) → peer_step s s'
| peer_acknowledge owner acknowledgement at_ r :
    acknowledge_peer_cancellation owner acknowledgement at_ s = (s', r) → peer_step s s'
| peer_archive before at_ limit r : archive_peer_executions before at_ limit s = (s', r) → peer_step s s'.

(** A property of the durable tables that every such call keeps. *)
Definition peer_calls (P : Tables → Prop) : Prop :=
  ∀ s s', peer_step s s' → P (rd_durable s) → P (rd_durable s').

Lemma peer_calls_grown `{laws : !PeerCodecLaw} S0 : peer_calls (grown S0).
Proof.
  intros s s' Hstep HP. destruct Hstep; (eapply sound_run; [|exact HP|eassumption]);
    auto using bind_grown, set_open_grown, configure_grown, publish_grown, admit_grown, claim_grown, enter_grown,
      release_claim_grown, extend_claim_grown, uncertain_grown, recover_grown, append_grown, cancel_grown,
      acknowledge_grown, archive_grown.
Qed.

(** ** Once only *)

(** The answer to a request identity that is already known. *)
Definition known_answer (s : PeerExecutionSnapshot) (admission : PeerAdmission) : PeerAdmissionOutcome :=
  if bool_decide (ps_request_digest s = sq_request_digest (ad_request admission))
  then AdmissionReplayed s else AdmissionConflict s.
Lemma runs_admit_known T V S G e s admission :
  serves (t_peers T) S G → S !! e = Some s → ps_caller s = ad_caller admission →
  ps_request_id s = sq_request_id (ad_request admission) →
  runs (O := O) T V (admit_peer_execution admission)
    (λ outcome D' _, D' = T ∧ outcome = known_answer s admission) (λ D', D' = T).
Proof.
  intros HS Hs Hc Hq. unfold admit_peer_execution. serve; try done.
  match goal with H : request_key _ _ = Ok _ |- _ => apply request_key_Ok in H as (_ & _ & ->) end. cbn.
  assert (t_peer_executions_by_request (t_peers T) !! request_text (ad_caller admission)
    (sq_request_id (ad_request admission)) = Some e) as -> by (apply HS; exists s; unfold request_of; by rewrite Hc, Hq).
  serve. apply (runs_snapshot_text _ _ S); [apply HS| |done]. intros s' Hs'. simplify_eq. by serve.
Qed.
(** An execution that was entered, or is over, does not take an entry. *)
Definition entered (s : PeerExecutionSnapshot) : Prop :=
  match s with SnapshotHot r => (1 ≤ stage (px_phase r))%N | SnapshotArchived _ => True end.
Lemma entered_evolves s s' : entered s → snapshot_evolves s s' → entered s'.
Proof. destruct s as [r|t], s' as [r'|t']; cbn; try done. intros ? [_ ? _ _ _ _ _]. lia. Qed.
Lemma runs_enter_known T V S G s request :
  serves (t_peers T) S G → S !! nq_execution request = Some s → entered s →
  runs (O := O) T V (mark_peer_entered request) (λ _ _ _, False) (λ D', D' = T).
Proof.
  intros HS Hs He. unfold mark_peer_entered. serve; try done.
  apply (runs_owned _ _ S); [apply HS| |done]. intros r Hr _. simplify_eq. serve; try done.
  match goal with H : exact_pre_entry_claim _ _ _ = Ok _ |- _ => apply exact_pre_entry in H as Hp end.
  cbn in He. rewrite Hp in He. cbn in He. lia.
Qed.

(** ** What lies beside the serving tables *)

Section outside.
Context (P : Tables → Prop).
Definition outside (V : Tables) : Tables := V <| t_peers := t_peers empty_tables |>.
Hypothesis Hframe : ∀ V V', outside V' = outside V → P V → P V'.
Hypothesis Hacquire : ∀ selection execution, keeps_inv (O := O) P (acquire selection execution).
Hypothesis Hentry : ∀ id, keeps_inv (O := O) P (entry id).
Hypothesis Hterminal : ∀ id, keeps_inv (O := O) P (terminal id).
#[local] Hint Resolve Hacquire Hentry Hterminal : keeps_inv.
#[local] Ltac solve_outside :=
  solve_sound; try (apply (keeps_inv_local _ outside); [exact Hframe|solve [solve_local]]).

Lemma put_execution_outside r : local (O := O) outside (put_execution r).
Proof. unfold put_execution. solve_local. Qed.
Lemma put_global_outside G : local (O := O) outside (put_global_accounting G).
Proof. unfold put_global_accounting. solve_local. Qed.
Lemma put_peer_outside v : local (O := O) outside (put_peer_accounting v).
Proof. unfold put_peer_accounting. solve_local. Qed.
Lemma global_outside : local (O := O) outside global_accounting.
Proof. unfold global_accounting. solve_local. Qed.
Lemma peer_outside caller : local (O := O) outside (peer_accounting caller).
Proof. unfold peer_accounting. solve_local. Qed.
Lemma relationship_outside caller : local (O := O) outside (relationship_in_transaction caller).
Proof. unfold relationship_in_transaction. solve_local. Qed.
Lemma catalog_outside caller : local (O := O) outside (catalog_in_transaction caller).
Proof. unfold catalog_in_transaction. solve_local. Qed.
Lemma execution_outside e : local (O := O) outside (execution_optional_in_transaction e).
Proof. unfold execution_optional_in_transaction, execution_location_in_transaction. solve_local. Qed.
Lemma snapshot_outside e : local (O := O) outside (read_snapshot e).
Proof. unfold read_snapshot. solve_local. Qed.
#[local] Hint Resolve put_execution_outside put_global_outside put_peer_outside global_outside peer_outside
  relationship_outside catalog_outside execution_outside snapshot_outside : local.
Lemma owned_outside owner e : local (O := O) outside (owned_execution_in_transaction owner e).
Proof. unfold owned_execution_in_transaction. solve_local. Qed.
Lemma text_outside e : local (O := O) outside (execution_in_transaction_text e).
Proof. unfold execution_in_transaction_text. solve_local. Qed.
Lemma snapshot_text_outside e : local (O := O) outside (snapshot_in_transaction_text e).
Proof. unfold snapshot_in_transaction_text. solve_local. Qed.
Lemma release_outside caller queued : local (O := O) outside (release_active_accounting caller queued).
Proof. unfold release_active_accounting. solve_local. Qed.
Lemma remove_claim_outside e claim : local (O := O) outside (remove_claim_index e claim).
Proof. unfold remove_claim_index. solve_local. Qed.
Lemma terminal_index_outside r at_ : local (O := O) outside (insert_terminal_index r at_).
Proof. unfold insert_terminal_index. solve_local. Qed.
Lemma remove_terminal_outside e at_ : local (O := O) outside (remove_terminal_index e at_).
Proof. unfold remove_terminal_index. solve_local. Qed.
Lemma available_outside r : local (O := O) outside (insert_available r).
Proof. unfold insert_available. solve_local. Qed.
Lemma bind_outside host : local (O := O) outside (bind_host_in_transaction host).
Proof. unfold bind_host_in_transaction. solve_local. Qed.
Lemma take_outside {X} (t : Table X) n : local (O := O) outside (take_rows t n).
Proof. unfold take_rows. solve_local. Qed.
#[local] Hint Resolve owned_outside text_outside snapshot_text_outside release_outside remove_claim_outside
  terminal_index_outside remove_terminal_outside available_outside bind_outside take_outside : local.
Lemma recover_claim_outside at_ result row : local (O := O) outside (recover_claim at_ result row).
Proof. unfold recover_claim. solve_local. Qed.
Lemma archive_one_outside terminal_at archived_at e : local (O := O) outside (archive_one terminal_at archived_at e).
Proof.
  unfold archive_one, execution_location_in_transaction, tombstone_optional_in_transaction, tombstone_from_record,
    archived_disposition, archived_outputs_of, put_tombstone, compact_observation_rows, each_st. solve_local.
Qed.
#[local] Hint Resolve recover_claim_outside archive_one_outside : local.
Lemma archive_loop_outside before archived_at limit archived candidates :
  local (O := O) outside (archive_loop before archived_at limit archived candidates).
Proof.
  revert archived. induction candidates as [|[k e] candidates IH]; intros archived; cbn [archive_loop]; solve_local; auto.
Qed.
#[local] Hint Resolve archive_loop_outside : local.
Lemma archive_outside before archived_at limit :
  local (O := O) outside (archive_eligible_in_transaction before archived_at limit).
Proof. unfold archive_eligible_in_transaction. solve_local. Qed.
Lemma append_output_outside r o k size : local (O := O) outside (append_output r o k size).
Proof. unfold append_output. solve_local. Qed.
#[local] Hint Resolve archive_outside append_output_outside : local.

Lemma peer_calls_outside : peer_calls P.
Proof.
  intros s s' Hstep HP. destruct Hstep; (eapply sound_run; [|exact HP|eassumption]).
  - unfold bind_serving_host. solve_outside.
  - unfold set_peer_admission_open. solve_outside.
  - unfold configure_peer_relationship. solve_outside.
  - unfold publish_peer_catalog. solve_outside.
  - unfold admit_peer_execution, admit_new, admit_with_room, accept_execution, accept_serving_resources. solve_outside.
  - unfold claim_peer_dispatch. solve_outside.
  - unfold mark_peer_entered, enter_serving_resources. solve_outside.
  - unfold release_peer_claim. solve_outside.
  - unfold extend_peer_claim. solve_outside.
  - unfold mark_peer_uncertain. solve_outside.
  - unfold recover_peer_claims. solve_outside.
  - unfold append_peer_observation, replay_observation, append_next, terminalize, terminal_serving_resources. solve_outside.
  - unfold request_peer_cancellation, cancelled_phase. solve_outside.
  - unfold acknowledge_peer_cancellation. solve_outside.
  - unfold archive_peer_executions. solve_outside.
Qed.
End outside.
End calls.
