(* ===== verification/PeerAudit.v ===== *)
(** * What the integrity check accepts

    Reads that succeed on an engine that does not fail, sizes of tables as sums over the
    executions they describe, and the integrity check of the serving executions: it
    accepts every state the store keeps, claimed withdrawals apart. *)
From S2P Require Import Prelude Effects Contracts Capability Blueprint Authority.
From S2P Require Import Model Workspace Persistence Dispatch Managed PeerProtocol Storage ManagedStore PeerStore PeerIntegrity.
From S2P Require Import StorageLaws Transactions PeerState PeerLaws PeerIntake.

(** ** Reads that succeed *)

Section yields.
Context {O : Type} `{engine : !Engine O}.
Abbreviation txn := (st (Redb O) PersistenceError).
(** No call on the database fails. *)
Definition healthy : Prop := ∀ o, (engine_call o).2 = None.
(** On the view [V] the read [m] succeeds with an answer in [Q], and changes no table. *)
Definition yields {A} (V : Tables) (m : txn A) (Q : A → Prop) : Prop :=
  ∀ s, rd_view s = V → ∃ s' a, m s = (s', Ok a) ∧ rd_view s' = V ∧ rd_durable s' = rd_durable s ∧ Q a.
Implicit Types (V : Tables).

Lemma yields_ret {A} V (a : A) (Q : A → Prop) : Q a → yields V (mret a) Q.
Proof. intros HQ s Hs. by exists s, a. Qed.
Lemma yields_bind {A B} V (m : txn A) (f : A → txn B) Q :
  yields V m (λ a, yields V (f a) Q) → yields V (a ← m; f a) Q.
Proof.
  intros Hm s Hs. destruct (Hm s Hs) as (s1 & a & E1 & V1 & D1 & Hf).
  destruct (Hf s1 V1) as (s2 & b & E2 & V2 & D2 & HQ). exists s2, b.
  unfold mbind, st_bind. rewrite E1. split_and!; [done..| |done]. by rewrite D2.
Qed.
Lemma yields_mono {A} V (m : txn A) (Q Q' : A → Prop) :
  yields V m Q → (∀ a, Q a → Q' a) → yields V m Q'.
Proof. intros Hm HQ s Hs. destruct (Hm s Hs) as (s' & a & ? & ? & ? & ?). exists s', a. eauto. Qed.
Lemma yields_lift {A} V (r : result PersistenceError A) a (Q : A → Prop) :
  r = Ok a → Q a → yields V (lift r) Q.
Proof. intros -> HQ s Hs. by exists s, a. Qed.
Lemma yields_guard V c e (Q : () → Prop) : c = false → Q tt → yields V (guard_if c e) Q.
Proof. intros ->. by apply yields_lift. Qed.
Context (Hengine : healthy).
Lemma yields_call V (Q : () → Prop) : Q tt → yields V call Q.
Proof.
  intros HQ s Hs. unfold call. pose proof (Hengine (rd_engine s)) as Ho.
  destruct (engine_call (rd_engine s)) as [o f]. cbn in Ho. subst f. by eexists _, tt.
Qed.
Lemma yields_gets {A} V (f : Redb O → A) (Q : A → Prop) :
  (∀ s, rd_view s = V → Q (f s)) → yields V (gets f) Q.
Proof. intros HQ s Hs. exists s, (f s). split_and!; [done..|auto]. Qed.
Lemma yields_open {X} V (t : Table X) (Q : () → Prop) : Q tt → yields V (open_table t) Q.
Proof. apply yields_call. Qed.
Lemma yields_get {X} V (t : Table X) k (Q : option X → Prop) : Q (tb_rows t V !! k) → yields V (get t k) Q.
Proof. intros HQ. apply yields_bind, yields_call, yields_gets. unfold rows. by intros s ->. Qed.
Lemma yields_len {X} V (t : Table X) (Q : N → Prop) : Q (N.of_nat (size (tb_rows t V))) → yields V (table_len t) Q.
Proof. intros HQ. apply yields_bind, yields_call, yields_gets. unfold rows. by intros s ->. Qed.
Lemma yields_list {X} V (t : Table X) (Q : list (string * X) → Prop) :
  Q (entries (tb_rows t V)) → yields V (row_list t) Q.
Proof. intros HQ. apply yields_bind, yields_call, yields_gets. unfold rows. by intros s ->. Qed.
(** A loop that meets every element after those before it. *)
Lemma yields_fold {A B} V (f : B → A → txn B) (I : list A → B → Prop) xs acc :
  I [] acc → (∀ before x after b, xs = before ++ x :: after → I before b → yields V (f b x) (I (before ++ [x]))) →
  yields V (fold_st f acc xs) (I xs).
Proof.
  intros H0 Hf. assert (∀ after before b, xs = before ++ after → I before b →
    yields V (fold_st f b after) (I xs)) as Hgen; [|by apply (Hgen xs [])].
  induction after as [|x after IH]; intros before b Heq HI; cbn [fold_st].
  - apply yields_ret. rewrite app_nil_r in Heq. by subst.
  - apply yields_bind. eapply yields_mono; [by eapply Hf|]. intros b' HI'. apply (IH (before ++ [x])); [|done].
    by rewrite <-app_assoc.
Qed.
Lemma yields_each {A} V (f : A → txn ()) xs (Q : () → Prop) :
  (∀ x, x ∈ xs → yields V (f x) (λ _, True)) → Q tt → yields V (each_st f xs) Q.
Proof.
  intros Hf HQ. eapply yields_mono; [apply (yields_fold V _ (λ _ _, True)); [done|]|by intros []].
  intros before x after b -> _. apply Hf. set_solver.
Qed.
(** A read transaction sees the durable tables. *)
Lemma yields_begin_read {A} V (m : txn A) Q s :
  yields V m Q → rd_durable s = V → ∃ s' a, (begin_read ;; m) s = (s', Ok a) ∧ rd_durable s' = V ∧ Q a.
Proof.
  intros Hm Hs. unfold begin_read, call, modify, mbind, st_bind. pose proof (Hengine (rd_engine s)) as Ho.
  destruct (engine_call (rd_engine s)) as [o f]. cbn in Ho. subst f. cbn.
  match goal with |- ∃ _ _, m ?s1 = _ ∧ _ => destruct (Hm s1) as (s' & a & E & _ & D & HQ); [done|] end.
  exists s', a. split_and!; [done| |done]. by rewrite D.
Qed.
End yields.
Ltac answer Heng :=
  match goal with
  | |- yields _ (mbind _ _) _ => apply yields_bind
  | |- yields _ (mret _) _ => apply yields_ret
  | |- yields _ call _ => apply (yields_call Heng)
  | |- yields _ (open_table _) _ => apply (yields_open Heng)
  | |- yields _ (get _ _) _ => apply (yields_get Heng)
  | |- yields _ (table_len _) _ => apply (yields_len Heng)
  | |- yields _ (row_list _) _ => apply (yields_list Heng)
  end.

(** ** Sums *)

Definition sum_N {A} (f : A → N) (xs : list A) : N := foldr (λ x acc, f x + acc)%N 0%N xs.
Lemma sum_N_app {A} (f : A → N) xs ys : sum_N f (xs ++ ys) = (sum_N f xs + sum_N f ys)%N.
Proof. unfold sum_N. induction xs as [|x xs IH]; cbn; [done|]. rewrite IH. lia. Qed.
#[export] Instance sum_N_proper {A} (f : A → N) : Proper (Permutation ==> eq) (sum_N f).
Proof. unfold sum_N. intros xs ys. induction 1; cbn; lia. Qed.
Lemma sum_N_ext {A} (f g : A → N) xs : (∀ x, x ∈ xs → f x = g x) → sum_N f xs = sum_N g xs.
Proof.
  intros H. unfold sum_N. induction xs as [|x xs IH]; cbn; [done|].
  rewrite H by left. rewrite IH; [done|]. intros; apply H. by right.
Qed.
Lemma sum_N_map {A B} (g : A → B) (f : B → N) xs : sum_N f (g <$> xs) = sum_N (λ x, f (g x)) xs.
Proof. unfold sum_N. induction xs as [|x xs IH]; cbn; [done|]. by rewrite <-IH. Qed.
Lemma sum_N_bind {A B} (ks : A → list B) xs : vlen (xs ≫= ks) = sum_N (λ x, vlen (ks x)) xs.
Proof.
  unfold sum_N, vlen. induction xs as [|x xs IH]; [done|]. cbn [foldr mbind list_bind]. rewrite length_app. lia.
Qed.
Lemma total_sum {A} (f : A → N) (m : gmap string A) : total_of f m = sum_N (λ kv, f kv.2) (map_to_list m).
Proof.
  unfold total_of, sum_N. rewrite map_fold_foldr. induction (map_to_list m) as [|[k a] l IH]; cbn; [done|]. by rewrite IH.
Qed.
Lemma total_le {A} (f g : A → N) (m : gmap string A) :
  (∀ k a, m !! k = Some a → (f a ≤ g a)%N) → (total_of f m ≤ total_of g m)%N.
Proof.
  intros H. rewrite !total_sum. assert (∀ kv, kv ∈ map_to_list m → (f kv.2 ≤ g kv.2)%N) as Hl
    by (intros [k a] ?%elem_of_map_to_list; by eapply H).
  unfold sum_N. induction (map_to_list m) as [|kv l IH]; cbn; [done|].
  pose proof (Hl kv (list_elem_of_here _ _)). assert (∀ kv, kv ∈ l → (f kv.2 ≤ g kv.2)%N) as Hl' by (intros; apply Hl; by right).
  specialize (IH Hl'). lia.
Qed.
Lemma total_ext {A} (f g : A → N) (m : gmap string A) :
  (∀ k a, m !! k = Some a → f a = g a) → total_of f m = total_of g m.
Proof. intros H. apply N.le_antisymm; apply total_le; intros k a Ha; rewrite (H k a Ha); lia. Qed.
Lemma total_nonzero {A} (f : A → N) (m : gmap string A) : total_of f m ≠ 0%N → ∃ k a, m !! k = Some a ∧ f a ≠ 0%N.
Proof.
  induction m as [|k a m Hk IH] using map_ind; [done|]. rewrite total_new by done. intros Hne.
  destruct (decide (f a = 0%N)) as [Hz|Hnz]; [|exists k, a; by rewrite lookup_insert_eq].
  destruct IH as (k' & a' & Ha' & Hf); [lia|]. exists k', a'. rewrite lookup_insert_ne; [done|]. congruence.
Qed.
Lemma total_add {A} (f g : A → N) (m : gmap string A) :
  total_of (λ a, f a + g a)%N m = (total_of f m + total_of g m)%N.
Proof. rewrite !total_sum. unfold sum_N. induction (map_to_list m) as [|kv l IH]; cbn; [done|]. rewrite IH. lia. Qed.

(** ** Sizes of tables *)

Section sizes.
Context {A X : Type}.
Implicit Types (S : gmap string A) (m : gmap string X).
(** A table whose rows are the keys [ks] gives the values of [S]. *)
Lemma table_count m S (ks : A → list string) :
  (∀ k, is_Some (m !! k) ↔ ∃ e a, S !! e = Some a ∧ k ∈ ks a) →
  (∀ e a, S !! e = Some a → NoDup (ks a)) →
  (∀ e e' a a' k, S !! e = Some a → S !! e' = Some a' → k ∈ ks a → k ∈ ks a' → e = e') →
  N.of_nat (size m) = total_of (λ a, vlen (ks a)) S.
Proof.
  intros Hdom Hnd Hd. rewrite total_sum, <-(sum_N_bind (λ kv : string * A, ks kv.2)). unfold vlen. f_equal.
  set (l := map_to_list S ≫= λ kv, ks kv.2).
  assert (∀ k, k ∈ l ↔ is_Some (m !! k)) as Hl.
  { intros k. rewrite Hdom. unfold l. rewrite list_elem_of_bind. split.
    - intros ([e a] & Hk & Ha%elem_of_map_to_list). eauto.
    - intros (e & a & Ha & Hk). exists (e, a). by rewrite elem_of_map_to_list. }
  assert (NoDup l) as Hl'.
  { apply NoDup_bind.
    - intros [e a] [e' a'] k Ha%elem_of_map_to_list Ha'%elem_of_map_to_list Hk Hk'.
      assert (e = e') as <- by eauto. by simplify_eq.
    - intros [e a] Ha%elem_of_map_to_list. eauto.
    - apply NoDup_map_to_list. }
  rewrite <-size_dom. rewrite <-(size_list_to_set (C := gset string) l) by done. f_equal.
  apply set_eq. intros k. by rewrite elem_of_list_to_set, Hl, elem_of_dom.
Qed.
(** A sum over the rows of a table that holds every value the sum sees. *)
Lemma sum_rows m S (f : A → N) :
  (∀ e, is_Some (m !! e) → is_Some (S !! e)) → (∀ e a, S !! e = Some a → f a ≠ 0%N → is_Some (m !! e)) →
  sum_N (λ kv, default 0%N (f <$> S !! kv.1)) (entries m) = total_of f S.
Proof.
  revert m. induction S as [|e a S He IH] using map_ind; intros m Hsub Hall.
  - assert (m = ∅) as ->; [|done]. apply map_eq. intros e. rewrite lookup_empty. destruct (m !! e) eqn:Hm; [|done].
    destruct (Hsub e) as [? H]; [eauto|]. by rewrite lookup_empty in H.
  - rewrite total_new by done. rewrite <-(IH (delete e m)).
    + rewrite !entries_perm.
      assert (∀ l : list (string * X), (∀ kv, kv ∈ l → kv.1 ≠ e) →
        sum_N (λ kv, default 0%N (f <$> <[e := a]> S !! kv.1)) l = sum_N (λ kv, default 0%N (f <$> S !! kv.1)) l) as Hext.
      { intros l Hl. apply sum_N_ext. intros kv Hkv. by rewrite lookup_insert_ne by (symmetry; by apply Hl). }
      assert (∀ kv, kv ∈ map_to_list (delete e m) → kv.1 ≠ e) as Hne.
      { intros [k x] Hkv%elem_of_map_to_list. cbn. intros ->. by rewrite lookup_delete_eq in Hkv. }
      rewrite <-(Hext _ Hne). destruct (m !! e) as [x|] eqn:Hm.
      * rewrite <-(map_to_list_delete m e x Hm). cbn. by rewrite lookup_insert_eq.
      * rewrite delete_id by done. assert (f a = 0%N) as ->; [|lia].
        destruct (decide (f a = 0%N)) as [->|Hn]; [done|]. destruct (Hall e a) as [? ?]; [by rewrite lookup_insert_eq|done|congruence].
    + intros k [x [Hne Hx]%lookup_delete_Some]. destruct (Hsub k) as [a' Ha']; [eauto|].
      rewrite lookup_insert_ne in Ha' by done. eauto.
    + intros k a' Ha' Hf. destruct (decide (k = e)) as [->|Hne]; [congruence|]. rewrite lookup_delete_ne by done.
      eapply Hall; [|done]. by rewrite lookup_insert_ne.
Qed.
End sizes.

(** ** Sizes of the serving tables *)

Definition is_dispatchable (r : PeerExecutionRecord) : bool := dispatchable (px_phase r).
Definition has_claim (r : PeerExecutionRecord) : bool := is_some (phase_claim (px_phase r)).
(** The observations and the outputs a hot record retains. *)
Definition retained (s : PeerExecutionSnapshot) : N :=
  match s with SnapshotHot r => px_last_observation_sequence r | SnapshotArchived _ => 0 end.
Definition retained_outputs (s : PeerExecutionSnapshot) : N :=
  match s with SnapshotHot r => pa_outputs (px_accounting r) | SnapshotArchived _ => 0 end.

Lemma NoDup_sequences last : NoDup (sequences last).
Proof. unfold sequences. apply NoDup_fmap_2; [intros ? ? ?; lia|apply NoDup_seq]. Qed.
Lemma length_sequences last : vlen (sequences last) = last.
Proof. unfold sequences, vlen. rewrite length_fmap, length_seq. lia. Qed.
Lemma lookup_sequences last i n : sequences last !! i = Some n → n = (N.of_nat i + 1)%N.
Proof. unfold sequences. rewrite list_lookup_fmap_Some. intros (j & -> & [-> _]%lookup_seq). lia. Qed.

Section tables.
Context `{managed : !ManagedCodec, codec : !PeerCodec}.
Implicit Types (S : serving) (p : PeerTables) (G : GlobalPeerAccounting).
Lemma index_count f (I : gmap string string) S :
  indexed f I S → N.of_nat (size I) = total_of (λ s, if is_some (f s) then 1 else 0)%N S.
Proof.
  intros HI. rewrite (table_count I S (λ s, option_list (f s))).
  - apply total_ext. intros e s _. by destruct (f s).
  - intros k. split.
    + intros [e (s & Hs & Hk)%HI]. exists e, s. rewrite Hk. split; [done|by left].
    + intros (e & s & Hs & Hk). exists e. apply HI. exists s. split; [done|]. destruct (f s); set_solver.
  - intros e s _. destruct (f s); cbn; [apply NoDup_singleton|constructor].
  - intros e e' s s' k Hs Hs' Hk Hk'.
    assert (f s = Some k ∧ f s' = Some k) as [H H'] by (destruct (f s), (f s'); set_solver).
    assert (I !! k = Some e ∧ I !! k = Some e') as [? ?] by (split; apply HI; eauto). congruence.
Qed.

Lemma hot_row p S e : rows_ok p S → is_Some (t_peer_executions p !! e) ↔ ∃ r, S !! e = Some (SnapshotHot r).
Proof.
  intros [Hst _]. specialize (Hst e). split.
  - intros [b Hb]. destruct (S !! e) as [[r|t]|]; cbn in Hst; [eauto|naive_solver..].
  - intros [r Hr]. rewrite Hr in Hst. destruct Hst as ((b & ? & _) & _). eauto.
Qed.
Lemma archived_row p S e :
  rows_ok p S → is_Some (t_peer_execution_tombstones p !! e) ↔ ∃ t, S !! e = Some (SnapshotArchived t).
Proof.
  intros [Hst _]. specialize (Hst e). split.
  - intros [b Hb]. destruct (S !! e) as [[r|t]|]; cbn in Hst; [naive_solver|eauto|naive_solver].
  - intros [r Hr]. rewrite Hr in Hst. destruct Hst as (_ & (b & ? & _) & _). eauto.
Qed.
Lemma located_row p S e : rows_ok p S → is_Some (t_peer_execution_locations p !! e) ↔ is_Some (S !! e).
Proof.
  intros [Hst _]. specialize (Hst e).
  destruct (S !! e) as [[r|t]|]; destruct Hst as (_ & _ & ->); split; intros [? [=]]; eauto.
Qed.
(** The rows of a table under the executions that have one. *)
Lemma keyed_count {X} (m : gmap string X) S p (P : PeerExecutionSnapshot → bool) :
  rows_ok p S → (∀ e, is_Some (m !! e) ↔ ∃ s, S !! e = Some s ∧ P s = true) →
  N.of_nat (size m) = total_of (λ s, if P s then 1 else 0)%N S.
Proof.
  intros [_ Hid] Hm. rewrite (table_count m S (λ s, if P s then [ps_execution s] else [])).
  - apply total_ext. intros e s _. by destruct (P s).
  - intros k. rewrite Hm. split.
    + intros (s & Hs & HP). exists k, s. rewrite HP. split; [done|]. rewrite (so_execution _ _ (Hid _ _ Hs)). by left.
    + intros (e & s & Hs & Hk). destruct (P s) eqn:HP; [|set_solver]. apply list_elem_of_singleton in Hk as ->.
      rewrite (so_execution _ _ (Hid _ _ Hs)). eauto.
  - intros e s _. destruct (P s); [apply NoDup_singleton|constructor].
  - intros e e' s s' k Hs Hs' Hk Hk'. destruct (P s), (P s'); try set_solver.
    apply list_elem_of_singleton in Hk, Hk'. rewrite <-(so_execution _ _ (Hid _ _ Hs)), <-(so_execution _ _ (Hid _ _ Hs')).
    congruence.
Qed.
Lemma executions_count p S :
  rows_ok p S → N.of_nat (size (t_peer_executions p)) = (tally is_active S + tally is_done S)%N.
Proof.
  intros HS. rewrite (keyed_count _ S p (λ s, is_some (hot_of s))); [|done|].
  - unfold tally. rewrite <-total_add. apply total_ext. intros e [r|t] _; cbn; [|done].
    unfold is_done, is_active. by destruct (phase_is_active _).
  - intros e. rewrite (hot_row _ S) by done. split; [intros [r ?]; by exists (SnapshotHot r)|].
    intros ([r|t] & ? & ?); [eauto|done].
Qed.
Lemma tombstones_count p S :
  rows_ok p S → N.of_nat (size (t_peer_execution_tombstones p)) = total_of archived_weight S.
Proof.
  intros HS. rewrite (keyed_count _ S p (λ s, negb (is_some (hot_of s)))); [|done|].
  - apply total_ext. by intros e [r|t] _.
  - intros e. rewrite (archived_row _ S) by done. split; [intros [t ?]; by exists (SnapshotArchived t)|].
    intros ([r|t] & ? & ?); [done|eauto].
Qed.
Lemma locations_count p S :
  rows_ok p S → N.of_nat (size (t_peer_execution_locations p))
    = (N.of_nat (size (t_peer_executions p)) + N.of_nat (size (t_peer_execution_tombstones p)))%N.
Proof.
  intros HS. rewrite (executions_count _ S), (tombstones_count _ S) by done. unfold tally.
  rewrite (keyed_count _ S p (λ _, true)), <-!total_add; [|done|].
  - apply total_ext. intros e [r|t] _; cbn; [|done]. unfold is_done, is_active. by destruct (phase_is_active _).
  - intros e. rewrite (located_row _ S) by done. unfold is_Some. naive_solver.
Qed.
Lemma requests_count p S :
  rows_ok p S → indexes_ok p S →
  size (t_peer_executions_by_request p) = size (t_peer_execution_locations p).
Proof.
  intros HS HI. apply (inj N.of_nat). rewrite (index_count request_of _ S) by apply HI.
  rewrite (keyed_count _ S p (λ _, true)); [done|done|].
  intros e. rewrite (located_row _ S) by done. unfold is_Some. naive_solver.
Qed.
Lemma available_count p S :
  indexes_ok p S → N.of_nat (size (t_peer_dispatch_available p)) = tally is_dispatchable S.
Proof.
  intros HI. rewrite (index_count available_of _ S) by apply HI. apply total_ext. intros e [r|t] _; cbn; [|done].
  unfold is_dispatchable. by destruct (dispatchable _).
Qed.
Lemma claims_count p S : indexes_ok p S → N.of_nat (size (t_peer_active_claims p)) = tally has_claim S.
Proof.
  intros HI. rewrite (index_count claim_of _ S) by apply HI. apply total_ext. intros e [r|t] _; cbn; [|done].
  unfold has_claim. by destruct (phase_claim _).
Qed.
Lemma finished_count p S : indexes_ok p S → N.of_nat (size (t_peer_terminal_index p)) = tally is_done S.
Proof.
  intros HI. rewrite (index_count terminal_of _ S) by apply HI. apply total_ext. intros e [r|t] _; cbn; [|done].
  unfold is_done. by destruct (px_phase r).
Qed.

(** *** Histories *)

Lemma history_sequences p r rows :
  record_history p r rows →
  Forall2 (λ i row, observed p (px_execution r) i row.1 row.2) (sequences (px_last_observation_sequence r)) rows.
Proof.
  intros [Hl Hr _ _]. apply Forall2_same_length_lookup. split.
  - pose proof (length_sequences (px_last_observation_sequence r)). unfold vlen in *. lia.
  - intros i n row Hn Hrow. apply lookup_sequences in Hn as ->. by apply Hr.
Qed.
Definition retained_keys (s : PeerExecutionSnapshot) : list string :=
  match s with
  | SnapshotHot r => (λ i, ordered_text i (px_execution r)) <$> sequences (px_last_observation_sequence r)
  | SnapshotArchived _ => []
  end.
Lemma elem_of_retained s k :
  k ∈ retained_keys s ↔ ∃ r i, s = SnapshotHot r ∧ (1 ≤ i ≤ px_last_observation_sequence r)%N
    ∧ k = ordered_text i (px_execution r).
Proof.
  destruct s as [r|t]; cbn; [|set_solver]. rewrite list_elem_of_fmap. split.
  - intros (i & -> & Hi%elem_of_sequences). eauto 10.
  - intros (r' & i & [= <-] & Hi & ->). exists i. by rewrite elem_of_sequences.
Qed.
Lemma retained_owner p S e e' s s' k :
  rows_ok p S → S !! e = Some s → S !! e' = Some s' → k ∈ retained_keys s → k ∈ retained_keys s' → e = e'.
Proof.
  intros [_ Hid] Hs Hs' (r & i & -> & _ & ->)%elem_of_retained (r' & i' & -> & _ & Heq)%elem_of_retained.
  apply ordered_text_inj in Heq as [_ Heq].
  rewrite <-(so_execution _ _ (Hid _ _ Hs)), <-(so_execution _ _ (Hid _ _ Hs')). done.
Qed.
Lemma NoDup_retained p S e s : rows_ok p S → S !! e = Some s → NoDup (retained_keys s).
Proof.
  intros [_ Hid] Hs. destruct s as [r|t]; [|constructor].
  destruct (so_phase _ _ (Hid _ _ Hs) r eq_refl) as [_ Hu].
  apply NoDup_fmap_2_strong; [|apply NoDup_sequences].
  intros i j Hi%elem_of_sequences Hj%elem_of_sequences [? _]%ordered_text_small; [done|lia..].
Qed.
Lemma retained_row p S k :
  rows_ok p S → histories_ok p S →
  is_Some (t_peer_observations p !! k) ↔ ∃ e s, S !! e = Some s ∧ k ∈ retained_keys s.
Proof.
  intros [_ Hid] [Hh Hown _]. split.
  - intros [b Hb]. destruct (Hown _ _ Hb) as (e & r & i & Hr & Hi & ->). exists e, (SnapshotHot r). split; [done|].
    apply elem_of_retained. exists r, i. by rewrite (so_execution _ _ (Hid _ _ Hr) : px_execution r = e).
  - intros (e & s & Hs & (r & i & -> & Hi & ->)%elem_of_retained). destruct (Hh _ _ Hs) as [rows Hrows].
    apply history_sequences in Hrows. assert (i ∈ sequences (px_last_observation_sequence r)) as Hin by by apply elem_of_sequences.
    apply list_elem_of_lookup_1 in Hin as [j Hj]. destruct (Forall2_lookup_l _ _ _ _ _ Hrows Hj) as (row & _ & Hrow).
    destruct Hrow as (Hb & _). eauto.
Qed.
Lemma observations_count p S :
  rows_ok p S → histories_ok p S → N.of_nat (size (t_peer_observations p)) = total_of retained S.
Proof.
  intros HS Hh. rewrite (table_count _ S retained_keys).
  - apply total_ext. intros e [r|t] _; cbn; [|done]. unfold vlen. rewrite length_fmap. apply length_sequences.
  - intros k. by apply retained_row.
  - intros e s. by eapply NoDup_retained.
  - intros e e' s s' k. by eapply retained_owner.
Qed.
(** The rows with an artifact are the outputs. *)
Definition artifact_keys p (s : PeerExecutionSnapshot) : list string :=
  List.filter (λ k, is_some (t_peer_observation_artifacts p !! k)) (retained_keys s).
Lemma artifact_outputs p e ns rows :
  Forall2 (λ i row, observed p e i row.1 row.2) ns rows →
  vlen (List.filter (λ k, is_some (t_peer_observation_artifacts p !! k)) ((λ i, ordered_text i e) <$> ns))
  = output_count rows.*2.
Proof.
  unfold output_count, vlen. induction 1 as [|i [b o] ns rows (_ & _ & _ & _ & Ho) H IH]; [done|]. cbn.
  cbn in Ho. destruct (ob_output o) as [[? ?]|]; cbn.
  - destruct Ho as (b' & -> & _). cbn. lia.
  - rewrite Ho. cbn. done.
Qed.
Lemma artifacts_count p S :
  rows_ok p S → histories_ok p S →
  N.of_nat (size (t_peer_observation_artifacts p)) = total_of retained_outputs S.
Proof.
  intros HS Hh. rewrite (table_count _ S (artifact_keys p)); unfold artifact_keys.
  - apply total_ext. intros e [r|t] Hr; cbn; [|done]. destruct (hs_history _ _ Hh _ _ Hr) as [rows Hrows].
    rewrite (ho_outputs _ _ _ _ _ _ Hrows). by apply artifact_outputs, history_sequences.
  - intros k. split.
    + intros Hk. pose proof Hk as [b Hb]. apply (hs_artifacts _ _ Hh) in Hb.
      apply (retained_row p S) in Hb as (e & s & Hs & Hin); [|done..]. exists e, s. split; [done|].
      apply list_elem_of_In, filter_In. rewrite <-list_elem_of_In. split; [done|]. by destruct Hk as [? ->].
    + intros (e & s & _ & Hk). apply list_elem_of_In, filter_In in Hk as [_ Hk].
      destruct (t_peer_observation_artifacts p !! k); [eauto|done].
  - intros e s Hs. apply NoDup_ListNoDup, List.NoDup_filter, NoDup_ListNoDup. by eapply NoDup_retained.
  - intros e e' s s' k Hs Hs' Hk Hk'. apply list_elem_of_In, filter_In in Hk as [Hk%list_elem_of_In _].
    apply list_elem_of_In, filter_In in Hk' as [Hk'%list_elem_of_In _]. by eapply retained_owner.
Qed.
End tables.
