(* ===== verification/PeerVerify.v ===== *)
(** * The integrity check accepts what the store keeps

    The check of the serving executions, run on an engine that does not fail, over tables
    that describe one set of executions: it succeeds, unless a withdrawn execution is
    still claimed. *)
From S2P Require Import Prelude Effects Contracts Capability Blueprint Authority.
From S2P Require Import Model Workspace Persistence Dispatch Managed PeerProtocol Storage ManagedStore PeerStore PeerIntegrity.
From S2P Require Import StorageLaws Transactions PeerState PeerLaws PeerIntake PeerAudit.

(** ** Counts by caller *)

(** [counts] holds the nonzero values of [by_caller], which sum to [total]. *)
Record counts_ok (by_caller : ServingCaller → N) (total : N) (counts : list (ServingCaller * N)) : Prop := {
  cs_distinct : NoDup counts.*1;
  cs_count : ∀ caller, peer_count caller counts = by_caller caller;
  cs_nonzero : ∀ entry, entry ∈ counts → entry.2 ≠ 0%N;
  cs_total : sum_N snd counts = total
}.
#[local] Arguments remove_peer : simpl never.
Lemma remove_peer_cons caller c n counts :
  remove_peer caller ((c, n) :: counts)
  = if bool_decide (c = caller) then remove_peer caller counts else (c, n) :: remove_peer caller counts.
Proof. unfold remove_peer. cbn. by repeat case_bool_decide. Qed.
Lemma remove_peer_elem caller counts entry :
  entry ∈ remove_peer caller counts ↔ entry ∈ counts ∧ entry.1 ≠ caller.
Proof. unfold remove_peer. by rewrite list_elem_of_In, filter_In, <-list_elem_of_In, bool_decide_eq_true. Qed.
Lemma remove_peer_distinct caller counts : NoDup counts.*1 → NoDup (remove_peer caller counts).*1.
Proof.
  induction counts as [|[c n] counts IH]; cbn; [done|]. intros [Hn Hd]%NoDup_cons. rewrite remove_peer_cons.
  case_bool_decide; cbn; [auto|].
  apply NoDup_cons. split; [|auto]. intros ([? ?] & Heq & [H' _]%remove_peer_elem)%list_elem_of_fmap.
  apply Hn, list_elem_of_fmap. eauto.
Qed.
Lemma remove_peer_absent caller counts : caller ∉ counts.*1 → remove_peer caller counts = counts.
Proof.
  induction counts as [|[c n] counts IH]; cbn; [done|]. intros [Hc Hn]%not_elem_of_cons.
  by rewrite remove_peer_cons, bool_decide_eq_false_2, IH.
Qed.
Lemma peer_count_absent caller counts : caller ∉ counts.*1 → peer_count caller counts = 0%N.
Proof.
  induction counts as [|[c n] counts IH]; cbn; [done|]. intros [Hc Hn]%not_elem_of_cons.
  rewrite bool_decide_eq_false_2 by done. auto.
Qed.
Lemma peer_count_remove caller caller' counts :
  peer_count caller' (remove_peer caller counts) = if bool_decide (caller = caller') then 0%N else peer_count caller' counts.
Proof.
  induction counts as [|[c n] counts IH]; cbn; [by case_bool_decide|]. rewrite remove_peer_cons.
  destruct (decide (c = caller)) as [->|Hne].
  - rewrite (bool_decide_eq_true_2 (caller = caller)), IH by done. by case_bool_decide.
  - rewrite (bool_decide_eq_false_2 (c = caller)) by done. cbn. rewrite IH. repeat case_bool_decide; naive_solver.
Qed.
Lemma sum_remove caller counts :
  NoDup counts.*1 → sum_N snd counts = (peer_count caller counts + sum_N snd (remove_peer caller counts))%N.
Proof.
  induction counts as [|[c n] counts IH]; cbn; [done|]. intros [Hn Hd]%NoDup_cons. specialize (IH Hd).
  rewrite remove_peer_cons. case_bool_decide as Hc; subst; [by rewrite remove_peer_absent|].
  cbn. unfold sum_N in *. lia.
Qed.
Lemma counts_add by_caller by_caller' total counts caller :
  counts_ok by_caller total counts →
  (∀ c, by_caller' c = by_caller c + if bool_decide (caller = c) then 1 else 0)%N →
  counts_ok by_caller' (total + 1) ((caller, peer_count caller counts + 1)%N :: remove_peer caller counts).
Proof.
  intros [Hd Hc Hz Ht] Hadd. split.
  - cbn. apply NoDup_cons. split; [|by apply remove_peer_distinct].
    intros ([? ?] & ? & [_ ?]%remove_peer_elem)%list_elem_of_fmap. naive_solver.
  - intros c. cbn. rewrite peer_count_remove, Hadd, Hc. case_bool_decide; subst; [done|]. rewrite Hc. lia.
  - intros entry [->|[? _]%remove_peer_elem]%elem_of_cons; cbn; [lia|auto].
  - cbn. rewrite (sum_remove caller) in Ht by done. unfold sum_N in *. lia.
Qed.
Lemma peer_count_elem caller n counts : NoDup counts.*1 → (caller, n) ∈ counts → peer_count caller counts = n.
Proof.
  induction counts as [|[c m] counts IH]; cbn; [set_solver|]. intros [Hn Hd]%NoDup_cons [[= <- <-]|Hin]%elem_of_cons.
  - by rewrite bool_decide_eq_true_2.
  - rewrite bool_decide_eq_false_2; [auto|]. intros ->. apply Hn, list_elem_of_fmap. by exists (caller, n).
Qed.
(** The counts of the callers whose accounting row is not among [ks]. *)
Definition unseen (ks : list string) (counts : list (ServingCaller * N)) : list (ServingCaller * N) :=
  List.filter (λ entry, bool_decide (storage_key entry.1 ∉ ks)) counts.
Lemma unseen_nil counts : unseen [] counts = counts.
Proof.
  unfold unseen. induction counts as [|entry counts IH]; cbn; [done|]. rewrite bool_decide_eq_true_2 by set_solver.
  by rewrite IH.
Qed.
Lemma peer_count_unseen ks caller counts :
  storage_key caller ∉ ks → peer_count caller (unseen ks counts) = peer_count caller counts.
Proof.
  intros Hk. unfold unseen. induction counts as [|[c n] counts IH]; cbn; [done|].
  case_bool_decide; cbn; rewrite IH; [done|]. rewrite bool_decide_eq_false_2; [done|]. by intros ->.
Qed.
Lemma unseen_snoc ks caller counts :
  unseen (ks ++ [storage_key caller]) counts = remove_peer caller (unseen ks counts).
Proof.
  unfold unseen, remove_peer. induction counts as [|[c n] counts IH]; cbn; [done|]. rewrite IH.
  assert (storage_key c ∉ ks ++ [storage_key caller] ↔ storage_key c ∉ ks ∧ c ≠ caller) as Hiff.
  { rewrite not_elem_of_app, list_elem_of_singleton. split; intros [? Hne]; split; try done; [congruence|].
    by intros ?%storage_key_inj. }
  rewrite (bool_decide_ext _ _ Hiff), bool_decide_and.
  destruct (bool_decide (storage_key c ∉ ks)); cbn; [|done]. by destruct (bool_decide (c ≠ caller)).
Qed.
Lemma unseen_other ks k counts :
  (∀ caller, storage_key caller ≠ k) → unseen (ks ++ [k]) counts = unseen ks counts.
Proof.
  intros Hk. unfold unseen. induction counts as [|[c n] counts IH]; cbn; [done|]. rewrite IH.
  by rewrite (bool_decide_ext (storage_key c ∉ ks ++ [k]) (storage_key c ∉ ks)) by (specialize (Hk c); set_solver).
Qed.
Lemma active_total_Ok counts :
  (sum_N snd counts ≤ u32_max)%N → active_total counts = Ok (sum_N snd counts).
Proof.
  unfold active_total. assert (∀ acc : N, (acc + sum_N snd counts ≤ u32_max)%N →
    try_fold (λ total (entry : ServingCaller * N), ok_or (checked_add_u32 total entry.2)
      (peer_corruption "peer integrity active count overflowed")) acc counts = Ok (acc + sum_N snd counts)%N) as Hgen;
    [|intros H; by rewrite Hgen].
  induction counts as [|[c n] counts IH]; intros acc Hb; cbn in *; [f_equal; lia|].
  rewrite (proj2 (checked_add_u32_Some acc n (acc + n)%N)) by (split; [done|lia]). cbn.
  rewrite IH by (unfold sum_N in *; lia). f_equal. unfold sum_N. lia.
Qed.

(** ** The running counts *)

(** The records the check counts as queued. *)
Definition is_counted (r : PeerExecutionRecord) : bool :=
  match px_phase r with PhAvailable _ | PhClaimed _ | PhCancellation None None => true | _ => false end.
Definition bumped (c : bool) (maximum before : N) : N := if c then N.min (before + 1) maximum else before.
(** What the phase of [r] adds to the running counts. *)
Record phased (r : PeerExecutionRecord) (t t' : Tally) : Prop := {
  ph_kept : (ty_active_by_peer t', ty_observations t', ty_artifacts t')
    = (ty_active_by_peer t, ty_observations t, ty_artifacts t);
  ph_dispatch : ty_dispatch t' = bumped (is_counted r) u32_max (ty_dispatch t);
  ph_hot_terminal : ty_hot_terminal t' = bumped (is_done r) u64_max (ty_hot_terminal t);
  ph_available : ty_available t' = bumped (is_dispatchable r) u64_max (ty_available t);
  ph_claims : ty_claims t' = bumped (has_claim r) u64_max (ty_claims t);
  ph_terminal : ty_terminal t' = bumped (is_done r) u64_max (ty_terminal t)
}.
Lemma saturating_bumped n : saturating_u64 n = N.min (n + 1) u64_max.
Proof. unfold saturating_u64, saturating_add. lia. Qed.

(** A sum over rows of the executions they belong to. *)
Definition counted_over {X} (S : serving) (f : PeerExecutionSnapshot → N) (rows : list (string * X)) : N :=
  sum_N (λ row, default 0%N (f <$> S !! row.1)) rows.
Lemma counted_snoc {X} S f (rows : list (string * X)) k x s :
  S !! k = Some s → counted_over S f (rows ++ [(k, x)]) = (counted_over S f rows + f s)%N.
Proof. intros Hs. unfold counted_over. rewrite sum_N_app. cbn. rewrite Hs. cbn. lia. Qed.
Lemma counted_prefix {X} S f (before after : list (string * X)) k x s :
  S !! k = Some s → (counted_over S f before + f s ≤ counted_over S f (before ++ (k, x) :: after))%N.
Proof. intros Hs. unfold counted_over. rewrite sum_N_app. cbn. rewrite Hs. cbn. lia. Qed.
Lemma bumped_min c maximum n : bumped c maximum (N.min n maximum) = N.min (n + if c then 1 else 0) maximum.
Proof. unfold bumped. destruct c; lia. Qed.
(** The running counts after some of the hot rows. *)
Record running {X} (S : serving) (rows : list (string * X)) (t : Tally) : Prop := {
  rn_dispatch : ty_dispatch t = N.min (counted_over S (weight is_counted) rows) u32_max;
  rn_hot_terminal : ty_hot_terminal t = N.min (counted_over S (weight is_done) rows) u64_max;
  rn_available : ty_available t = N.min (counted_over S (weight is_dispatchable) rows) u64_max;
  rn_claims : ty_claims t = N.min (counted_over S (weight has_claim) rows) u64_max;
  rn_terminal : ty_terminal t = N.min (counted_over S (weight is_done) rows) u64_max;
  rn_observations : ty_observations t = counted_over S retained rows;
  rn_artifacts : ty_artifacts t = counted_over S retained_outputs rows;
  rn_counts : counts_ok (λ caller, counted_over S (weight (active_for caller)) rows)
    (counted_over S (weight is_active) rows) (ty_active_by_peer t)
}.
Lemma running_empty {X} S : running S (X := X) [] empty_tally.
Proof. split; try done. split; try done; [constructor|set_solver]. Qed.
(** One more hot row. *)
Lemma running_snoc {X} S (rows : list (string * X)) k x r t t1 t' :
  running S rows t → S !! k = Some (SnapshotHot r) →
  add_active r (t <| ty_observations := (ty_observations t + px_last_observation_sequence r)%N |>
    <| ty_artifacts := (ty_artifacts t + pa_outputs (px_accounting r))%N |>) = Ok t1 →
  phased r t1 t' → running S (rows ++ [(k, x)]) t'.
Proof.
  intros [] Hr Hadd [Hkept P1 P2 P3 P4 P5]. injection Hkept as K1 K2 K3.
  assert ((ty_dispatch t1, ty_hot_terminal t1, ty_available t1, ty_claims t1, ty_terminal t1)
    = (ty_dispatch t, ty_hot_terminal t, ty_available t, ty_claims t, ty_terminal t)
    ∧ ty_observations t1 = (ty_observations t + px_last_observation_sequence r)%N
    ∧ ty_artifacts t1 = (ty_artifacts t + pa_outputs (px_accounting r))%N
    ∧ counts_ok (λ caller, counted_over S (weight (active_for caller)) (rows ++ [(k, x)]))
        (counted_over S (weight is_active) (rows ++ [(k, x)])) (ty_active_by_peer t1)) as (E & E6 & E7 & E8).
  { unfold add_active in Hadd. destruct (phase_is_active (px_phase r)) eqn:Ha.
    - apply bind_Ok in Hadd as (n & Hn%ok_or_Ok & [= <-]). apply checked_add_u32_Some in Hn as [-> _].
      split_and!; [done..|]. rewrite (counted_snoc _ _ _ _ _ _ Hr). cbn. unfold is_active at 2. rewrite Ha.
      eapply counts_add; [done|]. intros c. rewrite (counted_snoc _ _ _ _ _ _ Hr). cbn.
      unfold active_for at 2, is_active. rewrite Ha. by case_bool_decide.
    - injection Hadd as <-. split_and!; [done..|]. cbn. rewrite (counted_snoc _ _ _ _ _ _ Hr). cbn.
      unfold is_active at 2. rewrite Ha, N.add_0_r. destruct rn_counts0. split; [done| |done..].
      intros c. rewrite (counted_snoc _ _ _ _ _ _ Hr), cs_count0. cbn. unfold active_for at 3, is_active. rewrite Ha. cbn. lia. }
  injection E as E1 E2 E3 E4 E5.
  split; [..|by rewrite K1]; rewrite ?(counted_snoc _ _ _ _ _ _ Hr), ?P1, ?P2, ?P3, ?P4, ?P5, ?E1, ?E2, ?E3, ?E4, ?E5, ?K2, ?K3, ?E6, ?E7;
    rewrite ?rn_dispatch0, ?rn_hot_terminal0, ?rn_available0, ?rn_claims0, ?rn_terminal0, ?rn_observations0, ?rn_artifacts0;
    by rewrite ?bumped_min.
Qed.

(** ** The check, table by table *)

Section verify.
Context {O : Type} `{engine : !Engine O, managed : !ManagedCodec, codec : !PeerCodec}.
Context (Heng : healthy (O := O)) (V : Tables) (S : serving) (G : GlobalPeerAccounting).
Context (HS : serves (t_peers V) S G).
Abbreviation p := (t_peers V).
Abbreviation host := (t_serving_host_identity p !! "host").
Abbreviation txn := (st (Redb O) PersistenceError).
Ltac next := repeat answer Heng.

Lemma yields_global Q : Q G → yields (O := O) V global_accounting Q.
Proof.
  intros HQ. unfold global_accounting. next. destruct (sv_counters _ _ _ HS) as [(b & Hb & Hd) Hv _]. cbn. rewrite Hb.
  eapply yields_lift; [done|]. next. eapply yields_lift; [exact Hd|]. by eapply yields_lift.
Qed.
Lemma yields_snapshot e s Q : S !! e = Some s → Q s → yields (O := O) V (snapshot_in_transaction_text e) Q.
Proof.
  intros Hs HQ. pose proof (sv_rows _ _ _ HS) as [Hst Hid]. specialize (Hst e). rewrite Hs in Hst.
  unfold snapshot_in_transaction_text, read_snapshot. next. eapply yields_lift; [apply (Hid _ _ Hs)|]. next. cbn.
  destruct s as [r|t]; cbn in Hst.
  - destruct Hst as ((b & Hb & Hd) & _ & Hl). rewrite Hl. cbn. next. cbn. rewrite Hb.
    eapply yields_lift; [done|]. next. eapply yields_lift; [exact Hd|]. next. by eapply yields_lift.
  - destruct Hst as (_ & (b & Hb & Hd) & Hl). rewrite Hl. cbn. next. cbn. rewrite Hb.
    eapply yields_lift; [done|]. next. eapply yields_lift; [exact Hd|]. next. by eapply yields_lift.
Qed.
Lemma yields_index (t : Table string) k e message (Q : () → Prop) :
  tb_rows t V !! k = Some e → Q tt → yields (O := O) V (verify_index t k e message) Q.
Proof. intros Hk HQ. unfold verify_index. next. apply yields_guard; [|done]. rewrite Hk. by rewrite bool_decide_eq_false_2 by naive_solver. Qed.

Lemma host_count : N.of_nat (size (t_serving_host_identity p)) = (if is_some host then 1 else 0)%N.
Proof using HS.
  pose proof (fo_host _ _ (sv_config _ _ _ HS)) as Hh. destruct host as [h|] eqn:Eh; cbn.
  - assert (t_serving_host_identity p = {["host" := h]}) as ->; [|by rewrite map_size_singleton].
    apply map_eq. intros k. destruct (decide (k = "host")) as [->|Hne]; [by rewrite lookup_singleton_eq|].
    rewrite lookup_singleton_ne by done. destruct (_ !! k) eqn:Hk; [|done]. by destruct (Hh _ _ Hk).
  - assert (t_serving_host_identity p = ∅) as ->; [|by rewrite map_size_empty].
    apply map_eq. intros k. rewrite lookup_empty. destruct (_ !! k) eqn:Hk; [|done].
    destruct (Hh _ _ Hk) as [-> _]. congruence.
Qed.
Lemma yields_host (Q : option PeerId → Prop) : Q host → yields (O := O) V verify_host Q.
Proof using HS Heng.
  intros HQ. unfold verify_host. next. cbn.
  assert (yields (O := O) V (match host with
    | None => mret None
    | Some value => host ← lift (map_err (λ _, peer_corruption "invalid serving host identity")
        (capability_identity "PeerId" 128 value)); mret (Some host)
    end) (λ h, h = host)) as H.
  { destruct host as [h|] eqn:Eh; next; [|done].
    destruct (fo_host _ _ (sv_config _ _ _ HS) _ _ Eh) as [_ Hid]. rewrite Hid. eapply yields_lift; [done|]. by next. }
  eapply yields_mono; [exact H|]. intros h ->. next. cbn. rewrite host_count.
  apply yields_guard; [|by next]. by rewrite N.eqb_refl.
Qed.
Lemma yields_relationships (Q : () → Prop) : Q tt → yields (O := O) V (verify_relationships host) Q.
Proof using HS Heng.
  intros HQ. unfold verify_relationships. next. apply (yields_each Heng); [|done].
  intros [k b] Hk%elem_of_entries. next.
  destruct (fo_callers _ _ (sv_config _ _ _ HS) _ _ Hk) as (v & Hd & Hv & -> & Hh). cbn.
  eapply yields_lift; [exact Hd|]. next. eapply yields_lift; [exact Hv|]. apply yields_guard; [|done].
  by rewrite Hh, !bool_decide_eq_false_2 by naive_solver.
Qed.
Lemma yields_catalogs (Q : () → Prop) : Q tt → yields (O := O) V (verify_catalogs host) Q.
Proof using HS Heng.
  intros HQ. unfold verify_catalogs. next. apply (yields_each Heng); [|done].
  intros [k b] Hk%elem_of_entries. next.
  destruct (fo_catalogs _ _ (sv_config _ _ _ HS) _ _ Hk) as (v & Hd & Hv & -> & Hh & [c Hc]). cbn.
  eapply yields_lift; [exact Hd|]. next. eapply yields_lift; [exact Hv|]. next. apply yields_guard.
  - by rewrite Hh, !bool_decide_eq_false_2 by naive_solver.
  - next. apply yields_guard; [|done]. cbn in *. by rewrite Hc.
Qed.

(** *** Histories *)

Definition output_weight (o : PeerObservation) : N := if is_some (ob_output o) then 1 else 0.
Lemma yields_observation r i b o digest digest' outputs artifacts :
  fits (px_execution r) → i ≠ 0%N → observed p (px_execution r) i b o →
  observation_link_digest digest b = Ok digest' → (artifacts + output_weight o ≤ u64_max)%N →
  yields (O := O) V (verify_observation r (digest, outputs, artifacts) i)
    (λ acc, acc = (digest', outputs + output_weight o, artifacts + output_weight o)%N).
Proof using Heng.
  intros Hf Hnz (Hb & Hd & He & Hi & Ho) Hlink Hmax. unfold verify_observation, output_weight in *. next.
  eapply yields_lift; [unfold observation_key; rewrite (proj2 (N.eqb_neq i 0)) by done; by apply ordered_key_Ok|].
  next. cbn in Hb |- *. rewrite Hb. eapply yields_lift; [done|]. next. eapply yields_lift; [exact Hd|]. next.
  apply yields_guard; [by rewrite He, Hi, bool_decide_eq_false_2, N.eqb_refl by naive_solver|]. next. cbn.
  destruct (ob_output o) as [[k reference]|]; cbn in *.
  - destruct Ho as (b' & Hb' & Hd'). rewrite Hb'. next. eapply yields_lift; [exact Hd'|]. next.
    apply yields_guard; [by rewrite bool_decide_eq_false_2 by naive_solver|]. next.
    eapply yields_lift; [rewrite (proj2 (checked_add_Some artifacts 1 (artifacts + 1)%N)) by (split; [done|lia]); done|].
    next. eapply yields_lift; [exact Hlink|]. by next.
  - rewrite Ho. next. eapply yields_lift; [exact Hlink|]. next. f_equal; [f_equal|]; lia.
Qed.
Lemma yields_observations r ns rows digest digest' outputs artifacts :
  fits (px_execution r) → Forall2 (λ i row, observed p (px_execution r) i row.1 row.2) ns rows →
  (∀ i, i ∈ ns → i ≠ 0%N) → try_fold observation_link_digest digest rows.*1 = Ok digest' →
  (artifacts + output_count rows.*2 ≤ u64_max)%N →
  yields (O := O) V (fold_st (verify_observation r) (digest, outputs, artifacts) ns)
    (λ acc, acc = (digest', outputs + output_count rows.*2, artifacts + output_count rows.*2)%N).
Proof using Heng.
  intros Hf Hrows. revert digest outputs artifacts.
  induction Hrows as [|i [b o] ns rows Ho Hrows IH]; intros digest outputs artifacts Hnz Hdig Hmax.
  { cbn in *. next. injection Hdig as ->. unfold output_count, vlen. cbn. f_equal; [f_equal|]; lia. }
  cbn [fold_st fmap list_fmap try_fold] in *. apply bind_Ok in Hdig as (digest1 & Hlink & Hdig).
  assert (output_count (o :: rows.*2) = output_weight o + output_count rows.*2)%N as Hc
    by (unfold output_count, output_weight, vlen; cbn; destruct (is_some _); cbn; lia).
  cbn [fst snd] in *. rewrite Hc in *. next.
  eapply yields_mono; [eapply yields_observation; [done|apply Hnz; left|done|exact Hlink|lia]|].
  intros acc ->. eapply yields_mono; [apply IH; [|exact Hdig|lia]|].
  - intros; apply Hnz. by right.
  - intros acc ->. f_equal; [f_equal|]; lia.
Qed.
Lemma yields_history r rows t :
  fits (px_execution r) → record_history p r rows →
  (ty_observations t + px_last_observation_sequence r ≤ u64_max)%N →
  (ty_artifacts t + pa_outputs (px_accounting r) ≤ u64_max)%N →
  yields (O := O) V (verify_history r t) (λ t', t' =
    t <| ty_observations := (ty_observations t + px_last_observation_sequence r)%N |>
      <| ty_artifacts := (ty_artifacts t + pa_outputs (px_accounting r))%N |>).
Proof using Heng.
  intros Hf Hrows Ho Ha. pose proof Hrows as [_ _ Hd Hc]. unfold verify_history. next.
  eapply yields_lift; [rewrite (proj2 (checked_add_Some _ _ _)) by (split; [reflexivity|done]); done|]. next.
  eapply yields_mono; [eapply yields_observations; [done|by apply history_sequences| |exact Hd|]|].
  - intros i ?%elem_of_sequences. lia.
  - by rewrite <-Hc.
  - intros acc ->. rewrite <-Hc. next. apply yields_guard; [by rewrite N.eqb_refl|]. next.
    apply yields_guard; [by rewrite bool_decide_eq_false_2 by naive_solver|]. by next.
Qed.
Lemma yields_phase e r t :
  S !! e = Some (SnapshotHot r) → yields (O := O) V (verify_phase r t) (phased r t).
Proof using Heng HS.
  intros Hr. pose proof (ro_snapshots _ _ (sv_rows _ _ _ HS) _ _ Hr) as [He _ Hf _ _ Hp]. cbn in He.
  destruct (Hp r eq_refl) as [Hok _]. pose proof (sv_indexes _ _ _ HS) as [_ Ia Ic It].
  assert (∀ n, ordered_key n (px_execution r) = Ok (ordered_text n (px_execution r))) as Hkey
    by (intros n; apply ordered_key_Ok; by rewrite He).
  unfold verify_phase, verify_claim_index, verify_terminal_index, available_key, claim_key.
  destruct (px_phase r) as [?|c|c ?|[c|] [?|]|? ?|? ?] eqn:Eph; try done; next;
    (eapply yields_lift; [apply Hkey|]); next; (apply yields_index; [cbn|]).
  all: try (apply Ia || apply Ic || apply It; exists (SnapshotHot r);
    rewrite He; split; [done|]; cbn; rewrite Eph, He; done).
  all: next; split; cbn; unfold is_counted, is_done, is_dispatchable, has_claim; rewrite ?Eph; cbn;
    rewrite ?saturating_bumped; done.
Qed.

(** *** Rows *)

(** [len()] of a table is a [u64]. *)
Record tables_fit : Prop := {
  tf_executions : (N.of_nat (size (t_peer_executions p)) ≤ u64_max)%N;
  tf_locations : (N.of_nat (size (t_peer_execution_locations p)) ≤ u64_max)%N;
  tf_observations : (N.of_nat (size (t_peer_observations p)) ≤ u64_max)%N;
  tf_artifacts : (N.of_nat (size (t_peer_observation_artifacts p)) ≤ u64_max)%N
}.
(** Sums over the hot rows are sums over the executions. *)
Lemma hot_total f : (∀ t, f (SnapshotArchived t) = 0%N) →
  counted_over S f (entries (t_peer_executions p)) = total_of f S.
Proof using HS.
  intros Hf. pose proof (sv_rows _ _ _ HS) as Hr. apply sum_rows.
  - intros e [r ?]%(hot_row _ S); eauto.
  - intros e [r|t] Hs Hne; [|by rewrite Hf in Hne]. apply (hot_row _ S); eauto.
Qed.
Lemma hot_prefix before k (b : Bytes) after r f :
  entries (t_peer_executions p) = before ++ (k, b) :: after → S !! k = Some (SnapshotHot r) →
  (∀ t, f (SnapshotArchived t) = 0%N) → (counted_over S f before + f (SnapshotHot r) ≤ total_of f S)%N.
Proof using HS. intros Heq Hr Hz. rewrite <-(hot_total f Hz), Heq. by apply counted_prefix. Qed.
(** The counts of one caller stay below the count of all. *)
Lemma add_active_Ok before k (b : Bytes) after r t t1 :
  entries (t_peer_executions p) = before ++ (k, b) :: after → running S before t → S !! k = Some (SnapshotHot r) →
  ty_active_by_peer t1 = ty_active_by_peer t → ∃ t2, add_active r t1 = Ok t2.
Proof using HS.
  intros Heq Hrun Hr Et. unfold add_active. destruct (phase_is_active (px_phase r)) eqn:Ha; [|eauto].
  rewrite Et, (cs_count _ _ _ (rn_counts _ _ _ Hrun)).
  pose proof (hot_prefix _ _ _ _ _ (weight is_active) Heq Hr (λ _, eq_refl)) as L3. cbn in L3. unfold is_active at 2 in L3.
  rewrite Ha in L3. pose proof (co_bound _ _ _ (sv_counters _ _ _ HS)) as B.
  rewrite (co_active _ _ _ (sv_counters _ _ _ HS)) in B. unfold tally in B.
  assert (counted_over S (weight (active_for (px_caller r))) before ≤ counted_over S (weight is_active) before)%N as L4.
  { unfold counted_over, sum_N. clear. induction before as [|[e x] l IH]; cbn; [done|].
    destruct (S !! e) as [[r'|]|]; cbn; [|lia..]. unfold active_for, is_active in *.
    destruct (phase_is_active _), (bool_decide _); cbn in *; lia. }
  rewrite (proj2 (checked_add_u32_Some _ 1 _)) by (split; [reflexivity|lia]). cbn. eauto.
Qed.
Lemma yields_hot_record before k b after t :
  tables_fit → entries (t_peer_executions p) = before ++ (k, b) :: after → running S before t →
  yields (O := O) V (verify_hot_record host t (k, b)) (running S (before ++ [(k, b)])).
Proof using HS Heng.
  intros Hfit Heq Hrun. assert (t_peer_executions p !! k = Some b) as Hb
    by (apply elem_of_entries; rewrite Heq; set_solver).
  pose proof (sv_rows _ _ _ HS) as Hrows. destruct (proj1 (hot_row _ S k Hrows)) as [r Hr]; [eauto|].
  pose proof (ro_stored _ _ Hrows k) as Hst. rewrite Hr in Hst. destruct Hst as ((b' & Hb' & Hd) & Htomb & Hloc).
  rewrite Hb in Hb'. injection Hb' as <-. pose proof (ro_snapshots _ _ Hrows _ _ Hr) as [He _ Hf Hc Hq _]. cbn in He, Hc, Hq.
  unfold verify_hot_record. next. eapply yields_lift; [exact Hd|]. next.
  apply yields_guard; [by rewrite (fo_executions _ _ (sv_config _ _ _ HS) _ _ Hr), bool_decide_eq_false_2 by naive_solver|]. next.
  apply yields_guard; [by rewrite He, bool_decide_eq_false_2 by naive_solver|]. next. cbn.
  apply yields_guard; [by rewrite He, Hloc, bool_decide_eq_false_2 by naive_solver|]. next. cbn.
  apply yields_guard; [by rewrite He, Htomb|]. next.
  eapply yields_lift; [by apply request_key_Ok|]. next. apply yields_index.
  { cbn. rewrite He. apply (io_requests _ _ (sv_indexes _ _ _ HS)). by exists (SnapshotHot r). }
  next. destruct (hs_history _ _ (sv_histories _ _ _ HS) _ _ Hr) as [rows Hh].
  destruct Hfit as [Fe Fl Fo Fa]. rewrite (observations_count p S Hrows (sv_histories _ _ _ HS)) in Fo.
  rewrite (artifacts_count p S Hrows (sv_histories _ _ _ HS)) in Fa.
  pose proof (hot_prefix _ _ _ _ _ retained Heq Hr (λ _, eq_refl)) as L1.
  pose proof (hot_prefix _ _ _ _ _ retained_outputs Heq Hr (λ _, eq_refl)) as L2. cbn in L1, L2.
  eapply yields_mono; [eapply yields_history; [by rewrite He|exact Hh|..]|].
  { rewrite (rn_observations _ _ _ Hrun). lia. }
  { rewrite (rn_artifacts _ _ _ Hrun). lia. }
  intros t1 ->. next.
  match goal with |- yields _ (lift (add_active r ?t1)) _ =>
    destruct (add_active_Ok before k b after r t t1 Heq Hrun Hr eq_refl) as [t2 Ht2] end.
  eapply yields_lift; [exact Ht2|]. eapply yields_mono; [by eapply yields_phase|].
  intros t' Hph. by eapply running_snoc.
Qed.
Lemma yields_tombstone before k b count :
  t_peer_execution_tombstones p !! k = Some b → count = N.min (vlen before) u64_max →
  yields (O := O) V (verify_tombstone_row host count (k, b))
    (λ count', count' = N.min (vlen (before ++ [(k, b)])) u64_max).
Proof using HS Heng.
  intros Hb ->. pose proof (sv_rows _ _ _ HS) as Hrows. destruct (proj1 (archived_row _ S k Hrows)) as [t Ht]; [eauto|].
  pose proof (ro_stored _ _ Hrows k) as Hst. rewrite Ht in Hst. destruct Hst as (Hhot & (b' & Hb' & Hd) & Hloc).
  rewrite Hb in Hb'. injection Hb' as <-. pose proof (ro_snapshots _ _ Hrows _ _ Ht) as [He _ Hf Hc Hq _]. cbn in He, Hc, Hq.
  assert (∀ i, t_peer_observations p !! ordered_text i k = None) as Hno.
  { intros i. destruct (t_peer_observations p !! _) as [x|] eqn:Hx; [|done].
    destruct (hs_owned _ _ (sv_histories _ _ _ HS) _ _ Hx) as (e & r & j & Hr & _ & [_ Heq]%ordered_text_inj). congruence. }
  assert (∀ i, t_peer_observation_artifacts p !! ordered_text i k = None) as Hna.
  { intros i. destruct (t_peer_observation_artifacts p !! _) as [x|] eqn:Hx; [|done].
    apply (hs_artifacts _ _ (sv_histories _ _ _ HS)) in Hx as [y Hy]. by rewrite Hno in Hy. }
  unfold verify_tombstone_row. next. eapply yields_lift; [exact Hd|]. next.
  apply yields_guard; [by rewrite (fo_executions _ _ (sv_config _ _ _ HS) _ _ Ht), bool_decide_eq_false_2 by naive_solver|]. next.
  apply yields_guard; [by rewrite He, bool_decide_eq_false_2 by naive_solver|]. next. cbn.
  apply yields_guard; [by rewrite He, Hloc, bool_decide_eq_false_2 by naive_solver|]. next. cbn.
  apply yields_guard; [by rewrite He, Hhot|]. next.
  eapply yields_lift; [by apply request_key_Ok|]. next. apply yields_index.
  { cbn. rewrite He. apply (io_requests _ _ (sv_indexes _ _ _ HS)). by exists (SnapshotArchived t). }
  assert (saturating_u64 (N.min (vlen before) u64_max) = N.min (vlen (before ++ [(k, b)])) u64_max) as Hcount
    by (rewrite saturating_bumped; unfold vlen; rewrite length_app; cbn; lia).
  next. destruct (0 <? tm_last_observation_sequence t)%N eqn:Hl; [|by next].
  apply N.ltb_lt in Hl. next. eapply yields_lift.
  { unfold observation_key. rewrite (proj2 (N.eqb_neq _ 0)) by lia. apply ordered_key_Ok. by rewrite He. }
  next. cbn. rewrite ?He, Hno. apply yields_guard; [done|]. next. cbn. rewrite Hna. apply yields_guard; [done|]. by next.
Qed.

(** *** Counters *)

(** A withdrawn execution that a worker still holds. *)
Definition held_withdrawal (r : PeerExecutionRecord) : bool :=
  match px_phase r with PhCancellation (Some _) None => true | _ => false end.
Lemma hot_tally P : counted_over S (weight P) (entries (t_peer_executions p)) = tally P S.
Proof using HS. by apply hot_total. Qed.
Lemma tally_fits P : tables_fit → (tally P S ≤ u64_max)%N.
Proof using HS.
  intros [Fe _ _ _]. rewrite (executions_count p S) in Fe by apply HS.
  assert (tally P S ≤ tally is_active S + tally is_done S)%N; [|lia].
  unfold tally. rewrite <-total_add. apply total_le. intros e [r|t] _; cbn; [|done].
  unfold is_done, is_active. destruct (P r), (phase_is_active _); cbn; lia.
Qed.
Lemma counted_queued :
  (∀ e r, S !! e = Some (SnapshotHot r) → held_withdrawal r = false) → tally is_counted S = tally is_queued S.
Proof using HS.
  intros Hw. apply total_ext. intros e [r|t] Hr; cbn; [|done]. specialize (Hw _ _ Hr).
  destruct (so_phase _ _ (ro_snapshots _ _ (sv_rows _ _ _ HS) _ _ Hr) r eq_refl) as [Hok _].
  unfold held_withdrawal, is_counted, is_queued, unentered in *. by destruct (px_phase r) as [?|?|? ?|[?|] [?|]|? ?|? ?].
Qed.
Lemma yields_verify_len {X} (table : Table X) n (Q : () → Prop) :
  N.of_nat (size (tb_rows table V)) = n → Q tt → yields (O := O) V (verify_len table n) Q.
Proof using Heng. intros Hn HQ. unfold verify_len. next. apply yields_guard; [|done]. by rewrite Hn, N.eqb_refl. Qed.
Lemma yields_counters t tombstones (Q : () → Prop) :
  tables_fit → (∀ e r, S !! e = Some (SnapshotHot r) → held_withdrawal r = false) →
  running S (entries (t_peer_executions p)) t →
  tombstones = N.min (vlen (entries (t_peer_execution_tombstones p))) u64_max → Q tt →
  yields (O := O) V (verify_counters G t tombstones) Q.
Proof using HS Heng.
  intros Hfit Hw [R1 R2 R3 R4 R5 R6 R7 [_ _ _ R8]] Htomb HQ.
  pose proof (sv_rows _ _ _ HS) as Hr. pose proof (sv_indexes _ _ _ HS) as Hi. pose proof (sv_histories _ _ _ HS) as Hh.
  pose proof (sv_counters _ _ _ HS) as [_ _ Hb Ca Cq Ct Cm _ _ _ _].
  rewrite hot_tally in R1, R2, R3, R4, R5, R8. rewrite hot_total in R6, R7 by done.
  assert (tally is_queued S ≤ tally is_active S)%N as Hqa.
  { apply total_le. intros e [r|] _; cbn; [|done]. unfold is_queued, unentered, is_active. destruct (phase_is_active _), (is_some _); cbn; lia. }
  rewrite counted_queued, N.min_l in R1 by (done || lia).
  rewrite N.min_l in R2, R3, R4, R5 by by apply tally_fits.
  pose proof (executions_count p S Hr) as Ne. pose proof (tombstones_count p S Hr) as Nt. pose proof (locations_count p S Hr) as Nl.
  assert (vlen (entries (t_peer_execution_tombstones p)) = gp_tombstones G) as Ht.
  { unfold vlen. by rewrite length_entries, Nt. }
  pose proof Hfit as [Fe Fl _ _]. rewrite Ht, N.min_l in Htomb by lia. subst tombstones.
  unfold verify_counters. next.
  eapply yields_lift; [apply active_total_Ok; rewrite R8; lia|]. next. apply yields_guard.
  { by rewrite R8, R1, R2, Ca, Cq, Ct, !N.eqb_refl. }
  next. apply yields_verify_len; [cbn; by rewrite (available_count p S), R3|]. next.
  apply yields_verify_len; [cbn; by rewrite (claims_count p S), R4|]. next.
  apply yields_verify_len; [cbn; by rewrite (finished_count p S), R5|]. next.
  apply yields_verify_len; [cbn; by rewrite (observations_count p S), R6|]. next.
  apply yields_verify_len; [cbn; by rewrite (artifacts_count p S), R7|]. next.
  apply yields_verify_len; [cbn; unfold saturating_add; lia|]. next. cbn.
  apply yields_guard; [unfold saturating_add; rewrite N.min_l by lia; by rewrite (proj2 (N.eqb_eq _ _)) by lia|]. next. cbn.
  apply yields_guard; [|done]. by rewrite (requests_count p S), N.eqb_refl.
Qed.
Lemma yields_indexes (Q : () → Prop) : Q tt → yields (O := O) V verify_peer_indexes Q.
Proof using HS Heng.
  intros HQ. unfold verify_peer_indexes. next. apply (yields_each Heng).
  - intros [k e] Hk%elem_of_entries. next.
    apply (io_requests _ _ (sv_indexes _ _ _ HS)) in Hk as (s & Hs & Hk). unfold request_of in Hk. injection Hk as <-.
    pose proof (ro_snapshots _ _ (sv_rows _ _ _ HS) _ _ Hs) as [_ _ _ Hc Hq _].
    apply (yields_snapshot _ s); [done|]. next. eapply yields_lift; [by apply request_key_Ok|].
    apply yields_guard; [|done]. by rewrite bool_decide_eq_false_2 by naive_solver.
  - next. apply (yields_each Heng); [|done]. intros [e l] Hl%elem_of_entries. next. cbn in Hl.
    pose proof (ro_stored _ _ (sv_rows _ _ _ HS) e) as Hst. destruct (S !! e) as [s|] eqn:Hs;
      [|destruct Hst as (_ & _ & Hn); congruence].
    apply (yields_snapshot _ s); [done|]. apply yields_guard; [|done].
    destruct s; destruct Hst as (_ & _ & Hl'); rewrite Hl in Hl'; by injection Hl' as ->.
Qed.

(** *** Accounting rows *)

Lemma active_known caller :
  tally (active_for caller) S ≠ 0%N → is_Some (t_peer_execution_accounting p !! storage_key caller).
Proof using HS.
  intros (e & [r|t] & Hr & Hw)%total_nonzero; cbn in Hw; [|done].
  destruct (active_for caller r) eqn:Ha; [|done]. unfold active_for in Ha. bool_prop. subst.
  by eapply co_known; [apply HS|..].
Qed.
Lemma yields_accounting counts (Q : () → Prop) :
  counts_ok (λ caller, tally (active_for caller) S) (tally is_active S) counts → Q tt →
  yields (O := O) V (verify_per_peer_accounting counts) Q.
Proof using HS Heng.
  intros [Hd Hc Hz _] HQ. pose proof (sv_counters _ _ _ HS) as HC. unfold verify_per_peer_accounting. next.
  eapply yields_mono; [apply (yields_fold V _ (λ before rest, rest = unseen before.*1 counts))|].
  - by rewrite unseen_nil.
  - intros before [k b] after rest Heq ->. next. cbn [fst snd].
    assert (t_peer_execution_accounting p !! k = Some b) as Hb by (apply elem_of_entries; cbn in Heq; rewrite Heq; set_solver).
    rewrite fmap_app. cbn. case_bool_decide as Hk.
    { next. subst k. rewrite unseen_other; [done|]. intros caller. apply storage_key_global. }
    destruct (co_peers _ _ _ HC k b Hk Hb) as (v & Hdec & <- & Hsch & Hact). next. eapply yields_lift; [exact Hdec|]. next.
    apply yields_guard; [by rewrite Hsch, bool_decide_eq_false_2, N.eqb_refl by naive_solver|]. next.
    assert (storage_key (pr_peer v) ∉ before.*1) as Hnew.
    { pose proof (NoDup_keys (t_peer_execution_accounting p)) as Hnd. unfold keys in Hnd. cbn in Heq. rewrite Heq, fmap_app in Hnd.
      apply NoDup_app in Hnd as (_ & Hdis & _). intros Hin. apply (Hdis _ Hin). by left. }
    apply yields_guard; [by rewrite peer_count_unseen, Hc, Hact, N.eqb_refl|]. next. by rewrite unseen_snoc.
  - intros rest ->. apply yields_guard; [|done]. rewrite bool_decide_eq_false_2; [done|]. intros Hne. apply Hne.
    apply elem_of_nil_inv. intros [c n] Hin. unfold unseen in Hin.
    apply list_elem_of_In, filter_In in Hin as [Hin%list_elem_of_In Hu]. apply bool_decide_eq_true in Hu.
    destruct (active_known c) as [b Hb].
    { rewrite <-Hc, (peer_count_elem c n) by done. exact (Hz _ Hin). }
    apply Hu, list_elem_of_fmap. exists (storage_key c, b). by rewrite elem_of_entries.
Qed.

(** ** The whole check *)

Lemma integrity_Ok :
  tables_fit → (∀ e r, S !! e = Some (SnapshotHot r) → held_withdrawal r = false) →
  ∀ s, rd_durable s = V → ∃ s', verify_peer_execution_integrity s = (s', Ok tt) ∧ rd_durable s' = V.
Proof using HS Heng.
  intros Hfit Hw s Hs. unfold verify_peer_execution_integrity.
  match goal with |- ∃ s', (begin_read ;; ?m) s = _ ∧ _ => destruct (yields_begin_read Heng V m (λ _, True)) with (s := s)
    as (s' & [] & Hm & Hs' & _); [|done|by exists s'] end.
  next. apply yields_host. next. apply yields_relationships. next. apply yields_catalogs. next. apply yields_global. next.
  eapply yields_mono; [apply (yields_fold V _ (running S)); [apply running_empty|]|].
  { intros before [k b] after t Heq Hrun. by eapply yields_hot_record. }
  intros t Hrun. next. eapply yields_mono; [apply (yields_fold V _ (λ before n, n = N.min (vlen before) u64_max))|].
  - done.
  - intros before [k b] after n Heq Hn. apply yields_tombstone; [|done]. apply elem_of_entries. cbn in Heq. rewrite Heq. set_solver.
  - intros n Hn. next. apply yields_counters; [done..|]. next. apply yields_indexes. apply yields_accounting; [|done].
    destruct (rn_counts _ _ _ Hrun) as [Hd Hc Hz Ht]. split; [done| |done|].
    + intros caller. rewrite Hc. apply hot_tally.
    + rewrite Ht. apply hot_tally.
Qed.
End verify.

Section accepts.
Context {O : Type} `{engine : !Engine O, managed : !ManagedCodec, codec : !PeerCodec}.
(** C9: the integrity check accepts every state the store keeps: when the tables describe
    one set of executions and no withdrawn execution is still held by a worker, the check
    on an engine that does not fail reads everything, finds no inconsistency in any row,
    index, history or counter, and changes nothing. *)
Theorem integrity_accepts (s : Redb O) S G :
  healthy (O := O) → serves (t_peers (rd_durable s)) S G → tables_fit (rd_durable s) →
  (∀ e r, S !! e = Some (SnapshotHot r) → held_withdrawal r = false) →
  ∃ s', verify_peer_execution_integrity s = (s', Ok tt) ∧ rd_durable s' = rd_durable s.
Proof. intros Heng HS Hfit Hw. by apply (integrity_Ok Heng (rd_durable s) S G). Qed.
End accepts.
