(* ===== verification/Serving.v ===== *)
(** * The serving host ([crates/capability-host/src/serving])

    How an installation runs the work it accepted for callers: admission of a request,
    the fixed workers that claim, prepare, enter and finish executions, the reporter an
    adapter writes to, cancellation, recovery and retention. Every call on the store is
    one step, so that the threads of the host interleave between any two of them.
    Notifications only wake idle workers and are left out. *)
From S2P Require Import Prelude Effects Contracts Capability Blueprint Authority.
From S2P Require Import Model Workspace Persistence Dispatch Managed PeerProtocol Storage ManagedStore PeerStore.
From S2P Require Import PeerIntegrity.

(** ** Errors ([error.rs], [adapter.rs]) *)

Inductive ServingError :=
| SeConfiguration (message : string)
| SeUnauthenticated
| SeUnauthorized (message : string)
| SeProtocol (message : string)
| SeNotFound (message : string)
| SeOverloaded (message : string)
| SePersistence (message : string)
| SeUnavailable (message : string).
#[global] Instance display_serving : Display ServingError := λ error,
  match error with
  | SeConfiguration message => "invalid serving configuration: " +:+ message
  | SeUnauthenticated => "valid peer authentication is required"
  | SeUnauthorized message => "peer authorization denied: " +:+ message
  | SeProtocol message => "peer protocol error: " +:+ message
  | SeNotFound message => "peer record not found: " +:+ message
  | SeOverloaded message => "peer overloaded: " +:+ message
  | SePersistence message => "peer persistence unavailable: " +:+ message
  | SeUnavailable message => "peer service unavailable: " +:+ message
  end.

Inductive PeerClockError := CkBeforeUnixEpoch | CkMillisecondOverflow | CkMovedBackwards | CkUnavailable.
#[global] Instance display_clock : Display PeerClockError := λ error,
  match error with
  | CkBeforeUnixEpoch => "system clock precedes the Unix epoch"
  | CkMillisecondOverflow => "system clock exceeds the peer timestamp representation"
  | CkMovedBackwards => "system clock moved backwards"
  | CkUnavailable => "system clock is unavailable"
  end.

Inductive AdapterFailureKind := AfRejected | AfUnavailable | AfExternalFailure | AfResponseObservedFailure.
Record AdapterError := mkAdapterError { ae_kind : AdapterFailureKind; ae_summary : string }.
Definition AdapterError_bounded (kind : AdapterFailureKind) (summary fallback : string) : AdapterError :=
  mkAdapterError kind (truncate_utf8 (if is_empty summary then fallback else summary) 512).
Definition external_failure (summary : string) : AdapterError :=
  AdapterError_bounded AfExternalFailure summary "adapter external failure".

Definition bounded (value : string) (maximum : N) : string := truncate_utf8 value maximum.

(** ** Configuration ([config.rs]) *)

(** A [Duration], in nanoseconds. *)
Abbreviation Duration := N (only parsing).
Definition as_millis (d : Duration) : N := (d / 1000000)%N.
Definition from_secs (n : N) : Duration := (n * 1000000000)%N.
(** [u64::try_from(n).unwrap_or(u64::MAX)] *)
Definition clamp_u64 (n : N) : N := N.min n u64_max.

Record PeerWorkerConfig := mkWorkerConfig {
  wk_threads : N;
  wk_maximum_global_active : N;
  wk_maximum_dispatch_queue : N;
  wk_maximum_hot_terminal_records : N;
  wk_archive_batch_size : N;
  wk_observation_hot_retention : Duration;
  wk_recovery_page : N;
  wk_poll_interval : Duration
}.
Definition PeerWorkerConfig_validate (self : PeerWorkerConfig) : result ServingError () :=
  refuse_if ((wk_threads self =? 0)%N
             || (256 <? wk_threads self)%N
             || (wk_maximum_global_active self =? 0)%N
             || (wk_maximum_dispatch_queue self =? 0)%N
             || (wk_maximum_global_active self <? wk_maximum_dispatch_queue self)%N
             || (wk_maximum_hot_terminal_records self <? wk_maximum_global_active self)%N
             || (1000000 <? wk_maximum_hot_terminal_records self)%N
             || (wk_archive_batch_size self =? 0)%N
             || (wk_maximum_hot_terminal_records self <? wk_archive_batch_size self)%N
             || (wk_observation_hot_retention self =? 0)%N
             || (from_secs (365 * 24 * 60 * 60) <? wk_observation_hot_retention self)%N
             || (wk_recovery_page self =? 0)%N
             || (wk_poll_interval self =? 0)%N
             || (from_secs 60 <? wk_poll_interval self)%N)
    (SeConfiguration "peer worker, queue, recovery, or retention bounds are invalid").

(** What the operations below read of the server configuration. *)
Record PeerServerConfig := mkServerConfig {
  ps_local_peer : PeerId;
  ps_lease : HeartbeatLease;
  ps_workers : PeerWorkerConfig
}.

Definition MAX_PAGE_SIZE : N := 1000.
Definition PageSize_new (value : N) : result PersistenceError N :=
  refuse_if ((value =? 0)%N || (MAX_PAGE_SIZE <? value)%N)
    (PeBounds "page_size" "must be between 1 and 1000") ;;
  Ok value.

Inductive DrainState := DrainReady | DrainDraining | DrainShuttingDown.
#[global] Instance DrainState_eq_dec : EqDecision DrainState.
Proof. solve_decision. Defined.

(** ** Projections for callers ([store.rs]) *)

Definition public_status (record : PeerExecutionRecord) : RemoteExecutionStatus :=
  match px_phase record with
  | PhAvailable _ | PhClaimed _ | PhCancellation _ None => RxAccepted
  | PhEntered _ _ | PhCancellation _ (Some _) => RxRunning
  | PhTerminal _ _ => RxTerminal
  | PhUncertain _ _ => RxOutcomeUnknown
  end.
Definition snapshot_status (snapshot : PeerExecutionSnapshot) : RemoteExecutionStatus :=
  match snapshot with
  | SnapshotHot record => public_status record
  | SnapshotArchived tombstone =>
      match tm_disposition tombstone with
      | DispositionTerminal _ => RxTerminal
      | DispositionUncertain _ _ => RxOutcomeUnknown
      end
  end.
Definition archived_summary (tombstone : PeerExecutionTombstone) : ArchivedExecutionSummary :=
  let '(status, final_observation, uncertainty_reason) := match tm_disposition tombstone with
    | DispositionTerminal observation => (RxTerminal, Some observation, None)
    | DispositionUncertain _ reason => (RxOutcomeUnknown, None, Some reason)
    end in
  mkArchivedSummary (tm_output_observations tombstone) status (tm_last_observation_sequence tombstone)
    (tm_observation_digest tombstone) (tm_archived_at_unix_ms tombstone) final_observation uncertainty_reason.
Definition snapshot_history (snapshot : PeerExecutionSnapshot) : ObservationHistory :=
  match snapshot with
  | SnapshotHot _ => HistoryHot
  | SnapshotArchived tombstone => HistoryArchived (archived_summary tombstone)
  end.
Definition acceptance (snapshot : PeerExecutionSnapshot) (replayed : bool) : InvocationAcceptance :=
  match snapshot with
  | SnapshotHot record =>
      AcceptanceAccepted (sq_request_id (px_request record)) (px_execution record)
        (sq_request_digest (px_request record)) (px_accepted_at_unix_ms record)
        (from_option dc_lease_expires_at_unix_ms (sq_deadline_unix_ms (px_request record))
           (phase_claim (px_phase record))) replayed
  | SnapshotArchived tombstone =>
      AcceptanceArchived (tm_request_id tombstone) (tm_execution tombstone) (tm_request_digest tombstone)
        (tm_accepted_at_unix_ms tombstone) (archived_summary tombstone)
  end.
Definition lookup_reply (snapshot : PeerExecutionSnapshot) : InvocationLookup :=
  LookupKnown (ps_request_id snapshot) (ps_execution snapshot) (ps_request_digest snapshot)
    match snapshot with
    | SnapshotHot record => px_accepted_at_unix_ms record
    | SnapshotArchived tombstone => tm_accepted_at_unix_ms tombstone
    end (snapshot_status snapshot) (ps_last_observation_sequence snapshot) (snapshot_history snapshot).
Definition is_closed_status (status : RemoteExecutionStatus) : bool :=
  match status with RxTerminal | RxOutcomeUnknown => true | RxAccepted | RxRunning => false end.
Definition observation_page (page : PeerObservationPage)
    (execution : PeerExecutionId) (after_sequence maximum_items : N) : result ServingError ObservationPage :=
  let status := snapshot_status (og_execution page) in
  let next_sequence := default after_sequence (ob_sequence <$> last (og_observations page)) in
  let archived := match og_execution page with SnapshotArchived _ => true | SnapshotHot _ => false end in
  let caught_up := archived || (ps_last_observation_sequence (og_execution page) <=? next_sequence)%N in
  let reply := mkObservationPage status execution after_sequence (og_observations page) next_sequence
    (caught_up && bool_decide (status = RxTerminal)) (caught_up && is_closed_status status)
    (snapshot_history (og_execution page)) in
  map_err (λ error, SeProtocol (to_text error)) (ObservationPage_validate reply maximum_items) ;;
  Ok reply.

(** ** Replies of admission ([serving.rs]) *)

Definition rejection (request : ServingInvocationRequest) (code detail : string) (retryable : bool)
    (known_execution : option PeerExecutionId) : InvocationAcceptance :=
  AcceptanceRejected (sq_request_id request) code detail retryable known_execution.
Definition admission_rejection_code (reason : PeerAdmissionRejection) : string :=
  match reason with
  | RejAdmissionClosed => "draining"
  | RejRelationshipUnavailable => "relationship_stale"
  | RejCatalogUnavailable => "catalog_stale"
  | RejPeerCapacity | RejGlobalCapacity | RejDispatchCapacity => "overload"
  | RejRetentionCapacity => "retention_capacity"
  end.
Definition admission_rejection_detail (reason : PeerAdmissionRejection) : string :=
  match reason with
  | RejAdmissionClosed => "peer lifecycle recovery or draining has closed durable admission"
  | RejRelationshipUnavailable => "peer relationship generation is unavailable for new acceptance"
  | RejCatalogUnavailable => "selected catalog generation is unavailable for new acceptance"
  | RejPeerCapacity => "peer execution quota reached"
  | RejGlobalCapacity => "global peer execution quota reached"
  | RejDispatchCapacity => "durable peer dispatch queue is full"
  | RejRetentionCapacity => "peer execution retention bound requires operator archival policy"
  end.
Definition EXECUTION_DOMAIN : string := "milkdrift.peer.execution.v1" +:+ String "000" EmptyString.
Definition execution_identity `{!Blake3} (caller : ServingCaller) (request : ServingInvocationRequest)
    : result ServingError PeerExecutionId :=
  map_err (λ error, SeProtocol (to_text error))
    (PeerExecutionId_new ("exec:" +:+ String.substring 0 40 (blake3_hex (EXECUTION_DOMAIN
       +:+ storage_key caller +:+ sq_request_id request +:+ sq_request_digest request)))).

(** ** Workers: uncertainty and recovery ([worker.rs]) *)

Inductive PeerUncertainty :=
| UnAdapterFailure (detail : string)
| UnMissingTerminalEvidence
| UnAdapterPanicked
| UnServiceInterrupted (detail : string)
| UnWorkerPanicked.
Definition from_execution `{!Display ExecutorError} (r : result ExecutorError ()) : PeerUncertainty :=
  match r with
  | Ok _ => UnMissingTerminalEvidence
  | Err (ExBoundaryAfterEntry detail) => UnAdapterFailure (bounded detail 1920)
  | Err (ExAdapterPanicked true) => UnAdapterPanicked
  | Err error => UnServiceInterrupted (bounded (to_text error) 1920)
  end.
Definition uncertainty_reason (self : PeerUncertainty) : string :=
  match self with
  | UnAdapterFailure detail => bounded ("peer adapter failed after durable entry: " +:+ detail) 2048
  | UnMissingTerminalEvidence => "peer adapter returned without terminal evidence"
  | UnAdapterPanicked => "peer adapter panicked after durable entry"
  | UnServiceInterrupted detail =>
      bounded ("peer execution service failed after durable entry: " +:+ detail) 2048
  | UnWorkerPanicked => "peer worker panicked after durable entry"
  end.
Inductive PeerRecoveryTransition :=
| InspectClaim (post_entry : PeerUncertainty)
| CompletePreEntryCancellation
| ReleasePreEntryClaim
| MarkPostEntryUncertain (uncertainty : PeerUncertainty).
Record PeerWorkerRecovery := mkWorkerRecovery {
  wr_caller : ServingCaller;
  wr_execution : PeerExecutionId;
  wr_transition : PeerRecoveryTransition
}.
#[global] Instance eta_PeerWorkerRecovery : Settable PeerWorkerRecovery := λ r,
  mkWorkerRecovery (wr_caller r) (wr_execution r) (wr_transition r).
Definition recovery_exact (record : PeerExecutionRecord) (transition : PeerRecoveryTransition)
    : PeerWorkerRecovery := mkWorkerRecovery (px_caller record) (px_execution record) transition.
Definition recovery_inspect (record : PeerExecutionRecord) (post_entry : PeerUncertainty)
    : PeerWorkerRecovery := recovery_exact record (InspectClaim post_entry).
Inductive PeerWorkerRun := RunSettled | RunRecover (recovery : PeerWorkerRecovery).
Inductive ClaimedRunFailure :=
| FailInspect (uncertainty : PeerUncertainty)
| FailExact (transition : PeerRecoveryTransition).
(** [impl From<ServingError> for ClaimedRunFailure] *)
Definition run_failure (error : ServingError) : ClaimedRunFailure :=
  FailInspect (UnServiceInterrupted (bounded (to_text error) 1920)).

(** ** What the host is given

    The clock, the authority service, the adapters behind the capability host and the
    contexts they run in. Their state is [X]; an adapter that was entered reports and
    renews its lease until it returns. *)

Inductive ServingRun :=
| ServeReturn (outcome : result ExecutorError ())
| ServeReport (event : InvocationEvent) (continue : result AdapterError () → ServingRun)
| ServeHeartbeat (continue : result AdapterError () → ServingRun).

Class ServingHost (X C : Type) := {
  host_clock : X → X * result PeerClockError N;
  (** [authorize_serving_request]: the decision and the authority generation *)
  host_authorize : ServingCaller → ServingInvocationRequest → X →
    X * result ServingError (AuthorityDecisionSnapshot * N);
  adapter_execution_context : ServingInvocationRequest → result ServingError C;
  with_serving_preparation : C → PeerExecutionRecord → C;
  with_serving_execution : C → PeerExecutionRecord → result string C;
  (** [prepare_invocation]: the admission envelope and the adapter code to enter *)
  host_prepare : ResolvedCapabilitySnapshot → InvocationRequest → C → X →
    X * result ExecutorError (InvocationAdmissionEnvelope * (C → ServingRun));
  (** [cancel_exact] *)
  host_cancel : CancellationRequest → X → X * result ExecutorError CancellationAcknowledgement
}.
Class HostCodec := {
  hcodec_extensions :: Serialize Extensions;
  hcodec_persistence :: Display PersistenceError;
  hcodec_executor :: Display ExecutorError
}.

(** The shared state of a [PeerService]; [se_starts] records every adapter start. *)
Record Service (X O : Type) := mkService {
  se_store : Redb O;
  se_drain : N;
  se_env : X;
  se_starts : list PeerExecutionId
}.
Arguments mkService {X O}. Arguments se_store {X O}. Arguments se_drain {X O}.
Arguments se_env {X O}. Arguments se_starts {X O}.
#[global] Instance eta_Service X O : Settable (Service X O) := λ s,
  mkService (se_store s) (se_drain s) (se_env s) (se_starts s).

Section serving.
Context {X C O : Type} `{engine : !Engine O, managed : !ManagedCodec, codec : !PeerCodec}.
Context `{host : !ServingHost X C, texts : !HostCodec}.
Variable config : PeerServerConfig.
Abbreviation W := (Service X O).
Abbreviation T := (thread W).
Abbreviation txn := (st (Redb O) PersistenceError).

Definition map_execution_persistence (error : PersistenceError) : ServingError :=
  match error with
  | PeStorage SfResourceExhausted _ => SeOverloaded "durable peer owner capacity is exhausted"
  | PeStorage (SfUnavailable | SfOwnerBusy) _ => SeUnavailable "durable peer storage is unavailable"
  | error => SePersistence (to_text error)
  end.

(** One call on the store; one call on what the host is given. *)
Definition on_store {E A} (wrap : PersistenceError → E) (m : txn A) : T E A :=
  TStep (λ w, let '(s, r) := m (se_store w) in (w <| se_store := s |>, TDone (map_err wrap r))).
Definition store_call {A} (m : txn A) : T ServingError A := on_store map_execution_persistence m.
Definition on_env {E F A} (wrap : E → F) (f : X → X * result E A) : T F A :=
  TStep (λ w, let '(x, r) := f (se_env w) in (w <| se_env := x |>, TDone (map_err wrap r))).
Definition now : T ServingError N :=
  on_env (λ error, SeUnavailable (to_text error)) host_clock.
Definition drain_state : T ServingError DrainState :=
  atomic (gets (λ w, match se_drain w with
    | 0%N => DrainReady | 2%N => DrainShuttingDown | _ => DrainDraining end)).
Definition set_drain (state : N) : T ServingError () := atomic (modify (λ w, w <| se_drain := state |>)).

(** ** Admission ([serving.rs]) *)

Definition retention_ms : N := clamp_u64 (as_millis (wk_observation_hot_retention (ps_workers config))).
Definition accept_serving (request : ServingInvocationRequest) (authority_decision : AuthorityDecisionSnapshot)
    (authority_generation : N) : T ServingError InvocationAcceptance :=
  let caller := sa_caller (sq_authorization request) in
  let workers := ps_workers config in
  now ← now;
  execution ← thread_lift (execution_identity caller request);
  outcome ← store_call (admit_peer_execution (mkAdmission caller request authority_decision execution
    authority_generation now (wk_maximum_global_active workers) (wk_maximum_dispatch_queue workers)
    (wk_maximum_hot_terminal_records workers) (wk_archive_batch_size workers)
    (N.max (saturating_sub now retention_ms) 1)));
  mret match outcome with
  | AdmissionReplayed record => acceptance record true
  | AdmissionConflict record =>
      rejection request "idempotency_conflict"
        "idempotency key was previously accepted with different request bytes" false
        (Some (ps_execution record))
  | AdmissionAccepted record => acceptance (SnapshotHot record) false
  | AdmissionRejected reason =>
      rejection request (admission_rejection_code reason) (admission_rejection_detail reason) true None
  end.

(** ** Evidence a worker appends ([worker.rs]) *)

Definition or_protocol {E A} `{!Display E} (r : result E A) : result ServingError A :=
  map_err (λ error, SeProtocol (to_text error)) r.
Definition InvocationTerminal_new (status : TerminalStatus) (outputs : list ArtifactReference)
    (failure : option InvocationFailure) (usage : option UsageObservation) (side_effect : SideEffectClass)
    : result ContractError InvocationTerminal :=
  let terminal := mkTerminal status outputs failure usage side_effect in
  InvocationTerminal_validate terminal ;; Ok terminal.
Definition not_found : ServingError := SeNotFound "remote execution was not found".

Definition append_pre_entry_failure (record : PeerExecutionRecord) (reason : string) : T ServingError () :=
  let sequence := saturating_add (px_last_observation_sequence record) 1 in
  failure ← thread_lift (or_protocol (InvocationFailure_new EcAdapter false
    "peer_host_failure_before_entry" (bounded reason 2048) None));
  terminal ← thread_lift (or_protocol (InvocationTerminal_new TsFailure [] (Some failure) None SideNone));
  event ← thread_lift (or_protocol (InvocationEvent_new (iv_invocation (sq_request (px_request record)))
    sequence (EvTerminal terminal)));
  now ← now;
  store_call (append_peer_observation (px_caller record) (px_execution record)
    (mkPeerObservation (px_execution record) sequence CatTerminal event now)) ;;
  mret tt.

Definition terminal_observation (owner : ServingCaller) (record : PeerExecutionRecord)
    : T ServingError (option PeerObservation) :=
  if (px_last_observation_sequence record =? 0)%N then mret None else
  limit ← thread_lift (or_protocol (PageSize_new 1));
  page ← store_call (peer_observations owner (px_execution record)
    (saturating_sub (px_last_observation_sequence record) 1) limit);
  mret match og_execution page with
  | SnapshotArchived record =>
      match tm_disposition record with
      | DispositionTerminal observation => Some observation
      | DispositionUncertain _ _ => None
      end
  | SnapshotHot _ =>
      observation ← head (og_observations page);
      if is_some (ob_terminal observation) then Some observation else None
  end.

Definition append_cancelled_before_entry (record : PeerExecutionRecord) : T ServingError PeerObservation :=
  found ← store_call (peer_execution (px_caller record) (px_execution record));
  current ← thread_lift (ok_or found not_found);
  match current with
  | SnapshotArchived _ =>
      thread_lift (Err (SePersistence "active cancellation unexpectedly resolved an archived execution"))
  | SnapshotHot current =>
      match px_phase current with
      | PhTerminal sequence _ =>
          observation ← terminal_observation (px_caller record) current;
          thread_lift (ok_or
            (observation ← observation;
             if (ob_sequence observation =? sequence)%N then Some observation else None)
            (SePersistence "terminal cancellation evidence is missing"))
      | _ =>
          let sequence := saturating_add (px_last_observation_sequence current) 1 in
          terminal ← thread_lift (or_protocol (InvocationTerminal_new TsCancelled [] None None SideNone));
          event ← thread_lift (or_protocol (InvocationEvent_new
            (iv_invocation (sq_request (px_request current))) sequence (EvTerminal terminal)));
          now ← now;
          let observation := mkPeerObservation (px_execution current) sequence CatTerminal event now in
          store_call (append_peer_observation (px_caller current) (px_execution current) observation) ;;
          mret observation
      end
  end.

Definition complete_pre_entry_cancellation (record : PeerExecutionRecord) : T ServingError () :=
  terminal ← append_cancelled_before_entry record;
  cancellation ← thread_lift (ok_or (px_cancellation record)
    (SePersistence "cancellation facts disappeared"));
  if is_some (xr_acknowledgement cancellation) then mret tt else
  terminal_fact ← thread_lift (ok_or (event_terminal (ob_event terminal))
    (SePersistence "pre-entry cancellation evidence is not terminal"));
  thread_lift (refuse_if (bool_decide (it_status terminal_fact ≠ TsCancelled)
                          || bool_decide (it_side_effect terminal_fact ≠ SideNone))
    (SePersistence "pre-entry cancellation evidence has incompatible terminal semantics")) ;;
  now ← now;
  store_call (acknowledge_peer_cancellation (px_caller record)
    (mkPeerAcknowledgement (xc_request_id (xr_request cancellation)) (px_execution record) CdAccepted true
       (Some terminal) (Some "durable cancellation prevented adapter entry")) now) ;;
  mret tt.

(** ** The reporter of an entered adapter ([worker.rs]) *)

Record PeerStoreReporter := mkStoreReporter {
  sr_caller : ServingCaller;
  sr_execution : PeerExecutionId;
  sr_lease_ms : N;
  sr_limits : ExecutionLimits;
  sr_input_artifact_bytes : N;
  sr_deadline_unix_ms : N;
  sr_worker : WorkerId;
  sr_claim_generation : N
}.
Definition reporter_now : T AdapterError N :=
  on_env (λ error, external_failure ("peer boundary clock unavailable: " +:+ to_text error)) host_clock.
(** The error the report is refused with, after the execution was marked uncertain. *)
Definition reject_report (self : PeerStoreReporter) (code detail : string) : T AdapterError AdapterError :=
  let reason := bounded (code +:+ ": " +:+ detail) 2048 in
  observed_at ← outcome reporter_now;
  match observed_at with
  | Err error => mret error
  | Ok observed_at =>
      marked ← outcome (on_store id (mark_peer_uncertain (sr_caller self) (sr_execution self)
        (sr_worker self) (sr_claim_generation self) observed_at reason));
      mret match marked with
      | Err error => external_failure (reason +:+ "; uncertainty could not be persisted: " +:+ to_text error)
      | Ok _ => external_failure reason
      end
  end.
Definition refuse_report {A} (self : PeerStoreReporter) (code detail : string) : T AdapterError A :=
  error ← reject_report self code detail; thread_lift (Err error).
Definition event_category (event : InvocationEvent) : ObservationCategory :=
  match ev_kind event with
  | EvProgress _ _ _ => CatProgress
  | EvOutput _ _ => CatArtifact
  | EvTerminal terminal =>
      if bool_decide (it_status terminal = TsUncertain) then CatUncertainty else CatTerminal
  end.
(** [usage().and_then(nested_work).map_or(0, artifact_bytes)] *)
Definition nested_artifact_bytes (terminal : InvocationTerminal) : N :=
  default 0%N (usage ← it_usage terminal; nw_artifact_bytes <$> us_nested_work usage).
Definition output_bytes (base : N) (terminal : InvocationTerminal) : option N :=
  foldl (λ total output, total ← total; size ← ar_size_bytes output; checked_add total size)
    (Some base) (it_outputs terminal).
Definition report_terminal (self : PeerStoreReporter) (terminal : InvocationTerminal) : T AdapterError () :=
  if is_some_and (λ usage, negb (permits_usage (sr_limits self) usage)) (it_usage terminal) then
    refuse_report self "peer_report_usage_quota" "peer terminal usage exceeds its accepted allowance"
  else
  match checked_add (sr_input_artifact_bytes self) (nested_artifact_bytes terminal) with
  | None => refuse_report self "peer_report_artifact_quota" "artifact byte overflow"
  | Some base =>
      if is_none_or (λ bytes, el_artifact_bytes (sr_limits self) <? bytes)%N (output_bytes base terminal) then
        refuse_report self "peer_report_artifact_quota"
          "peer output artifact bytes are absent or exceed the accepted quota"
      else mret tt
  end.
Definition reporter_invocation (self : PeerStoreReporter) (event : InvocationEvent) : T AdapterError () :=
  now ← reporter_now;
  if (sr_deadline_unix_ms self <? now)%N then
    refuse_report self "peer_report_deadline" "peer execution deadline elapsed"
  else
  let maximum := el_observations (sr_limits self) in
  if (maximum <? ev_sequence event)%N
     || ((ev_sequence event =? maximum)%N && negb (is_some (event_terminal event)))
  then refuse_report self "peer_report_observation_quota"
         "peer observation quota reached before terminal evidence"
  else
  match event_terminal event with
  | Some terminal => report_terminal self terminal
  | None => mret tt
  end ;;
  appended ← outcome (on_store id (append_peer_observation (sr_caller self) (sr_execution self)
    (mkPeerObservation (sr_execution self) (ev_sequence event) (event_category event) event now)));
  match appended with
  | Ok _ => mret tt
  | Err error => refuse_report self "peer_report_rejected" (bounded (to_text error) 1900)
  end.
Definition reporter_heartbeat (self : PeerStoreReporter) : T AdapterError () :=
  now ← reporter_now;
  if (sr_deadline_unix_ms self <? now)%N then
    refuse_report self "peer_heartbeat_deadline" "peer execution deadline elapsed"
  else
  on_store (λ error, external_failure (to_text error)) (extend_peer_claim (sr_caller self)
    (sr_execution self) (sr_worker self) (sr_claim_generation self)
    (saturating_add now (sr_lease_ms self))).

(** ** Preparation and entry ([prepared.rs]) *)

Definition or_dispatch {E A} `{!Display E} (r : result E A) : result ExecutorError A :=
  map_err (λ error, ExInvalidDispatch (to_text error)) r.
Definition serving_invocation (record : PeerExecutionRecord) : result ExecutorError InvocationId :=
  or_dispatch (managed_invocation record).
Definition serving_request (record : PeerExecutionRecord) : result ExecutorError InvocationRequest :=
  let original := sq_request (px_request record) in
  identity ← serving_invocation record;
  key ← match iv_idempotency_key original with
    | Some _ => key ← or_dispatch (capability_identity "IdempotencyKey" 192 identity); Ok (Some key)
    | None => Ok None
    end;
  or_dispatch (InvocationRequest_new identity (iv_capability original) (iv_operation original)
    (iv_provider_profile original) key (iv_inputs original) (iv_extensions original)).

Record PreparedServingExecution := mkPreparedServing {
  pv_accepted : PeerExecutionRecord;
  pv_context : C;
  pv_prepared : C → ServingRun
}.
Definition prepare_serving_execution (accepted : PeerExecutionRecord) (context : C)
    : T ExecutorError PreparedServingExecution :=
  if negb (is_claimed (px_phase accepted)) then
    thread_lift (Err (ExInvalidDispatch "serving preparation requires an exact pre-entry claim"))
  else
  let context := with_serving_preparation context accepted in
  request ← thread_lift (serving_request accepted);
  '(envelope, run) ← on_env id (host_prepare (sq_selection (px_request accepted)) request context);
  input_bytes ← thread_lift (or_dispatch (input_artifact_bytes (px_request accepted)));
  thread_lift (refuse_if (negb (permits_prepared (sq_limits (px_request accepted)) envelope input_bytes))
    (ExInvalidDispatch "prepared resources are unknown or exceed the accepted serving allowance")) ;;
  mret (mkPreparedServing accepted context run).

(** [ServingReporter]: the adapter reports under its local invocation, the execution
    records the caller's. *)
Definition bridge_invocation (local original : InvocationId) (reporter : PeerStoreReporter)
    (event : InvocationEvent) : T AdapterError () :=
  if bool_decide (ev_invocation event ≠ local) then
    thread_lift (Err (external_failure "adapter reported another serving invocation"))
  else
  event ← thread_lift (map_err (λ error, external_failure (to_text error))
    (InvocationEvent_new original (ev_sequence event) (ev_kind event)));
  reporter_invocation reporter event.
(** The adapter code, with its reports and heartbeats served. *)
Fixpoint drive {E} (local original : InvocationId) (reporter : PeerStoreReporter) (run : ServingRun)
    : T E (result ExecutorError ()) :=
  match run with
  | ServeReturn outcome => mret outcome
  | ServeReport event continue =>
      answer ← outcome (bridge_invocation local original reporter event);
      drive local original reporter (continue answer)
  | ServeHeartbeat continue =>
      answer ← outcome (reporter_heartbeat reporter);
      drive local original reporter (continue answer)
  end.
(** [self.prepared.enter(..)] begins: the adapter of this execution starts. *)
Definition start_adapter {E} (execution : PeerExecutionId) : T E () :=
  atomic (modify (λ w, w <| se_starts := execution :: se_starts w |>)).
Definition is_entered (phase : PeerExecutionPhase) : bool :=
  match phase with PhEntered _ _ => true | _ => false end.
Definition prepared_serving_enter {E} (self : PreparedServingExecution) (entered : PeerExecutionRecord)
    (reporter : PeerStoreReporter) : T E (result ExecutorError ()) :=
  let accepted := pv_accepted self in
  if bool_decide (px_caller entered ≠ px_caller accepted)
     || bool_decide (px_execution entered ≠ px_execution accepted)
     || bool_decide (px_request entered ≠ px_request accepted)
     || bool_decide (phase_claim (px_phase entered) ≠ phase_claim (px_phase accepted))
     || negb (is_entered (px_phase entered))
  then mret (Err (ExInvalidDispatch "serving entry does not match its prepared acceptance and claim"))
  else
  match with_serving_execution (pv_context self) entered, serving_invocation entered with
  | Err error, _ => mret (Err (ExInvalidDispatch error))
  | Ok _, Err error => mret (Err error)
  | Ok context, Ok local =>
      start_adapter (px_execution entered) ;;
      drive local (iv_invocation (sq_request (px_request entered))) reporter (pv_prepared self context)
  end.

(** ** Running a claim ([worker.rs]) *)

(** [?] on a [ServingError] inside [run_claimed_once]. *)
Definition inspecting {A} (t : T ServingError A) : T ClaimedRunFailure A := rescue run_failure t.
Definition refuse_entry (record : PeerExecutionRecord) (reason : string) : T ClaimedRunFailure () :=
  inspecting (append_pre_entry_failure record reason).
Definition authorize_serving_request (record : PeerExecutionRecord)
    : T ClaimedRunFailure (result ServingError (AuthorityDecisionSnapshot * N)) :=
  outcome (on_env id (host_authorize (px_caller record) (px_request record))).
Definition is_finished_phase (phase : PeerExecutionPhase) : bool :=
  match phase with PhTerminal _ _ | PhUncertain _ _ => true | _ => false end.

(** After the adapter returned: without definite evidence the outcome is uncertain. *)
Definition settle_entered (entered : PeerExecutionRecord) (claim : PeerDispatchClaim)
    (result : result ExecutorError ()) : T ClaimedRunFailure () :=
  let uncertainty := from_execution result in
  let recovery := FailExact (MarkPostEntryUncertain uncertainty) in
  found ← rescue (λ _, recovery) (store_call (peer_execution (px_caller entered) (px_execution entered)));
  current ← thread_lift (ok_or found recovery);
  match current with
  | SnapshotArchived _ => mret tt
  | SnapshotHot current =>
      if is_finished_phase (px_phase current) then mret tt else
      uncertain_at ← rescue (λ _, recovery) now;
      rescue (λ _, recovery) (store_call (mark_peer_uncertain (px_caller entered) (px_execution entered)
        (dc_worker claim) (dc_generation claim) uncertain_at (uncertainty_reason uncertainty))) ;;
      mret tt
  end.
Definition enter_claimed (record : PeerExecutionRecord) (claim : PeerDispatchClaim)
    (prepared : PreparedServingExecution) (entry_now : N) (decision : AuthorityDecisionSnapshot * N)
    : T ClaimedRunFailure () :=
  let '(entry_authority, authority_generation) := decision in
  outcome ← inspecting (store_call (mark_peer_entered (mkEntryRequest (px_caller record)
    (px_execution record) (dc_worker claim) (dc_generation claim) authority_generation entry_now
    entry_authority)));
  match outcome with
  | EntryAdmissionClosed =>
      refuse_entry record "peer service stopped admission before adapter entry"
  | EntryRelationshipUnavailable =>
      refuse_entry record "peer relationship was revoked or expired before adapter entry"
  | EntryEntered entered =>
      input_bytes ← inspecting (thread_lift (or_protocol (input_artifact_bytes (px_request entered))));
      let reporter := mkStoreReporter (px_caller entered) (px_execution entered)
        (hb_execution_lease_ms (ps_lease config)) (sq_limits (px_request entered)) input_bytes
        (sq_deadline_unix_ms (px_request entered)) (dc_worker claim) (dc_generation claim) in
      result ← prepared_serving_enter prepared entered reporter;
      settle_entered entered claim result
  end.
Definition enter_prepared (record : PeerExecutionRecord) (claim : PeerDispatchClaim)
    (prepared : PreparedServingExecution) : T ClaimedRunFailure () :=
  entry_now ← inspecting now;
  if (sq_deadline_unix_ms (px_request record) <? entry_now)%N
     || (dc_lease_expires_at_unix_ms claim <? entry_now)%N
  then refuse_entry record "peer execution deadline or claim elapsed during preparation"
  else
  decision ← authorize_serving_request record;
  match decision with
  | Ok decision => enter_claimed record claim prepared entry_now decision
  | Err (SeUnavailable message) => thread_lift (Err (run_failure (SeUnavailable message)))
  | Err _ => refuse_entry record "peer execution authority was denied before adapter entry"
  end.
Definition prepare_claimed (record : PeerExecutionRecord) (claim : PeerDispatchClaim)
    : T ClaimedRunFailure () :=
  context ← inspecting (thread_lift (adapter_execution_context (px_request record)));
  prepared ← outcome (prepare_serving_execution record context);
  match prepared with
  | Ok prepared => enter_prepared record claim prepared
  | Err _ => refuse_entry record "peer execution preparation refused before adapter entry"
  end.
Definition run_claimed_once (record : PeerExecutionRecord) : T ClaimedRunFailure () :=
  claim ← inspecting (thread_lift (ok_or (phase_claim (px_phase record))
    (SePersistence "claimed peer work lacks a claim")));
  if is_unentered_cancellation (px_phase record) then
    rescue (λ _, FailExact CompletePreEntryCancellation) (complete_pre_entry_cancellation record)
  else
  now ← inspecting now;
  if (sq_deadline_unix_ms (px_request record) <? now)%N then
    refuse_entry record "peer execution deadline elapsed before adapter entry"
  else
  state ← inspecting drain_state;
  if bool_decide (state ≠ DrainReady) then
    refuse_entry record "peer service stopped admission before adapter entry"
  else
  decision ← authorize_serving_request record;
  match decision with
  | Ok _ => prepare_claimed record claim
  | Err (SeUnavailable message) => thread_lift (Err (run_failure (SeUnavailable message)))
  | Err _ => refuse_entry record "serving authority or inputs were denied before preparation"
  end.
Definition run_claimed (record : PeerExecutionRecord) : T ServingError PeerWorkerRun :=
  thread_bind (λ r, TDone (Ok match r with
    | Ok _ => RunSettled
    | Err (FailInspect post_entry) => RunRecover (recovery_inspect record post_entry)
    | Err (FailExact transition) => RunRecover (recovery_exact record transition)
    end)) (run_claimed_once record).

Definition worker_claims_enabled : T ServingError bool := atomic (gets (λ w, (se_drain w =? 0)%N)).
Definition claim_for_worker (worker : WorkerId) : T ServingError PeerClaimOutcome :=
  status ← store_call peer_execution_status;
  if (pw_dispatch_queued status =? 0)%N then mret ClaimEmpty else
  now ← now;
  store_call (claim_peer_dispatch (mkClaimRequest worker now
    (saturating_add now (hb_execution_lease_ms (ps_lease config))))).

(** ** Worker recovery ([worker.rs]) *)

Definition resolve_recovery (recovery : PeerWorkerRecovery) (current : PeerExecutionRecord)
    : PeerWorkerRecovery :=
  match wr_transition recovery with
  | InspectClaim post_entry =>
      recovery <| wr_transition := if is_some (entry_evidence (px_phase current))
        then MarkPostEntryUncertain post_entry else ReleasePreEntryClaim |>
  | _ => recovery
  end.
(** The first two transitions were resolved or answered before. *)
Definition apply_recovery (transition : PeerRecoveryTransition) (current : PeerExecutionRecord)
    (claim : PeerDispatchClaim) (worker : WorkerId) : T ServingError () :=
  match transition with
  | InspectClaim _ => thread_lift (Err (SePersistence "recovery is resolved"))
  | CompletePreEntryCancellation =>
      thread_lift (Err (SePersistence "pre-entry cancellation recovery returned above"))
  | ReleasePreEntryClaim =>
      if is_some (entry_evidence (px_phase current)) then
        thread_lift (Err (SePersistence "pre-entry recovery found durable adapter entry"))
      else
      now ← now;
      store_call (release_peer_claim (px_caller current) (px_execution current) worker
        (dc_generation claim) now) ;;
      mret tt
  | MarkPostEntryUncertain uncertainty =>
      if negb (is_some (entry_evidence (px_phase current))) then
        thread_lift (Err (SePersistence "post-entry recovery lacks durable adapter entry"))
      else
      now ← now;
      store_call (mark_peer_uncertain (px_caller current) (px_execution current) worker
        (dc_generation claim) now (uncertainty_reason uncertainty)) ;;
      mret tt
  end.
Definition completes_cancellation (transition : PeerRecoveryTransition) : bool :=
  match transition with CompletePreEntryCancellation => true | _ => false end.
(** The recovery as it stands afterwards, and the outcome. *)
Definition recover_worker (recovery : PeerWorkerRecovery) (worker : WorkerId)
    : T ServingError (PeerWorkerRecovery * result ServingError ()) :=
  found ← outcome (store_call (peer_execution (wr_caller recovery) (wr_execution recovery)));
  match found with
  | Err error => mret (recovery, Err error)
  | Ok None => mret (recovery, Err not_found)
  | Ok (Some (SnapshotArchived _)) => mret (recovery, Ok tt)
  | Ok (Some (SnapshotHot current)) =>
      if completes_cancellation (wr_transition recovery) then
        completed ← outcome (complete_pre_entry_cancellation current);
        mret (recovery, completed)
      else
      match phase_claim (px_phase current) with
      | None => mret (recovery, Ok tt)
      | Some claim =>
          if bool_decide (dc_worker claim ≠ worker) then mret (recovery, Ok tt) else
          let recovery := resolve_recovery recovery current in
          applied ← outcome (apply_recovery (wr_transition recovery) current claim worker);
          mret (recovery, applied)
      end
  end.

(** ** The fixed workers ([dispatch.rs]) *)

(** One turn of [worker_loop]: the recovery still pending, and whether the worker goes on
    without waiting for a notification. *)
Definition worker_turn (worker : WorkerId) (pending : option PeerWorkerRecovery)
    : T ServingError (option PeerWorkerRecovery * bool) :=
  pending ← match pending with
    | None => mret None
    | Some recovery =>
        '(recovery, recovered) ← recover_worker recovery worker;
        mret (if is_ok recovered then None else Some recovery)
    end;
  match pending with
  | Some recovery => mret (Some recovery, false)
  | None =>
      enabled ← worker_claims_enabled;
      if negb enabled then mret (None, false) else
      claimed ← outcome (claim_for_worker worker);
      match claimed with
      | Ok (ClaimClaimed record) | Ok (ClaimCancellationRequested record) =>
          ran ← run_claimed record;
          mret (match ran with RunSettled => None | RunRecover recovery => Some recovery end, true)
      | Ok ClaimEmpty | Err _ => mret (None, false)
      end
  end.
(** What a stopped worker still attempts. *)
Definition worker_stop (worker : WorkerId) (pending : option PeerWorkerRecovery) : T ServingError () :=
  match pending with
  | None => mret tt
  | Some recovery => recover_worker recovery worker ;; mret tt
  end.

(** ** Cancellation ([serving.rs]) *)

(** The acknowledgement of a stored cancellation request. *)
Definition cancellation_reply (caller : ServingCaller) (request : PeerCancellationRequest)
    (before record : PeerExecutionRecord) : T ServingError PeerCancellationAcknowledgement :=
  let reply := mkPeerAcknowledgement (xc_request_id request) (xc_execution request) in
  match px_phase before with
  | PhTerminal _ _ =>
      evidence ← terminal_observation caller before;
      mret (reply CdTooLate true evidence (Some "terminal evidence was already durable"))
  | PhUncertain _ _ =>
      mret (reply CdUnknown false None
        (Some "adapter entry is known but terminal evidence is unavailable"))
  | _ =>
      if negb (is_some (entry_evidence (px_phase record))) then
        terminal ← append_cancelled_before_entry record;
        mret (reply CdAccepted true (Some terminal) (Some "durable cancellation prevented adapter entry"))
      else if bool_decide (oc_cancellation (rs_operation_contract (sq_selection (px_request record)))
                           = CancelUnsupported) then
        mret (reply CdUnsupported false None (Some "operation does not advertise cancellation"))
      else
      invocation ← thread_lift (or_protocol (serving_invocation record));
      local ← thread_lift (or_protocol
        (CancellationRequest_new invocation (xc_sequence request) (xc_reason request)));
      answer ← outcome (on_env (F := ExecutorError) id (host_cancel local));
      mret match answer with
      | Ok value =>
          reply (if ca_accepted value then CdAccepted else CdRejected) (ca_terminal_boundary value) None
            (ca_detail value)
      | Err error => reply CdUnknown false None (Some (bounded (to_text error) 512))
      end
  end.
Definition archived_reply (request : PeerCancellationRequest) (tombstone : PeerExecutionTombstone)
    : PeerCancellationAcknowledgement :=
  let reply := mkPeerAcknowledgement (xc_request_id request) (xc_execution request) in
  match tm_disposition tombstone with
  | DispositionTerminal observation =>
      reply CdTooLate true (Some observation) (Some "terminal evidence is retained in archived summary")
  | DispositionUncertain _ _ =>
      reply CdUnknown false None (Some "archived execution retains truthful outcome uncertainty")
  end.
Definition snapshot_cancellation (snapshot : PeerExecutionSnapshot) : option PeerCancellationRecord :=
  match snapshot with SnapshotHot record => px_cancellation record | SnapshotArchived t => tm_cancellation t end.
(** The acknowledgement already stored for exactly this request. *)
Definition known_acknowledgement (request : PeerCancellationRequest) (before : PeerExecutionSnapshot)
    : option PeerCancellationAcknowledgement :=
  existing ← snapshot_cancellation before;
  if bool_decide (xr_request existing = request) then xr_acknowledgement existing else None.
Definition cancel_owned (caller : ServingCaller) (request : PeerCancellationRequest)
    (before : PeerExecutionSnapshot) : T ServingError PeerCancellationAcknowledgement :=
  match known_acknowledgement request before, before with
  | Some acknowledgement, _ => mret acknowledgement
  | None, SnapshotArchived tombstone =>
      let acknowledgement := archived_reply request tombstone in
      thread_lift (or_protocol (PeerCancellationAcknowledgement_validate acknowledgement)) ;;
      mret acknowledgement
  | None, SnapshotHot before =>
      requested_at ← now;
      record ← store_call (request_peer_cancellation caller request requested_at);
      acknowledgement ← cancellation_reply caller request before record;
      thread_lift (or_protocol (PeerCancellationAcknowledgement_validate acknowledgement)) ;;
      acknowledged_at ← now;
      store_call (acknowledge_peer_cancellation caller acknowledgement acknowledged_at) ;;
      mret acknowledgement
  end.

(** ** Lifecycle ([lifecycle.rs]) *)

Definition begin_drain : T ServingError () :=
  store_call (set_peer_admission_open false) ;; set_drain 1.
Definition begin_shutdown : T ServingError () :=
  closed ← outcome (store_call (set_peer_admission_open false));
  set_drain 2 ;;
  thread_lift closed.
(** [fuel] pages at most. *)
Fixpoint recover_claim_pages (fuel : nat) (limit : N) : T ServingError () :=
  match fuel with
  | 0%nat => thread_lift (Err (SeUnavailable "page bound"))
  | S fuel =>
      now ← now;
      recovered ← store_call (recover_peer_claims now limit);
      if negb (rv_more recovered) then mret tt
      else if (rv_requeued recovered =? 0)%N && (rv_uncertain recovered =? 0)%N then
        thread_lift (Err (SeUnavailable "peer claim recovery reported more work without progress"))
      else recover_claim_pages fuel limit
  end.
Definition maintain_retention : T ServingError PeerExecutionStatus :=
  now ← now;
  limit ← thread_lift (or_protocol (PageSize_new (wk_archive_batch_size (ps_workers config))));
  store_call (archive_peer_executions (N.max (saturating_sub now retention_ms) 1) now limit) ;;
  store_call peer_execution_status.
Definition recover (fuel : nat) (maximum : N) : T ServingError () :=
  let bounded := N.max (N.min maximum (wk_recovery_page (ps_workers config))) 1 in
  limit ← thread_lift (or_protocol (PageSize_new (default u32_max (u32_of_usize bounded))));
  recover_claim_pages fuel limit ;;
  store_call verify_peer_execution_integrity ;;
  maintain_retention ;;
  store_call verify_peer_execution_integrity ;;
  store_call (set_peer_admission_open true) ;;
  set_drain 0.
End serving.
