(* ===== verification/ServingLaws.v ===== *)
(** * The threads of the serving host

    What every thread of [Serving] does to the stored executions and to the record of
    adapter starts: the executions only evolve, a thread that commits the entry of an
    execution holds its one right to start the adapter, and it starts it at most once. *)
From S2P Require Import Prelude Effects Contracts Capability Blueprint Authority.
From S2P Require Import Model Workspace Persistence Dispatch Managed PeerProtocol Storage ManagedStore PeerStore.
From S2P Require Import PeerIntegrity StorageLaws Transactions PeerState PeerLaws PeerSteps PeerIntake PeerCalls.
From S2P Require Import Serving.

(** ** Executions that take no entry *)

(** Entered, over, or withdrawn. *)
Definition closed (s : PeerExecutionSnapshot) : Prop :=
  match s with
  | SnapshotHot r => (1 ≤ stage (px_phase r))%N ∨ is_Some (px_cancellation r)
  | SnapshotArchived _ => True
  end.
Definition entered_in (S : serving) (e : PeerExecutionId) : Prop := ∃ s, S !! e = Some s ∧ entered s.
Definition closed_in (S : serving) (e : PeerExecutionId) : Prop := ∃ s, S !! e = Some s ∧ closed s.

Section closed.
Context {O : Type} `{engine : !Engine O, managed : !ManagedCodec, codec : !PeerCodec, laws : !PeerCodecLaw}.
Implicit Types (S : serving) (T V : Tables).

Lemma closed_evolves s s' : closed s → snapshot_evolves s s' → closed s'.
Proof.
  destruct s as [r|t], s' as [r'|t']; cbn; try done. intros [?|[c Hc]] [_ ? _ _ _ _ Hcan].
  - left. lia.
  - right. destruct (Hcan c Hc) as (c' & -> & _). by eexists.
Qed.
Lemma closed_in_evolves S S' e : closed_in S e → evolves S S' → closed_in S' e.
Proof.
  intros (s & Hs & Hc) Hev. destruct (Hev e s Hs) as (s' & Hs' & ?). exists s'. split; [done|]. by eapply closed_evolves.
Qed.
Lemma entered_in_evolves S S' e : entered_in S e → evolves S S' → entered_in S' e.
Proof.
  intros (s & Hs & Hc) Hev. destruct (Hev e s Hs) as (s' & Hs' & ?). exists s'. split; [done|]. by eapply entered_evolves.
Qed.
Lemma entered_closed S e : entered_in S e → closed_in S e.
Proof. intros (s & Hs & Hc). exists s. split; [done|]. destruct s; [by left|done]. Qed.

(** The rows determine the executions. *)
Lemma rows_unique p S S' : rows_ok p S → rows_ok p S' → S = S'.
Proof.
  intros [H _] [H' _]. apply map_eq. intros e. specialize (H e). specialize (H' e). unfold stored in *.
  destruct (S !! e) as [[r|t]|], (S' !! e) as [[r'|t']|]; try done; destruct_and!; try congruence.
  all: repeat match goal with H : ∃ _, _ |- _ => destruct H as (? & ? & ?) end; congruence.
Qed.
(** A stored record that may still be claimed was not withdrawn. *)
Lemma claimed_open b r claim : decode_peer_record b = Ok r → px_phase r = PhClaimed claim → ¬ closed (SnapshotHot r).
Proof.
  unfold decode_peer_record, validate_record. intros H Hp. inv_ok. subst. rewrite Hp in *. cbn in *.
  intros [Hs|[c Hc]]; [rewrite Hp in Hs; cbn in Hs; lia|]. rewrite Hc in *. cbn in *. done.
Qed.

(** An entry that succeeds was of an open execution, and is durable. *)
Lemma runs_enter_fresh T V S G request :
  serves (t_peers T) S G →
  runs (O := O) T V (mark_peer_entered request)
    (λ outcome D' _, ∀ record, outcome = EntryEntered record →
       px_execution record = nq_execution request ∧ ¬ closed_in S (nq_execution request)
       ∧ entered (SnapshotHot record)
       ∧ ∃ b, t_peer_executions (t_peers D') !! nq_execution request = Some b ∧ decode_peer_record b = Ok record)
    (λ _, True).
Proof.
  intros HS. unfold mark_peer_entered. serve; try done.
  apply (runs_owned _ _ S); [apply HS| |done]. intros r Hr _.
  pose proof (own_execution _ _ _ _ _ HS Hr) as He. serve; try done.
  match goal with H : exact_pre_entry_claim _ _ _ = Ok _ |- _ => apply exact_pre_entry in H as Hp end.
  apply (runs_global _ _ S G); [apply HS| |done]. destruct (gp_admission_open G); cbn [negb]; serve; try done.
  apply (runs_relationship _ _ S); [apply HS| |done]. intros o _ _. destruct (is_none_or _ _); serve; try done.
  apply (runs_local t_peers); [apply peers_enter| |done]. intros _ V' HV. serve; try done.
  intros record [= <-]. assert (px_execution a1 = nq_execution request) as Ha by by subst.
  split_and!; [done| |by subst|].
  - intros (s & Hs & Hc). simplify_eq. pose proof (ro_stored _ _ (sv_rows _ _ _ HS) (nq_execution request)) as Hst.
    rewrite Hr in Hst. destruct Hst as ((b' & _ & Hb') & _). by eapply claimed_open.
  - exists b. cbn. rewrite <-Ha, lookup_insert_eq. done.
Qed.
End closed.

(** ** What threads do *)

Section threads.
Context {X C O : Type} `{engine : !Engine O, managed : !ManagedCodec, codec : !PeerCodec, laws : !PeerCodecLaw}.
Context `{host : !ServingHost X C, texts : !HostCodec}.
Variable config : PeerServerConfig.
Abbreviation W := (Service X O).
Abbreviation T := (thread W).
Implicit Types (S : serving) (L : option PeerExecutionId) (w : W).

(** The executions the store of a service describes. *)
Definition executions (w : W) (S : serving) : Prop := ∃ G, serves (t_peers (rd_durable (se_store w))) S G.
(** A thread holds at most one right to start an adapter. A step keeps or drops it, takes
    it by entering an open execution, or uses it. *)
Inductive moves S S' (starts starts' : list PeerExecutionId) L L' : Prop :=
| moves_keep : starts' = starts → L' = L → moves S S' starts starts' L L'
| moves_take e : starts' = starts → L' = Some e → ¬ closed_in S e → entered_in S' e →
    moves S S' starts starts' L L'
| moves_use e : L = Some e → starts' = e :: starts → L' = None → moves S S' starts starts' L L'.

(** From the right [L], whatever runs between its steps: the executions evolve at each
    step, rights move as above, and [Q] holds of what the thread holds and returns. *)
Fixpoint conducts {E A} L (t : T E A) (Q : option PeerExecutionId → result E A → Prop) : Prop :=
  match t with
  | TDone r => Q L r
  | TStep section => ∀ w S, executions w S →
      let '(w', t') := section w in
      ∃ S' L', executions w' S' ∧ evolves S S' ∧ moves S S' (se_starts w) (se_starts w') L L'
        ∧ conducts L' t' Q
  end.
(** A thread that leaves its rights alone; a thread whatever rights it ends with. *)
Definition steady {E A} (t : T E A) : Prop := ∀ L, conducts L t (λ L' _, L' = L).
Definition proper {E A} (t : T E A) : Prop := ∀ L, conducts L t (λ _ _, True).

Lemma conducts_bind {E F A B} L (t : T E A) (k : result E A → T F B) Q R :
  conducts L t Q → (∀ L' r, Q L' r → conducts L' (k r) R) → conducts L (thread_bind k t) R.
Proof.
  intros Ht Hk. revert L Ht. induction t as [r|section IH] using thread_sections; intros L Ht; cbn in *; [by apply Hk|].
  intros w S Hw. specialize (Ht w S Hw). specialize (IH w). destruct (section w) as [w' t'].
  destruct Ht as (S' & L' & ? & ? & ? & ?). exists S', L'. split_and!; auto.
Qed.
Lemma conducts_mono {E A} L (t : T E A) (Q R : option PeerExecutionId → result E A → Prop) :
  conducts L t Q → (∀ L' r, Q L' r → R L' r) → conducts L t R.
Proof.
  intros Ht HQ. revert L Ht. induction t as [r|section IH] using thread_sections; intros L Ht; cbn in *; [by apply HQ|].
  intros w S Hw. specialize (Ht w S Hw). specialize (IH w). destruct (section w) as [w' t'].
  destruct Ht as (S' & L' & ? & ? & ? & ?). exists S', L'. split_and!; auto.
Qed.
Lemma conducts_rescue {E F A} L (f : E → F) (t : T E A) Q :
  conducts L t Q → conducts L (rescue f t) (λ L' r, ∃ r0, r = map_err f r0 ∧ Q L' r0).
Proof. intros Ht. eapply conducts_bind; [exact Ht|]. intros L' r HQ. by exists r. Qed.
Lemma conducts_checked {E F A B} L (g : E → F) (r : result E A) (f : A → T F B) Q :
  (∀ a, r = Ok a → conducts L (f a) Q) → (∀ e, Q L (Err e)) → conducts L (rescue g (thread_lift r) ≫= f) Q.
Proof. intros Hf He. destruct r as [a|e]; [by apply Hf|apply He]. Qed.
Lemma steady_proper {E A} (t : T E A) : steady t → proper t.
Proof. intros Ht L. by eapply conducts_mono. Qed.
Lemma steady_then {E F A B} (t : T E A) (k : result E A → T F B) :
  steady t → (∀ r, steady (k r)) → steady (thread_bind k t).
Proof. intros Ht Hk L. eapply conducts_bind; [apply Ht|]. intros L' r ->. apply Hk. Qed.
Lemma proper_then {E F A B} (t : T E A) (k : result E A → T F B) :
  proper t → (∀ r, proper (k r)) → proper (thread_bind k t).
Proof. intros Ht Hk L. eapply conducts_bind; [apply Ht|]. intros L' r _. apply Hk. Qed.
Lemma steady_done {E A} (r : result E A) : steady (TDone r).
Proof. by intros L. Qed.
Lemma steady_bind {E A B} (t : T E A) (f : A → T E B) : steady t → (∀ a, steady (f a)) → steady (t ≫= f).
Proof. intros Ht Hf. apply steady_then; [done|]. intros [a|e]; [apply Hf|apply steady_done]. Qed.
Lemma proper_bind {E A B} (t : T E A) (f : A → T E B) : proper t → (∀ a, proper (f a)) → proper (t ≫= f).
Proof. intros Ht Hf. apply proper_then; [done|]. intros [a|e]; [apply Hf|by intros L]. Qed.

Lemma steady_store {E A} (wrap : PersistenceError → E) (m : st (Redb O) PersistenceError A) :
  (∀ S0, sound (grown S0) m) → steady (on_store wrap m).
Proof.
  intros Hm L w S [G HS]. cbn. destruct (m (se_store w)) as [s r] eqn:Em.
  eapply (sound_run (grown S)) in Em as (S' & G' & HS' & Hev); [|apply Hm|by exists S, G].
  exists S', L. split_and!; [by exists G'|done|by apply moves_keep|done].
Qed.
Lemma steady_quiet {E A} (section : W → W * T E A) :
  (∀ w, se_store (section w).1 = se_store w ∧ se_starts (section w).1 = se_starts w ∧ steady (section w).2) →
  steady (TStep section).
Proof.
  intros Hs L w S Hw. specialize (Hs w). destruct (section w) as [w' t]. cbn in Hs. destruct Hs as (Hst & Hlog & Ht).
  exists S, L. split_and!; [unfold executions; by rewrite Hst|done|by apply moves_keep|apply Ht].
Qed.
Lemma steady_env {E F A} (wrap : E → F) (f : X → X * result E A) : steady (on_env (O := O) wrap f).
Proof. apply steady_quiet. intros w. destruct (f (se_env w)) as [x r]. split_and!; [done..|apply steady_done]. Qed.
Lemma steady_gets {E A} (f : W → A) : steady (E := E) (atomic (gets f)).
Proof. apply steady_quiet. intros w. split_and!; [done..|apply steady_done]. Qed.
Lemma steady_drain state : steady (set_drain (X := X) (O := O) state).
Proof. apply steady_quiet. intros w. split_and!; [done..|apply steady_done]. Qed.
Lemma steady_lift {E A B} (r : result E A) (f : A → T E B) :
  (∀ a, r = Ok a → steady (f a)) → steady (thread_lift r ≫= f).
Proof. intros Hf L. destruct r as [a|e]; [by apply Hf|done]. Qed.

(** Reads change nothing. *)
Lemma sound_read {A} S0 (m : st (Redb O) PersistenceError A) :
  local (O := O) id m → sound (grown S0) (begin_read ;; m).
Proof. intros Hm. by apply sound_keeps, keeps_inv_read. Qed.
Lemma local_snapshot e : local (O := O) id (read_snapshot e).
Proof. unfold read_snapshot. solve_local. Qed.
Lemma local_global : local (O := O) id global_accounting.
Proof. unfold global_accounting. solve_local. Qed.
#[local] Hint Resolve local_snapshot local_global : local.
Lemma execution_read S0 owner e : sound (O := O) (grown S0) (peer_execution owner e).
Proof. apply sound_read. solve_local. Qed.
Lemma status_read S0 : sound (O := O) (grown S0) peer_execution_status.
Proof. apply sound_read. solve_local. Qed.
Lemma observations_read S0 owner e after limit : sound (O := O) (grown S0) (peer_observations owner e after limit).
Proof.
  apply sound_read. solve_local. generalize (@nil PeerObservation) as os, (saturating_add after 1) as i.
  induction (N.to_nat limit) as [|fuel IH]; intros os i; cbn [observation_loop]; solve_local.
Qed.
Lemma integrity_read S0 : sound (O := O) (grown S0) verify_peer_execution_integrity.
Proof.
  apply sound_read. unfold verify_host, verify_relationships, verify_catalogs, verify_hot_record, verify_history,
    verify_observation, verify_phase, verify_claim_index, verify_terminal_index, verify_tombstone_row, verify_index,
    verify_counters, verify_len, verify_peer_indexes, verify_per_peer_accounting, snapshot_in_transaction_text, each_st.
  solve_local.
Qed.
#[local] Hint Resolve execution_read status_read observations_read integrity_read : serving.
#[local] Hint Resolve set_open_grown claim_grown release_claim_grown extend_claim_grown uncertain_grown recover_grown
  append_grown cancel_grown acknowledge_grown archive_grown : serving.
#[local] Hint Resolve steady_done steady_env steady_gets steady_drain : serving.
#[local] Ltac steady :=
  repeat first
    [ progress intros
    | solve [eauto with serving nocore]
    | match goal with
      | |- steady (mret _) => apply steady_done
      | |- steady (thread_lift _ ≫= _) => apply steady_lift
      | |- steady (thread_lift _) => apply steady_done
      | |- steady (_ ≫= _) => apply steady_bind
      | |- steady (rescue _ _) => apply steady_then
      | |- steady (outcome _) => apply steady_then
      | |- steady (store_call _) => apply steady_store
      | |- steady (on_store _ _) => apply steady_store
      | |- steady (match ?x with _ => _ end) => destruct x
      | |- steady (let '(_, _) := ?x in _) => destruct x
      end ].

Lemma steady_now : steady (now (X := X) (O := O)).
Proof. apply steady_env. Qed.
#[local] Hint Resolve steady_now : serving.
Lemma steady_failure record reason : steady (append_pre_entry_failure (X := X) (O := O) record reason).
Proof. unfold append_pre_entry_failure. steady. Qed.
Lemma steady_terminal owner record : steady (terminal_observation (X := X) (O := O) owner record).
Proof. unfold terminal_observation. steady. Qed.
#[local] Hint Resolve steady_failure steady_terminal : serving.
Lemma steady_cancelled record : steady (append_cancelled_before_entry (X := X) (O := O) record).
Proof. unfold append_cancelled_before_entry. steady. Qed.
#[local] Hint Resolve steady_cancelled : serving.
Lemma steady_completed record : steady (complete_pre_entry_cancellation (X := X) (O := O) record).
Proof. unfold complete_pre_entry_cancellation. steady. Qed.
#[local] Hint Resolve steady_completed : serving.

(** The reporter. *)
Lemma steady_refuse {A} self code detail : steady (refuse_report (X := X) (O := O) (A := A) self code detail).
Proof. unfold refuse_report, reject_report, reporter_now. steady. Qed.
#[local] Hint Resolve steady_refuse : serving.
Lemma steady_report self event : steady (reporter_invocation (X := X) (O := O) self event).
Proof. unfold reporter_invocation, report_terminal, reporter_now. steady. Qed.
Lemma steady_heartbeat self : steady (reporter_heartbeat (X := X) (O := O) self).
Proof. unfold reporter_heartbeat, reporter_now. steady. Qed.
#[local] Hint Resolve steady_report steady_heartbeat : serving.
Lemma steady_drive {E} local original reporter run :
  steady (drive (X := X) (O := O) (E := E) local original reporter run).
Proof. induction run as [r|event continue IH|continue IH]; cbn [drive]; unfold bridge_invocation; steady. Qed.
#[local] Hint Resolve steady_drive : serving.

(** ** Entry *)

(** A committed entry gives the right to start. *)
Lemma conducts_entry L request :
  conducts L (store_call (X := X) (O := O) (mark_peer_entered request))
    (λ L' r, match r with Ok (EntryEntered record) => L' = Some (px_execution record) | _ => L' = L end).
Proof.
  intros w S [G HS]. cbn. destruct (mark_peer_entered request (se_store w)) as [s r] eqn:Em.
  assert (grown S (rd_durable s)) as (S' & G' & HS' & Hev).
  { eapply (sound_run (grown S)); [apply enter_grown|by exists S, G|exact Em]. }
  eapply runs_run in Em; [|by apply (runs_enter_fresh _ _ S G)].
  destruct r as [[record| |]|e]; cbn in *.
  2-4: exists S', L; split_and!; [by exists G'|done|by apply moves_keep|done].
  destruct (Em record eq_refl) as (He & Hopen & Hent & b & Hb & Hd).
  exists S', (Some (px_execution record)). split_and!; [by exists G'|done| |done].
  apply (moves_take _ _ _ _ _ _ (px_execution record)); rewrite ?He; try done.
  exists (SnapshotHot record). split; [|done].
  pose proof (ro_stored _ _ (sv_rows _ _ _ HS') (nq_execution request)) as Hst. unfold stored in Hst.
  destruct (S' !! _) as [[r|t]|]; [destruct Hst as ((b' & ? & ?) & _); congruence|destruct Hst as (? & _); congruence..].
Qed.
(** The right is used by the start. *)
Lemma conducts_start {E} e : conducts (E := E) (Some e) (start_adapter (X := X) (O := O) e) (λ L' _, L' = None).
Proof. intros w S Hw. cbn. exists S, None. split_and!; [done..|by eapply moves_use|done]. Qed.
Lemma proper_enter {E} prepared entered reporter :
  conducts (Some (px_execution entered))
    (prepared_serving_enter (X := X) (C := C) (O := O) (E := E) prepared entered reporter) (λ _ _, True).
Proof.
  unfold prepared_serving_enter. case_match; [done|]. repeat case_match; [|done..].
  eapply conducts_bind; [apply conducts_start|]. intros L' [[]|e'] ->; [|done].
  apply steady_proper. steady.
Qed.
#[local] Ltac proper := first [apply steady_proper; solve [steady] | apply proper_bind; [|intros]].
Lemma steady_settle entered claim result : steady (settle_entered (X := X) (O := O) entered claim result).
Proof. unfold settle_entered. steady. Qed.
Lemma steady_refuse_entry record reason : steady (refuse_entry (X := X) (O := O) record reason).
Proof. unfold refuse_entry, inspecting. steady. Qed.
#[local] Hint Resolve steady_settle steady_refuse_entry : serving.
Lemma proper_enter_claimed record claim prepared entry_now decision :
  proper (enter_claimed (X := X) (C := C) (O := O) config record claim prepared entry_now decision).
Proof.
  destruct decision as [authority generation]. unfold enter_claimed, inspecting. intros L.
  eapply conducts_bind; [apply conducts_rescue, conducts_entry|].
  intros L' r (r0 & -> & Hr). destruct r0 as [[entered| |]|e]; cbn [map_err]; try (by apply steady_proper; steady).
  subst L'. apply conducts_checked; [|done]. intros bytes _.
  eapply conducts_bind; [apply proper_enter|]. intros L' [result|e] _; apply steady_proper; steady.
Qed.
Lemma proper_claimed record : proper (run_claimed_once (X := X) (C := C) (O := O) config record).
Proof.
  unfold run_claimed_once, inspecting, drain_state, authorize_serving_request. repeat proper. case_match; [proper|].
  repeat proper. case_match; [proper|]. proper; [proper|]. case_match; [proper|]. proper; [proper|].
  case_match; [|case_match; proper]. unfold prepare_claimed, inspecting. proper; [proper|].
  apply proper_bind; [unfold prepare_serving_execution; proper|intros []]; [|proper].
  unfold enter_prepared, inspecting, authorize_serving_request. proper; [proper|]. case_match; [proper|].
  proper; [proper|]. case_match; [apply proper_enter_claimed|case_match; proper].
Qed.

(** ** The workers and the calls *)

Lemma steady_recover_worker recovery worker : steady (recover_worker (X := X) (O := O) recovery worker).
Proof. unfold recover_worker, apply_recovery. steady. Qed.
#[local] Hint Resolve steady_recover_worker : serving.
Lemma proper_turn worker pending : proper (worker_turn (X := X) (C := C) (O := O) config worker pending).
Proof.
  unfold worker_turn. apply proper_bind; [proper|]. intros [recovery|]; [proper|].
  unfold worker_claims_enabled. apply proper_bind; [proper|]. intros []; cbn [negb]; [|proper].
  unfold claim_for_worker. apply proper_bind; [proper|]. intros [[|record|record]|e]; try solve [apply steady_proper; steady].
  all: apply proper_bind; [|intros; proper]; apply proper_then; [apply proper_claimed|by intros r L].
Qed.
Lemma steady_stop worker pending : steady (worker_stop (X := X) (O := O) worker pending).
Proof. unfold worker_stop. steady. Qed.
Lemma execution_identity_parses caller request e :
  execution_identity caller request = Ok e → parse_execution_id e = Ok e.
Proof.
  unfold execution_identity, parse_execution_id. intros H%map_err_Ok.
  revert H. generalize ("exec:" +:+ String.substring 0 40 (blake3_hex (EXECUTION_DOMAIN +:+ storage_key caller
    +:+ sq_request_id request +:+ sq_request_digest request))) as text. unfold PeerExecutionId_new. intros text H.
  inv_ok. subst. match goal with H : validate_peer_identity _ _ _ = Ok _ |- _ => by rewrite H end.
Qed.
Lemma steady_accept request decision generation :
  steady (accept_serving (X := X) (C := C) (O := O) config request decision generation).
Proof.
  unfold accept_serving. steady. eapply admit_grown, execution_identity_parses. done.
Qed.
Lemma steady_cancel caller request before :
  steady (cancel_owned (X := X) (C := C) (O := O) caller request before).
Proof. unfold cancel_owned, cancellation_reply. steady. Qed.
Lemma steady_begin_drain : steady (begin_drain (X := X) (O := O)).
Proof. unfold begin_drain. steady. Qed.
Lemma steady_begin_shutdown : steady (begin_shutdown (X := X) (O := O)).
Proof. unfold begin_shutdown. steady. Qed.
Lemma steady_retention : steady (maintain_retention (X := X) (C := C) (O := O) config).
Proof. unfold maintain_retention. steady. Qed.
#[local] Hint Resolve steady_retention : serving.
Lemma steady_recover fuel maximum : steady (recover (X := X) (C := C) (O := O) config fuel maximum).
Proof.
  assert (∀ limit, steady (recover_claim_pages (X := X) (C := C) (O := O) fuel limit)) by
    (induction fuel as [|fuel IH]; intros limit; cbn [recover_claim_pages]; steady).
  unfold recover. steady.
Qed.
End threads.
