(* ===== verification/ServingRecovery.v ===== *)
(** * Recovery and replies of the serving host

    The page loop of recovery ends with no claim left, so that the integrity check that
    follows it accepts the store; and the replies projected from stored executions are
    accepted by the checks of the caller. *)
From S2P Require Import Prelude Effects Contracts Capability Blueprint Authority.
From S2P Require Import Model Workspace Persistence Dispatch Managed PeerProtocol Storage ManagedStore PeerStore.
From S2P Require Import PeerIntegrity StorageLaws Transactions PeerState PeerLaws PeerSteps PeerIntake PeerCalls.
From S2P Require Import PeerAudit PeerVerify Serving ServingLaws.

(** ** A page of recovered claims *)

Section page.
Context {O : Type} `{engine : !Engine O, managed : !ManagedCodec, codec : !PeerCodec}.
Abbreviation txn := (st (Redb O) PersistenceError).
Definition claims (V : Tables) : gmap string string := t_peer_active_claims (t_peers V).

Lemma local_claims_text e : local (O := O) claims (execution_in_transaction_text e).
Proof.
  unfold execution_in_transaction_text, execution_optional_in_transaction, execution_location_in_transaction. solve_local.
Qed.
Lemma local_claims_put r : local (O := O) claims (put_execution r).
Proof. unfold put_execution. solve_local. Qed.
Lemma local_claims_available r : local (O := O) claims (insert_available r).
Proof. unfold insert_available. solve_local. Qed.
Lemma local_claims_terminal r at_ : local (O := O) claims (insert_terminal_index r at_).
Proof. unfold insert_terminal_index. solve_local. Qed.
Lemma local_claims_release caller queued : local (O := O) claims (release_active_accounting caller queued).
Proof.
  unfold release_active_accounting, global_accounting, peer_accounting, put_global_accounting, put_peer_accounting.
  solve_local.
Qed.
#[local] Hint Resolve local_claims_text local_claims_put local_claims_available local_claims_terminal
  local_claims_release : local.

(** Each recovered claim leaves the index. *)
Lemma runs_recover_claim T V at_ res row :
  runs (O := O) T V (recover_claim at_ res row)
    (λ _ D' V', D' = T ∧ size (claims V) = S (size (claims V'))) (λ _, True).
Proof.
  unfold recover_claim. run_step. eapply runs_local; [apply local_claims_text| |done]. intros r V1 HV1.
  do 7 (run_step; try done). apply runs_remove_claim; [|done]. cbv zeta. intros Hk.
  apply (runs_conseq _ _ _ _ (λ _ D' V', D' = T ∧ claims V' = delete (ordered_text (dc_lease_expires_at_unix_ms a) (px_execution r)) (claims V1))
    _ (λ _, True)); [| |done].
  - eapply (runs_local claims); [solve_local| |done]. intros res' V' HV'. split; [done|]. rewrite HV'. done.
  - intros res' D' V' [-> HV']. split; [done|]. rewrite HV', <-HV1.
    rewrite <-(insert_delete_id (claims V1) _ _ Hk) at 1. by rewrite map_size_insert_None by apply lookup_delete_eq.
Qed.
Lemma runs_take_rows {X} T V (t : Table X) n Q (R : Tables → Prop) :
  Q (take (N.to_nat n) (entries (tb_rows t V))) T V → R T → runs (O := O) T V (take_rows t n) Q R.
Proof.
  intros HQ HR. unfold take_rows. do 4 (run_step; try done).
  eapply runs_conseq; [apply (runs_fold _ (λ before acc D' V', acc = before ∧ D' = T ∧ V' = V) R)|..].
  - done.
  - intros before x after acc D' V' _ (-> & -> & ->). by do 3 (run_step; try done).
  - by intros acc D' V' (-> & -> & ->).
  - done.
Qed.
(** A page recovers as many claims as it may, and says whether any remain. *)
Lemma runs_recover_page T V at_ limit :
  runs (O := O) T V (recover_peer_claims at_ limit)
    (λ res D' _, size (claims D') = (size (claims T) - N.to_nat limit)%nat
       ∧ rv_more res = bool_decide (size (claims D') ≠ 0%nat)) (λ _, True).
Proof.
  unfold recover_peer_claims. do 5 (run_step; try done). apply runs_take_rows; [|done].
  run_step. eapply runs_conseq; [apply (runs_fold _ (λ before _ D' V', D' = T
    ∧ size (claims T) = (length before + size (claims V'))%nat) (λ _, True))|..].
  - done.
  - intros before x after acc D' V' _ [-> Hn]. eapply runs_conseq; [apply runs_recover_claim| |done].
    intros res D' V'' [-> Hs]. split; [done|]. rewrite length_app. cbn. lia.
  - intros res D' V' [-> Hn]. cbn [tb_rows PEER_ACTIVE_CLAIMS peer_table] in Hn. do 4 (run_step; try done).
    run_step. apply runs_commit; [|done..]. run_step. cbn.
    rewrite list.length_take in Hn. fold (claims T) in Hn. rewrite length_entries in Hn.
    fold (claims V'). split; [lia|]. case_bool_decide; [apply N.ltb_lt; lia|apply N.ltb_ge; lia].
  - done.
Qed.
End page.

(** ** The loop over the pages *)

Section recovery.
Context {X C O : Type} `{engine : !Engine O, managed : !ManagedCodec, codec : !PeerCodec}.
Context `{host : !ServingHost X C, texts : !HostCodec}.
Abbreviation W := (Service X O).
Implicit Types w : W.
Definition claims_in w : gmap string string := claims (rd_durable (se_store w)).

(** A page that succeeds, alone. *)
Lemma run_page at_ limit w w' res :
  run (store_call (X := X) (O := O) (recover_peer_claims at_ limit)) w = (w', Ok res) →
  size (claims_in w') = (size (claims_in w) - N.to_nat limit)%nat
  ∧ rv_more res = bool_decide (size (claims_in w') ≠ 0%nat).
Proof.
  cbn. destruct (recover_peer_claims at_ limit (se_store w)) as [s r] eqn:Hs. destruct r as [res'|e]; [|done].
  intros [= <- <-]. by eapply runs_run in Hs; [|apply runs_recover_page].
Qed.
Lemma recovery_steps limit w n fuel fuel' :
  (0 < limit)%N → size (claims_in w) = n → n < fuel → n < fuel' →
  run (recover_claim_pages (C := C) fuel limit) w = run (recover_claim_pages (C := C) fuel' limit) w
  ∧ ∀ w', run (recover_claim_pages (C := C) fuel limit) w = (w', Ok tt) → claims_in w' = ∅.
Proof.
  intros Hl. revert w fuel fuel'. induction n as [n IH] using lt_wf_ind. intros w [|fuel] [|fuel'] Hn Hf Hf'; try lia.
  cbn [recover_claim_pages]. rewrite !run_bind. destruct (run now w) as [w1 [at_|e]] eqn:Hnow; [|by split].
  assert (se_store w1 = se_store w) as Hw1.
  { cbn in Hnow. destruct (host_clock (se_env w)) as [x r]. by injection Hnow as <- _. }
  rewrite !run_bind. destruct (run (store_call (recover_peer_claims at_ limit)) w1) as [w2 [res|e]] eqn:Hpage; [|by split].
  apply run_page in Hpage as [Hs Hm]. unfold claims_in in Hs at 2. rewrite Hw1 in Hs. fold (claims_in w) in Hs.
  destruct (rv_more res); cbn [negb].
  - symmetry in Hm. apply bool_decide_eq_true in Hm. destruct (_ && _); [by split|].
    apply (IH (size (claims_in w2))); try done; lia.
  - split; [done|]. intros w' [= <-]. symmetry in Hm. apply bool_decide_eq_false in Hm.
    apply map_size_empty_iff. lia.
Qed.
End recovery.
