(* ===== verification/NativePaths.v ===== *)
(** * Native directory claims ([adapters/redb-store/src/native_paths.rs])

    The durable claims accepted writers hold on physical directories, and the
    component-wise path comparison of the standard library they rely on. *)
From S2P Require Import Prelude Effects Contracts Capability Blueprint Authority.
From S2P Require Import Workspace Persistence Storage StorageLaws Transactions.

(** ** Paths

    A path as its bytes. [components] of a Unix path: the root, then the parts between
    separators, without empty parts and without [.] except in front. *)
Inductive Component := RootDir | CurDir | ParentDir | Normal (name : string).
#[global] Instance Component_eq_dec : EqDecision Component.
Proof. solve_decision. Defined.

Fixpoint split_slash (s : string) : list string :=
  match s with
  | EmptyString => [EmptyString]
  | String c s =>
      if bool_decide (c = "/"%char) then EmptyString :: split_slash s
      else match split_slash s with
           | part :: parts => String c part :: parts
           | [] => [String c EmptyString]
           end
  end.
Definition part_component (part : string) : option Component :=
  if bool_decide (part = EmptyString) then None
  else if bool_decide (part = ".") then None
  else if bool_decide (part = "..") then Some ParentDir
  else Some (Normal part).
Definition is_absolute (path : string) : bool := bool_decide (String.get 0 path = Some "/"%char).
Definition path_components (path : string) : list Component :=
  let parts := split_slash path in
  (if is_absolute path then [RootDir]
   else if bool_decide (head parts = Some ".") then [CurDir] else [])
  ++ omap part_component parts.
(** [Path::starts_with] and [Path::eq] compare components. *)
Fixpoint is_prefix {A} `{EqDecision A} (prefix xs : list A) : bool :=
  match prefix, xs with
  | [], _ => true
  | p :: prefix, x :: xs => bool_decide (p = x) && is_prefix prefix xs
  | _ :: _, [] => false
  end.
Definition path_starts_with (path base : string) : bool :=
  is_prefix (path_components base) (path_components path).
Definition path_eq (a b : string) : bool := bool_decide (path_components a = path_components b).

(** ** Claims *)

Definition MAX_CLAIMS : N := 4096.
Record NativePathRoot := mkPathRoot {
  pr_requested : string;
  pr_physical : string;
  pr_identity : string;
  pr_write : bool
}.
Record NativePathClaim := mkPathClaim { pc_owner : string; pc_roots : list NativePathRoot }.
Definition root_eq (a b : NativePathRoot) : bool :=
  path_eq (pr_requested a) (pr_requested b) && path_eq (pr_physical a) (pr_physical b)
  && bool_decide (pr_identity a = pr_identity b) && Bool.eqb (pr_write a) (pr_write b).
Fixpoint roots_eq (a b : list NativePathRoot) : bool :=
  match a, b with
  | [], [] => true
  | x :: a, y :: b => root_eq x y && roots_eq a b
  | _, _ => false
  end.
Definition claim_eq (a b : NativePathClaim) : bool :=
  bool_decide (pc_owner a = pc_owner b) && roots_eq (pc_roots a) (pc_roots b).

Definition invalid_root (root : NativePathRoot) : bool :=
  negb (is_absolute (pr_physical root))
  || negb (is_absolute (pr_requested root))
  || is_empty (pr_identity root)
  || (512 <? strlen (pr_identity root))%N
  || existsb (λ c, bool_decide (c = ParentDir) || bool_decide (c = CurDir))
       (path_components (pr_physical root))
  || negb (is_utf8 (pr_physical root)) || (4096 <? strlen (pr_physical root))%N
  || negb (is_utf8 (pr_requested root)) || (4096 <? strlen (pr_requested root))%N.
Definition validate_claim (key : string) (claim : NativePathClaim) : result PersistenceError () :=
  refuse_if (bool_decide (key ≠ pc_owner claim)
             || is_empty (pc_owner claim)
             || (512 <? strlen (pc_owner claim))%N
             || has_control (pc_owner claim)
             || (vlen (pc_roots claim) =? 0)%N
             || (32 <? vlen (pc_roots claim))%N
             || existsb invalid_root (pc_roots claim))
    (PeInvalidDocument "native path claim has invalid owner, canonical roots or identities").
(** Two roots conflict when one of them is written and they are the same directory or
    one lies inside the other. *)
Definition roots_overlap (root other : NativePathRoot) : bool :=
  (pr_write root || pr_write other)
  && (bool_decide (pr_identity root = pr_identity other)
      || path_starts_with (pr_physical root) (pr_physical other)
      || path_starts_with (pr_physical other) (pr_physical root)).
Definition claims_overlap (claim existing : NativePathClaim) : bool :=
  existsb (λ root, existsb (roots_overlap root) (pc_roots existing)) (pc_roots claim).

Section claims.
Context {O : Type} `{engine : !Engine O, blake : !Blake3, codec : !Stored NativePathClaim}.
Abbreviation txn := (st (Redb O) PersistenceError).

(** The scan of the stored claims: one engine call per row. *)
Definition refuse_overlaps (claim : NativePathClaim) (rows : list (string * Bytes)) : txn () :=
  each_st (λ row : string * Bytes,
    call ;;
    existing ← lift (decode row.2 "native path claim");
    lift (validate_claim row.1 existing) ;;
    guard_if (claims_overlap claim existing)
      (PeInvalidDocument "native project paths overlap an unresolved reader or writer")) rows.
Definition claim_native_paths (claim : NativePathClaim) : txn () :=
  lift (validate_claim (pc_owner claim) claim) ;;
  bytes ← lift (encode claim "native path claim");
  begin_write ;; open_table NATIVE_PATH_CLAIMS ;;
  row ← get NATIVE_PATH_CLAIMS (pc_owner claim);
  match row with
  | Some value =>
      existing ← lift (decode value "native path claim");
      lift (validate_claim (pc_owner claim) existing) ;;
      guard_if (negb (claim_eq existing claim)) (PeImmutableConflict "native path claim" (pc_owner claim))
  | None =>
      count ← table_len NATIVE_PATH_CLAIMS;
      guard_if (MAX_CLAIMS <=? count)%N
        (PeBounds "native_path_claims" "native claim capacity is full; unresolved owners remain protected") ;;
      rows ← row_list NATIVE_PATH_CLAIMS;
      refuse_overlaps claim rows ;;
      insert_row NATIVE_PATH_CLAIMS (pc_owner claim) bytes ;;
      commit
  end.
Definition native_path_claim (owner : string) : txn (option NativePathClaim) :=
  begin_read ;; open_table NATIVE_PATH_CLAIMS ;;
  row ← get NATIVE_PATH_CLAIMS owner;
  match row with
  | None => mret None
  | Some bytes =>
      claim ← lift (decode bytes "native path claim");
      lift (validate_claim owner claim) ;;
      mret (Some claim)
  end.
Definition release_native_paths (owner : string) : txn () :=
  begin_write ;; open_table NATIVE_PATH_CLAIMS ;;
  remove_row NATIVE_PATH_CLAIMS owner ;;
  commit.

(** ** No two claims overlap *)

Context {law : StoredLaw NativePathClaim}.
Implicit Types T V : Tables.

(** Two roots may be held at once: neither is written, or they are different
    directories and neither lies inside the other. *)
Definition roots_disjoint (r r' : NativePathRoot) : Prop :=
  pr_write r = true ∨ pr_write r' = true →
  pr_identity r ≠ pr_identity r'
  ∧ ¬ path_components (pr_physical r) `prefix_of` path_components (pr_physical r')
  ∧ ¬ path_components (pr_physical r') `prefix_of` path_components (pr_physical r).
Definition claims_disjoint (c c' : NativePathClaim) : Prop :=
  ∀ r r', r ∈ pc_roots c → r' ∈ pc_roots c' → roots_disjoint r r'.
(** Every row holds a valid claim of its owner; the claims of different owners share no
    written directory. *)
Record claims_ok (claims : gmap string Bytes) : Prop := {
  cl_rows : ∀ k b, claims !! k = Some b →
    ∃ c, decode b "native path claim" = Ok c ∧ validate_claim k c = Ok tt;
  cl_disjoint : ∀ k k' b b' c c', k ≠ k' → claims !! k = Some b → claims !! k' = Some b' →
    decode b "native path claim" = Ok c → decode b' "native path claim" = Ok c' →
    claims_disjoint c c';
  cl_bound : (N.of_nat (size claims) ≤ MAX_CLAIMS)%N
}.
Definition native_claims_ok V : Prop := claims_ok (t_native_path_claims V).

Lemma is_prefix_spec (xs ys : list Component) : is_prefix xs ys = true ↔ xs `prefix_of` ys.
Proof.
  revert ys. induction xs as [|x xs IH]; intros [|y ys]; cbn.
  - split; [intros _; apply prefix_nil|done].
  - split; [intros _; apply prefix_nil|done].
  - split; [done|]. by intros ?%prefix_nil_not.
  - rewrite andb_true_iff, bool_decide_eq_true, IH. split; [intros [-> Hp]; by apply prefix_cons|].
    intros Hp. split; [by eapply prefix_cons_inv_1|by eapply prefix_cons_inv_2].
Qed.
Lemma roots_overlap_spec r r' : roots_overlap r r' = false ↔ roots_disjoint r r'.
Proof.
  unfold roots_disjoint. rewrite <-!is_prefix_spec, <-orb_true_iff.
  unfold roots_overlap, path_starts_with.
  destruct (pr_write r || pr_write r'); cbn; [|by split].
  rewrite !orb_false_iff, bool_decide_eq_false, <-!not_true_iff_false. tauto.
Qed.
Lemma claims_overlap_spec c c' : claims_overlap c c' = false ↔ claims_disjoint c c'.
Proof.
  unfold claims_overlap, claims_disjoint. rewrite <-not_true_iff_false, existsb_exists.
  setoid_rewrite existsb_exists. setoid_rewrite <-roots_overlap_spec. setoid_rewrite list_elem_of_In.
  setoid_rewrite <-not_true_iff_false. naive_solver.
Qed.
Lemma claims_disjoint_sym c c' : claims_disjoint c c' → claims_disjoint c' c.
Proof. intros H r r' Hr Hr' Hw. destruct (H r' r Hr' Hr) as (? & ? & ?); [tauto|]. split_and!; congruence. Qed.
Lemma runs_refuse_overlaps T V claim rows Q (R : Tables → Prop) :
  ((∀ row, row ∈ rows → ∃ c, decode row.2 "native path claim" = Ok c ∧ claims_disjoint claim c) →
   Q tt T V) →
  R T → runs (O := O) T V (refuse_overlaps claim rows) Q R.
Proof.
  intros HQ HR. unfold refuse_overlaps, each_st.
  eapply runs_conseq; [apply (runs_fold _ (λ before _ T' V', T' = T ∧ V' = V ∧
    ∀ row, row ∈ before → ∃ c, decode row.2 "native path claim" = Ok c ∧ claims_disjoint claim c)
    (λ T', T' = T))| |by intros T' ->].
  - split_and!; [done..|]. by intros row ?%elem_of_nil.
  - intros before row after _ T' V' _ (-> & -> & Hb). do 3 (run_step; run_step; [|done]).
    run_step; [|done]. split_and!; [done..|].
    intros x [Hx|Hx]%elem_of_app; [auto|]. apply list_elem_of_singleton in Hx as ->.
    exists a. by rewrite <-claims_overlap_spec.
  - intros [] T' V' (-> & -> & Hall). auto.
Qed.
Lemma insert_claim_ok claims claim bytes :
  claims_ok claims → validate_claim (pc_owner claim) claim = Ok tt →
  decode bytes "native path claim" = Ok claim →
  claims !! pc_owner claim = None →
  (N.of_nat (size claims) < MAX_CLAIMS)%N →
  (∀ row, row ∈ entries claims →
     ∃ c, decode row.2 "native path claim" = Ok c ∧ claims_disjoint claim c) →
  claims_ok (<[pc_owner claim := bytes]> claims).
Proof.
  intros [Hrows Hdis _] Hv Hb Hnone Hsize Hall.
  assert (∀ k b c, claims !! k = Some b → decode b "native path claim" = Ok c →
    claims_disjoint claim c) as Hnew.
  { intros k b c Hk Hc. destruct (Hall (k, b)) as (c' & Hc' & ?); [by apply elem_of_entries|].
    cbn in Hc'. by assert (c = c') as -> by congruence. }
  split.
  - intros k b [[<- <-]|[_ Hk]]%lookup_insert_Some; eauto.
  - intros k k' b b' c c' Hne [[<- <-]|[_ Hk]]%lookup_insert_Some [[<- <-]|[_ Hk']]%lookup_insert_Some Hc Hc'.
    + done.
    + assert (c = claim) as -> by congruence. eauto.
    + assert (c' = claim) as -> by congruence. apply claims_disjoint_sym. eauto.
    + by eapply (Hdis k k').
  - rewrite map_size_insert_None by done. lia.
Qed.
Lemma delete_claim_ok claims owner : claims_ok claims → claims_ok (delete owner claims).
Proof.
  intros [Hrows Hdis Hsize]. split.
  - intros k b [_ Hk]%lookup_delete_Some. eauto.
  - intros k k' b b' c c' Hne [_ Hk]%lookup_delete_Some [_ Hk']%lookup_delete_Some. by eapply Hdis.
  - rewrite map_size_delete. destruct (claims !! owner); cbn; lia.
Qed.
Lemma paths_claimed claim : sound (O := O) native_claims_ok (claim_native_paths claim).
Proof using law.
  intros T V Hok. unfold claim_native_paths. do 5 (run_step; run_step; [|done]).
  cbn [tb_rows NATIVE_PATH_CLAIMS]. destruct (t_native_path_claims T !! _) as [b|] eqn:Hb.
  - do 2 (run_step; run_step; [|done]). by run_step.
  - do 3 (run_step; run_step; [|done]). run_step. apply runs_refuse_overlaps; [intros Hall|done].
    run_step. run_step; [|done]. bool_prop. repeat match goal with u : () |- _ => destruct u end.
    rename select (encode _ _ = _) into He. apply decode_encoded in He.
    assert (claims_ok (<[pc_owner claim := a0]> (t_native_path_claims T))) by (by apply insert_claim_ok).
    by apply runs_commit.
Qed.
Lemma paths_released owner : sound (O := O) native_claims_ok (release_native_paths owner).
Proof. apply sound_keeps. unfold open_table. solve_keeps. apply keeps_inv_remove. intros V. apply delete_claim_ok. Qed.
End claims.
