(* ===== verification/ManagedLaws.v ===== *)
(** * Integrity of the managed inventory

    The installation rows, the index of accepted uses, the index of active
    installations and its count always describe one inventory, in which no resource
    has two editors: every operation of [ManagedStore] keeps it so, whatever the engine
    does. *)
From S2P Require Import Prelude Effects Contracts Capability Blueprint Authority.
From S2P Require Import Workspace Persistence Dispatch Managed Storage ManagedStore Domains TaskStore.
From S2P Require Import StorageLaws Transactions.

Section integrity.
Context {O : Type} `{engine : !Engine O, managed : !ManagedCodec,
  installation_law : !StoredLaw InstallationRecord}.
Implicit Types (T V : Tables) (r : InstallationRecord) (I : gmap string InstallationRecord).

Definition use_ids r : list string := mu_id <$> in_uses r.

(** A record no resource of which has two editors, and no use of which is a child. *)
Record record_ok r : Prop := {
  ro_valid : InstallationRecord_validate r = Ok tt;
  ro_exclusive : NoDup (in_uses r ≫= mu_editing);
  ro_parentless : ∀ u, u ∈ in_uses r → mu_parent u = None
}.
(** The tables describe the inventory [I]. *)
Record describes V I : Prop := {
  ds_rows : ∀ k, (b ← t_managed_installations V !! k; match decode_record b with Ok r => Some r | Err _ => None end)
    = I !! k;
  ds_decode : ∀ k b, t_managed_installations V !! k = Some b → ∃ r, decode_record b = Ok r;
  ds_names : ∀ k r, I !! k = Some r → in_name r = k;
  ds_active : ∀ k, t_managed_active_installations V !! k
    = (r ← I !! k; if in_removed r then None else Some 1%N);
  ds_count : t_metadata V !! MANAGED_ACTIVE_COUNT_KEY
    = Some (N.of_nat (size (t_managed_active_installations V)))
}.
Definition indexes V I : Prop :=
  ∀ id k, t_managed_uses V !! id = Some k ↔ ∃ r, I !! k = Some r ∧ id ∈ use_ids r.
Definition inventory_ok I : Prop := ∀ k r, I !! k = Some r → record_ok r.
(** The integrity of the managed tables. *)
Definition managed_ok V : Prop := ∃ I, describes V I ∧ indexes V I ∧ inventory_ok I.

Lemma decode_record_valid b r : decode_record b = Ok r → InstallationRecord_validate r = Ok tt.
Proof. unfold decode_record. intros H. inv_ok. subst. by destruct (InstallationRecord_validate _) as [[]|]. Qed.

Lemma runs_read_record T V I name Q (R : Tables → Prop) :
  describes V I → Q (I !! name) T V → R T → runs (O := O) T V (read_record name) Q R.
Proof.
  intros Hd HQ HR. unfold read_record. do 2 (run_step; run_step; [|done]).
  cbn [tb_rows MANAGED_INSTALLATIONS]. rewrite <-(ds_rows V I Hd) in HQ.
  destruct (t_managed_installations V !! name) as [b|] eqn:Hb; cbn in HQ; [|by run_step].
  destruct (ds_decode V I Hd _ _ Hb) as [r Hr]. rewrite Hr in HQ.
  run_step. run_step; [|done]. run_step. congruence.
Qed.
(** A membership update counts the rows of its index. *)
Definition set_row (active : bool) (k : string) (m : gmap string N) : gmap string N :=
  if active then <[k := 1%N]> m else delete k m.
Lemma runs_membership T V (index : Table N) count_key k active Q (R : Tables → Prop) :
  (∀ x V, tb_rows index (tb_put index x V) = x) →
  (let rows := set_row active k (tb_rows index V) in
   Q tt T (tb_put METADATA (<[count_key := N.of_nat (size rows)]> (tb_rows METADATA (tb_put index rows V)))
             (tb_put index rows V))) →
  R T → runs (O := O) T V (set_membership index count_key k active) Q R.
Proof.
  intros Hget HQ HR. unfold set_membership, capacity_count. run_step.
  do 6 (run_step; run_step; [|done]). run_step. run_step. run_step; [|done]. run_step.
  assert (∀ Q', Q' T (tb_put index (set_row active k (tb_rows index V)) V) →
    runs (O := O) T V (if active then insert_row index k 1%N else remove_row index k)
      (λ _, Q') R) as Hset by (intros Q' HQ'; destruct active; by run_step).
  apply Hset. do 3 (run_step; run_step; [|done]). run_step. by rewrite Hget.
Qed.
Lemma runs_put_record T V I r Q (R : Tables → Prop) :
  describes V I →
  (∀ V', InstallationRecord_validate r = Ok tt → t_managed_uses V' = t_managed_uses V →
     describes V' (<[in_name r := r]> I) → Q tt T V') →
  R T → runs (O := O) T V (put_record r) Q R.
Proof using installation_law.
  intros Hd HQ HR. unfold put_record.
  do 4 (run_step; run_step; [|done]). apply runs_membership; [done| |done]. cbn.
  rename select (encode _ _ = Ok _) into He. rename select (InstallationRecord_validate _ = _) into Hv.
  destruct a. apply HQ; [done..|]. apply decode_encoded in He. split; cbn.
  - intros k. destruct (decide (k = in_name r)) as [->|Hne].
    + rewrite !lookup_insert_eq. cbn. unfold decode_record. rewrite He. cbn. by rewrite Hv.
    + rewrite !lookup_insert_ne by done. apply (ds_rows V I Hd).
  - intros k b [[<- <-]|[_ Hb]]%lookup_insert_Some; [|by apply (ds_decode V I Hd _ _ Hb)].
    exists r. unfold decode_record. rewrite He. cbn. by rewrite Hv.
  - intros k r' [[<- <-]|[_ Hr]]%lookup_insert_Some; [done|]. by apply (ds_names V I Hd).
  - intros k. unfold set_row. destruct (decide (k = in_name r)) as [->|Hne].
    + rewrite lookup_insert_eq. cbn.
      destruct (in_removed r); cbn; [apply lookup_delete_eq|apply lookup_insert_eq].
    + rewrite lookup_insert_ne by done. rewrite <-(ds_active V I Hd).
      destruct (in_removed r); cbn; [by apply lookup_delete_ne|by apply lookup_insert_ne].
  - apply lookup_insert_eq.
Qed.

(** ** Frames *)

Definition managed_part V :=
  (t_managed_installations V, t_managed_active_installations V, t_managed_uses V,
   t_metadata V !! MANAGED_ACTIVE_COUNT_KEY).
Definition represents V I : Prop := describes V I ∧ indexes V I ∧ inventory_ok I.
Lemma represents_frame V V' I : managed_part V' = managed_part V → represents V I → represents V' I.
Proof.
  unfold represents, indexes. intros [= E1 E2 E3 E4] ([?????] & Hi & Hk). rewrite E3.
  split_and!; [split|..]; rewrite ?E1, ?E2, ?E4; done.
Qed.
Lemma local_prior key request authorization message :
  local (O := O) managed_part (prior_receipt key request authorization message).
Proof. unfold prior_receipt. solve_local. Qed.
Lemma local_accept reopen key request authorization response :
  local (O := O) managed_part (accept_receipt reopen key request authorization response).
Proof. unfold accept_receipt. solve_local. Qed.
Lemma local_transition name transition :
  local (O := O) managed_part (save_transition name transition).
Proof. unfold save_transition. solve_local. Qed.
Lemma local_protected current generation request authorization change :
  local (O := O) managed_part (check_protected_change current generation request authorization change).
Proof. unfold check_protected_change. solve_local. Qed.

(** ** Records that keep their uses *)

(** What the index and the editors of a record depend on. *)
Definition shape r : list (string * list ManagedName * option string) :=
  (λ u, (mu_id u, mu_editing u, mu_parent u)) <$> in_uses r.
Lemma shape_ids r : use_ids r = (λ x, x.1.1) <$> shape r.
Proof. unfold use_ids, shape. by rewrite <-list_fmap_compose. Qed.
Lemma shape_editing r : in_uses r ≫= mu_editing = shape r ≫= (λ x, x.1.2).
Proof. unfold shape. induction (in_uses r) as [|u us IH]; [done|]. cbn. by rewrite IH. Qed.
Lemma shape_ok r r' :
  shape r' = shape r → record_ok r → InstallationRecord_validate r' = Ok tt → record_ok r'.
Proof.
  intros Hs [_ He Hp] Hv. split; [done|..].
  - by rewrite shape_editing, Hs, <-shape_editing.
  - intros u Hu. assert ((mu_id u, mu_editing u, mu_parent u) ∈ shape r) as Hin
      by (rewrite <-Hs; by apply (list_elem_of_fmap_2 (λ u, (mu_id u, mu_editing u, mu_parent u)))).
    apply list_elem_of_fmap in Hin as (u' & [= _ _ ->] & Hu'). by apply Hp.
Qed.
Lemma shape_set_use r i u u' :
  in_uses r !! i = Some u → mu_id u' = mu_id u → mu_editing u' = mu_editing u →
  mu_parent u' = mu_parent u → shape (set_use r i u') = shape r.
Proof.
  intros Hu E1 E2 E3. unfold shape, set_use. cbn. rewrite list_fmap_insert, E1, E2, E3.
  apply list_insert_id. by rewrite list_lookup_fmap, Hu.
Qed.
Lemma bump_Ok r r' : bump r = Ok r' → ∃ v, r' = r <| in_version := v |>.
Proof. unfold bump. intros H. inv_ok. subst. eauto. Qed.

Lemma pend_change_Ok request change r r' :
  pend_change request change r = Ok r' → ∃ p, r' = r <| in_pending := p |>.
Proof. unfold pend_change. destruct (is_recover _); intros H; inv_ok; subst; eauto. Qed.

(** Saving a record that keeps its shape, or a first one. *)
Lemma runs_update T V I r Q (R : Tables → Prop) :
  represents V I →
  match I !! in_name r with Some old => shape r = shape old | None => in_uses r = [] end →
  (∀ V', represents V' (<[in_name r := r]> I) → Q tt T V') →
  R T → runs (O := O) T V (put_record r) Q R.
Proof using installation_law.
  intros (Hd & Hi & Hk) Hs HQ HR. eapply runs_put_record; [exact Hd| |done].
  intros V' Hv Hu Hd'. apply HQ. split_and!; [done|..].
  - intros id k. rewrite Hu, (Hi id k). destruct (decide (k = in_name r)) as [->|Hne].
    + rewrite lookup_insert_eq. split.
      * intros (old & Ho & Hid). rewrite Ho in Hs. exists r. split; [done|].
        by rewrite shape_ids, Hs, <-shape_ids.
      * intros (r' & [= <-] & Hid). destruct (I !! in_name r) as [old|].
        -- exists old. split; [done|]. by rewrite shape_ids, <-Hs, <-shape_ids.
        -- unfold use_ids in Hid. rewrite Hs in Hid. by apply elem_of_nil in Hid.
    + by rewrite lookup_insert_ne.
  - intros k r' [[<- <-]|[_ Hr]]%lookup_insert_Some; [|by eapply Hk].
    destruct (I !! in_name r) as [old|] eqn:Ho; [by eapply shape_ok; [done|eapply Hk|]|].
    split; [done|..]; rewrite Hs; [constructor|by intros u ?%elem_of_nil].
Qed.
Lemma runs_managed_commit T V Q (R : Tables → Prop) :
  Q tt V V → R V → R T → runs (O := O) T V managed_commit Q R.
Proof.
  intros HQ HV HT. unfold managed_commit. run_step. run_step; [|done].
  run_step. apply runs_commit; [|done..]. by run_step.
Qed.

(** ** Operations *)

Variable config : RedbStoreConfig.
#[local] Ltac step := run_step; try done.
#[local] Ltac frame L HV :=
  apply (runs_local managed_part); [apply L|cbv beta; intros ? ? HV|done].

Lemma begin_change_sound request authorization change :
  sound managed_ok (begin_managed_change config request authorization change).
Proof using installation_law.
  intros T V Hm. pose proof Hm as [I HI]. unfold begin_managed_change. do 6 (step; step). step.
  frame local_prior HV. destruct a3 as [prior|]; [by step|]. step.
  eapply represents_frame in HI; [|exact HV].
  eapply runs_read_record; [apply HI| |done]. step. step. step.
  apply (runs_local managed_part); [|cbv beta; intros ? V1 HV1|done].
  { destruct (I !! _); unfold capacity_count; solve_local. }
  eapply represents_frame in HI; [|exact HV1]. step. step. step. step. step.
  apply (runs_local managed_part); [|cbv beta; intros ? V2 HV2|done].
  { destruct (is_recover _); [solve_local|]. destruct (in_current _); [apply local_protected|solve_local]. }
  eapply represents_frame in HI; [|exact HV2]. step. step. step. frame local_accept HV3.
  eapply represents_frame in HI; [|exact HV3]. step.
  apply (runs_local managed_part); [|cbv beta; intros ? V4 HV4|done].
  { destruct (in_pending _); [apply local_transition|solve_local]. }
  eapply represents_frame in HI; [|exact HV4]. step.
  eapply runs_update; [exact HI| |intros V5 HV5|done].
  2: { assert (managed_ok V5) by (eexists; exact HV5). step. apply runs_managed_commit; [by step|done..]. }
  rename select (pend_change _ _ _ = _) into Hp. rename select (bump _ = _) into Hb.
  apply bump_Ok in Hb as [v ->]. apply pend_change_Ok in Hp as [p ->]. cbn.
  destruct (I !! mq_installation request) as [r|] eqn:Hr; cbn.
  - by rewrite (ds_names _ _ (proj1 HI) _ _ Hr), Hr.
  - by rewrite Hr.
Qed.

Lemma runs_locate T V I id Q (R : Tables → Prop) :
  represents V I → Q None T V →
  (∀ r i u, I !! in_name r = Some r → in_uses r !! i = Some u → mu_id u = id →
     t_managed_uses V !! id = Some (in_name r) → Q (Some (r, i)) T V) →
  R T → runs (O := O) T V (locate id) Q R.
Proof.
  intros HI HN HS HR. unfold locate. do 2 (run_step; run_step; [|done]). cbn [tb_rows MANAGED_USES].
  destruct (t_managed_uses V !! id) as [k|] eqn:Hk; [|by run_step]. run_step.
  eapply runs_read_record; [apply HI| |done]. do 2 (run_step; run_step; [|done]). run_step.
  inv_ok. unfold position in *. rename select (fst <$> _ = Some _) into Hp.
  apply fmap_Some in Hp as ([i u] & Hf & ->). apply list_find_Some in Hf as (Hi & Hid & _).
  rename select (I !! k = Some _) into Hr. pose proof (ds_names _ _ (proj1 HI) _ _ Hr) as <-. eauto.
Qed.

(** Committing a record that keeps its shape. *)
Lemma runs_resave T V I r old Q (m : st (Redb O) PersistenceError Q) :
  managed_ok T → represents V I → I !! in_name r = Some old → shape r = shape old →
  (∀ V', managed_ok V' → runs (O := O) T V' m (λ _ T' _, managed_ok T') managed_ok) →
  runs (O := O) T V (put_record r ;; m) (λ _ T' _, managed_ok T') managed_ok.
Proof using installation_law.
  intros Hm HI Hr Hs Hc. step. eapply runs_update; [exact HI|by rewrite Hr| |done].
  intros V' HV'. apply Hc. eexists. exact HV'.
Qed.
Lemma step_record_keeps r pending :
  in_name (step_record r pending) = in_name r ∧ in_uses (step_record r pending) = in_uses r.
Proof. unfold step_record. by case_match. Qed.
Lemma advance_sound installation transition expected observation :
  sound managed_ok (advance_managed_change installation transition expected observation).
Proof using installation_law.
  intros T V Hm. pose proof Hm as [I HI]. unfold advance_managed_change. do 2 (step; step). step.
  eapply runs_read_record; [apply HI| |done]. do 3 (step; step). step. frame local_transition HV.
  eapply represents_frame in HI; [|exact HV]. step. step. inv_ok.
  rename select (bump _ = _) into Hb. apply bump_Ok in Hb as [v ->].
  rename select (I !! _ = Some _) into Hr. pose proof (ds_names _ _ (proj1 HI) _ _ Hr) as Hn.
  destruct (step_record_keeps a (observe_step a0 observation)) as [E1 E2].
  eapply (runs_resave _ _ I _ a); [done|exact HI|cbn; by rewrite E1, Hn|unfold shape; cbn; by rewrite E2|].
  intros V9 HV9. step. apply runs_managed_commit; [by step|done..].
Qed.
Lemma fail_sound installation transition expected diagnostic :
  sound managed_ok (fail_managed_change installation transition expected diagnostic).
Proof using installation_law.
  intros T V Hm. pose proof Hm as [I HI]. unfold fail_managed_change. do 1 (step; step). step.
  eapply runs_read_record; [apply HI| |done]. do 3 (step; step). step. frame local_transition HV.
  eapply represents_frame in HI; [|exact HV]. step. step. inv_ok.
  rename select (bump _ = _) into Hb. apply bump_Ok in Hb as [v ->].
  rename select (I !! _ = Some _) into Hr. pose proof (ds_names _ _ (proj1 HI) _ _ Hr) as Hn.
  eapply (runs_resave _ _ I _ a); [done|exact HI|cbn; by rewrite Hn|done|]. intros V9 HV9. by apply runs_commit.
Qed.
Lemma resolution_sound request authorization : sound managed_ok (begin_resolution request authorization).
Proof using installation_law.
  intros T V Hm. pose proof Hm as [I HI]. unfold begin_resolution. do 4 (step; step).
  destruct a1 as [id claim]. do 2 (step; step). step. frame local_prior HV.
  destruct a2 as [prior|]; [by step|]. eapply represents_frame in HI; [|exact HV]. step.
  eapply runs_locate; [exact HI|by do 2 step| |done]. intros r i u Hr Hu Hid _. step. step.
  inv_ok. simplify_eq. rewrite Hu. do 6 (step; step). cbn in *. inv_ok. simplify_eq.
  step. step. step. frame local_accept HV1. eapply represents_frame in HI; [|exact HV1].
  rename select (bump _ = _) into Hb. apply bump_Ok in Hb as [v ->].
  eapply (runs_resave _ _ I _ r); [done|exact HI|done| |].
  { by eapply shape_set_use. }
  intros V9 HV9. step. apply runs_managed_commit; [by step|done..].
Qed.
Lemma enter_sound id claim physical : sound managed_ok (enter_use id claim physical).
Proof using installation_law.
  intros T V Hm. pose proof Hm as [I HI]. unfold enter_use. do 2 (step; step). step.
  eapply runs_locate; [exact HI|by do 2 step| |done]. intros r i u Hr Hu Hid _. step. step.
  inv_ok. simplify_eq. rewrite Hu. do 4 (step; step). cbn in *. inv_ok. simplify_eq.
  rename select (bump _ = _) into Hb. apply bump_Ok in Hb as [v ->].
  eapply (runs_resave _ _ I _ r); [done|exact HI|done|by eapply shape_set_use|].
  intros V9 HV9. step. by apply runs_commit; [step|..].
Qed.
Lemma quiesce_sound id claim evidence : sound managed_ok (quiesce_use id claim evidence).
Proof using installation_law.
  intros T V Hm. pose proof Hm as [I HI]. unfold quiesce_use. destruct evidence as [stopped digest at_].
  do 2 (step; step). step.
  eapply runs_locate; [exact HI|by do 2 step| |done]. intros r i u Hr Hu Hid _. step. step.
  inv_ok. simplify_eq. rewrite Hu. do 3 (step; step).
  match goal with |- runs _ _ (match ?x with _ => _ end) _ _ => destruct x as [fenced|]; [|by step] end.
  destruct (fenced && _); step; step; inv_ok; simplify_eq;
    rename select (bump _ = _) into Hb; apply bump_Ok in Hb as [v ->];
    (eapply (runs_resave _ _ I _ r); [done|exact HI|done|by eapply shape_set_use|]);
    intros V9 HV9; by apply runs_commit.
Qed.
(** Dropping one use: its row leaves the index with it. *)
Lemma use_ids_NoDup r : record_ok r → NoDup (use_ids r).
Proof.
  intros [Hv _ _]. unfold InstallationRecord_validate in Hv. inv_ok. bool_prop. done.
Qed.
(** Saving a record together with its rows of the index. *)
Lemma runs_reindex T V I r uses Q (R : Tables → Prop) :
  represents V I →
  (∀ id k, uses !! id = Some k ↔ ∃ r', <[in_name r := r]> I !! k = Some r' ∧ id ∈ use_ids r') →
  (InstallationRecord_validate r = Ok tt → record_ok r) →
  (∀ V', represents V' (<[in_name r := r]> I) → Q tt T V') → R T →
  runs (O := O) T (tb_put MANAGED_USES uses V) (put_record r) Q R.
Proof using installation_law.
  intros (Hd & Hi & Hk) Hu Hok HQ HR. eapply (runs_put_record _ _ I); [by destruct Hd| |done].
  intros V' Hv HV' Hd'. apply HQ. split_and!; [done|unfold indexes; by rewrite HV'|].
  intros k r' [[<- <-]|[_ Hr]]%lookup_insert_Some; [auto|by eapply Hk].
Qed.
Lemma delete_perm {A} (l : list A) i x : l !! i = Some x → x :: delete i l ≡ₚ l.
Proof. intros H. symmetry. by apply delete_Permutation. Qed.
Lemma drop_index V I r r' i u id k :
  represents V I → I !! in_name r = Some r → in_uses r !! i = Some u →
  in_name r' = in_name r → in_uses r' = delete i (in_uses r) →
  delete (mu_id u) (t_managed_uses V) !! id = Some k ↔
  ∃ x, <[in_name r' := r']> I !! k = Some x ∧ id ∈ use_ids x.
Proof.
  intros (_ & Hi & Hk) Hr Hu Hn Hd. rewrite Hn.
  assert (mu_id u :: use_ids r' ≡ₚ use_ids r) as Hp.
  { unfold use_ids. rewrite Hd. exact (fmap_Permutation mu_id _ _ (delete_perm _ _ _ Hu)). }
  pose proof (use_ids_NoDup _ (Hk _ _ Hr)) as Hnd. rewrite <-Hp in Hnd.
  apply NoDup_cons in Hnd as [Hnin _]. rewrite lookup_delete_Some, (Hi id k).
  assert (I !! in_name r = Some r ∧ mu_id u ∈ use_ids r) as Hown by (rewrite <-Hp; set_solver).
  assert (t_managed_uses V !! mu_id u = Some (in_name r)) as Hidx by (apply Hi; eauto).
  destruct (decide (k = in_name r)) as [->|Hne].
  - rewrite lookup_insert_eq. split.
    + intros (Hid & x & Hx & Hin). simplify_eq. rewrite <-Hp in Hin. exists r'. set_solver.
    + intros (x & [= <-] & Hin). split; [by intros <-|]. exists r. rewrite <-Hp. set_solver.
  - rewrite lookup_insert_ne by done. split; [by intros [_ ?]|]. intros Hx. split; [|done].
    intros <-. apply Hi in Hx. congruence.
Qed.
Lemma drop_ok r r' i u :
  record_ok r → in_uses r !! i = Some u → in_uses r' = delete i (in_uses r) →
  InstallationRecord_validate r' = Ok tt → record_ok r'.
Proof.
  intros [_ He Hp] Hu Hd Hv. pose proof (delete_perm _ _ _ Hu) as Hperm. rewrite <-Hd in Hperm. split; [done|..].
  - rewrite <-Hperm in He. cbn in He. by apply NoDup_app in He as (_ & _ & ?).
  - intros x Hx. apply Hp. rewrite <-Hperm. by right.
Qed.
Lemma release_sound id claim : sound managed_ok (release_use id claim).
Proof using installation_law.
  intros T V Hm. pose proof Hm as [I HI]. unfold release_use. step. step. step.
  eapply runs_locate; [exact HI|by step| |done]. intros r i u Hr Hu Hid _. step. rewrite Hu. step.
  inv_ok. simplify_eq. do 4 (step; step). rename select (bump _ = _) into Hb. apply bump_Ok in Hb as [v ->].
  step. eapply runs_reindex; [exact HI| | |intros V9 HV9|done].
  - intros id k. by eapply drop_index.
  - intros Hv. eapply drop_ok; [by apply HI in Hr|done..].
  - assert (managed_ok V9) by (eexists; exact HV9). by apply runs_commit.
Qed.

(** ** Within a task commit *)

(** A step inside a transaction keeps the integrity of the view. *)
Definition view_sound {A} (m : st (Redb O) PersistenceError A) : Prop :=
  ∀ T V, managed_ok V → runs T V m (λ _ T' V', T' = T ∧ managed_ok V') (λ T', T' = T).
Lemma represented V I : represents V I → managed_ok V.
Proof. by exists I. Qed.
#[local] Hint Resolve represented : core.

Lemma entry_sound id : view_sound (entry id).
Proof using installation_law.
  intros T V Hm. pose proof Hm as [I HI]. unfold entry. step.
  eapply runs_locate; [exact HI|by step| |done]. intros r i u Hr Hu Hid _. step. rewrite Hu. step.
  inv_ok. simplify_eq. do 2 (step; step). rename select (bump _ = _) into Hb. apply bump_Ok in Hb as [v ->].
  eapply runs_update; [exact HI| |eauto|done]. cbn. rewrite Hr. by eapply shape_set_use.
Qed.
Lemma terminal_sound id : view_sound (terminal id).
Proof using installation_law.
  intros T V Hm. pose proof Hm as [I HI]. unfold terminal. step.
  eapply runs_locate; [exact HI|by step| |done]. intros r i u Hr Hu Hid _. step. rewrite Hu. step.
  inv_ok. simplify_eq. step. destruct (_ && _).
  - do 2 (step; step). step. step. step. rename select (bump _ = _) into Hb. apply bump_Ok in Hb as [v ->].
    assert (∀ u', delete i (<[i := u']> (in_uses r)) = delete i (in_uses r)) as Hdel.
    { intros u'. rewrite !delete_take_drop, take_insert_ge, drop_insert_lt by lia. done. }
    eapply runs_reindex; [exact HI| | |eauto|done].
    + intros id k. eapply drop_index; [done..|cbn; apply Hdel].
    + intros Hv. eapply drop_ok; [by apply HI in Hr|done| |done]. cbn. apply Hdel.
  - step. step. step. rename select (bump _ = _) into Hb. apply bump_Ok in Hb as [v ->].
    eapply runs_update; [exact HI| |eauto|done]. cbn. rewrite Hr. by eapply shape_set_use.
Qed.
Lemma valid_editing r u :
  InstallationRecord_validate r = Ok tt → u ∈ in_uses r → NoDup (mu_editing u).
Proof.
  unfold InstallationRecord_validate. intros H Hu. inv_ok. rename select (for_each _ (in_uses r) = _) into Hf.
  rewrite for_each_Ok in Hf. specialize (Hf u Hu). cbv beta in Hf. inv_ok.
  rename select (ManagedUse_validate u = _) into Hv. unfold ManagedUse_validate in Hv. inv_ok.
  bool_prop. done.
Qed.
(** Accepting one more use with disjoint editing. *)
Lemma extend_index V I r r' u id k :
  represents V I → I !! in_name r = Some r → t_managed_uses V !! mu_id u = None →
  in_name r' = in_name r → in_uses r' = in_uses r ++ [u] →
  <[mu_id u := in_name r]> (t_managed_uses V) !! id = Some k ↔
  ∃ x, <[in_name r' := r']> I !! k = Some x ∧ id ∈ use_ids x.
Proof.
  intros (_ & Hi & _) Hr Hfresh Hn Hu. rewrite Hn, lookup_insert_Some, (Hi id k).
  assert (use_ids r' = use_ids r ++ [mu_id u]) as Hids by (unfold use_ids; by rewrite Hu, fmap_app).
  destruct (decide (k = in_name r)) as [->|Hne].
  - rewrite lookup_insert_eq. split.
    + intros [[<- _]|[_ (x & Hx & Hin)]]; exists r'; rewrite Hids; [set_solver|].
      simplify_eq. set_solver.
    + intros (x & [= <-] & Hin). rewrite Hids, elem_of_app, list_elem_of_singleton in Hin.
      destruct (decide (mu_id u = id)); [by left|right]. split; [done|]. naive_solver.
  - rewrite lookup_insert_ne by done. split; [naive_solver|]. intros Hx. right. split; [|done].
    intros Hid. subst id. apply Hi in Hx. congruence.
Qed.
Lemma extend_ok r r' u :
  record_ok r → in_uses r' = in_uses r ++ [u] → mu_parent u = None →
  (∀ x y, x ∈ in_uses r → y ∈ mu_editing x → y ∉ mu_editing u) →
  InstallationRecord_validate r' = Ok tt → record_ok r'.
Proof.
  intros [_ He Hp] Hu Hpar Hdis Hv. split; [done|..]; rewrite Hu.
  - rewrite bind_app. cbn. rewrite app_nil_r. apply NoDup_app. split_and!; [done|..].
    + intros y (x & Hy & Hx)%list_elem_of_bind. by eapply Hdis.
    + apply (valid_editing r'); [done|]. rewrite Hu. set_solver.
  - intros x [Hx|Hx]%elem_of_app; [by apply Hp|]. by apply list_elem_of_singleton in Hx as ->.
Qed.
Lemma acquire_sound selection execution : view_sound (acquire selection execution).
Proof using installation_law.
  intros T V Hm. pose proof Hm as [I HI]. unfold acquire. destruct (binding_extension _) as [value|]; [|by step].
  do 2 (step; step). step. eapply runs_read_record; [apply HI| |done].
  do 3 (step; step). step. apply (runs_local id); [destruct (list_find _ _) as [[]|]; solve_local| |done].
  cbv beta. intros ? V' HV'. cbn in HV'. subst V'. do 9 (step; step). inv_ok.
  rename select (bump _ = _) into Hb. apply bump_Ok in Hb as [v ->].
  rename select (I !! _ = Some _) into Hr. pose proof (ds_names _ _ (proj1 HI) _ _ Hr) as Hn.
  rewrite <-Hn in Hr. rename select (is_some _ = false) into Hfresh. cbn in Hfresh.
  rename select (existsb _ _ = false) into Hdis. set (u := mkUse _ _ _ _ _ _ _ _ _).
  change (use_id execution) with (mu_id u) in Hfresh |- *.
  eapply runs_reindex; [exact HI| | |eauto|done].
  - intros id k. eapply (extend_index _ _ a1 _ u); [done..| |done|done]. by destruct (t_managed_uses V !! _).
  - intros Hv. eapply (extend_ok a1 _ u); [by apply HI in Hr|done..| |done].
    intros x y Hx Hy Hin. pose proof (existsb_false _ _ _ Hdis Hx) as Hd1. cbv beta in Hd1.
    pose proof (existsb_false _ _ _ Hd1 Hy) as Hd2. cbv beta in Hd2. by bool_prop.
Qed.

(** ** Composition *)

Lemma keeps_view {A} (m : st (Redb O) PersistenceError A) : view_sound m → keeps_inv managed_ok m.
Proof.
  intros Hm T V HT HV. eapply runs_conseq; [by apply Hm|by intros a T' V' [-> ?]|by intros T' ->].
Qed.
Lemma managed_frame V V' : managed_part V' = managed_part V → managed_ok V → managed_ok V'.
Proof. intros HV [I HI]. exists I. by eapply represents_frame. Qed.
Lemma keeps_metadata k v : k ≠ MANAGED_ACTIVE_COUNT_KEY → keeps_inv (O := O) managed_ok (insert_row METADATA k v).
Proof.
  intros Hk. apply keeps_inv_insert. intros V. apply managed_frame. unfold managed_part. cbn.
  by rewrite lookup_insert_ne.
Qed.
Lemma keeps_pending k active :
  keeps_inv (O := O) managed_ok (set_membership MANAGED_PENDING_EVALUATIONS EVALUATION_PENDING_COUNT_KEY k active).
Proof.
  apply (keeps_inv_local _ managed_part); [apply managed_frame|]. intros T V.
  apply runs_membership; [done| |done]. split; [done|]. unfold managed_part. cbn. by rewrite lookup_insert_ne.
Qed.
End integrity.

#[export] Hint Resolve keeps_pending : keeps_inv.
Ltac solve_managed :=
  solve_keeps; try (apply (keeps_inv_local _ managed_part); [apply managed_frame|solve [solve_local]]).

Section operations.
Context {O : Type} `{engine : !Engine O, managed : !ManagedCodec,
  installation_law : !StoredLaw InstallationRecord}.
Variable config : RedbStoreConfig.

Lemma keeps_clock now : keeps_inv (O := O) managed_ok (require_clock_in_transaction now).
Proof.
  unfold require_clock_in_transaction, observe_clock_in_transaction.
  solve_managed; by apply keeps_metadata.
Qed.
Lemma keeps_resources {D} (old : option (WorkflowSnapshot D)) next :
  keeps_inv (O := O) managed_ok (apply_task_resources old next).
Proof using installation_law.
  unfold apply_task_resources, apply_fact. solve_managed; apply keeps_view;
    [apply acquire_sound|apply entry_sound|apply terminal_sound].
Qed.
Lemma begin_evaluation_sound request authorization evidence :
  sound managed_ok (O := O) (begin_evaluation config request authorization evidence).
Proof.
  do 3 (apply sound_checked; intros). apply sound_checked. intros candidate _. apply sound_guarded, sound_keeps.
  unfold prior_receipt, read_record, capacity_count, accept_receipt, managed_commit. solve_managed.
Qed.
Lemma finish_evaluation_sound evidence : sound managed_ok (O := O) (finish_evaluation evidence).
Proof.
  apply sound_checked. intros [] _. apply sound_keeps. unfold managed_commit. solve_managed.
Qed.
Lemma commit_workflow_sound {D} `{domains : !DomainCodec, tasks : !TaskCodec D} (c : WorkflowCommit D) :
  sound managed_ok (O := O) (commit_workflow config c).
Proof using installation_law.
  apply sound_keeps. unfold prior_commit, reserve_action, workflow_output_bytes, committed_owner_bytes,
    pending_owner_bytes, workspace_domain_in_transaction, require_history_capacity, validate_artifact_state,
    read_accounting, write_accounting. solve_managed; [apply keeps_clock|apply keeps_resources].
Qed.
Lemma clock_sound sample : local id sample → sound managed_ok (O := O) (observe_clock_with sample).
Proof.
  intros Hs. apply sound_keeps. unfold observe_clock_in_transaction. apply keeps_inv_bind; [by apply keeps_inv_read|].
  solve_managed; by apply keeps_metadata.
Qed.
End operations.
