(* ===== verification/TaskStoreLaws.v ===== *)
(** * Task storage implements the workflow port

    The rows of the task tables as durable facts, and the proof that the operations of
    [TaskStore] keep the promises of [WorkflowStoreContract] whatever the engine does. *)
From S2P Require Import Prelude Effects Contracts Capability Blueprint Authority.
From S2P Require Import Workspace Persistence Dispatch Managed Storage ManagedStore Domains TaskStore.
From S2P Require Import StorageLaws Transactions.

(** ** Receipt keys *)

(** A key determines the actor and the command of its receipt. *)
Lemma receipt_key_inj actor key actor' key' k :
  receipt_key actor key = Ok k → receipt_key actor' key' = Ok k → actor = actor' ∧ key = key'.
Proof.
  unfold receipt_key. intros H1 H2. inv_ok. inv_ok. subst k.
  match goal with H : show_N _ +:+ _ = _ |- _ => rename H into Heq end.
  apply no_colon_split in Heq as [Hn Heq]; [|apply show_N_no_colon..].
  unfold show_N in Hn. apply (inj pretty) in Hn. unfold strlen in Hn.
  apply append_same_length in Heq as [-> ->]; [done|lia].
Qed.

(** ** Rows as durable facts *)

Lemma NoDup_omap_fst {A K X} (f : A → option (K * X)) l :
  NoDup l → (∀ a a' k x x', a ∈ l → a' ∈ l → f a = Some (k, x) → f a' = Some (k, x') → a = a') →
  NoDup (omap f l).*1.
Proof.
  induction 1 as [|a l Ha Hl IH]; intros Hf; [constructor|]. cbn.
  assert (NoDup (omap f l).*1) as Hnd by (apply IH; intros; eapply Hf; set_solver).
  destruct (f a) as [[k x]|] eqn:Hfa; [|done]. cbn. constructor; [|done].
  intros ([k' x'] & -> & (b & Hb & Hfb)%list_elem_of_omap)%list_elem_of_fmap.
  assert (a = b) as -> by (eapply Hf; [left|by right|done..]). done.
Qed.

Section rows.
Context {D : Type} `{managed : !ManagedCodec, domains : !DomainCodec, tasks : !TaskCodec D}.
Implicit Types V : Tables.

(** Every row reads back, under the key of the fact it holds. *)
Record tables_ok V : Prop := {
  snapshot_rows : ∀ k b, t_task_workflows V !! k = Some b →
    ∃ x : WorkflowSnapshot D, decode b "task workflow" = Ok x ∧ sn_workflow x = k;
  receipt_rows : ∀ k b, t_task_receipts V !! k = Some b →
    ∃ r, decode b "task receipt" = Ok r
      ∧ receipt_key (wca_actor (wcr_acceptance r)) (wca_key (wcr_acceptance r)) = Ok k
}.
Definition receipt_entry (row : string * Bytes) : option (string * string * WorkflowCommandReceipt) :=
  r ← ok (decode row.2 "task receipt");
  Some (wca_actor (wcr_acceptance r), wca_key (wcr_acceptance r), r).
Definition tables_durable V : Durable D :=
  mkDurable (omap (λ b, ok (decode b "task workflow")) (t_task_workflows V))
    (list_to_map (omap receipt_entry (map_to_list (t_task_receipts V)))).

Lemma durable_workflow V k :
  du_workflows (tables_durable V) !! k = b ← t_task_workflows V !! k; ok (decode b "task workflow").
Proof. apply lookup_omap. Qed.
Lemma durable_receipt V actor key r :
  tables_ok V →
  du_receipts (tables_durable V) !! (actor, key) = Some r ↔
  ∃ k b, receipt_key actor key = Ok k ∧ t_task_receipts V !! k = Some b
    ∧ decode b "task receipt" = Ok r.
Proof.
  intros Hok. unfold tables_durable. cbn. rewrite <-elem_of_list_to_map; last first.
  { apply NoDup_omap_fst; [apply NoDup_map_to_list|]. intros [k b] [k' b'] ak x x'.
    rewrite !elem_of_map_to_list. unfold receipt_entry. cbn.
    intros H1 H2 (r1 & Hr1%ok_Some & [= <- <-])%bind_Some (r2 & Hr2%ok_Some & [= E1 E2 <-])%bind_Some.
    destruct (receipt_rows V Hok _ _ H1) as (y1 & Hy1 & Hk1), (receipt_rows V Hok _ _ H2) as (y2 & Hy2 & Hk2).
    cbn in *. assert (y1 = r1) as -> by congruence. assert (y2 = r2) as -> by congruence.
    rewrite E1, E2, Hk1 in Hk2. by simplify_eq. }
  rewrite list_elem_of_omap. split.
  - intros ([k b] & Hrow%elem_of_map_to_list & (r' & Hr%ok_Some & [= <- <- <-])%bind_Some).
    destruct (receipt_rows V Hok _ _ Hrow) as (y & Hy & Hk). cbn in Hr.
    assert (y = r') as -> by congruence. by exists k, b.
  - intros (k & b & Hk & Hrow & Hr). exists (k, b). rewrite elem_of_map_to_list. split; [done|].
    unfold receipt_entry. cbn. rewrite Hr. cbn.
    destruct (receipt_rows V Hok _ _ Hrow) as (y & Hy & Hk').
    assert (y = r) as -> by congruence. by destruct (receipt_key_inj _ _ _ _ _ Hk Hk') as [-> ->].
Qed.
End rows.

(** ** Frames: who writes the task tables *)

Definition task_part (V : Tables) := (t_task_workflows V, t_task_receipts V, t_task_accounting V).

Section frames.
Context {O D : Type} `{!Engine O, !ManagedCodec, !DomainCodec, !TaskCodec D}.
Abbreviation txn := (st (Redb O) PersistenceError).

Lemma local_clock (now : N) : local (O := O) task_part (require_clock_in_transaction now).
Proof. unfold require_clock_in_transaction, observe_clock_in_transaction. solve_local. Qed.
Lemma local_membership index count_key id active :
  (∀ x V, task_part (tb_put index x V) = task_part V) →
  local (O := O) task_part (set_membership index count_key id active).
Proof.
  intros Hi. unfold set_membership, capacity_count.
  solve_local; first [by apply local_insert|by apply local_remove].
Qed.
Lemma local_put_record r : local (O := O) task_part (put_record r).
Proof. unfold put_record. solve_local. by apply local_membership. Qed.
Lemma local_read_record name : local (O := O) task_part (read_record name).
Proof. unfold read_record. solve_local. Qed.
#[local] Hint Resolve local_put_record local_read_record : local.
Lemma local_locate id : local (O := O) task_part (locate id).
Proof. unfold locate. solve_local. Qed.
#[local] Hint Resolve local_locate : local.
Lemma local_acquire selection execution : local (O := O) task_part (acquire selection execution).
Proof. unfold acquire. solve_local. Qed.
Lemma local_entry id : local (O := O) task_part (entry id).
Proof. unfold entry. solve_local. Qed.
Lemma local_terminal id : local (O := O) task_part (terminal id).
Proof. unfold terminal. solve_local. Qed.
#[local] Hint Resolve local_acquire local_entry local_terminal : local.
Lemma local_resources (old : option (WorkflowSnapshot D)) next :
  local (O := O) task_part (apply_task_resources old next).
Proof. unfold apply_task_resources, apply_fact. solve_local. Qed.
Lemma local_action (c : WorkflowCommit D) old : local (O := O) task_part (reserve_action c old).
Proof. unfold reserve_action. solve_local. Qed.
Lemma local_domain owner : local (O := O) task_part (workspace_domain_in_transaction owner).
Proof. unfold workspace_domain_in_transaction. solve_local. Qed.
#[local] Hint Resolve local_domain : local.
Lemma local_output id : local (O := O) task_part (workflow_output_bytes id).
Proof. unfold workflow_output_bytes, committed_owner_bytes, pending_owner_bytes. solve_local. Qed.
Lemma local_artifact_state : local (O := O) task_part validate_artifact_state.
Proof. unfold validate_artifact_state. solve_local. Qed.
#[local] Hint Resolve local_artifact_state : local.
Lemma local_history a limit : local (O := O) task_part (require_history_capacity a limit).
Proof. unfold require_history_capacity. solve_local. Qed.
End frames.

(** ** Reads *)

Section reads.
Context {O D : Type} `{engine : !Engine O, managed : !ManagedCodec, domains : !DomainCodec,
  tasks : !TaskCodec D}.
Implicit Types T V : Tables.

Lemma decode_row_ok {A} `{!Stored A} (row : option Bytes) family (o : option A) :
  decode_row row family = Ok o → o = b ← row; ok (decode b family).
Proof. unfold decode_row. destruct row as [b|]; intros H; inv_ok; [|done]. subst. cbn. by rewrite H. Qed.

Lemma runs_workflow T V id :
  runs (O := O) T V (workflow (D := D) id)
    (λ o T' _, T' = T ∧ o = du_workflows (tables_durable T) !! id) (λ T', T' = T).
Proof.
  unfold workflow. do 3 (run_step; run_step; [|done]). run_step; [|done].
  rewrite durable_workflow. split; [done|]. by apply decode_row_ok.
Qed.
Lemma runs_workflow_receipt T V actor key :
  tables_ok (D := D) T →
  runs (O := O) T V (workflow_receipt (D := D) actor key)
    (λ o T' _, T' = T ∧ o = du_receipts (tables_durable (D := D) T) !! (actor, key)) (λ T', T' = T).
Proof.
  intros Hok. unfold workflow_receipt. do 4 (run_step; run_step; [|done]). run_step; [|done].
  split; [done|]. rename select (receipt_key _ _ = _) into Hk.
  apply option_eq. intros r. rewrite durable_receipt by done.
  rename select (decode_row _ _ = _) into Hr. apply decode_row_ok in Hr. rewrite Hr.
  rewrite bind_Some. setoid_rewrite ok_Some. cbn. split; [intros (x & ? & ?); eauto|].
  intros (k & b & Hk' & ? & ?). assert (k = a) as -> by congruence. eauto.
Qed.

(** A page takes a prefix of the rows after the cursor; without a next cursor, all. *)
Definition beyond (after : option string) (key : string) : Prop :=
  ∀ a, after = Some a → str_lt a key.
#[local] Instance beyond_dec after key : Decision (beyond after key).
Proof.
  destruct after as [a|]; [|left; by intros a [=]].
  destruct (decide (str_lt a key)) as [H|H]; [left; by intros ? [= <-]|right; naive_solver].
Qed.
Lemma not_beyond after key :
  is_some_and (λ after, bool_decide (String.le key after)) after = negb (bool_decide (beyond after key)).
Proof.
  destruct after as [a|]; cbn; [|by rewrite bool_decide_eq_true_2 by (by intros ? [=])].
  apply eq_bool_prop_intro. rewrite negb_True, !bool_decide_spec. unfold beyond, str_lt. split.
  - intros Hle H. destruct (H a eq_refl) as [Hle' Hne]. by apply Hne, (anti_symm String.le).
  - intros H. destruct (total String.le key a) as [?|Ha]; [done|].
    destruct (decide (a = key)) as [->|Hne]; [done|]. exfalso. apply H. by intros ? [= <-].
Qed.
Definition reads_as (row : string * Bytes) (x : WorkflowSnapshot D) : Prop :=
  decode row.2 "task workflow" = Ok x.
Lemma runs_page T V after limit rows : ∀ items size,
  (0 < limit)%N →
  runs (O := O) T V (page_from (D := D) after limit rows items size)
    (λ page T' _, T' = T ∧ ∃ taken rest xs,
       filter (λ row, beyond after row.1) rows = taken ++ rest ∧ Forall2 reads_as taken xs
       ∧ wp_items page = items ++ xs ∧ (wp_next page = None → rest = [])
       ∧ (∀ c, wp_next page = Some c → sn_workflow <$> last (wp_items page) = Some c))
    (λ T', T' = T).
Proof.
  induction rows as [|[key value] rows IH]; intros items size Hl; cbn [page_from].
  { run_step. split; [done|]. exists [], [], []. cbn. rewrite app_nil_r. by split_and!. }
  run_step. run_step; [|done]. rewrite not_beyond. destruct (bool_decide (beyond after key)) eqn:Hb; cbn [negb].
  all: bool_prop.
  2: { eapply runs_conseq; [by apply IH|cbv beta|done]. intros page T' V' [-> H]. split; [done|].
    rewrite filter_cons_False by done. exact H. }
  rewrite filter_cons_True by done.
  destruct (_ || _) eqn:Hfull.
  - run_step. split; [done|]. exists [], ((key, value) :: filter (λ row, beyond after row.1) rows), [].
    cbn. rewrite app_nil_r. split_and!; [done|constructor|done| |done].
    intros Hn%fmap_None. destruct items; [|by apply last_None in Hn].
    exfalso. cbn in Hfull. apply orb_true_iff in Hfull as [Hf|Hf]; [|done].
    apply N.eqb_eq in Hf. unfold vlen in Hf. cbn in Hf. lia.
  - run_step. run_step; [|done]. eapply runs_conseq; [by apply IH|cbv beta|done].
    intros page T' V' [-> (taken & rest & xs & -> & Hxs & Hi & Hn & Hs)]. split; [done|].
    eexists ((key, value) :: taken), rest, (_ :: xs). split_and!; [done|by constructor| |done..].
    rewrite Hi. by rewrite <-app_assoc.
Qed.

Lemma sorted_filter {A} (R : relation A) (f : A → bool) (P : A → Prop) `{!∀ x, Decision (P x)} l :
  StronglySorted R l → StronglySorted R (filter P (List.filter f l)).
Proof.
  induction 1 as [|a l Hl IH Ha]; cbn; [constructor|].
  destruct (f a); [|done]. rewrite filter_cons. case_decide; [|done]. constructor; [done|].
  rewrite Forall_forall in *. intros x [_ Hx]%list_elem_of_filter. apply Ha.
  by apply list_elem_of_In, filter_In in Hx as [?%list_elem_of_In _].
Qed.
Lemma entries_strict {X} (m : gmap string X) : StronglySorted (λ a b, str_lt a.1 b.1) (entries m).
Proof.
  pose proof (entries_sorted m) as Hs. pose proof (NoDup_keys m) as Hnd. unfold keys in Hnd.
  induction Hs as [|a l Hl IH Ha]; [constructor|]. apply NoDup_cons in Hnd as [Hnin Hnd].
  constructor; [auto|]. rewrite Forall_forall in *. intros b Hb. split; [by apply Ha|].
  intros Heq. apply Hnin. rewrite Heq. by apply list_elem_of_fmap_2.
Qed.
Lemma empty_le s : String.le EmptyString s.
Proof. by destruct s. Qed.
Lemma Forall2_elem_l {A B} (P : A → B → Prop) xs ys x :
  Forall2 P xs ys → x ∈ xs → ∃ y, y ∈ ys ∧ P x y.
Proof.
  intros Hf [i Hi]%list_elem_of_lookup. destruct (Forall2_lookup_l _ _ _ _ _ Hf Hi) as (y & Hy & ?).
  exists y. split; [by eapply list_elem_of_lookup_2|done].
Qed.
Lemma Forall2_elem_r {A B} (P : A → B → Prop) xs ys y :
  Forall2 P xs ys → y ∈ ys → ∃ x, x ∈ xs ∧ P x y.
Proof. intros Hf Hy. apply Forall2_flip in Hf. by apply (Forall2_elem_l _ _ _ _ Hf). Qed.
Lemma sorted_Forall2 {A B} (R : relation A) (S : relation B) (P : A → B → Prop) xs ys :
  (∀ a a' b b', P a b → P a' b' → R a a' → S b b') →
  Forall2 P xs ys → StronglySorted R xs → StronglySorted S ys.
Proof.
  intros HS. induction 1 as [|a b xs ys Hab Hxs IH]; [constructor|].
  intros [Hs Ha]%StronglySorted_inv. constructor; [auto|]. rewrite Forall_forall in *.
  intros y Hy. destruct (Forall2_elem_r _ _ _ _ Hxs Hy) as (x & Hx & Hp).
  rewrite Forall_forall in Ha. eapply HS; [exact Hab|exact Hp|by apply Ha].
Qed.

(** The rows after a cursor, in key order. *)
Definition rows_after T (after : option string) : list (string * Bytes) :=
  filter (λ row, beyond after row.1)
    (List.filter (λ kv, bool_decide (String.le (default EmptyString after) kv.1))
       (entries (t_task_workflows T))).
Lemma elem_of_rows_after T after k b :
  (k, b) ∈ rows_after T after ↔ t_task_workflows T !! k = Some b ∧ beyond after k.
Proof.
  unfold rows_after. rewrite list_elem_of_filter, list_elem_of_In, filter_In, <-list_elem_of_In,
    elem_of_entries. cbn. rewrite bool_decide_eq_true. split; [naive_solver|]. intros [? Hb].
  split_and!; [done..|]. destruct after as [a|]; [apply (Hb a eq_refl)|apply empty_le].
Qed.
(** The snapshot a row after the cursor holds. *)
Definition row_of T after (row : string * Bytes) (x : WorkflowSnapshot D) : Prop :=
  du_workflows (tables_durable T) !! row.1 = Some x ∧ sn_workflow x = row.1 ∧ beyond after row.1.
Lemma rows_of T after taken rest xs :
  tables_ok (D := D) T → rows_after T after = taken ++ rest → Forall2 reads_as taken xs →
  Forall2 (row_of T after) taken xs.
Proof.
  intros Hok Hrows Hxs. apply Forall2_same_length_lookup_2; [by eapply Forall2_length|].
  intros i [k b] x Hk Hx. pose proof (Forall2_lookup_lr _ _ _ _ _ _ Hxs Hk Hx) as Hr.
  assert ((k, b) ∈ rows_after T after) as [Hrow Hb]%elem_of_rows_after.
  { rewrite Hrows. apply list_elem_of_lookup_2 in Hk. set_solver. }
  destruct (snapshot_rows _ Hok _ _ Hrow) as (y & Hy & Hyk). unfold reads_as in Hr. cbn in Hr.
  assert (y = x) as -> by congruence. split; [|by split]. rewrite durable_workflow. cbn.
  rewrite Hrow. cbn. by rewrite Hr.
Qed.

Lemma runs_workflows T V after limit :
  tables_ok (D := D) T →
  runs (O := O) T V (workflows (D := D) after limit)
    (λ page T' _, T' = T ∧ page_of (tables_durable T) after page) (λ T', T' = T).
Proof.
  intros Hok. unfold workflows. run_step. run_step; [|done]. bool_prop. run_step.
  apply (runs_local id); [destruct after; solve_local| |done]. intros _ V' _.
  do 3 (run_step; run_step; [|done]). eapply runs_conseq; [apply runs_page; lia| |done].
  cbv beta. intros page T' V'' [-> (taken & rest & xs & Hrows & Hxs & Hi & Hn & Hs)].
  split; [done|]. cbn in Hi. subst xs. change (rows_after T after = taken ++ rest) in Hrows.
  pose proof (rows_of _ _ _ _ _ Hok Hrows Hxs) as Hf. split.
  - intros x Hx. destruct (Forall2_elem_r _ _ _ _ Hf Hx) as (row & _ & Hr & -> & _). done.
  - eapply sorted_Forall2; [|exact Hf|].
    + cbn. intros a a' b b' (_ & -> & _) (_ & -> & _). exact id.
    + apply (StronglySorted_app_1_l _ _ rest). rewrite <-Hrows. apply sorted_filter, entries_strict.
  - intros x a Hx ->. destruct (Forall2_elem_r _ _ _ _ Hf Hx) as (row & _ & _ & -> & Hb). by apply Hb.
  - intros c Hc. apply Hs, fmap_Some in Hc as (x & Hx & ->). eauto.
  - intros Hnone id x Hx Hb. pose proof Hx as Hx'. rewrite durable_workflow in Hx'.
    apply bind_Some in Hx' as (b & Hk & _).
    assert ((id, b) ∈ rows_after T after) as Hin by (by apply elem_of_rows_after).
    rewrite Hrows, (Hn Hnone), app_nil_r in Hin.
    destruct (Forall2_elem_l _ _ _ _ Hf Hin) as (y & Hy & Hr & _). cbn [fst] in Hr. rewrite Hx in Hr. by injection Hr as ->.
Qed.
End reads.

(** ** The commit *)

Section commit.
Context {O D : Type} `{engine : !Engine O, managed : !ManagedCodec, domains : !DomainCodec,
  tasks : !TaskCodec D}.
Variable config : RedbStoreConfig.
Implicit Types T V : Tables.
Implicit Types c : WorkflowCommit D.

(** The key of the commit's receipt. *)
Definition commit_key c : result PersistenceError (option string) :=
  match cm_command c with
  | Some command => Some <$> receipt_key (wca_actor command) (wca_key command)
  | None => Ok None
  end.
Definition with_receipt (key : option string) (bytes : option Bytes) (rows : gmap string Bytes) :=
  match key, bytes with Some key, Some bytes => <[key := bytes]> rows | _, _ => rows end.
(** What a commit that took effect checked, and the rows it wrote. *)
Inductive applied c T T' : Prop :=
| applied_intro key old bytes receipt_bytes usage a a' ab physical :
    commit_key c = Ok key →
    (∀ k, key = Some k → t_task_receipts T !! k = None) →
    validate c = Ok tt →
    decode_row (t_task_workflows T !! sn_workflow (cm_snapshot c)) "task workflow" = Ok old →
    sn_generation <$> old = cm_expected_generation c →
    is_some_and (λ old, bool_decide (sn_owner_actor old ≠ sn_owner_actor (cm_snapshot c))) old = false →
    is_some_and (λ old, existsb (λ i,
        negb (bool_decide (i ∈ sn_entered_invocations (cm_snapshot c)))) (sn_entered_invocations old)) old
      = false →
    encode (cm_snapshot c) "task workflow" = Ok bytes →
    encode_receipt (receipt_of c) = Ok receipt_bytes →
    decode_row (t_task_accounting T !! "global") "task accounting" = Ok (Some a) →
    ac_receipt_entries a = N.of_nat (size (t_task_receipts T)) →
    charge a (t_task_workflows T !! sn_workflow (cm_snapshot c)) old (cm_snapshot c) bytes
      receipt_bytes usage = Ok a' →
    (ac_history_bytes a' + ac_reserved_bytes a' + ac_artifact_reserved_bytes a'
       + ac_pending_artifact_bytes a' + physical ≤ wsl_history_bytes (cf_workflow_limits config))%N →
    (ac_receipt_bytes a' + ac_reserved_receipts a' * ACTION_RECEIPT_BYTES
       ≤ wsl_receipt_bytes (cf_workflow_limits config))%N →
    (ac_receipt_entries a' + ac_reserved_receipts a'
       ≤ wsl_receipt_entries (cf_workflow_limits config))%N →
    encode a' "task accounting" = Ok ab →
    task_part T' = (<[sn_workflow (cm_snapshot c) := bytes]> (t_task_workflows T),
      with_receipt key receipt_bytes (t_task_receipts T),
      <["global" := ab]> (t_task_accounting T)) →
    applied c T T'.

(** What the commit answers: the earlier receipt of the same request, or its own. *)
Definition answered c T (outcome : WorkflowCommitOutcome) T' : Prop :=
  match outcome with
  | CommitApplied receipt => applied c T T' ∧ receipt = receipt_of c
  | CommitReplay receipt => T' = T ∧ ∃ command k b, cm_command c = Some command
      ∧ receipt_key (wca_actor command) (wca_key command) = Ok k
      ∧ t_task_receipts T !! k = Some b ∧ decode b "task receipt" = Ok receipt
      ∧ wca_canonical_request (wcr_acceptance receipt) = wca_canonical_request command
  end.

Lemma runs_prior T V c key Q (R : Tables → Prop) :
  commit_key c = Ok key → task_part V = task_part T →
  ((∀ k, key = Some k → t_task_receipts T !! k = None) → Q None T V) →
  (∀ receipt, answered c T (CommitReplay receipt) T → Q (Some receipt) T V) →
  R T → runs (O := O) T V (prior_commit (cm_command c) key) Q R.
Proof.
  intros Hkey [= _ Hrows _] HN HS HR. unfold prior_commit. run_step. run_step; [|done].
  destruct key as [k|]; [|run_step; by apply HN].
  unfold commit_key in Hkey. destruct (cm_command c) as [command|] eqn:Hc; [|done]. inv_ok. simplify_eq.
  run_step. run_step; [|done]. cbn. rewrite Hrows.
  destruct (t_task_receipts T !! _) as [b|] eqn:Hb; [|run_step; apply HN; by intros ? [= <-]].
  do 3 (run_step; run_step; [|done]). run_step. inv_ok. bool_prop. subst. apply HS.
  split; [done|]. rename select (¬ _ ≠ _) into Heq. apply dec_stable in Heq.
  do 3 eexists. split_and!; done.
Qed.
Lemma runs_accounting T V Q (R : Tables → Prop) :
  (∀ a, decode_row (t_task_accounting V !! "global") "task accounting" = Ok (Some a) → Q a T V) →
  R T → runs (O := O) T V (read_accounting (D := D)) Q R.
Proof.
  intros HQ HR. unfold read_accounting. do 2 (run_step; run_step; [|done]). run_step; [|done].
  inv_ok. subst. auto.
Qed.
Lemma runs_history T V a limit Q (R : Tables → Prop) :
  (∀ physical, (ac_history_bytes a + ac_reserved_bytes a + ac_artifact_reserved_bytes a
     + ac_pending_artifact_bytes a + physical ≤ limit)%N → Q tt T V) →
  R T → runs (O := O) T V (require_history_capacity a limit) Q R.
Proof.
  intros HQ HR. unfold require_history_capacity. run_step.
  apply (runs_local id); [unfold validate_artifact_state; solve_local| |done].
  cbn. intros physical V' ->. run_step. run_step; [|done]. run_step; [|done]. bool_prop.
  eapply (HQ (aa_committed_content_bytes physical)). cbn in *. unfold add in *. inv_ok.
  repeat match goal with H : checked_add _ _ = Some _ |- _ => apply checked_add_Some in H end.
  unfold saturating_sub in *. lia.
Qed.
Lemma runs_receipt T V key b Q (R : Tables → Prop) :
  Q tt T (V <| t_task_receipts := with_receipt key b (t_task_receipts V) |>) → R T →
  runs (O := O) T V
    match key, b with
    | Some key, Some bytes => insert_row TASK_RECEIPTS key bytes ;; mret tt
    | _, _ => mret tt
    end Q R.
Proof.
  intros HQ HR. destruct key as [k|], b as [b|]; cbn in *.
  1: run_step; run_step; [|done]; by run_step.
  all: run_step; destruct V; exact HQ.
Qed.
Lemma runs_write_accounting T V a Q (R : Tables → Prop) :
  (∀ b, encode a "task accounting" = Ok b →
     Q tt T (V <| t_task_accounting := <["global" := b]> (t_task_accounting V) |>)) →
  R T → runs (O := O) T V (write_accounting (D := D) a) Q R.
Proof. intros HQ HR. unfold write_accounting. do 2 (run_step; run_step; [|done]). run_step. by apply HQ. Qed.

#[local] Ltac step := run_step; try by left.
#[local] Ltac frame L := apply (runs_local task_part); [apply L|cbv beta; intros ? ? ?|by left].
Lemma runs_commit_workflow T V c :
  runs (O := O) T V (commit_workflow config c)
    (λ outcome T' _, answered c T outcome T') (λ T', T' = T ∨ applied c T T').
Proof.
  unfold commit_workflow. do 2 (step; step). change (commit_key c = Ok a) in H. step.
  apply (runs_prior _ _ _ _ _ _ H eq_refl); [intros Hfresh|intros r Hr; step; exact Hr|by left].
  do 2 (step; step). step. frame local_clock. do 6 (step; step).
  step. frame (local_action (O := O) (D := D)). step. step. step.
  frame (local_resources (O := O) (D := D)). step. step. step. frame (local_output (O := O)).
  step. step. step. apply runs_accounting; [intros acc Hacc|by left].
  do 4 (step; step). step. apply runs_history; [intros physical Hphysical|by left].
  do 5 (step; step). step. apply runs_receipt; [|by left]. step.
  apply runs_write_accounting; [intros ab Hab|by left].
  match goal with |- runs T ?F _ _ _ => assert (applied c T F) as Happ end.
  { assert (task_part V'2 = task_part T) as [= E1 E2 E3] by congruence.
    assert (task_part V' = task_part T) as [= E1' _ _] by congruence.
    unfold add in *. inv_ok. bool_prop. cbn [tb_rows TASK_WORKFLOWS TASK_RECEIPTS] in *.
    rewrite E1' in *. rewrite E1, E2, E3 in *. repeat match goal with u : () |- _ => destruct u end.
    eapply (applied_intro _ _ _ a a2 a4 a6 a7 acc a8 ab physical); try done; [by apply dec_stable|lia|lia|].
    unfold task_part. cbn. by rewrite E2, E3. }
  step. step. step. apply runs_commit; [|by right|by left].
  run_step. run_step; [|by right]. run_step. by split.
Qed.
End commit.

(** ** The contract *)

Section contract.
Context {O D : Type} `{engine : !Engine O, managed : !ManagedCodec, domains : !DomainCodec,
  tasks : !TaskCodec D, snapshot_law : !StoredLaw (WorkflowSnapshot D),
  receipt_law : !StoredLaw WorkflowCommandReceipt}.
Variable config : RedbStoreConfig.
Implicit Types T : Tables.
Implicit Types c : WorkflowCommit D.

Lemma surjective_durable (d : Durable D) : d = mkDurable (du_workflows d) (du_receipts d).
Proof. by destruct d. Qed.
Lemma validate_generation c :
  validate c = Ok tt → sn_generation (cm_snapshot c) = (default 0 (cm_expected_generation c) + 1)%N.
Proof. unfold validate. intros H. inv_ok. bool_prop. by subst. Qed.
Lemma encode_receipt_of c receipt_bytes :
  encode_receipt (receipt_of c) = Ok receipt_bytes →
  match receipt_of c with
  | Some r => ∃ b, receipt_bytes = Some b ∧ decode b "task receipt" = Ok r
  | None => receipt_bytes = None
  end.
Proof using receipt_law.
  destruct (receipt_of c) as [r|]; cbn; intros H; inv_ok; [|done].
  eexists. split; [done|]. by apply decode_encoded.
Qed.

Lemma applied_admissible c T T' :
  tables_ok (D := D) T → applied config c T T' → commit_admissible (tables_durable T) c.
Proof.
  intros Hok [key old ??????? Hkey Hfresh Hvalid Hold Hgen Howner Hentered _ _ _ _ _ _ _ _ _ _].
  apply decode_row_ok in Hold. rewrite <-durable_workflow in Hold. subst old. split; [done|..].
  - by apply validate_generation.
  - intros o Ho. rewrite Ho in Howner. cbn in Howner. bool_prop. by apply dec_stable.
  - intros o i Ho Hi. rewrite Ho in Hentered. cbn in Hentered.
    pose proof (existsb_false _ _ _ Hentered Hi) as Hin. cbv beta in Hin. by bool_prop.
  - intros command Hc. apply eq_None_not_Some. intros [r Hr].
    apply durable_receipt in Hr as (k & b & Hk & Hb & _); [|done].
    unfold commit_key in Hkey. rewrite Hc, Hk in Hkey. cbn in Hkey. injection Hkey as <-.
    by rewrite Hfresh in Hb.
Qed.

(** The receipt row of a commit. *)
Lemma applied_receipts c T T' :
  applied config c T T' →
  match receipt_of c with
  | None => t_task_receipts T' = t_task_receipts T
  | Some r => ∃ k b, receipt_key (wca_actor (wcr_acceptance r)) (wca_key (wcr_acceptance r)) = Ok k
      ∧ t_task_receipts T !! k = None ∧ decode b "task receipt" = Ok r
      ∧ t_task_receipts T' = <[k := b]> (t_task_receipts T)
  end.
Proof using receipt_law.
  intros [key old bytes rb ????? Hkey Hfresh _ _ _ _ _ _ Hrb _ _ _ _ _ _ _ [= _ Hr _]].
  apply encode_receipt_of in Hrb. unfold commit_key in Hkey. unfold receipt_of in *. rewrite Hr.
  destruct (cm_command c) as [command|]; cbn in *; inv_ok; subst; [|done].
  destruct Hrb as (b & -> & Hb). eexists _, b. eauto.
Qed.
(** The rows of the commit are its facts. *)
Lemma applied_ok c T T' : tables_ok (D := D) T → applied config c T T' → tables_ok (D := D) T'.
Proof using snapshot_law receipt_law.
  intros Hok Happ. pose proof (applied_receipts _ _ _ Happ) as Hrec.
  destruct Happ as [key old bytes rb ????? _ _ _ _ _ _ _ Hbytes _ _ _ _ _ _ _ _ [= Hw _ _]]. split.
  - intros k b. rewrite Hw. intros [[<- <-]|[_ Hb]]%lookup_insert_Some; [|by apply (snapshot_rows T Hok)].
    eexists. split; [by apply decode_encoded|done].
  - intros k b. destruct (receipt_of c) as [r|]; [|rewrite Hrec; by apply (receipt_rows T Hok)].
    destruct Hrec as (k' & b' & Hk & _ & Hb & ->).
    intros [[<- <-]|[_ Hrow]]%lookup_insert_Some; [eauto|by apply (receipt_rows T Hok)].
Qed.
Lemma applied_durable c T T' :
  tables_ok (D := D) T → applied config c T T' →
  tables_durable T' = durable_commit (tables_durable T) c.
Proof using snapshot_law receipt_law.
  intros Hok Happ. pose proof (applied_ok _ _ _ Hok Happ) as Hok'.
  pose proof (applied_receipts _ _ _ Happ) as Hrec.
  destruct Happ as [key old bytes rb ????? _ _ _ _ _ _ _ Hbytes _ _ _ _ _ _ _ _ [= Hw _ _]].
  unfold durable_commit. rewrite (surjective_durable (tables_durable T')). f_equal.
  - cbn. rewrite Hw, omap_insert. by rewrite (decode_encoded _ _ _ Hbytes).
  - apply map_eq. intros [actor key']. apply option_eq. intros r'.
    rewrite durable_receipt by done. destruct (receipt_of c) as [r|].
    2: by rewrite durable_receipt, Hrec.
    destruct Hrec as (k & b & Hk & Hfresh & Hb & ->). rewrite lookup_insert_Some, durable_receipt by done.
    split.
    + intros (k' & b' & Hk' & [[<- <-]|[Hne Hrow]]%lookup_insert_Some & Hb').
      * left. destruct (receipt_key_inj _ _ _ _ _ Hk Hk') as [-> ->]. split; [done|congruence].
      * right. split; [intros [= <- <-]; congruence|eauto].
    + intros [[[= <- <-] <-]|[_ (k' & b' & Hk' & Hrow & Hb')]].
      * exists k, b. by rewrite lookup_insert_eq.
      * exists k', b'. rewrite lookup_insert_ne; [done|]. by intros <-; rewrite Hrow in Hfresh.
Qed.

(** The adapter as the workflow port of the runtime. *)
Definition redb_port : WorkflowStore (Redb O) D := {|
  store_workflow := λ s id, workflow id s;
  store_workflows := λ s after limit, workflows after limit s;
  store_receipt := λ s actor key, workflow_receipt (D := D) actor key s;
  store_commit := λ s c, commit_workflow config c s
|}.
Definition port_ok (s : Redb O) : Prop := tables_ok (D := D) (rd_durable s).
Definition port_durable (s : Redb O) : Durable D := tables_durable (rd_durable s).

(** C4: The database adapter implements the workflow port: whatever the engine, its
    clock and its fault hook do, reads answer with the durable facts, and a commit
    takes effect completely or not at all, only when admissible, at most once per
    command key, and with an error hiding nothing but that one commit. *)
Theorem redb_implements_port :
  ∃ contract : @WorkflowStoreContract (Redb O) D redb_port,
    @store_ok _ _ _ contract = port_ok ∧ @durable _ _ _ contract = port_durable.
Proof using snapshot_law receipt_law.
  unshelve eexists {| store_ok := port_ok; durable := port_durable |}; [..|done]; unfold port_ok, port_durable.
  - intros s id x Hok. rewrite durable_workflow. intros (b & Hb & Hx%ok_Some)%bind_Some.
    destruct (snapshot_rows _ Hok _ _ Hb) as (y & Hy & <-). congruence.
  - intros s id s' r Hok Hs. apply (runs_run _ _ _ _ _ _ (runs_workflow _ _ _)) in Hs.
    destruct r as [o|e]; [destruct Hs as [-> ->]|rewrite Hs]; naive_solver.
  - intros s after limit s' r Hok Hs. apply (runs_run _ _ _ _ _ _ (runs_workflows _ _ _ _ Hok)) in Hs.
    destruct r as [o|e]; [destruct Hs as [-> ?]|rewrite Hs]; naive_solver.
  - intros s actor key s' r Hok Hs.
    apply (runs_run _ _ _ _ _ _ (runs_workflow_receipt _ _ _ _ Hok)) in Hs.
    destruct r as [o|e]; [destruct Hs as [-> ->]|rewrite Hs]; naive_solver.
  - intros s c s' r Hok Hs. apply (runs_run _ _ _ _ _ _ (runs_commit_workflow config _ _ _)) in Hs.
    destruct r as [[receipt|receipt]|e]; cbn in Hs.
    + destruct Hs as [Happ ->]. split; [by eapply applied_ok|].
      split_and!; [by eapply applied_admissible|by eapply applied_durable|done].
    + destruct Hs as [-> (command & k & b & Hc & Hk & Hb & Hd & Hreq)]. split_and!; [done..|].
      exists command. split_and!; [done| |done]. apply durable_receipt; [done|eauto].
    + destruct Hs as [->|Happ]; [by split; [|left]|]. split; [by eapply applied_ok|right].
      split; [by eapply applied_admissible|by eapply applied_durable].
Qed.

(** ** Accounting *)

Context {accounting_law : StoredLaw Accounting}.

(** The accounting document totals the rows it accounts for. *)
Definition accounting_exact T : Prop :=
  ∃ b a, t_task_accounting T !! "global" = Some b ∧ decode b "task accounting" = Ok a
    ∧ ac_history_bytes a = total_of strlen (t_task_workflows T)
    ∧ ac_receipt_bytes a = total_of strlen (t_task_receipts T)
    ∧ ac_receipt_entries a = N.of_nat (size (t_task_receipts T))
    ∧ ac_reserved_bytes a = total_of (@sn_reserved_bytes D) (du_workflows (tables_durable T))
    ∧ ac_reserved_receipts a = total_of (@sn_reserved_receipts D) (du_workflows (tables_durable T)).

Lemma replace_total {K A} `{Countable K} (f : A → N) (m : gmap K A) k v n old :
  f <$> m !! k = old → replace (total_of f m) (default 0%N old) (f v) = Ok n →
  n = total_of f (<[k := v]> m).
Proof.
  unfold replace, add. intros <- Hr. inv_ok. bool_prop. subst. pose proof (total_insert f m k v).
  unfold saturating_sub in *. lia.
Qed.
Lemma charged_receipts c T T' key rb n m :
  commit_key c = Ok key → encode_receipt (receipt_of c) = Ok rb →
  (∀ k, key = Some k → t_task_receipts T !! k = None) →
  t_task_receipts T' = with_receipt key rb (t_task_receipts T) →
  add (total_of strlen (t_task_receipts T)) (default 0%N (strlen <$> rb)) = Ok n →
  add (N.of_nat (size (t_task_receipts T))) (if is_some rb then 1 else 0)%N = Ok m →
  n = total_of strlen (t_task_receipts T') ∧ m = N.of_nat (size (t_task_receipts T')).
Proof.
  unfold commit_key, receipt_of, add. intros Hkey Hrb Hfresh -> Hn Hm.
  destruct (cm_command c) as [command|]; cbn in *; inv_ok; bool_prop; subst; cbn in *; [|split; lia].
  rewrite total_new, map_size_insert_None by auto. split; lia.
Qed.
Lemma applied_accounting c T T' :
  tables_ok (D := D) T → accounting_exact T → applied config c T T' → accounting_exact T'.
Proof using snapshot_law receipt_law accounting_law.
  intros Hok (b & a0 & Hb & Ha0 & Hh & Hr & He & Hrb & Hrr) Happ.
  pose proof (applied_durable _ _ _ Hok Happ) as Hd.
  destruct Happ as [key old bytes rb usage a a' ab ph Hkey Hfresh _ Hold _ _ _ Hbytes Henc Hacc _ Hcharge
    _ _ _ Hab [= Hw Hrec Ha]].
  rewrite Hb in Hacc. apply decode_row_ok in Hacc. cbn in Hacc. rewrite Ha0 in Hacc. injection Hacc as ->.
  apply decode_row_ok in Hold. rewrite <-durable_workflow in Hold. subst old.
  unfold charge in Hcharge. inv_ok. subst a'. exists ab. eexists. rewrite Ha, lookup_insert_eq.
  split; [done|]. split; [by apply decode_encoded|].
  cbn [ac_history_bytes ac_receipt_bytes ac_receipt_entries ac_reserved_bytes ac_reserved_receipts].
  rewrite Hd, Hw. cbn [du_workflows durable_commit]. split_and!.
  - eapply replace_total; [done|]. by rewrite <-Hh.
  - eapply (charged_receipts c T T' key rb); rewrite <-?Hr, <-?He; done.
  - eapply (charged_receipts c T T' key rb); rewrite <-?Hr, <-?He; done.
  - eapply replace_total; [done|]. by rewrite <-Hrb.
  - eapply replace_total; [done|]. by rewrite <-Hrr.
Qed.
(** The retained rows and the capacity reserved for accepted work fit the limits. *)
Definition within_limits T : Prop :=
  let limits := cf_workflow_limits config in
  let workflows := du_workflows (tables_durable T) in
  (total_of strlen (t_task_workflows T) + total_of (@sn_reserved_bytes D) workflows
     ≤ wsl_history_bytes limits
   ∧ total_of strlen (t_task_receipts T) + ACTION_RECEIPT_BYTES * total_of (@sn_reserved_receipts D) workflows
     ≤ wsl_receipt_bytes limits
   ∧ N.of_nat (size (t_task_receipts T)) + total_of (@sn_reserved_receipts D) workflows
     ≤ wsl_receipt_entries limits)%N.
Lemma applied_limits c T T' : applied config c T T' → accounting_exact T' → within_limits T'.
Proof using snapshot_law receipt_law accounting_law.
  intros [key old bytes rb usage a a' ab ph _ _ _ _ _ _ _ _ _ _ _ _ H1 H2 H3 Hab [= _ _ Ha]].
  intros (b & a0 & Hb & Ha0 & Hh & Hr & He & Hrb & Hrr). rewrite Ha, lookup_insert_eq in Hb.
  injection Hb as <-. rewrite (decode_encoded _ _ _ Hab) in Ha0. injection Ha0 as <-.
  unfold within_limits. rewrite <-Hh, <-Hr, <-He, <-Hrb, <-Hrr. lia.
Qed.

End contract.
