(* ===== verification/Reachability.v ===== *)
(** What every history of calls on the redb store keeps.  A step is one call of the store's
    interface, whatever it returns: it may have committed, failed, or committed and failed
    afterwards.  The invariants of the components are carried through all of them. *)
From stdpp Require Import base gmap sets list strings option.
From S2P Require Import Prelude Effects Contracts Capability Authority Model Persistence Managed Storage ManagedStore Domains TaskStore.
From S2P Require Import PeerProtocol PeerStore.
From S2P Require Import StorageLaws Transactions PeerState PeerLaws PeerCalls NativePaths ManagedLaws TaskStoreLaws.
Open Scope string_scope.

Section reachability.
Context {O : Type} `{engine : !Engine O, managed : !ManagedCodec,
  installation_law : !StoredLaw InstallationRecord,
  paths : !Stored NativePathClaim, paths_law : !StoredLaw NativePathClaim}.
Context {D : Type} `{domains : !DomainCodec, tasks : !TaskCodec D}.
Context `{peers : !PeerCodec, peers_law : !PeerCodecLaw}.
Variable config : RedbStoreConfig.

(** The calls of the store that write. *)
Inductive store_step (s s' : Redb O) : Prop :=
| step_clock observed r : observe_clock observed s = (s', r) → store_step s s'
| step_sample r : sample_clock s = (s', r) → store_step s s'
| step_change request authorization change r :
    begin_managed_change config request authorization change s = (s', r) → store_step s s'
| step_advance installation transition expected observation r :
    advance_managed_change installation transition expected observation s = (s', r) → store_step s s'
| step_fail installation transition expected diagnostic r :
    fail_managed_change installation transition expected diagnostic s = (s', r) → store_step s s'
| step_resolution request authorization r :
    begin_resolution request authorization s = (s', r) → store_step s s'
| step_enter id claim physical r : enter_use id claim physical s = (s', r) → store_step s s'
| step_quiesce id claim evidence r : quiesce_use id claim evidence s = (s', r) → store_step s s'
| step_release id claim r : release_use id claim s = (s', r) → store_step s s'
| step_begin_evaluation request authorization evidence r :
    begin_evaluation config request authorization evidence s = (s', r) → store_step s s'
| step_finish_evaluation evidence r : finish_evaluation evidence s = (s', r) → store_step s s'
| step_commit (c : WorkflowCommit D) r : commit_workflow config c s = (s', r) → store_step s s'
| step_claim_paths claim r : claim_native_paths claim s = (s', r) → store_step s s'
| step_release_paths owner r : release_native_paths owner s = (s', r) → store_step s s'
| step_peer : peer_step s s' → store_step s s'.

(** A property of the durable tables that every call keeps. *)
Record every_call (P : Tables → Prop) : Prop := {
  ec_clock now : sound (O := O) P (observe_clock now);
  ec_sample : sound (O := O) P sample_clock;
  ec_change q a c : sound (O := O) P (begin_managed_change config q a c);
  ec_advance i t e b : sound (O := O) P (advance_managed_change i t e b);
  ec_fail i t e d : sound (O := O) P (fail_managed_change i t e d);
  ec_resolution q a : sound (O := O) P (begin_resolution q a);
  ec_enter i c p : sound (O := O) P (enter_use i c p);
  ec_quiesce i c e : sound (O := O) P (quiesce_use i c e);
  ec_release i c : sound (O := O) P (release_use i c);
  ec_begin q a e : sound (O := O) P (begin_evaluation config q a e);
  ec_finish e : sound (O := O) P (finish_evaluation e);
  ec_commit (c : WorkflowCommit D) : sound (O := O) P (commit_workflow config c);
  ec_claim c : sound (O := O) P (claim_native_paths c);
  ec_unclaim o : sound (O := O) P (release_native_paths o);
  ec_peer : peer_calls (O := O) P
}.
Lemma every_call_reachable P s s' :
  every_call P → P (rd_durable s) → rtc store_step s s' → P (rd_durable s').
Proof.
  intros [] HP Hs. induction Hs as [|s s1 s' Hstep _ IH]; [done|]. apply IH. clear IH.
  destruct Hstep; try (by eapply ec_peer0); (eapply sound_run; [| |eassumption]); auto.
Qed.

(** ** The managed inventory *)

Lemma every_call_managed : every_call managed_ok.
Proof using installation_law.
  split; intros.
  - unfold observe_clock. apply sound_then; [apply clock_sound; solve_local|solve_local].
  - apply clock_sound. solve_local.
  - apply begin_change_sound.
  - apply advance_sound.
  - apply fail_sound.
  - apply resolution_sound.
  - apply enter_sound.
  - apply quiesce_sound.
  - apply release_sound.
  - apply begin_evaluation_sound.
  - apply finish_evaluation_sound.
  - apply commit_workflow_sound.
  - unfold claim_native_paths, refuse_overlaps, each_st, open_table. solve_sound; solve_managed.
  - unfold release_native_paths. solve_sound; solve_managed.
  - apply peer_calls_outside; intros; [|apply keeps_view; auto using acquire_sound, entry_sound, terminal_sound..].
    eapply managed_frame; [|done]. by apply (f_equal managed_part) in H.
Qed.

(** ** Invariants of the clock and of the native paths *)

Section beside.
Context (P : Tables → Prop).
Definition beside_part (V : Tables) := (t_metadata V, t_native_path_claims V, t_peers V).
Hypothesis Hframe : ∀ V V', beside_part V' = beside_part V → P V → P V'.
Hypothesis Hclock : ∀ now, keeps_inv (O := O) P (observe_clock_in_transaction now).
Hypothesis Hactive : ∀ id b,
  keeps_inv (O := O) P (set_membership MANAGED_ACTIVE_INSTALLATIONS MANAGED_ACTIVE_COUNT_KEY id b).
Hypothesis Hpending : ∀ id b,
  keeps_inv (O := O) P (set_membership MANAGED_PENDING_EVALUATIONS EVALUATION_PENDING_COUNT_KEY id b).
#[local] Hint Resolve Hclock Hactive Hpending : keeps_inv.
#[local] Ltac solve_beside :=
  solve_sound; try (apply (keeps_inv_local _ beside_part); [exact Hframe|solve [solve_local]]).

Lemma put_record_beside r : keeps_inv (O := O) P (put_record r).
Proof. unfold put_record. solve_beside. Qed.
#[local] Hint Resolve put_record_beside : keeps_inv.
Lemma save_transition_beside name t : keeps_inv (O := O) P (save_transition name t).
Proof. unfold save_transition. solve_beside. Qed.
Lemma managed_commit_beside : keeps_inv (O := O) P managed_commit.
Proof. unfold managed_commit. solve_beside. Qed.
Lemma read_record_beside name : keeps_inv (O := O) P (read_record name).
Proof. unfold read_record. solve_beside. Qed.
#[local] Hint Resolve read_record_beside : keeps_inv.
Lemma locate_beside id : keeps_inv (O := O) P (locate id).
Proof. unfold locate. solve_beside. Qed.
Lemma prior_beside key request authorization message :
  keeps_inv (O := O) P (prior_receipt key request authorization message).
Proof. unfold prior_receipt. solve_beside. Qed.
Lemma accept_beside reopen key request authorization response :
  keeps_inv (O := O) P (accept_receipt reopen key request authorization response).
Proof. unfold accept_receipt. solve_beside. Qed.
Lemma protected_beside current generation request authorization change :
  keeps_inv (O := O) P (check_protected_change current generation request authorization change).
Proof. unfold check_protected_change. solve_beside. Qed.
#[local] Hint Resolve save_transition_beside managed_commit_beside locate_beside
  prior_beside accept_beside protected_beside : keeps_inv.
Lemma acquire_beside selection execution : keeps_inv (O := O) P (acquire selection execution).
Proof. unfold acquire. solve_beside. Qed.
Lemma entry_beside id : keeps_inv (O := O) P (entry id).
Proof. unfold entry. solve_beside. Qed.
Lemma terminal_beside id : keeps_inv (O := O) P (terminal id).
Proof. unfold terminal. solve_beside. Qed.
#[local] Hint Resolve acquire_beside entry_beside terminal_beside : keeps_inv.
(** Serving calls write the serving tables and the managed ones. *)
Lemma peers_beside : (∀ V V', outside V' = outside V → P V → P V') → peer_calls (O := O) P.
Proof. intros Hout. apply peer_calls_outside; [exact Hout|..]; auto using acquire_beside, entry_beside, terminal_beside. Qed.
Lemma resources_beside (old : option (WorkflowSnapshot D)) next :
  keeps_inv (O := O) P (apply_task_resources old next).
Proof. unfold apply_task_resources, apply_fact. solve_beside. Qed.
#[local] Hint Resolve resources_beside : keeps_inv.

Lemma capacity_beside index key : keeps_inv (O := O) P (capacity_count index key).
Proof. unfold capacity_count. solve_beside. Qed.
#[local] Hint Resolve capacity_beside : keeps_inv.

Lemma every_call_beside :
  (∀ claim, sound (O := O) P (claim_native_paths claim)) →
  (∀ owner, sound (O := O) P (release_native_paths owner)) → peer_calls (O := O) P → every_call P.
Proof.
  intros Hclaim Hrelease Hpeer.
  split; [..|exact Hclaim|exact Hrelease|exact Hpeer]; intros.
  - unfold observe_clock. apply sound_then; [|solve_local]. unfold observe_clock_with. solve_beside.
  - unfold sample_clock, observe_clock_with. solve_beside.
  - unfold begin_managed_change. solve_beside.
  - unfold advance_managed_change. solve_beside.
  - unfold fail_managed_change. solve_beside.
  - unfold begin_resolution. solve_beside.
  - unfold enter_use. solve_beside.
  - unfold quiesce_use. solve_beside.
  - unfold release_use. solve_beside.
  - unfold begin_evaluation. solve_beside.
  - unfold finish_evaluation. solve_beside.
  - unfold commit_workflow, prior_commit, reserve_action, workflow_output_bytes, committed_owner_bytes,
    pending_owner_bytes, workspace_domain_in_transaction, require_history_capacity, validate_artifact_state,
    read_accounting, write_accounting, require_clock_in_transaction. solve_beside.
Qed.
End beside.

(** An invariant of the native paths or of the clock alone. *)
Lemma every_call_claims : every_call native_claims_ok.
Proof using paths_law.
  assert (∀ V V', (t_native_path_claims V' = t_native_path_claims V) → native_claims_ok V → native_claims_ok V') as Hpart
    by (unfold native_claims_ok; by intros V V' ->).
  assert (∀ V V', beside_part V' = beside_part V → native_claims_ok V → native_claims_ok V') as Hframe
    by (intros V V' [= _ ? _]; by apply Hpart).
  assert (∀ now, keeps_inv (O := O) native_claims_ok (observe_clock_in_transaction now)) as Hclock
    by (intros; unfold observe_clock_in_transaction; solve_keeps).
  assert (∀ index key id b, index = MANAGED_ACTIVE_INSTALLATIONS ∨ index = MANAGED_PENDING_EVALUATIONS →
    keeps_inv (O := O) native_claims_ok (set_membership index key id b)) as Hset
    by (intros index key id b [-> | ->]; unfold set_membership, capacity_count; solve_keeps).
  apply every_call_beside; auto using paths_claimed, paths_released.
  apply peers_beside; auto. intros V V' HV. apply Hpart. by apply (f_equal t_native_path_claims) in HV.
Qed.

(** The durable watermark is at least [n]. *)
Definition clock_at_least (n : N) (V : Tables) : Prop :=
  ∃ w, t_metadata V !! CLOCK_WATERMARK_UNIX_MS_KEY = Some w ∧ (n ≤ w)%N.

Lemma clock_other n k v :
  k ≠ CLOCK_WATERMARK_UNIX_MS_KEY → keeps_inv (O := O) (clock_at_least n) (insert_row METADATA k v).
Proof. intros Hk. apply keeps_inv_insert. intros V (w & Hw & ?). exists w. cbn. by rewrite lookup_insert_ne. Qed.
Lemma clock_advances n now : keeps_inv (O := O) (clock_at_least n) (observe_clock_in_transaction now).
Proof.
  intros T V HT (w & Hw & Hn). unfold observe_clock_in_transaction. do 4 (run_step; try done).
  cbn [tb_rows METADATA]. rewrite Hw. repeat case_match; bool_prop; try (run_step; split; [done|by exists w]).
  run_step. run_step; [|done]. run_step. split; [done|]. exists now. cbn. rewrite lookup_insert_eq. split; [done|lia].
Qed.
Lemma every_call_clock n : every_call (clock_at_least n).
Proof.
  assert (∀ V V', t_metadata V' = t_metadata V → clock_at_least n V → clock_at_least n V') as Hpart
    by (unfold clock_at_least; by intros V V' ->).
  assert (∀ V V', beside_part V' = beside_part V → clock_at_least n V → clock_at_least n V') as Hframe
    by (intros V V' [= ? _ _]; by apply Hpart).
  assert (∀ index key id b, key ≠ CLOCK_WATERMARK_UNIX_MS_KEY →
    index = MANAGED_ACTIVE_INSTALLATIONS ∨ index = MANAGED_PENDING_EVALUATIONS →
    keeps_inv (O := O) (clock_at_least n) (set_membership index key id b)) as Hset
    by (intros index key id b Hk [-> | ->]; unfold set_membership, capacity_count; solve_keeps; by apply clock_other).
  apply every_call_beside; auto using clock_advances.
  - intros. unfold claim_native_paths, refuse_overlaps, each_st. solve_sound.
  - intros. unfold release_native_paths. solve_sound.
  - apply peers_beside; auto using clock_advances. intros V V' HV. apply Hpart. by apply (f_equal t_metadata) in HV.
Qed.
(** The serving state is an invariant of the serving tables. *)
Lemma every_call_grown S0 : every_call (grown S0).
Proof using peers_law.
  assert (∀ V V', t_peers V' = t_peers V → grown S0 V → grown S0 V') as Hpart
    by (unfold grown; by intros V V' ->).
  assert (∀ V V', beside_part V' = beside_part V → grown S0 V → grown S0 V') as Hframe
    by (intros V V' [= _ _ ?]; by apply Hpart).
  assert (∀ A (m : st (Redb O) PersistenceError A), local t_peers m → keeps_inv (grown S0) m) as Hlocal
    by (intros A m; by apply keeps_inv_local).
  apply every_call_beside; auto using peer_calls_grown.
  - intros. apply Hlocal. unfold observe_clock_in_transaction. solve_local.
  - intros. apply Hlocal. by apply peers_membership.
  - intros. apply Hlocal. by apply peers_membership.
  - intros. unfold claim_native_paths, refuse_overlaps, each_st. solve_sound; apply Hlocal; solve_local.
  - intros. unfold release_native_paths. solve_sound; apply Hlocal; solve_local.
Qed.

(** C10: whatever calls the store has served, and whichever of them failed halfway, the
    installation rows, the index of accepted uses, the index of active installations and its
    count describe one inventory in which every record is valid, no use is held twice and no
    resource has two editors. *)
Theorem managed_integrity s s' :
  managed_ok (rd_durable s) → rtc store_step s s' → managed_ok (rd_durable s').
Proof using installation_law. apply every_call_reachable, every_call_managed. Qed.

(** C12: whatever calls the store has served, the claims on native paths stay within their bound,
    each row holds a valid claim of its owner, and no two owners hold roots that overlap with
    one of them writing. *)
Theorem native_claims_disjoint s s' :
  native_claims_ok (rd_durable s) → rtc store_step s s' → native_claims_ok (rd_durable s').
Proof using paths_law. apply every_call_reachable, every_call_claims. Qed.


Lemma grown_after s s' S G :
  serves (t_peers (rd_durable s)) S G → rtc store_step s s' →
  ∃ S' G', serves (t_peers (rd_durable s')) S' G' ∧ evolves S S'.
Proof using peers_law.
  intros HS. apply (every_call_reachable (grown S)); [apply every_call_grown|]. by exists S, G.
Qed.
(** C5: whatever calls the store has served, the rows of the serving executions, their
    locations, their request, dispatch, claim and retention indexes, their chained
    histories, the counters and the configuration describe one set of executions. *)
Theorem serving_integrity s s' :
  serving_ok (rd_durable s) → rtc store_step s s' → serving_ok (rd_durable s').
Proof using peers_law.
  intros (S & G & HS) Hs. destruct (grown_after s s' S G HS Hs) as (S' & G' & ? & _). by exists S', G'.
Qed.
(** C8: a serving execution is never forgotten and only evolves: its identity, request and
    accepted authority stay, it is entered at most once and by one entry, its outcome
    becomes definite once, its history only grows under its digest, its cancellation stays
    as first requested and answered, and its tombstone keeps what its last record said. *)
Theorem serving_evolves s s' S G :
  serves (t_peers (rd_durable s)) S G → rtc store_step s s' →
  ∃ S' G', serves (t_peers (rd_durable s')) S' G' ∧ evolves S S'.
Proof using peers_law. apply grown_after. Qed.
(** C7: a request identity that was accepted is answered with its one execution ever after,
    hot or archived: as a replay when the request is the same, as a conflict otherwise.
    Nothing is accepted a second time, and nothing is written. *)
Theorem request_accepted_once s s' s'' S G e snapshot admission outcome :
  serves (t_peers (rd_durable s)) S G → S !! e = Some snapshot →
  ps_caller snapshot = ad_caller admission → ps_request_id snapshot = sq_request_id (ad_request admission) →
  rtc store_step s s' → admit_peer_execution admission s' = (s'', Ok outcome) →
  rd_durable s'' = rd_durable s'
  ∧ ∃ later, ps_execution later = e ∧ snapshot_evolves snapshot later ∧ outcome = known_answer later admission.
Proof using peers_law.
  intros HS He Hc Hq Hs Ha. destruct (grown_after s s' S G HS Hs) as (S' & G' & HS' & Hev).
  destruct (Hev _ _ He) as (later & Hl & Hle).
  assert (ps_caller later = ps_caller snapshot ∧ ps_request_id later = ps_request_id snapshot) as [Hc' Hq']
    by by apply snapshot_evolves_request.
  eapply runs_run in Ha; [|eapply runs_admit_known; [exact HS'|exact Hl|congruence..]]. cbn in Ha.
  destruct Ha as [-> ->]. split; [done|]. exists later. split; [|done].
  apply (ro_snapshots _ _ (sv_rows _ _ _ HS') _ _ Hl).
Qed.
(** C6: an execution is entered at most once: after an entry is durable, or the execution is
    over, no later call on the store, whatever else it served in between, lets a worker
    enter it again. *)
Theorem serving_entered_once s s' s'' S G snapshot request outcome :
  serves (t_peers (rd_durable s)) S G → S !! nq_execution request = Some snapshot → entered snapshot →
  rtc store_step s s' → mark_peer_entered request s' = (s'', outcome) →
  ∃ error, outcome = Err error ∧ rd_durable s'' = rd_durable s'.
Proof using peers_law.
  intros HS He Hent Hs Ha. destruct (grown_after s s' S G HS Hs) as (S' & G' & HS' & Hev).
  destruct (Hev _ _ He) as (later & Hl & Hle).
  eapply runs_run in Ha; [|eapply runs_enter_known; [exact HS'|exact Hl|by eapply entered_evolves]].
  destruct outcome as [o|error]; [done|]. by exists error.
Qed.
End reachability.
