(* ===== verification/ServingSystem.v ===== *)
(** * The serving host over time

    The workers and the calls of a serving host interleave step by step, other parts of
    the daemon use the same store, the environment moves, workers panic and are stopped,
    and the process restarts at any moment on what was durable. *)
From S2P Require Import Prelude Effects Contracts Capability Blueprint Authority.
From S2P Require Import Model Workspace Persistence Dispatch Managed PeerProtocol Storage ManagedStore PeerStore.
From S2P Require Import Domains TaskStore StorageLaws Transactions PeerState PeerLaws PeerCalls NativePaths.
From S2P Require Import ManagedLaws TaskStoreLaws Reachability Serving ServingLaws.

Section system.
Context {X C O : Type} `{engine : !Engine O, managed : !ManagedCodec, peers : !PeerCodec, peers_law : !PeerCodecLaw}.
Context `{paths : !Stored NativePathClaim}.
Context {D : Type} `{domains : !DomainCodec, tasks : !TaskCodec D}.
Context `{host : !ServingHost X C, texts : !HostCodec}.
Variable store_config : RedbStoreConfig.
Variable config : PeerServerConfig.
Abbreviation W := (Service X O).
Abbreviation T := (thread W ServingError).
Implicit Types (S : serving) (L : option PeerExecutionId) (w : W).

(** The threads of a host: one call being served, or a worker within one of its turns. *)
Inductive process :=
| Calling (t : T ())
| Working (worker : WorkerId) (t : T (option PeerWorkerRecovery * bool)).
Definition discard {A} (t : T A) : T () := t ≫= λ _, mret tt.
(** The calls on a serving host that write. *)
Inductive ServingCall :=
| CallAccept (request : ServingInvocationRequest) (decision : AuthorityDecisionSnapshot) (generation : N)
| CallCancelOwned (caller : ServingCaller) (request : PeerCancellationRequest) (before : PeerExecutionSnapshot)
| CallDrain
| CallStop
| CallRecover (fuel : nat) (maximum : N)
| CallRetention.
Definition call_thread (call : ServingCall) : T () :=
  match call with
  | CallAccept request decision generation => discard (accept_serving config request decision generation)
  | CallCancelOwned caller request before => discard (cancel_owned caller request before)
  | CallDrain => begin_drain
  | CallStop => begin_shutdown
  | CallRecover fuel maximum => recover config fuel maximum
  | CallRetention => discard (maintain_retention config)
  end.
(** The workers a process starts with. *)
Definition worker_name (index : N) : WorkerId := "peer-worker-" +:+ show_N index.
Definition start_workers : list process :=
  (λ index, let worker := worker_name (N.of_nat index) in Working worker (worker_turn config worker None))
    <$> seq 0 (N.to_nat (wk_threads (ps_workers config))).

Record Host := mkHost { ho_service : W; ho_processes : list process }.
Inductive hstep : Host → Host → Prop :=
| host_call w ps call : hstep (mkHost w ps) (mkHost w (ps ++ [Calling (call_thread call)]))
| host_step w w' ps i section t :
    ps !! i = Some (Calling (TStep section)) → section w = (w', t) →
    hstep (mkHost w ps) (mkHost w' (<[i := Calling t]> ps))
| host_work w w' ps i worker section t :
    ps !! i = Some (Working worker (TStep section)) → section w = (w', t) →
    hstep (mkHost w ps) (mkHost w' (<[i := Working worker t]> ps))
| host_turn w ps i worker pending go :
    ps !! i = Some (Working worker (TDone (Ok (pending, go)))) →
    hstep (mkHost w ps) (mkHost w (<[i := Working worker (worker_turn config worker pending)]> ps))
| host_stop w ps i worker pending :
    ps !! i = Some (Working worker (TDone (Ok (pending, false)))) →
    hstep (mkHost w ps) (mkHost w (<[i := Calling (worker_stop worker pending)]> ps))
| host_panic w ps i worker t record :
    ps !! i = Some (Working worker t) →
    hstep (mkHost w ps) (mkHost w (<[i := Working worker
      (worker_turn config worker (Some (recovery_inspect record UnWorkerPanicked)))]> ps))
| host_environment w ps x : hstep (mkHost w ps) (mkHost (w <| se_env := x |>) ps)
| host_store w ps s : store_step (D := D) store_config (se_store w) s →
    hstep (mkHost w ps) (mkHost (w <| se_store := s |>) ps)
| host_restart w ps s x :
    rd_durable s = rd_durable (se_store w) →
    hstep (mkHost w ps) (mkHost (mkService s 3 x (se_starts w)) start_workers).

(** A host whose process just started on a consistent store. *)
Definition host_starts (y : Host) : Prop :=
  serving_ok (rd_durable (se_store (ho_service y))) ∧ se_starts (ho_service y) = [] ∧ ho_processes y = start_workers.

(** ** The invariant *)

Definition process_holds (p : process) L : Prop :=
  match p with
  | Calling t => conducts L t (λ _ _, True)
  | Working worker t => conducts L t (λ _ _, True)
  end.
(** The executions whose adapter was started, or may be by the thread holding the right. *)
Definition pledged (Ls : list (option PeerExecutionId)) w : list PeerExecutionId :=
  app (omap id Ls) (se_starts w).
(** They are all different, all entered, and none of them is in [K], which take no entry. *)
Record host_ok (K : PeerExecutionId → Prop) (y : Host) S (Ls : list (option PeerExecutionId)) : Prop := {
  hk_executions : executions (ho_service y) S;
  hk_processes : Forall2 process_holds (ho_processes y) Ls;
  hk_distinct : NoDup (pledged Ls (ho_service y));
  hk_entered : ∀ e, e ∈ pledged Ls (ho_service y) → entered_in S e;
  hk_never : ∀ e, K e → closed_in S e ∧ e ∉ pledged Ls (ho_service y)
}.

Lemma pledged_at Ls i L L' w w' :
  Ls !! i = Some L → se_starts w' = se_starts w →
  ∃ rest, pledged Ls w ≡ₚ app (option_list L) rest ∧ pledged (<[i := L']> Ls) w' ≡ₚ app (option_list L') rest.
Proof.
  intros HL Hs. unfold pledged. rewrite Hs. exists (app (omap id (delete i Ls)) (se_starts w)).
  assert (i < length Ls)%nat as Hi by by eapply lookup_lt_Some.
  assert (delete i (<[i := L']> Ls) = delete i Ls) as Hd.
  { clear -Hi. revert i Hi. induction Ls as [|x Ls IH]; intros [|i] Hi; cbn in *; try lia; f_equal; auto with lia. }
  rewrite !app_assoc.
  split; f_equiv.
  - etrans; [apply omap_Permutation, (delete_Permutation Ls i L HL)|]. by destruct L.
  - etrans; [apply omap_Permutation, (delete_Permutation _ i L'); by apply list_lookup_insert_eq|].
    rewrite Hd. by destruct L'.
Qed.
Lemma holds_insert ps Ls i p L : Forall2 process_holds ps Ls → process_holds p L →
  Forall2 process_holds (<[i := p]> ps) (<[i := L]> Ls).
Proof. intros. by apply Forall2_insert. Qed.
(** One step of a thread. *)
Lemma host_moves K w w' ps S S' Ls i L L' p :
  host_ok K (mkHost w ps) S Ls → Ls !! i = Some L → executions w' S' → evolves S S' →
  moves S S' (se_starts w) (se_starts w') L L' → process_holds p L' →
  host_ok K (mkHost w' (<[i := p]> ps)) S' (<[i := L']> Ls).
Proof.
  intros [Hex Hps Hnd Hent Hnev] HL Hex' Hev Hm Hp. cbn in *.
  assert (∀ e, K e → closed_in S' e) as Hcl by (intros e He; eapply closed_in_evolves; [by apply Hnev|done]).
  assert (∀ e, entered_in S e → entered_in S' e) as Hen by (intros; by eapply entered_in_evolves).
  destruct Hm as [Hs ->|e Hs -> Hopen He|e -> Hs ->].
  - destruct (pledged_at Ls i L L w w' HL Hs) as (rest & H1 & H2). rewrite <-H1 in H2.
    split; cbn; [done|by apply holds_insert|by rewrite H2|..]; intros e; rewrite H2; naive_solver.
  - destruct (pledged_at Ls i L (Some e) w w' HL Hs) as (rest & H1 & H2). cbn in H2. rewrite H1 in *.
    assert (e ∉ app (option_list L) rest) as Hne.
    { intros Hin. apply Hopen, entered_closed, Hent. by rewrite H1. }
    split; cbn; [done|by apply holds_insert|rewrite H2|..].
    + apply NoDup_app in Hnd as (_ & _ & ?). constructor; [|done]. set_solver.
    + intros e'. rewrite H2. intros [->|Hin]%elem_of_cons; [done|]. apply Hen, Hent. rewrite H1. set_solver.
    + intros e' HK. destruct (Hnev e' HK) as [Hc Hni]. split; [by apply Hcl|]. rewrite H1 in Hni. rewrite H2.
      intros [->|Hin]%elem_of_cons; [done|]. set_solver.
  - destruct (pledged_at Ls i (Some e) None w w HL eq_refl) as (rest & H1 & H2). cbn in *.
    assert (pledged (<[i := None]> Ls) w' ≡ₚ pledged Ls w) as H3.
    { rewrite H1, <-H2. unfold pledged. rewrite Hs. by rewrite Permutation_middle. }
    split; cbn; [done|by apply holds_insert|by rewrite H3|..]; intros e'; rewrite H3; naive_solver.
Qed.
(** Steps that start no adapter and commit no entry. *)
Lemma host_keeps K w w' ps ps' S S' Ls Ls' :
  host_ok K (mkHost w ps) S Ls → executions w' S' → evolves S S' → pledged Ls' w' ⊆+ pledged Ls w →
  Forall2 process_holds ps' Ls' → host_ok K (mkHost w' ps') S' Ls'.
Proof.
  intros [Hex Hps Hnd Hent Hnev] Hex' Hev Hsub Hps'. cbn in *.
  assert (∀ e, e ∈ pledged Ls' w' → e ∈ pledged Ls w) as Hin by (intros e He; by eapply elem_of_submseteq).
  apply submseteq_Permutation in Hsub as [rest Hp]. rewrite Hp in Hnd. apply NoDup_app in Hnd as (Hnd & _).
  split; cbn; [done|done|done|..].
  - intros e He. eapply entered_in_evolves; [by apply Hent, Hin|done].
  - intros e He. destruct (Hnev e He). split; [by eapply closed_in_evolves|auto].
Qed.
Lemma steady_holds (t : T ()) L : steady t → process_holds (Calling t) L.
Proof. intros Ht. by apply steady_proper. Qed.
Lemma call_steady call : steady (call_thread call).
Proof.
  assert (∀ A (t : T A), steady t → steady (discard t)) as Hd
    by (intros; apply steady_bind; [done|intros; apply steady_done]).
  destruct call; cbn [call_thread]; try apply Hd.
  - apply steady_accept.
  - apply steady_cancel.
  - apply steady_begin_drain.
  - apply steady_begin_shutdown.
  - apply steady_recover.
  - apply steady_retention.
Qed.
Lemma start_holds : Forall2 process_holds start_workers (replicate (length start_workers) None).
Proof.
  apply Forall2_replicate_r; [done|]. apply Forall_fmap, Forall_forall. intros i _. apply proper_turn.
Qed.
Lemma pledged_replicate n w : pledged (replicate n None) w = se_starts w.
Proof. unfold pledged. by induction n. Qed.
Lemma held_at ps Ls i p : Forall2 process_holds ps Ls → ps !! i = Some p → ∃ L, Ls !! i = Some L ∧ process_holds p L.
Proof. intros H Hp. by eapply Forall2_lookup_l in Hp as (L & ? & ?); [|done]; exists L. Qed.
(** A thread is replaced by another with the rights it held. *)
Lemma host_replaces K w ps S Ls i p p' :
  host_ok K (mkHost w ps) S Ls → ps !! i = Some p → (∀ L, process_holds p L → process_holds p' L) →
  ∃ Ls', host_ok K (mkHost w (<[i := p']> ps)) S Ls'.
Proof.
  intros Hok Hi Hp. destruct (held_at _ _ _ _ (hk_processes _ _ _ _ Hok) Hi) as (L & HL & Hh).
  exists (<[i := L]> Ls). eapply host_moves; [done..|apply Hok|done|by apply moves_keep|auto].
Qed.
Lemma host_ok_step K y y' S Ls :
  hstep y y' → host_ok K y S Ls → ∃ S' Ls', host_ok K y' S' Ls' ∧ evolves S S'.
Proof.
  intros Hs Hok. pose proof (hk_executions _ _ _ _ Hok) as Hex. pose proof (hk_processes _ _ _ _ Hok) as Hps.
  destruct Hs as [w ps call|w w' ps i section t Hi Hw|w w' ps i worker section t Hi Hw|w ps i worker pending go Hi
    |w ps i worker pending Hi|w ps i worker t record Hi|w ps x|w ps s Hs|w ps s x Hd]; cbn in *.
  - exists S, (app Ls [None]). split; [|done]. eapply host_keeps; [done|done|done| |].
    + unfold pledged. by rewrite omap_app, app_nil_r.
    + apply Forall2_app; [done|]. constructor; [|done]. apply steady_holds, call_steady.
  - destruct (held_at _ _ _ _ Hps Hi) as (L & HL & Hh). specialize (Hh w S Hex). rewrite Hw in Hh.
    destruct Hh as (S' & L' & ? & ? & ? & ?). exists S', (<[i := L']> Ls). split; [|done]. by eapply host_moves.
  - destruct (held_at _ _ _ _ Hps Hi) as (L & HL & Hh). specialize (Hh w S Hex). rewrite Hw in Hh.
    destruct Hh as (S' & L' & ? & ? & ? & ?). exists S', (<[i := L']> Ls). split; [|done]. by eapply host_moves.
  - destruct (host_replaces K w ps S Ls i _ (Working worker (worker_turn config worker pending)) Hok Hi) as [Ls' ?];
      [intros L _; apply proper_turn|by exists S, Ls'].
  - destruct (host_replaces K w ps S Ls i _ (Calling (worker_stop worker pending)) Hok Hi) as [Ls' ?];
      [intros L _; apply steady_holds, steady_stop|by exists S, Ls'].
  - destruct (host_replaces K w ps S Ls i _ (Working worker (worker_turn config worker
      (Some (recovery_inspect record UnWorkerPanicked)))) Hok Hi) as [Ls' ?];
      [intros L _; apply proper_turn|by exists S, Ls'].
  - exists S, Ls. split; [|done]. by eapply host_keeps.
  - destruct Hex as [G HS]. destruct (grown_after store_config (se_store w) s S G HS) as (S' & G' & HS' & Hev);
      [by apply rtc_once|]. exists S', Ls. split; [|done]. eapply host_keeps; [done|by exists G'|done..].
  - exists S, (replicate (length start_workers) None). split; [|done]. eapply host_keeps; [done| |done| |apply start_holds].
    + unfold executions. cbn. by rewrite Hd.
    + rewrite pledged_replicate. unfold pledged. cbn. by apply submseteq_inserts_l.
Qed.
Lemma host_ok_steps K y y' S Ls :
  rtc hstep y y' → host_ok K y S Ls → ∃ S' Ls', host_ok K y' S' Ls' ∧ evolves S S'.
Proof.
  intros Hs. revert S Ls. induction Hs as [y|y y1 y2 Hstep _ IH]; intros S Ls Hok; [by exists S, Ls|].
  destruct (host_ok_step _ _ _ _ _ Hstep Hok) as (S1 & Ls1 & Hok1 & Hev1).
  destruct (IH _ _ Hok1) as (S2 & Ls2 & Hok2 & Hev2). exists S2, Ls2. split; [done|by etrans].
Qed.
Definition nothing (_ : PeerExecutionId) : Prop := False.
Lemma host_ok_start y : host_starts y → ∃ S Ls, host_ok nothing y S Ls.
Proof.
  intros ((S & G & HS) & Hs & Hp). exists S, (replicate (length start_workers) None).
  split; [by exists G|rewrite Hp; apply start_holds|rewrite pledged_replicate, Hs..|done]; [constructor|].
  by intros e ?%not_elem_of_nil.
Qed.

(** C0: an adapter is started at most once for each execution, and only after its entry
    is durable: over every interleaving of workers, calls, other users of the store and
    failures of the store, through panics and restarts, no execution is started twice. *)
Theorem adapter_started_once y y' :
  host_starts y → rtc hstep y y' →
  NoDup (se_starts (ho_service y'))
  ∧ ∃ S G, serves (t_peers (rd_durable (se_store (ho_service y')))) S G
    ∧ ∀ e, e ∈ se_starts (ho_service y') → entered_in S e.
Proof using peers_law.
  intros (S & Ls & Hok)%host_ok_start Hs. destruct (host_ok_steps _ _ _ _ _ Hs Hok) as (S' & Ls' & [[G HS] _ Hnd Hent _] & _).
  unfold pledged in *. apply NoDup_app in Hnd as (_ & _ & Hnd). split; [done|]. exists S', G. split; [done|].
  intros e He. apply Hent, elem_of_app. by right.
Qed.
(** C0: once the cancellation of an execution is stored before its entry, its adapter never
    starts, whatever the workers, the other threads and later processes do. *)
Theorem withdrawn_never_started y y1 y2 S G e record :
  host_starts y → rtc hstep y y1 → serves (t_peers (rd_durable (se_store (ho_service y1)))) S G →
  S !! e = Some (SnapshotHot record) → is_Some (px_cancellation record) → stage (px_phase record) = 0%N →
  rtc hstep y1 y2 → e ∉ se_starts (ho_service y2).
Proof using peers_law.
  intros (S0 & Ls0 & Hok)%host_ok_start H1 HS He Hc Hst H2.
  destruct (host_ok_steps _ _ _ _ _ H1 Hok) as (S1 & Ls & [[G1 HS1] Hps Hnd Hent _] & _).
  assert (S1 = S) as -> by (eapply rows_unique; [apply HS1|apply HS]).
  destruct (host_ok_steps (eq e) _ _ S Ls H2) as (S2 & Ls2 & Hok2 & _).
  - split; [by exists G|done..|]. intros ? <-. split; [exists (SnapshotHot record); split; [done|by right]|].
    intros (s & Hs & Hent')%Hent. simplify_eq. cbn in Hent'. lia.
  - intros Hin. destruct (hk_never _ _ _ _ Hok2 e eq_refl) as [_ Hni]. apply Hni, elem_of_app. by right.
Qed.
End system.
