(* ===== verification/StorageSamples.v ===== *)
(** * Concrete instances for the storage theorems

    A document codec that is lawful by construction, for any list of known values,
    and the witnesses of the storage theorems at concrete inputs. *)
From S2P Require Import Prelude Effects Contracts Capability Blueprint Authority.
From S2P Require Import Workspace Persistence Dispatch Managed PeerProtocol Storage ManagedStore PeerStore Domains TaskStore.
From S2P Require Import AuthorityLaws Samples StorageLaws Transactions PeerLaws NativePaths ManagedLaws TaskStoreLaws Reachability.

(** ** A codec by position in a list of known values *)

Fixpoint pos_text (p : positive) : string :=
  match p with
  | xH => EmptyString
  | xO p => String "0" (pos_text p)
  | xI p => String "1" (pos_text p)
  end.
Fixpoint text_pos (s : string) : positive :=
  match s with
  | EmptyString => xH
  | String c s => if bool_decide (c = "0"%char) then xO (text_pos s) else xI (text_pos s)
  end.
Lemma text_pos_text p : text_pos (pos_text p) = p.
Proof. induction p as [p IH|p IH|]; cbn; [by rewrite IH..|done]. Qed.

Section listed.
Context {T : Type} `{!EqDecision T}.
Variable known : list T.

Definition index_of (value : T) : result string nat :=
  ok_or (fst <$> list_find (λ x, value = x) known) "unknown value".
Definition listed_payload : Serialize T :=
  {| to_vec := λ value, i ← index_of value; Ok (pos_text (countable.encode i));
     to_value := λ value, i ← index_of value; Ok (JString (pos_text (countable.encode i))) |}.
Definition listed_envelope : Serialize (InternalDocumentEnvelope T) :=
  {| to_vec := λ e, i ← index_of (doc_payload e);
       Ok (pos_text (countable.encode (i, doc_schema_version e, doc_family e, doc_checksum e)));
     to_value := λ _, Err "not used" |}.
Definition listed_read (b : string) : result string (InternalDocumentEnvelope T) :=
  '(i, version, family, sum) ← ok_or (countable.decode (text_pos b)) "malformed";
  value ← ok_or (known !! i) "unknown value";
  Ok (mkDocEnvelope version family sum value).
Definition listed : Stored T := Build_Stored T listed_payload listed_envelope listed_read.
Lemma listed_law : @StoredLaw T listed.
Proof using All.
  intros [v f c value] b. unfold to_vec, index_of. cbn. unfold index_of.
  destruct (list_find _ _) as [[i x]|] eqn:Hf; [|done]. cbn. intros [= <-].
  apply list_find_Some in Hf as (Hi & -> & _).
  unfold listed_read. rewrite text_pos_text, decode_encode. cbn. by rewrite Hi.
Qed.
End listed.

(** A digest text for evaluation: 64 hexadecimal digits. *)
Definition zero_blake3 : Blake3 := λ _, "0000000000000000000000000000000000000000000000000000000000000000".


(** A codec through a countable type. *)
Section coded.
Context {T X : Type} `{Countable X}.
Variables (to : T → X) (from : X → T).
Definition coded_payload : Serialize T :=
  {| to_vec := λ value, Ok (pos_text (countable.encode (to value))); to_value := λ _, Err "not used" |}.
Definition coded_envelope : Serialize (InternalDocumentEnvelope T) :=
  {| to_vec := λ e, Ok (pos_text (countable.encode
       (to (doc_payload e), doc_schema_version e, doc_family e, doc_checksum e)));
     to_value := λ _, Err "not used" |}.
Definition coded_read (b : string) : result string (InternalDocumentEnvelope T) :=
  '(x, version, family, sum) ← ok_or (countable.decode (text_pos b)) "malformed";
  Ok (mkDocEnvelope version family sum (from x)).
Definition coded : Stored T := Build_Stored T coded_payload coded_envelope coded_read.
Lemma coded_law : (∀ t, from (to t) = t) → @StoredLaw T coded.
Proof.
  intros Hinv [v f c value] b. unfold to_vec. cbn. intros [= <-].
  unfold coded_read. rewrite text_pos_text, decode_encode. cbn. by rewrite Hinv.
Qed.
End coded.

(** ** One managed installation *)

Definition sample_digest : string := "b3_" +:+ zero_blake3 EmptyString.
Definition sample_setup : ApprovedSetup :=
  mkSetup None (mkRecipe "recipe" sample_digest) "systemd" JNull "owner" sample_digest
    [mkResourceView "area" KindWorkingArea Owned "/srv/area" DispositionPreserve] [].
Definition sample_change : ManagedChange :=
  mkChange None sample_digest sample_setup 1 [StepVerify] false true.
Definition sample_managed_request : ManagedRequest :=
  mkManagedRequest MANAGED_SCHEMA_VERSION "install" "web" 0 (MaApply (mkRecipe "recipe" sample_digest)).
Definition sample_managed_decision : AuthorityDecisionSnapshot :=
  sample_allow (sample_request <| rq_operation := OpAdministerCapabilities |>
    <| rq_resources := facts_empty <| rf_capability := Some "managed.web" |>
         <| rf_capability_operation := Some "resource.apply" |> |>).
Definition sample_observation : ManagedObservation := mkObservation sample_digest "verified" true.
Definition installing : InstallationRecord :=
  mkInstallation MANAGED_SCHEMA_VERSION "web" 1 0 None (Some (mkTransition sample_change 0 [] ChangePending))
    false None false false [].
Definition installed : InstallationRecord :=
  mkInstallation MANAGED_SCHEMA_VERSION "web" 2 1 (Some sample_setup) None true (Some sample_observation)
    true false [].

(** ** A store on an engine that never fails *)

#[local] Instance sample_engine : Engine () := {|
  engine_call := λ o, (o, None);
  engine_commit := λ o, (o, Committed);
  store_now := λ o, (o, Ok 1000%N);
  fault_check := λ _ o, (o, Ok tt)
|}.
Definition sample_value : Serialize Value :=
  {| to_vec := λ v, if bool_decide (v = JNull) then Ok "null" else Err "not used"; to_value := Ok |}.
#[local] Instance sample_managed : ManagedCodec := {|
  mcodec_blake3 := zero_blake3;
  mcodec_value := sample_value;
  mcodec_policy := listed_payload [];
  mcodec_payload := {| to_vec := λ _, Ok "payload"; to_value := λ _, Err "not used" |};
  mcodec_installation := listed [installing; installed];
  mcodec_transition := listed [mkTransition sample_change 0 [] ChangePending;
    mkTransition sample_change 1 [sample_observation] ChangeComplete];
  mcodec_receipt := listed [mkResourceReceipt MANAGED_SCHEMA_VERSION sample_managed_request
    sample_managed_decision (InstallationRecord_view installing)];
  mcodec_evaluation := listed [];
  binding_from_value := λ _, Err "no binding";
  mcodec_contract := λ _, "contract error";
  mcodec_authority := λ _, "authority error"
|}.
#[local] Instance sample_domains : DomainCodec := {|
  dcodec_owner := {| to_vec := λ _, Ok "owner"; to_value := λ _, Err "not used" |};
  owner_from_str := λ _, Err "not used";
  dcodec_budget := listed [];
  dcodec_usage := listed [];
  dcodec_publication := listed [];
  dcodec_artifacts := listed [ArtifactAccountingRecord_EMPTY]
|}.
Definition sample_acceptance : WorkflowCommandAcceptance := mkAcceptance "alice" "create" None "null" JNull.
Definition sample_snapshot_row : WorkflowSnapshot string :=
  mkWorkflowSnapshot "wf" 1 "title" EmptyString "alice" 10 "document" [] [] 0 4096 1.
Definition sample_commit : WorkflowCommit string :=
  mkCommit None sample_snapshot_row (Some sample_acceptance).
#[local] Instance sample_snapshot_eq_dec : EqDecision (WorkflowSnapshot string).
Proof. solve_decision. Defined.
#[local] Instance sample_tasks : TaskCodec string := {|
  tcodec_document := {| to_vec := Ok; to_value := λ _, Err "not used" |};
  tcodec_acceptance := listed_payload [sample_acceptance];
  tcodec_snapshot := listed [sample_snapshot_row];
  tcodec_receipt := listed [mkReceipt "wf" 1 sample_acceptance];
  tcodec_accounting := coded
    (λ a, (ac_history_bytes a, ac_receipt_bytes a, ac_receipt_entries a, ac_reserved_bytes a,
           ac_reserved_receipts a, ac_artifact_reserved_bytes a, ac_pending_artifact_bytes a))
    (λ '(h, r, e, b, c, ar, pa), mkAccounting h r e b c ar pa);
  tcodec_output := coded (λ u, (ou_limit u, ou_bytes u, ou_count u)) (λ '(l, b, c), mkOutputUsage l b c);
  value_from_slice := λ b, if bool_decide (b = "null") then Ok JNull else Err "malformed"
|}.
Definition encoded {A} `{!Stored A} (value : A) (family : string) : string :=
  match encode value family with Ok b => b | Err _ => EmptyString end.
(** The tables of a new store. *)
Definition sample_tables : Tables := empty_tables
  <| t_task_accounting := {["global" := encoded Accounting_default "task accounting"]} |>
  <| t_artifact_accounting := {[GLOBAL_ARTIFACT_BYTES_KEY :=
       encoded ArtifactAccountingRecord_EMPTY "artifact accounting"]} |>
  <| t_metadata := {[MANAGED_ACTIVE_COUNT_KEY := 0%N; EVALUATION_PENDING_COUNT_KEY := 0%N;
       CLOCK_WATERMARK_UNIX_MS_KEY := 0%N]} |>.
Definition sample_store : Redb () := mkRedb sample_tables sample_tables tt.
Definition after_commit : Redb () := (commit_workflow RedbStoreConfig_new sample_commit sample_store).1.

Lemma sample_commit_applied :
  (commit_workflow RedbStoreConfig_new sample_commit sample_store).2
  = Ok (CommitApplied (Some (mkReceipt "wf" 1 sample_acceptance))).
Proof. vm_compute. reflexivity. Qed.

Lemma sample_laws :
  @StoredLaw (WorkflowSnapshot string) tcodec_snapshot ∧ @StoredLaw WorkflowCommandReceipt tcodec_receipt
  ∧ @StoredLaw Accounting tcodec_accounting ∧ @StoredLaw InstallationRecord mcodec_installation.
Proof. split_and!; [apply listed_law..|apply coded_law; by intros []|apply listed_law]. Qed.
Lemma sample_tables_ok : tables_ok (D := string) sample_tables.
Proof. by split; intros k b; cbn; rewrite lookup_empty. Qed.
Lemma sample_accounting_exact : accounting_exact (D := string) sample_tables.
Proof.
  eexists _, Accounting_default. split; [by apply lookup_singleton_eq|]. by vm_compute.
Qed.

Lemma redb_implements_port_witness :
  (∃ contract : @WorkflowStoreContract (Redb ()) string (redb_port RedbStoreConfig_new),
     @store_ok _ _ _ contract = port_ok ∧ @durable _ _ _ contract = port_durable)
  ∧ port_ok (D := string) sample_store
  ∧ (commit_workflow RedbStoreConfig_new sample_commit sample_store).2
    = Ok (CommitApplied (Some (mkReceipt "wf" 1 sample_acceptance))).
Proof.
  split; [|split; [exact sample_tables_ok|exact sample_commit_applied]].
  exact (@redb_implements_port () string sample_engine sample_managed sample_domains sample_tasks
    (proj1 sample_laws) (proj1 (proj2 sample_laws)) RedbStoreConfig_new).
Defined.

(** ** An installation accepted and verified *)

Definition after_accept : Redb () :=
  (begin_managed_change RedbStoreConfig_new sample_managed_request sample_managed_decision sample_change
     sample_store).1.
Definition after_verify : Redb () :=
  (advance_managed_change "web" sample_digest 0 sample_observation after_accept).1.
Lemma sample_installed :
  (advance_managed_change "web" sample_digest 0 sample_observation after_accept).2 = Ok installed.
Proof. by vm_compute. Qed.
Lemma sample_managed_ok : managed_ok sample_tables.
Proof.
  exists ∅. split_and!; [split|..]; cbn.
  all: try by intros; rewrite ?lookup_empty in *.
  intros id k. cbn. rewrite lookup_empty. split; [done|]. intros (r & Hr & _). by rewrite lookup_empty in Hr.
Qed.

(** ** Codecs of the serving rows *)

Section serving_codec.
Variables (relationships : list ServingCallerState) (catalogs : list ServingCatalogState)
  (records : list PeerExecutionRecord) (tombstones : list PeerExecutionTombstone)
  (observations : list PeerObservation).
Definition unread_payload {T} : Serialize T :=
  {| to_vec := λ _, Ok "payload"; to_value := λ _, Ok JNull |}.
Definition sample_serving : ServingCodec := {|
  scodec_document := unread_payload; scodec_payload := unread_payload; scodec_canonical := λ _, "canonical error" |}.
Definition sample_global : Stored GlobalPeerAccounting := coded
  (λ g, (gp_schema_version g, gp_next_acceptance_sequence g, gp_active g, gp_dispatch_queued g,
         gp_hot_terminal g, gp_tombstones g, gp_archive_generation g, gp_last_archived_at_unix_ms g,
         gp_admission_open g))
  (λ '(v, n, a, q, h, t, g, l, o), mkGlobalAccounting v n a q h t g l o).
(** Callers by their host and principal. *)
Definition caller_code (c : ServingCaller) : string * (string + string) :=
  (sc_host c, match sc_principal c with PrincipalClient a => inl a | PrincipalPeer p => inr p end).
Definition code_caller (x : string * (string + string)) : ServingCaller :=
  mkCaller x.1 match x.2 with inl a => PrincipalClient a | inr p => PrincipalPeer p end.
Definition sample_per_peer : Stored PerPeerAccounting := coded
  (λ p, (pr_schema_version p, caller_code (pr_peer p), pr_active p, pr_revision p))
  (λ '(v, c, a, r), mkPerPeer v (code_caller c) a r).
Definition sample_peers : PeerCodec := {|
  pcodec_serving := sample_serving;
  pcodec_relationship := listed relationships;
  pcodec_catalog := listed catalogs;
  pcodec_execution := listed records;
  pcodec_tombstone := listed tombstones;
  pcodec_observation := listed observations;
  pcodec_artifact := listed [];
  pcodec_global := sample_global;
  pcodec_per_peer := sample_per_peer;
  pcodec_identity := unread_payload
|}.
Lemma sample_peers_law : @PeerCodecLaw sample_peers.
Proof.
  split; try apply listed_law; apply coded_law.
  - by intros [].
  - by intros [? [? []] ? ?].
Qed.
End serving_codec.
Definition no_peers : PeerCodec := sample_peers [] [] [] [] [].

(** ** Claims on directories *)

#[local] Instance NativePathRoot_eq_dec : EqDecision NativePathRoot.
Proof. solve_decision. Defined.
#[local] Instance NativePathClaim_eq_dec : EqDecision NativePathClaim.
Proof. solve_decision. Defined.
Definition first_claim : NativePathClaim :=
  mkPathClaim "first" [mkPathRoot "/srv/a" "/srv/a" "dev:1" true].
Definition second_claim : NativePathClaim :=
  mkPathClaim "second" [mkPathRoot "/srv/ab" "/srv/ab" "dev:2" true].
(** It reads a directory inside the one that [first_claim] writes. *)
Definition inner_claim : NativePathClaim :=
  mkPathClaim "inner" [mkPathRoot "/srv/a/b" "/srv/a/b" "dev:3" false].
#[local] Instance sample_paths : Stored NativePathClaim := listed [first_claim; second_claim; inner_claim].
Definition after_first : Redb () := (claim_native_paths first_claim sample_store).1.
Definition after_second : Redb () := (claim_native_paths second_claim after_first).1.
Lemma sample_claims :
  (claim_native_paths second_claim after_first).2 = Ok tt
  ∧ (claim_native_paths inner_claim after_second).2
    = Err (PeInvalidDocument "native project paths overlap an unresolved reader or writer").
Proof. by vm_compute. Qed.

Abbreviation sample_step :=
  (@store_step () sample_engine sample_managed sample_paths string sample_domains sample_tasks no_peers
     RedbStoreConfig_new).
Lemma sample_paths_reached : rtc sample_step sample_store after_second.
Proof.
  apply (rtc_l _ _ after_first); [|apply rtc_once]; eapply step_claim_paths.
  - exact (surjective_pairing (claim_native_paths first_claim sample_store)).
  - exact (surjective_pairing (claim_native_paths second_claim after_first)).
Qed.
Lemma sample_verify_reached : rtc sample_step sample_store after_verify.
Proof.
  apply (rtc_l _ _ after_accept); [|apply rtc_once].
  - eapply step_change. exact (surjective_pairing (begin_managed_change RedbStoreConfig_new sample_managed_request
      sample_managed_decision sample_change sample_store)).
  - eapply step_advance. exact (surjective_pairing
      (advance_managed_change "web" sample_digest 0 sample_observation after_accept)).
Qed.

Lemma managed_integrity_witness :
  managed_ok (rd_durable after_verify)
  ∧ (advance_managed_change "web" sample_digest 0 sample_observation after_accept).2 = Ok installed.
Proof.
  split; [|exact sample_installed].
  apply (@managed_integrity () sample_engine sample_managed (proj2 (proj2 (proj2 sample_laws)))
    sample_paths string sample_domains sample_tasks no_peers RedbStoreConfig_new sample_store after_verify).
  - exact sample_managed_ok.
  - exact sample_verify_reached.
Defined.
Lemma native_claims_disjoint_witness :
  native_claims_ok (rd_durable after_second)
  ∧ (claim_native_paths inner_claim after_second).2
    = Err (PeInvalidDocument "native project paths overlap an unresolved reader or writer").
Proof.
  split; [|exact (proj2 sample_claims)].
  apply (@native_claims_disjoint () sample_engine sample_managed
    sample_paths (listed_law _) string sample_domains sample_tasks no_peers RedbStoreConfig_new sample_store after_second).
  - split; [by intros k b; cbn; rewrite lookup_empty|by intros k k' b b' c c' _; cbn; rewrite lookup_empty|done].
  - exact sample_paths_reached.
Defined.
Definition after_observe : Redb () := (observe_clock 2000 sample_store).1.
