(* ===== verification/PeerSamples.v ===== *)
(** * A serving installation at work

    One client's request accepted, cancelled and claimed, or accepted, claimed and
    entered, evaluated step by step, and the witnesses of the serving theorems. *)
From S2P Require Import Prelude Effects Contracts Capability Blueprint Authority AuthorityLaws.
From S2P Require Import Model Workspace Persistence Dispatch Managed PeerProtocol Storage ManagedStore PeerStore PeerIntegrity.
From S2P Require Import Domains TaskStore Samples StorageLaws Transactions PeerState PeerLaws PeerCalls PeerAudit PeerVerify.
From S2P Require Import Reachability StorageSamples.

#[local] Existing Instances sample_engine sample_managed sample_domains sample_tasks sample_paths.

Definition client : ServingCaller := mkCaller "host" (PrincipalClient "alice").
Definition client_state : ServingCallerState := mkCallerState client 1 true 100000 4.
Definition client_catalog : ServingCatalogState := mkCatalogState client 1 1 sample_digest 100000.
Definition client_authorization : ServingAuthorization :=
  SaClient (mkClientAuthorization "host" "alice" "grant" 1 sample_grant_digest 7).
Definition client_request : ServingInvocationRequest :=
  mkServingRequest "request" 1 sample_digest sample_snapshot sample_invocation
    (mkExecutionLimits None 1000 1000 0 None None None 16) 90000 client_authorization sample_digest.
Definition client_decision : AuthorityDecisionSnapshot :=
  sample_allow (sample_request <| rq_operation := OpInvokeCapability |>
    <| rq_resources := facts_empty <| rf_capability := Some (rs_capability sample_snapshot) |>
         <| rf_capability_operation := Some (rs_operation sample_snapshot) |> |>
    <| rq_provenance := mkProvenance None None None None (Some 1%N) None None |>).
Definition client_admission : PeerAdmission :=
  mkAdmission client client_request client_decision "execution" 1 1000 8 8 16 4 500.

Definition accepted : PeerExecutionRecord := accepted_record client_admission 1 0.
Definition client_cancellation : PeerCancellationRequest := mkPeerCancellation "cancel" "execution" 1 "no longer needed".
Definition cancelled : PeerExecutionRecord :=
  accepted <| px_phase := PhCancellation None None |> <| px_revision := 2%N |>
    <| px_cancellation := Some (mkCancellationRecord client_cancellation 1500 None None) |>.
Definition worker_claim : PeerDispatchClaimRequest := mkClaimRequest "worker" 2000 5000.
Definition claim_at (revision : N) : PeerDispatchClaim := mkDispatchClaim "worker" revision 2000 5000.
Definition claimed_cancellation : PeerExecutionRecord :=
  cancelled <| px_phase := PhCancellation (Some (claim_at 3)) None |> <| px_revision := 3%N |>.
Definition claimed : PeerExecutionRecord :=
  accepted <| px_phase := PhClaimed (claim_at 2) |> <| px_revision := 2%N |>.
Definition worker_entry : PeerEntryRequest := mkEntryRequest client "execution" "worker" 2 1 2500 client_decision.
Definition entered_record : PeerExecutionRecord :=
  claimed <| px_phase := PhEntered (claim_at 2) (mkEntryEvidence "worker" 2 2500 client_decision) |>
    <| px_revision := 3%N |>.
(** The same claimed and entered by the first worker of a host. *)
Definition host_claim : PeerDispatchClaim := mkDispatchClaim "peer-worker-0" 2 2000 5000.
Definition host_claimed : PeerExecutionRecord :=
  accepted <| px_phase := PhClaimed host_claim |> <| px_revision := 2%N |>.
Definition host_entered : PeerExecutionRecord :=
  host_claimed <| px_phase := PhEntered host_claim (mkEntryEvidence "peer-worker-0" 2 2000 client_decision) |>
    <| px_revision := 3%N |>.

#[local] Instance client_peers : PeerCodec :=
  sample_peers [client_state] [client_catalog]
    [accepted; cancelled; claimed_cancellation; claimed; entered_record; host_claimed; host_entered] [] [].
Lemma client_peers_law : @PeerCodecLaw client_peers.
Proof. apply sample_peers_law. Qed.
Definition serving_tables : Tables := sample_tables
  <| t_peers ::= λ p, p <| t_peer_execution_accounting := {[PEER_EXECUTION_GLOBAL_ACCOUNTING_KEY :=
       encoded (GlobalPeerAccounting_EMPTY) "peer global accounting"]} |> |>.
Definition serving_store : Redb () := mkRedb serving_tables serving_tables tt.

(** The state after a call, and what it returned. *)
Definition next {A} (call : st (Redb ()) PersistenceError A) (s : Redb ()) : Redb () := (call s).1.
Definition returned {A} (call : st (Redb ()) PersistenceError A) (s : Redb ()) : result PersistenceError A := (call s).2.
Definition opened : Redb () :=
  next (set_peer_admission_open true) (next (publish_peer_catalog client_catalog)
    (next (configure_peer_relationship client_state) serving_store)).
Definition admitted : Redb () := next (admit_peer_execution client_admission) opened.
Definition withdrawn : Redb () :=
  next (claim_peer_dispatch worker_claim) (next (request_peer_cancellation client client_cancellation 1500) admitted).
Definition running : Redb () :=
  next (mark_peer_entered worker_entry) (next (claim_peer_dispatch worker_claim) admitted).
Lemma sample_returns :
  returned (admit_peer_execution client_admission) opened = Ok (AdmissionAccepted accepted)
  ∧ returned (mark_peer_entered worker_entry) (next (claim_peer_dispatch worker_claim) admitted)
    = Ok (EntryEntered entered_record)
  ∧ returned verify_peer_execution_integrity running = Ok tt.
Proof. vm_compute. done. Qed.

Lemma serving_empty : serves (t_peers serving_tables) ∅ GlobalPeerAccounting_EMPTY.
Proof.
  split; split.
  all: try by intros; rewrite ?lookup_empty in *.
  all: try by intros k e; cbn; rewrite lookup_empty; split; [done|]; intros (s & Hs & _); rewrite lookup_empty in Hs.
  - eexists. split; [by apply lookup_singleton_eq|]. by vm_compute.
  - intros k b Hk Hb.
    assert (∀ x : Bytes, ({[PEER_EXECUTION_GLOBAL_ACCOUNTING_KEY := x]} : gmap string Bytes) !! k = Some b → False) as Hno
      by by intros x [? _]%lookup_singleton_Some.
    by apply Hno in Hb.
Qed.

Abbreviation serving_step :=
  (@store_step () sample_engine sample_managed sample_paths string sample_domains sample_tasks client_peers
     RedbStoreConfig_new).
Lemma called {A} (call : st (Redb ()) PersistenceError A) s : call s = (next call s, returned call s).
Proof. apply surjective_pairing. Qed.
Lemma next_step {A} (call : st (Redb ()) PersistenceError A) s s' :
  (∀ r, call s = (s', r) → peer_step s s') → s' = next call s → serving_step s s'.
Proof. intros Hstep ->. apply step_peer. exact (Hstep _ (called call s)). Qed.
Lemma opened_reached : rtc serving_step serving_store opened.
Proof.
  eapply rtc_l; [eapply next_step; [intros; eapply (peer_configure _ _ client_state); [by vm_compute|done]|done]|].
  eapply rtc_l; [eapply next_step; [intros; by eapply (peer_publish _ _ client_catalog)|done]|].
  eapply rtc_once, next_step; [intros; by eapply (peer_open _ _ true)|done].
Qed.
Lemma admitted_step : serving_step opened admitted.
Proof. eapply next_step; [intros; eapply (peer_admit _ _ client_admission); [by vm_compute|done]|done]. Qed.
Lemma running_reached : rtc serving_step admitted running.
Proof.
  eapply rtc_l; [eapply next_step; [intros; by eapply (peer_claim _ _ worker_claim)|done]|].
  eapply rtc_once, next_step; [intros; by eapply (peer_enter _ _ worker_entry)|done].
Qed.
Lemma withdrawn_reached : rtc serving_step admitted withdrawn.
Proof.
  eapply rtc_l; [eapply next_step; [intros; by eapply (peer_cancel _ _ client client_cancellation 1500)|done]|].
  eapply rtc_once, next_step; [intros; by eapply (peer_claim _ _ worker_claim)|done].
Qed.
Lemma admitted_reached : rtc serving_step serving_store admitted.
Proof. eapply rtc_r; [exact opened_reached|exact admitted_step]. Qed.
(** What the rows of a reached store describe. *)
Definition record_of (s : Redb ()) (e : string) : option PeerExecutionRecord :=
  t_peer_executions (t_peers (rd_durable s)) !! e
  ≫= λ b, match decode_peer_record b with Ok r => Some r | Err _ => None end.
Lemma reached_serves s e r :
  rtc serving_step serving_store s → record_of s e = Some r →
  ∃ S G, serves (t_peers (rd_durable s)) S G ∧ S !! e = Some (SnapshotHot r).
Proof.
  unfold record_of. intros Hs Hr.
  destruct (grown_after (peers_law := client_peers_law) RedbStoreConfig_new serving_store s ∅ _ serving_empty Hs)
    as (S & G & HS & _).
  exists S, G. split; [done|]. pose proof (ro_stored _ _ (sv_rows _ _ _ HS) e) as Hst.
  destruct (S !! e) as [[r'|t]|]; cbn in Hst; cycle 1.
  - destruct Hst as [Hn _]. by rewrite Hn in Hr.
  - destruct Hst as [Hn _]. by rewrite Hn in Hr.
  - destruct Hst as ((b & Hb & Hd) & _). rewrite Hb in Hr. cbn in Hr. rewrite Hd in Hr. congruence.
Qed.
Lemma running_reached_start : rtc serving_step serving_store running.
Proof. etrans; [exact admitted_reached|exact running_reached]. Qed.
Lemma withdrawn_reached_start : rtc serving_step serving_store withdrawn.
Proof. etrans; [exact admitted_reached|exact withdrawn_reached]. Qed.
Lemma sample_rows :
  record_of admitted "execution" = Some accepted ∧ record_of running "execution" = Some entered_record
  ∧ record_of withdrawn "execution" = Some claimed_cancellation.
Proof. vm_compute. done. Qed.
Lemma sample_replay :
  admit_peer_execution client_admission running
  = (next (admit_peer_execution client_admission) running, Ok (AdmissionReplayed (SnapshotHot entered_record))).
Proof.
  assert (returned (admit_peer_execution client_admission) running
    = Ok (AdmissionReplayed (SnapshotHot entered_record))) as <- by by vm_compute.
  apply called.
Qed.

Lemma serving_integrity_witness :
  serving_ok (rd_durable running) ∧ returned verify_peer_execution_integrity running = Ok tt.
Proof.
  split; [|exact (proj2 (proj2 sample_returns))].
  apply (@serving_integrity () sample_engine sample_managed sample_paths string sample_domains sample_tasks
    client_peers client_peers_law RedbStoreConfig_new serving_store running).
  - exists ∅, GlobalPeerAccounting_EMPTY. exact serving_empty.
  - exact running_reached_start.
Defined.
Lemma serving_evolves_witness :
  ∃ S G, serves (t_peers (rd_durable admitted)) S G ∧ S !! "execution" = Some (SnapshotHot accepted)
    ∧ ∃ S' G', serves (t_peers (rd_durable running)) S' G' ∧ evolves S S'.
Proof.
  destruct (reached_serves admitted "execution" accepted admitted_reached (proj1 sample_rows)) as (S & G & HS & He).
  exists S, G. split; [exact HS|]. split; [exact He|].
  exact (@serving_evolves () sample_engine sample_managed sample_paths string sample_domains sample_tasks
    client_peers client_peers_law RedbStoreConfig_new admitted running S G HS running_reached).
Defined.
Lemma request_accepted_once_witness :
  rd_durable (next (admit_peer_execution client_admission) running) = rd_durable running
  ∧ ∃ later, ps_execution later = "execution" ∧ snapshot_evolves (SnapshotHot accepted) later
    ∧ AdmissionReplayed (SnapshotHot entered_record) = known_answer later client_admission.
Proof.
  destruct (reached_serves admitted "execution" accepted admitted_reached (proj1 sample_rows)) as (S & G & HS & He).
  apply (@request_accepted_once () sample_engine sample_managed sample_paths string sample_domains sample_tasks
    client_peers client_peers_law RedbStoreConfig_new admitted running
    (next (admit_peer_execution client_admission) running) S G "execution" (SnapshotHot accepted)
    client_admission (AdmissionReplayed (SnapshotHot entered_record)) HS He);
    [reflexivity|reflexivity|exact running_reached|exact sample_replay].
Defined.
Lemma serving_entered_once_witness :
  ∃ error, returned (mark_peer_entered worker_entry) running = Err error
    ∧ rd_durable (next (mark_peer_entered worker_entry) running) = rd_durable running.
Proof.
  destruct (reached_serves running "execution" entered_record running_reached_start (proj1 (proj2 sample_rows)))
    as (S & G & HS & He).
  apply (@serving_entered_once () sample_engine sample_managed sample_paths string sample_domains sample_tasks
    client_peers client_peers_law RedbStoreConfig_new running running
    (next (mark_peer_entered worker_entry) running) S G (SnapshotHot entered_record) worker_entry
    (returned (mark_peer_entered worker_entry) running) HS He);
    [by vm_compute|apply rtc_refl|apply called].
Defined.

Lemma integrity_accepts_witness :
  ∃ s', verify_peer_execution_integrity running = (s', Ok tt) ∧ rd_durable s' = rd_durable running.
Proof.
  destruct (reached_serves running "execution" entered_record running_reached_start (proj1 (proj2 sample_rows)))
    as (S & G & HS & He).
  apply (@integrity_accepts () sample_engine sample_managed client_peers running S G); [done|exact HS| |].
  - split; vm_compute; discriminate.
  - intros e r Hr.
    assert (map_to_list (t_peer_executions (t_peers (rd_durable running))) = [("execution", encoded entered_record "peer execution")])
      as Hl by by vm_compute.
    assert (is_Some (t_peer_executions (t_peers (rd_durable running)) !! e)) as [b Hb]
      by (apply (hot_row _ S); [apply HS|eauto]).
    apply elem_of_map_to_list in Hb. rewrite Hl in Hb. apply list_elem_of_singleton in Hb as [= -> _].
    rewrite He in Hr. injection Hr as <-. by vm_compute.
Defined.

(** C36: the integrity check refuses a state that the store itself produces: a request that
    is accepted, cancelled by its caller and claimed by a worker is still queued in the
    global counter, and the check does not count a claimed cancellation, so it reports
    drift although every row, index and counter describes the same executions. *)
Theorem claimed_cancellation_drifts :
  returned (claim_peer_dispatch worker_claim) (next (request_peer_cancellation client client_cancellation 1500) admitted)
    = Ok (ClaimCancellationRequested claimed_cancellation)
  ∧ returned verify_peer_execution_integrity withdrawn = Err drifted
  ∧ serving_ok (rd_durable withdrawn).
Proof.
  split; [by vm_compute|]. split; [by vm_compute|].
  destruct (reached_serves withdrawn "execution" claimed_cancellation withdrawn_reached_start
    (proj2 (proj2 sample_rows))) as (S & G & HS & _).
  by exists S, G.
Qed.
