(* ===== verification/ServingSamples.v ===== *)
(** * A serving host at work

    A host whose worker claims, prepares and enters the request of [PeerSamples], evaluated
    step by step, and the witnesses of the theorems about serving hosts. *)
From S2P Require Import Prelude Effects Contracts Capability Blueprint Authority AuthorityLaws.
From S2P Require Import Model Workspace Persistence Dispatch Managed PeerProtocol Storage ManagedStore PeerStore PeerIntegrity.
From S2P Require Import Domains TaskStore Samples StorageLaws Transactions PeerState PeerLaws PeerCalls.
From S2P Require Import Reachability StorageSamples PeerSamples Serving ServingLaws ServingSystem.

#[local] Existing Instances sample_engine sample_managed sample_domains sample_tasks sample_paths client_peers client_peers_law.

(** A clock that stands still, an authority that allows, and an adapter that returns. *)
#[local] Instance sample_host : ServingHost () () := {|
  host_clock x := (x, Ok 2000%N);
  host_authorize _ _ x := (x, Ok (client_decision, 1%N));
  adapter_execution_context _ := Ok tt;
  with_serving_preparation context _ := context;
  with_serving_execution context _ := Ok context;
  host_prepare _ _ _ x := (x, Ok (envelope_not_applicable, λ _, ServeReturn (Ok tt)));
  host_cancel _ x := (x, Err ExAdmissionClosed)
|}.
#[local] Instance sample_texts : HostCodec := {|
  hcodec_extensions := unread_payload;
  hcodec_persistence := λ _, "storage";
  hcodec_executor := λ _, "executor"
|}.
Definition sample_server : PeerServerConfig :=
  mkServerConfig "host" (mkHeartbeat 1000 2000 3000) (mkWorkerConfig 1 8 8 16 4 1000000000 8 1000000).
Abbreviation SampleHost := (@Host () ()).
Definition host_on (s : Redb ()) : SampleHost :=
  mkHost (mkService s 0 tt []) (start_workers sample_server).

(** The first thread of the host, for [n] steps. *)
Definition advance (y : SampleHost) : SampleHost :=
  match ho_processes y !! 0 with
  | Some (Working worker (TStep section)) =>
      let '(w, t) := section (ho_service y) in mkHost w (<[0 := Working worker t]> (ho_processes y))
  | _ => y
  end.
Abbreviation sample_hstep := (hstep (D := string) RedbStoreConfig_new sample_server).
Lemma advance_step y : rtc sample_hstep y (advance y).
Proof.
  unfold advance. destruct (ho_processes y !! 0) as [[t|worker [r|section]]|] eqn:Hp; [done..| |done].
  destruct (section (ho_service y)) as [w t] eqn:Hw. destruct y as [w0 ps]. cbn in *. by eapply rtc_once, host_work.
Qed.
Lemma advance_steps n y : rtc sample_hstep y (Nat.iter n advance y).
Proof. induction n as [|n IH]; [done|]. etrans; [exact IH|apply advance_step]. Qed.
Lemma sample_started : se_starts (ho_service (Nat.iter 20 advance (host_on admitted))) = ["execution"].
Proof. by vm_compute. Qed.

Lemma host_on_starts : host_starts sample_server (host_on admitted).
Proof.
  split; [|done]. destruct (reached_serves admitted "execution" accepted admitted_reached (proj1 sample_rows))
    as (S & G & HS & _). by exists S, G.
Qed.
Lemma adapter_started_once_witness :
  se_starts (ho_service (Nat.iter 20 advance (host_on admitted))) = ["execution"]
  ∧ NoDup (se_starts (ho_service (Nat.iter 20 advance (host_on admitted))))
  ∧ ∃ S G, serves (t_peers (rd_durable (se_store (ho_service (Nat.iter 20 advance (host_on admitted)))))) S G
    ∧ ∀ e, e ∈ se_starts (ho_service (Nat.iter 20 advance (host_on admitted))) → entered_in S e.
Proof.
  split; [exact sample_started|].
  apply (adapter_started_once (D := string) RedbStoreConfig_new sample_server (host_on admitted));
    [exact host_on_starts|apply advance_steps].
Defined.

(** The caller withdraws the request; then the worker runs. *)
Definition withdrawing : Redb () := next (request_peer_cancellation client client_cancellation 1500) admitted.
Definition host_withdrawn : SampleHost := mkHost (mkService withdrawing 0 tt []) (start_workers sample_server).
Lemma withdrawing_step : serving_step admitted withdrawing.
Proof. eapply next_step; [intros; by eapply (peer_cancel _ _ client client_cancellation 1500)|done]. Qed.
Lemma withdrawing_rows : record_of withdrawing "execution" = Some cancelled.
Proof. by vm_compute. Qed.
Lemma withdrawn_never_started_witness :
  "execution" ∉ se_starts (ho_service (Nat.iter 20 advance host_withdrawn)).
Proof.
  destruct (reached_serves withdrawing "execution" cancelled) as (S & G & HS & He);
    [eapply rtc_r; [exact admitted_reached|exact withdrawing_step]|exact withdrawing_rows|].
  apply (withdrawn_never_started (D := string) RedbStoreConfig_new sample_server (host_on admitted) host_withdrawn
    (Nat.iter 20 advance host_withdrawn) S G "execution" cancelled);
    [exact host_on_starts| |exact HS|exact He|by eexists|reflexivity|apply advance_steps].
  apply rtc_once. exact (host_store _ _ (mkService admitted 0 tt []) _ withdrawing withdrawing_step).
Defined.
